(* ===== verification/_CoqProject ===== *)
-Q . S2P
Prelude.v
Prog.v
Ipv4.v
Dns.v
Resolver.v
Types.v
Platform.v
Sim.v
FramePool.v
L2Tap.v
NetStack.v
RxPath.v
Delivery.v
Events.v
Init.v
NetSock.v
Device.v
Core.v
CoreSpec.v
CoreResolve.v
Loopback.v
FdTable.v
SockWrap.v
Listener.v
SelectWrap.v
Poll.v
Stream.v
NetdbWrap.v
NetifShim.v
Ntp.v
Ownership.v
OwnCalls.v
OwnStack.v
OwnRuns.v
OffTable.v
Ports.v
Closed.v
Example.v
Locks.v
Tasks.v
Typing.v
Races.v
Isolation.v
Steady.v
