(* ===== verification/Prelude.v ===== *)
(** * esp-smoltcp: a verification development of the C networking glue

    esp-smoltcp replaces lwIP on ESP32 chips by the Rust stack smoltcp. Its own
    code is C: it moves Ethernet frames between the driver and the Rust core,
    serialises every task's calls to the core, and puts a BSD socket layer on
    top by linking wrappers in place of lwIP's functions. This development
    models all of that C code and states what makes it correct.

    ** The program and the files

    - [Prelude] (this file): machine integers as [Z] with their wrap-around,
      bytes and buffers, list lemmas, hint databases and tactics.
    - [Prog]: a C function is a [prog], a tree of accesses to the static
      variables and calls to code outside; [run] executes it against an
      environment that answers the calls, [wp] is total correctness of [run]
      ([wp_run]), and [only], [typed] and [returns] speak of all the calls,
      stores and results of a program whatever it is answered.
    - [Types]: the structs, enums, Kconfig options and static variables of every
      C file, with an update function per field. An array is a list; a pointer
      into an array ([net_frame_t *], [fd_entry_t *]) is an index into it.
    - [Platform]: the calls the code makes outside itself, as inductive types:
      FreeRTOS, ESP-IDF and libc, and the C surface of the Rust core
      ([smoltcp_glue.h]). They have no definition: a [Platform] answers them.
      [QueueLaws] states the documented behaviour of FreeRTOS queues, and
      [History] gives access to the calls made so far and their answers.
    - [Sim]: a platform to run on, with real queues and an oracle for the rest;
      it satisfies the laws and is what the witnesses run on.
    - [Ipv4] ([esp_smoltcp_glue/src/lib.rs], the address helpers only): parsing,
      and the two byte orders in which an address crosses to the core.
    - [Dns], [Resolver] ([esp_smoltcp_glue/src/dns.rs]): the response parser, in a
      monad where an index out of range is an outcome, with the RFC 1035
      messages it is compared to; the query and the polling loop of
      [smoltcp_resolve]. For the C code the resolver is a call to the core, and
      [CoreResolve] answers that call by running it on an interface of [Core].
    - [FramePool], [L2Tap], [NetStack] ([esp_smoltcp.c]): the slab pool of frames
      and its free list, the EtherType taps, and the rest of the stack: receive
      and transmit callbacks, the poll task, link and address events, bring-up
      and attachment. [RxPath], [Delivery], [Events] and [Init] hold theorems
      about them.
    - [NetSock] ([esp_smoltcp_sock.c]): the native socket calls.
    - [Device] ([esp_smoltcp_glue/src/lib.rs], [EspDevice], [TxPool], [alloc_id]):
      the core's side of frame exchange, and its socket ids.
    - [Core], [CoreSpec] ([lib.rs], [IfaceCtx] and the [extern C] functions): what
      answers the calls of [Platform.core_call]. The smoltcp crate is the class
      [Smoltcp], its documented behaviour [SmoltcpLaws]; [CoreSpec] has the
      contract ([socket_spec], [view_spec], [panics]) and an implementation of
      the classes for the witnesses.
    - [Loopback], [FdTable], [SockWrap], [SelectWrap], [NetdbWrap], [NetifShim]
      ([esp_smoltcp_lwip_compat/src]): UDP on 127.0.0.0/8 within the process, the
      descriptor table, and the wrappers of the socket, select, resolver and
      esp_netif functions. [Listener] holds the theorems on [listen] and
      [accept], [Poll] that on [poll], [Stream] that on [recv].
    - [Ownership], [OwnCalls], [OwnStack], [OwnRuns], [Closed]: who owns the
      core's sockets. The class [CoreSockets] is what the C code assumes of the
      core (per interface, a finite map from ids to typed sockets); [own] says
      that the descriptor table holds each of them once. [Ownership] and
      [OwnStack] show which calls leave the sockets alone, [OwnCalls] follows
      those that open, hand over and close them, [OwnRuns] runs the program from
      boot as a sequence of [action]s, and [Closed] puts [Core] under the C code
      and discharges the class by [CoreSpec]'s contract. [Steady] shows on that
      platform what [select] and [poll] suppose of the core, and has their
      witnesses.
    - [OffTable], [Ports], [Isolation]: the descriptor table under the same runs.
      [OffTable] shows which calls store neither in it nor in the table of
      loopback ports, [Ports] that the two tables agree, and [Isolation] that a
      call changes only its own descriptor.
    - [Ntp] ([ntp.c], [ptp.c]) and [Example] ([examples/eth_basic/main/main.c]): the
      NTP client, the PTP stub and the example application.
    - [Locks], [Tasks], [Typing]: the concurrent reading. [Locks] checks of every function
      the order in which it takes and gives the three mutexes; [Tasks] runs any
      number of application tasks, the poll task, the driver callbacks and the
      NTP task under an interleaving semantics ([step]) on the shared state;
      [Typing] gives the static state a type that every store keeps.
      [schedule] of [Tasks] runs a given interleaving on a [Platform], and [Races]
      uses it on the platform of [Closed] to show two races between socket calls.

    Function names are the source's; the [__wrap_lwip_] prefix is [wrap_], and
    [__wrap_esp_] of the netif shim is dropped. A pointer argument is given as
    what it points to, an out-argument as part of the result. Loops the source
    does not bound take fuel and end in [Spin] without it; [run] is then [None],
    so every theorem of the form [run .. = Some ..] says that the fuel is
    enough. The fuel needed is stated: the length of the queue, the number of
    bytes, or a rank that bounds how often the clock is read before a deadline
    ([NetSock.clock_reaches], [Listener.minute_passes]); the loops of [Dns] have
    the length of the packet. The [for(;;)] loops of
    the two tasks take their number of turns and end in [Spin].

    ** What is shown

    - Concurrency ([Tasks]): the tasks are any application code over the public
      calls, the poll task, the driver's callbacks and the NTP task. A task
      inside the core holds the lock, and is there alone, unless it resolves a
      name: [smoltcp_resolve] is called without the lock, and an interleaving
      shows the race. The mutexes never deadlock: a task that sleeps, waits,
      resolves or calls the application holds none, and the three are taken in
      one order.
    - Frames ([Init], [Delivery], [Device]): a slab frame is at all times in the
      free list or one receive queue; a burst that fits arrives once, in order,
      byte for byte, at [smoltcp_iface_rx], behind which only its first frame
      survives; every branch of the receive callback with its counters; the
      transmit pool loses no buffer.
    - Types ([Typing]): in every state of every interleaving arrays have their
      sizes, counters their widths, frame buffers hold their frames, stored
      indices are in bounds and the name buffer is terminated.
    - Names ([Dns], [Resolver]): the parser agrees with RFC 1035 on the messages it
      supports and never panics on any bytes; a query reads back as the name
      asked for; the resolver returns by its deadline with the first answer.
    - Containers: the taps ([L2Tap]) and the loopback ports ([Loopback]) refine
      finite maps; the descriptor table ([FdTable]) hands out the lowest free
      descriptor and gives back exactly what a descriptor owns, loopback port,
      queue and messages included. What a failed [lo_bind] leaves is stated.
    - The core ([CoreSpec]): the C surface does to an interface what its contract
      says, ids being a finite map to sockets, and panics exactly when stated;
      an interface reports its last lease, or its static configuration for good.
    - Sockets ([NetSock], [SockWrap], [Listener]): sends and receives terminate
      and are exact, [recv] down to its timeout ([Stream]); a loopback datagram
      arrives whole with its sender and leaves nothing behind; [listen] arms its
      pool, [accept] scans it round robin and arms the slot it took from again;
      [select] ([SelectWrap]) and [poll] ([Poll]) look, return exactly what is
      ready, or sleep one tick and look again, up to the deadline. That looking
      changes no answer is proved of the core ([Steady]).
    - Ownership ([OwnRuns], [Closed]): from boot on, whatever is called, every
      core socket has one owner and is used as the type it has, so the core does
      not panic; only a repeated [connect] leaks. The witness runs the C and the
      Rust code together. This is of calls one after the other: two tasks in
      [accept] on one listener, or in [close] on one descriptor, break it
      ([Races]).
    - Descriptors ([Ports], [Isolation]): a loopback port belongs to the open
      descriptor that is bound to it, as long as no descriptor is given a second
      port (a counterexample shows what happens then); a descriptor is changed
      only by calls that are given it.
    - Events ([Events]): the application hears exactly the changes of the address
      state; a turn of the poll task waits once, at its end, until the soonest
      deadline the core gives.
    - Wrappers and time ([NetdbWrap], [Ntp]): [getaddrinfo] leaks nothing, the clock
      is set only from the first datagram of a round, if it is a whole packet, and
      is right until 2036.
    - Errors: what a failed initialisation or attachment leaves behind, socket
      ids beyond 24 bits, [inet_pton] against [inet_ntop], the readability of UDP
      descriptors, compressed owner names, the start-up of the example.

    ** What is not modelled

    Logging, except in the PTP stub and the example, which do little else; the
    smoltcp crate, which is not in the repository (a parameter of [Core]); the
    null tests of the core's functions on their buffers; [poll] of a negative
    descriptor, which the code puts into an [fd_set]; the core's allocator and
    panic handler; memory placement, caches and interrupts beyond the calls that
    differ for them. A blocking call of FreeRTOS is one step of [run] and lets other tasks run in
    [Tasks]. Reads of uninitialised or freed memory have no meaning here: the
    theorems speak of states the code's own initialisation reaches. *)

From stdpp Require Export base gmap list strings pretty.
From Stdlib Require Export ZArith Lia Ascii.

#[global] Open Scope Z_scope.

(** Declared scope of the notations of this development. *)
Declare Scope smoltcp_scope.
Delimit Scope smoltcp_scope with smoltcp.

(** ** Machine integers

    A [w]-bit unsigned integer is a [Z] in [0, 2^w); the casts below are the
    conversions the C code performs, with their wrap-around. *)

Definition wrap (w z : Z) : Z := z mod 2 ^ w.

Definition u8 (z : Z) : Z := wrap 8 z.

Definition u16 (z : Z) : Z := wrap 16 z.

Definition u32 (z : Z) : Z := wrap 32 z.

Definition u64 (z : Z) : Z := wrap 64 z.

(** Conversion to a signed [w]-bit integer (two's complement). *)
Definition swrap (w z : Z) : Z := (z + 2 ^ (w - 1)) mod 2 ^ w - 2 ^ (w - 1).

Definition i32 (z : Z) : Z := swrap 32 z.

Definition i64 (z : Z) : Z := swrap 64 z.

(** [htons] / [ntohs] on the little-endian RISC-V targets the code supports:
    the two bytes of a 16-bit value are exchanged. *)
Definition ntohs (p : Z) : Z :=
  Z.lor (Z.shiftl (Z.land p 255) 8) (Z.land (Z.shiftr p 8) 255).

Definition htons (p : Z) : Z := ntohs p.

(** [__builtin_bswap32]. *)
Definition bswap32 (v : Z) : Z :=
  Z.lor (Z.shiftl (Z.land v 255) 24)
  (Z.lor (Z.shiftl (Z.land (Z.shiftr v 8) 255) 16)
  (Z.lor (Z.shiftl (Z.land (Z.shiftr v 16) 255) 8)
         (Z.land (Z.shiftr v 24) 255))).

(** Bytes of memory to integers, both byte orders. *)
Fixpoint le_combine (bs : list Z) : Z :=
  match bs with
  | [] => 0
  | b :: bs => b + 256 * le_combine bs
  end.

Definition be_combine (bs : list Z) : Z := le_combine (rev bs).

Fixpoint le_split (n : nat) (z : Z) : list Z :=
  match n with
  | O => []
  | S n => z mod 256 :: le_split n (z / 256)
  end.

Definition byte_ok (b : Z) : Prop := 0 <= b < 256.

(** ** Pointers and handles

    Opaque handles and addresses are integers; [NULL] is 0. *)

Abbreviation ptr := Z (only parsing).

Definition NULL : ptr := 0.

Definition is_null (p : ptr) : bool := p =? NULL.

Lemma is_null_ne p : p <> NULL -> is_null p = false.
Proof. apply Z.eqb_neq. Qed.

(** Writing the first bytes of a fixed-size buffer ([memcpy(dst, src, n)]). *)
Definition memcpy (dst src : list Z) (n : nat) : list Z :=
  take n src ++ drop (length (take n src)) dst.

(** ** Lemmas on integers *)

Lemma wrap_range w z : 0 <= w -> 0 <= wrap w z < 2 ^ w.
Proof. intros. apply Z.mod_pos_bound. apply Z.pow_pos_nonneg; lia. Qed.

Lemma wrap_small w z : 0 <= z < 2 ^ w -> wrap w z = z.
Proof. intros. by apply Z.mod_small. Qed.

Lemma wrap_wrap w z : 0 <= w -> wrap w (wrap w z) = wrap w z.
Proof. intros. apply wrap_small, wrap_range. lia. Qed.

Lemma wrap_add_l w a b : wrap w (wrap w a + b) = wrap w (a + b).
Proof. apply Zplus_mod_idemp_l. Qed.

Lemma swrap_range w z : 0 < w -> - 2 ^ (w - 1) <= swrap w z < 2 ^ (w - 1).
Proof.
  intros. unfold swrap. replace (2 ^ w) with (2 * 2 ^ (w - 1)).
  - assert (0 < 2 ^ (w - 1)) by (apply Z.pow_pos_nonneg; lia).
    pose proof (Z.mod_pos_bound (z + 2 ^ (w - 1)) (2 * 2 ^ (w - 1))). lia.
  - rewrite <- Z.pow_succ_r by lia. f_equal. lia.
Qed.

Lemma u32_range z : 0 <= u32 z < 4294967296.
Proof. apply (wrap_range 32). lia. Qed.

Lemma u32_small z : 0 <= z < 4294967296 -> u32 z = z.
Proof. apply (wrap_small 32). Qed.

Lemma u64_small z : 0 <= z < 18446744073709551616 -> u64 z = z.
Proof. apply (wrap_small 64). Qed.

Lemma u16_range z : 0 <= u16 z < 65536.
Proof. apply (wrap_range 16). lia. Qed.

Lemma u16_small z : 0 <= z < 65536 -> u16 z = z.
Proof. apply (wrap_small 16). Qed.

Lemma i32_small z : - 2147483648 <= z < 2147483648 -> i32 z = z.
Proof.
  intros. unfold i32, swrap. change (2 ^ (32 - 1)) with 2147483648.
  change (2 ^ 32) with 4294967296. rewrite Z.mod_small; lia.
Qed.

Lemma i64_small z : - 9223372036854775808 <= z < 9223372036854775808 -> i64 z = z.
Proof.
  intros. unfold i64, swrap. change (2 ^ (64 - 1)) with 9223372036854775808.
  change (2 ^ 64) with 18446744073709551616. rewrite Z.mod_small; lia.
Qed.

Lemma land_255 z : Z.land z 255 = z mod 256.
Proof. change 255 with (Z.ones 8). by rewrite Z.land_ones. Qed.

(** The low bits of a sum of disjoint fields, in arithmetic form. *)
Lemma lor_shiftl_add a b n :
  0 <= n -> 0 <= b < 2 ^ n -> Z.lor (Z.shiftl a n) b = a * 2 ^ n + b.
Proof.
  intros Hn Hb. rewrite <- Z.shiftl_mul_pow2 by lia.
  rewrite <- Z.add_lor_land.
  cut (Z.land (Z.shiftl a n) b = 0); [lia|].
  apply Z.bits_inj'. intros i Hi. rewrite Z.land_spec, Z.bits_0.
  destruct (decide (i < n)).
  - by rewrite Z.shiftl_spec_low by lia.
  - rewrite andb_comm. cut (Z.testbit b i = false); [by intros ->|].
    destruct (decide (b = 0)) as [->|]; [by rewrite Z.bits_0|].
    apply Z.bits_above_log2; [lia|].
    assert (Z.log2 b < n) by (apply Z.log2_lt_pow2; lia). lia.
Qed.

Lemma ntohs_eq p : ntohs p = p mod 256 * 256 + p / 256 mod 256.
Proof.
  unfold ntohs. rewrite !land_255, Z.shiftr_div_pow2 by lia. change (2 ^ 8) with 256.
  rewrite lor_shiftl_add; [done|lia|]. change (2 ^ 8) with 256. apply Z.mod_pos_bound. lia.
Qed.

(** Swapping the two bytes of a 16-bit value twice gives it back. *)
Lemma ntohs_htons p : 0 <= p < 65536 -> ntohs (htons p) = p.
Proof.
  intros Hp. unfold htons. rewrite !ntohs_eq.
  pose proof (Z.mod_pos_bound p 256). pose proof (Z.div_mod p 256).
  assert (0 <= p / 256 < 256) by (split; [apply Z.div_pos|apply Z.div_lt_upper_bound]; lia).
  rewrite (Z.mod_small (p / 256)) by lia.
  rewrite Z.div_add_l, (Z.add_comm (p mod 256 * 256) (p / 256)), Z.mod_add by lia.
  rewrite (Z.div_small (p / 256)), Z.add_0_r by lia.
  rewrite (Z.mod_small (p / 256)), (Z.mod_small (p mod 256)) by lia. lia.
Qed.

Lemma ntohs_range p : 0 <= ntohs p < 65536.
Proof.
  rewrite ntohs_eq. pose proof (Z.mod_pos_bound p 256). pose proof (Z.mod_pos_bound (p / 256) 256). lia.
Qed.

(** ** Lemmas on bytes *)

Lemma le_combine_app bs1 bs2 :
  le_combine (bs1 ++ bs2)
  = le_combine bs1 + 256 ^ Z.of_nat (length bs1) * le_combine bs2.
Proof.
  induction bs1 as [|b bs1 IH]; cbn [le_combine app length].
  - rewrite Z.pow_0_r. lia.
  - rewrite IH, Nat2Z.inj_succ, Z.pow_succ_r by lia. lia.
Qed.

Lemma le_combine_range bs :
  Forall byte_ok bs -> 0 <= le_combine bs < 256 ^ Z.of_nat (length bs).
Proof.
  unfold byte_ok. induction 1 as [|b bs Hb _ IH]; cbn [le_combine length]; [done|].
  rewrite Nat2Z.inj_succ, Z.pow_succ_r by lia. lia.
Qed.

Lemma length_le_split n z : length (le_split n z) = n.
Proof. revert z. induction n; intros; cbn; auto. Qed.

Lemma le_split_combine bs :
  Forall byte_ok bs -> le_split (length bs) (le_combine bs) = bs.
Proof.
  unfold byte_ok. induction 1 as [|b bs Hb _ IH]; cbn [le_combine le_split length]; [done|].
  replace (b + 256 * le_combine bs) with (le_combine bs * 256 + b) by lia.
  rewrite Z.div_add_l, (Z.div_small b) by lia.
  rewrite (Z.add_comm _ b), Z.mod_add, Z.mod_small by lia.
  by rewrite Z.add_0_r, IH.
Qed.

Lemma le_combine_split n z :
  le_combine (le_split n z) = z mod 256 ^ Z.of_nat n.
Proof.
  revert z. induction n as [|n IH]; intros z; cbn [le_combine le_split].
  - by rewrite Z.pow_0_r, Z.mod_1_r.
  - rewrite IH, Nat2Z.inj_succ, Z.pow_succ_r by lia.
    rewrite Z.rem_mul_r by (try apply Z.pow_nonzero; lia). lia.
Qed.

Lemma le_split_bytes n z : Forall byte_ok (le_split n z).
Proof.
  revert z. induction n as [|n IH]; intros z; cbn; constructor; [|done].
  apply Z.mod_pos_bound. lia.
Qed.

(** A property of bytes that is decided by trying all of them. *)
Lemma byte_forall (f : Z -> bool) b :
  forallb (fun n => f (Z.of_nat n)) (seq 0 256) = true -> byte_ok b -> f b = true.
Proof.
  unfold byte_ok. rewrite forallb_forall. intros Hall Hb. specialize (Hall (Z.to_nat b)).
  rewrite in_seq, Z2Nat.id in Hall by lia. apply Hall. lia.
Qed.

(** ** Lemmas on lists and buffers *)

Lemma length_memcpy dst src n :
  (n <= length dst)%nat -> (n <= length src)%nat ->
  length (memcpy dst src n) = length dst.
Proof. intros. unfold memcpy. rewrite length_app, length_drop, length_take. lia. Qed.

Lemma take_memcpy dst src n :
  (n <= length src)%nat -> take n (memcpy dst src n) = take n src.
Proof.
  intros. unfold memcpy. rewrite take_app_le by (rewrite length_take; lia).
  rewrite take_take. f_equal. lia.
Qed.

(** [list_find] is the shape of the code's "first slot such that" loops. *)
Lemma list_find_first {A} (P : A -> Prop) `{!∀ x, Decision (P x)} l i x :
  list_find P l = Some (i, x) -> l !! i = Some x /\ P x.
Proof. intros (?&?&_)%list_find_Some. done. Qed.

Lemma list_find_lt {A} (P : A -> Prop) `{!∀ x, Decision (P x)} l i x :
  list_find P l = Some (i, x) -> (i < length l)%nat.
Proof. intros (?&_)%list_find_first. by eapply lookup_lt_Some. Qed.

Lemma lookup_total_alter {A} `{!Inhabited A} (f : A -> A) (l : list A) i :
  (i < length l)%nat -> alter f i l !!! i = f (l !!! i).
Proof.
  intros [x Hx]%lookup_lt_is_Some. rewrite list_lookup_total_alt, list_lookup_alter_eq, Hx.
  cbn. by rewrite (list_lookup_total_correct _ _ _ Hx).
Qed.

Lemma lookup_total_alter_ne {A} `{!Inhabited A} (f : A -> A) (l : list A) i j :
  i <> j -> alter f i l !!! j = l !!! j.
Proof.
  intros. by rewrite !list_lookup_total_alt, list_lookup_alter_ne.
Qed.

Lemma omap_app {A B} (f : A -> option B) (l1 l2 : list A) :
  omap f (l1 ++ l2) = omap f l1 ++ omap f l2.
Proof. induction l1 as [|x l1 IH]; [done|]. cbn in *. rewrite IH. by destruct (f x). Qed.

Lemma elem_of_concat {A} (x : A) (xs : list A) (xss : list (list A)) i :
  xss !! i = Some xs -> x ∈ xs -> x ∈ concat xss.
Proof.
  revert i. induction xss as [|ys xss IH]; intros [|i] Hi Hx; cbn in *; simplify_eq;
    apply elem_of_app; eauto.
Qed.

Lemma lookup_total_app_l {A} `{!Inhabited A} (l1 l2 : list A) i :
  (i < length l1)%nat -> (l1 ++ l2) !!! i = l1 !!! i.
Proof. intros. by rewrite !list_lookup_total_alt, lookup_app_l. Qed.

(** Updating a slot whose contents are known. *)
Lemma alter_as_insert {A} (f : A -> A) (l : list A) i x :
  l !! i = Some x -> alter f i l = <[i := f x]> l.
Proof.
  intros Hx. apply list_eq. intros j. destruct (decide (i = j)) as [<-|Hne].
  - rewrite list_lookup_alter_eq, Hx, list_lookup_insert_eq; [done|].
    by eapply lookup_lt_Some.
  - by rewrite list_lookup_alter_ne, list_lookup_insert_ne.
Qed.

Lemma alter_alter {A} (f h : A -> A) (l : list A) i :
  alter f i (alter h i l) = alter (fun x => f (h x)) i l.
Proof.
  apply list_eq. intros j. destruct (decide (i = j)) as [<-|Hne].
  - rewrite !list_lookup_alter_eq. by destruct (l !! i).
  - by rewrite !list_lookup_alter_ne.
Qed.

(** ** Hint database *)

Create HintDb smoltcp.

#[export] Hint Resolve wrap_range u32_range u16_range le_split_bytes : smoltcp.

Create Rewrite HintDb smoltcp.

Create Rewrite HintDb smoltcp_len.

#[export] Hint Rewrite u32_small u16_small u64_small i32_small using lia : smoltcp.

#[export] Hint Rewrite @length_alter @length_insert @length_app @length_take
  @length_drop @length_seq @length_fmap @length_replicate length_le_split : smoltcp_len.

(** ** Tactics *)

(** Turn the boolean comparisons of the code into arithmetic facts. *)
Ltac zify_bools :=
  repeat match goal with
  | H : (_ <? _) = true |- _ => apply Z.ltb_lt in H
  | H : (_ <? _) = false |- _ => apply Z.ltb_ge in H
  | H : (_ <=? _) = true |- _ => apply Z.leb_le in H
  | H : (_ <=? _) = false |- _ => apply Z.leb_gt in H
  | H : (_ =? _) = true |- _ => apply Z.eqb_eq in H
  | H : (_ =? _) = false |- _ => apply Z.eqb_neq in H
  | H : (_ <? _)%nat = true |- _ => apply Nat.ltb_lt in H
  | H : (_ <? _)%nat = false |- _ => apply Nat.ltb_ge in H
  | H : (_ <=? _)%nat = true |- _ => apply Nat.leb_le in H
  | H : (_ <=? _)%nat = false |- _ => apply Nat.leb_gt in H
  | H : (_ =? _)%nat = true |- _ => apply Nat.eqb_eq in H
  | H : (_ =? _)%nat = false |- _ => apply Nat.eqb_neq in H
  | H : (_ && _)%bool = true |- _ => apply andb_true_iff in H; destruct H
  | H : (_ || _)%bool = false |- _ => apply orb_false_iff in H; destruct H
  | H : negb _ = true |- _ => apply negb_true_iff in H
  | H : negb _ = false |- _ => apply negb_false_iff in H
  end.

(** Case analysis on the test of the [if] or [match] the goal is stuck on. *)
Ltac case_test :=
  match goal with
  | |- context [ if ?b then _ else _ ] =>
      lazymatch b with context [ if _ then _ else _ ] => fail | _ => destruct b eqn:? end
  end; zify_bools.
