(* ===== verification/Prog.v ===== *)
(** * The program monad

    A C function is a [prog]: a tree of accesses to the program's own static
    variables ([Get], [Put]) and of calls to code outside it ([Call]), whose
    responses the continuation consumes. [Spin] marks the exhaustion of the
    fuel of a loop the source does not bound. The same definition has two
    readings: [run] executes it against an environment that answers the calls
    one after the other, and [Locks] reads it as one task among several. *)

From S2P Require Import Prelude.

Inductive prog (S : Type) (C : Type -> Type) (A : Type) : Type :=
  | Ret (a : A)
  | Get (k : S -> prog S C A)
  | Put (s : S) (k : prog S C A)
  | Call {X : Type} (c : C X) (k : X -> prog S C A)
  | Spin.

Arguments Ret {S C A} a.
Arguments Get {S C A} k.
Arguments Put {S C A} s k.
Arguments Call {S C A X} c k.
Arguments Spin {S C A}.

Section monad.
Context {S : Type} {C : Type -> Type}.

Fixpoint bind {A B} (p : prog S C A) (f : A -> prog S C B) : prog S C B :=
  match p with
  | Ret a => f a
  | Get k => Get (fun s => bind (k s) f)
  | Put s k => Put s (bind k f)
  | Call c k => Call c (fun r => bind (k r) f)
  | Spin => Spin
  end.

#[global] Instance prog_mret : MRet (prog S C) := fun A a => Ret a.
#[global] Instance prog_mbind : MBind (prog S C) := fun A B f p => bind p f.
#[global] Instance prog_fmap : FMap (prog S C) :=
  fun A B f p => bind p (fun a => Ret (f a)).

(** Reading one component of the state, and updating the state. *)
Definition gets {A} (f : S -> A) : prog S C A := Get (fun s => Ret (f s)).

Definition modify (f : S -> S) : prog S C unit := Get (fun s => Put (f s) (Ret tt)).

Definition call {X} (c : C X) : prog S C X := Call c Ret.

(** [if (b) { p }]. *)
Definition when (b : bool) (p : prog S C unit) : prog S C unit :=
  if b then p else Ret tt.

(** [for (x in xs) { body(x) }]. *)
Fixpoint for_each {X} (xs : list X) (body : X -> prog S C unit) : prog S C unit :=
  match xs with
  | [] => Ret tt
  | x :: xs => body x ≫= fun _ => for_each xs body
  end.
End monad.

Section semantics.
Context {S : Type} {C : Type -> Type} {E : Type}.
(** The environment: how each outside call is answered, and what becomes of
    the outside world. *)
Variable ext : forall X, C X -> E -> X * E.

Fixpoint run {A} (p : prog S C A) (s : S) (e : E) : option (A * S * E) :=
  match p with
  | Ret a => Some (a, s, e)
  | Get k => run (k s) s e
  | Put s' k => run k s' e
  | Call c k => run (k (ext _ c e).1) s (ext _ c e).2
  | Spin => None
  end.

(** Total correctness: [p] terminates from [(s, e)] in a result, state and
    environment that satisfy [Q]. *)
Fixpoint wp {A} (p : prog S C A) (s : S) (e : E) (Q : A -> S -> E -> Prop) : Prop :=
  match p with
  | Ret a => Q a s e
  | Get k => wp (k s) s e Q
  | Put s' k => wp k s' e Q
  | Call c k => wp (k (ext _ c e).1) s (ext _ c e).2 Q
  | Spin => False
  end.

(** [wp] says what [run] returns. *)
Lemma wp_run {A} (p : prog S C A) s e Q :
  wp p s e Q <-> exists a s' e', run p s e = Some (a, s', e') /\ Q a s' e'.
Proof.
  revert s e. induction p as [a|k IH|s0 k IH|X c k IH|]; intros s e; cbn; [|by auto..|].
  - split; [eauto 10|]. intros (?&?&?&?&?). by simplify_eq.
  - split; [done|]. by intros (?&?&?&?&?).
Qed.

(** The state and environment a run ends in, and whether it ends. *)
Definition exec {A} (p : prog S C A) (se : S * E) : S * E :=
  match run p se.1 se.2 with Some (_, s, e) => (s, e) | None => se end.

Definition ends {A} (p : prog S C A) (se : S * E) : bool :=
  match run p se.1 se.2 with Some _ => true | None => false end.

Lemma run_exec {A} (p : prog S C A) se :
  ends p se = true ->
  exists a, run p se.1 se.2 = Some (a, (exec p se).1, (exec p se).2).
Proof.
  unfold ends, exec. destruct (run p se.1 se.2) as [[[a s] e]|]; [|done]. eauto.
Qed.

Lemma wp_elim {A} (p : prog S C A) s e Q a s' e' :
  wp p s e Q -> run p s e = Some (a, s', e') -> Q a s' e'.
Proof. intros (?&?&?&Hr&?)%wp_run Hr'. by simplify_eq. Qed.

(** The converse: a run as a [wp]. *)
Lemma wp_of_run {A} (p : prog S C A) s e o :
  run p s e = Some o -> wp p s e (fun a s' e' => (a, s', e') = o).
Proof. intros H. apply wp_run. destruct o as [[a s'] e']. eauto 10. Qed.

Lemma wp_mono {A} (p : prog S C A) s e (Q1 Q2 : A -> S -> E -> Prop) :
  wp p s e Q1 -> (forall a s' e', Q1 a s' e' -> Q2 a s' e') -> wp p s e Q2.
Proof.
  intros H HQ. revert s e H. induction p; cbn; eauto.
Qed.

Lemma wp_bind {A B} (p : prog S C A) (f : A -> prog S C B) s e Q :
  wp (p ≫= f) s e Q <-> wp p s e (fun a s' e' => wp (f a) s' e' Q).
Proof.
  unfold mbind, prog_mbind. revert s e. induction p; intros; cbn; auto.
Qed.

Lemma wp_conj {A} (p : prog S C A) s e (Q1 Q2 : A -> S -> E -> Prop) :
  wp p s e Q1 -> wp p s e Q2 -> wp p s e (fun a s' e' => Q1 a s' e' /\ Q2 a s' e').
Proof. revert s e. induction p; cbn; auto. Qed.

(** Rules for the state accesses and calls followed by a continuation. *)
Lemma wp_gets {A B} (g : S -> A) (f : A -> prog S C B) s e Q :
  wp (gets g ≫= f) s e Q <-> wp (f (g s)) s e Q.
Proof. done. Qed.

Lemma wp_ret_bind {A B} (a : A) (f : A -> prog S C B) s e Q :
  wp (Ret a ≫= f) s e Q <-> wp (f a) s e Q.
Proof. done. Qed.

Lemma wp_modify {B} (g : S -> S) (f : unit -> prog S C B) s e Q :
  wp (modify g ≫= f) s e Q <-> wp (f tt) (g s) e Q.
Proof. done. Qed.

Lemma wp_call {X B} (c : C X) (f : X -> prog S C B) s e Q :
  wp (call c ≫= f) s e Q <-> wp (f (ext _ c e).1) s (ext _ c e).2 Q.
Proof. done. Qed.

(** A loop preserves an invariant that each turn preserves. *)
Lemma wp_for_each {X} (xs : list X) (body : X -> prog S C unit)
    (I : list X -> S -> E -> Prop) s e :
  I [] s e ->
  (forall seen x s e, (exists rest, xs = seen ++ x :: rest) -> I seen s e ->
     wp (body x) s e (fun _ s' e' => I (seen ++ [x]) s' e')) ->
  wp (for_each xs body) s e (fun _ s' e' => I xs s' e').
Proof.
  intros H0 Hstep.
  cut (forall rest seen s e, xs = seen ++ rest -> I seen s e ->
         wp (for_each rest body) s e (fun _ s' e' => I xs s' e')).
  { intros Hgen. apply (Hgen xs []); auto. }
  clear s e H0. induction rest as [|x rest IH]; intros seen s e -> HI; cbn [for_each].
  - by rewrite app_nil_r.
  - rewrite wp_bind. eapply wp_mono; [apply Hstep; eauto|].
    intros [] s' e' HI'. apply (IH (seen ++ [x])); [|done]. by rewrite <- app_assoc.
Qed.
End semantics.

(** ** The calls a program makes

    [only ok p]: whatever the state and the answers, [p] makes only calls that
    satisfy [ok]. *)

Section only.
Context {S : Type} {C : Type -> Type}.
Implicit Types (ok : forall X, C X -> Prop).

Fixpoint only ok {A} (p : prog S C A) : Prop :=
  match p with
  | Ret _ | Spin => True
  | Get k => forall s, only ok (k s)
  | Put _ k => only ok k
  | Call c k => ok _ c /\ forall r, only ok (k r)
  end.

Lemma only_ret ok {A} (a : A) : only ok (mret a : prog S C A).
Proof. done. Qed.

Lemma only_bind ok {A B} (p : prog S C A) (f : A -> prog S C B) :
  only ok p -> (forall a, only ok (f a)) -> only ok (p ≫= f).
Proof.
  unfold mbind, prog_mbind. intros Hp Hf. revert Hp. induction p; cbn; try naive_solver.
Qed.

Lemma only_gets ok {A} (f : S -> A) : only ok (gets f : prog S C A).
Proof. done. Qed.

Lemma only_modify ok f : only ok (modify f : prog S C unit).
Proof. done. Qed.

Lemma only_call ok {X} (c : C X) : ok X c -> only ok (call c : prog S C X).
Proof. done. Qed.

Lemma only_for_each ok {X} (xs : list X) (body : X -> prog S C unit) :
  (forall x, only ok (body x)) -> only ok (for_each xs body).
Proof.
  intros Hb. induction xs; cbn [for_each]; [done|]. by apply only_bind.
Qed.

(** What such calls preserve of the environment, the program preserves. *)
Lemma wp_only {E} (ext : forall X, C X -> E -> X * E) ok (I : E -> Prop) {A}
    (p : prog S C A) s e Q :
  only ok p -> (forall X (c : C X) e, ok X c -> I e -> I (ext X c e).2) -> I e ->
  wp ext p s e Q -> wp ext p s e (fun a s' e' => Q a s' e' /\ I e').
Proof.
  intros Hp Hok. revert s e Hp. induction p; cbn; naive_solver.
Qed.

Lemma only_true {A} (p : prog S C A) : only (fun _ _ => True) p.
Proof. induction p; cbn; auto. Qed.

(** A measure that no call raises is not raised by a program. *)
Lemma wp_rank {E} (ext : forall X, C X -> E -> X * E) (rank : E -> nat) {A}
    (p : prog S C A) s e Q :
  (forall X (c : C X) e, (rank (ext X c e).2 <= rank e)%nat) -> wp ext p s e Q ->
  wp ext p s e (fun a s' e' => Q a s' e' /\ (rank e' <= rank e)%nat).
Proof.
  intros Hr. apply (wp_only ext (fun _ _ => True)); [apply only_true| |done].
  intros X c e' _ Hle. specialize (Hr X c e'). lia.
Qed.
End only.

Create HintDb only.

#[export] Hint Extern 1 (only _ (mret _)) => apply only_ret : only.
#[export] Hint Extern 1 (only _ (Ret _)) => exact I : only.
#[export] Hint Extern 1 (only _ Spin) => exact I : only.
#[export] Hint Extern 1 (only _ (gets _)) => apply only_gets : only.
#[export] Hint Extern 1 (only _ (modify _)) => apply only_modify : only.
#[export] Hint Extern 1 (only _ (_ ≫= _)) => apply only_bind; [|intros ?] : only.
#[export] Hint Extern 1 (only _ (for_each _ _)) => apply only_for_each; intros ? : only.
#[export] Hint Extern 1 (only _ (when ?b _)) => unfold when : only.
#[export] Hint Extern 2 (only _ (match ?x with _ => _ end)) => destruct x : only.

#[export] Hint Extern 3 =>
  lazymatch goal with |- only _ _ => fail | |- _ => cbn; done end : only.

Ltac only_auto := auto 200 with only nocore.

(** ** Typing of stores and results

    [typed P Q p]: every store of [p] leaves the state in [P], when the states
    it reads are in [P], and its result is in [Q]. Nothing is assumed of the
    state between two accesses, nor of the answers to calls, so such an invariant
    also survives interleaving. *)

Section typed.
Context {S : Type} {C : Type -> Type}.
Implicit Types (P : S -> Prop).

Fixpoint typed P {A} (Q : A -> Prop) (p : prog S C A) : Prop :=
  match p with
  | Ret a => Q a
  | Spin => True
  | Get k => forall s, P s -> typed P Q (k s)
  | Put s k => P s /\ typed P Q k
  | Call c k => forall r, typed P Q (k r)
  end.

(** Nothing said of the result. *)
Definition preserves P {A} (p : prog S C A) : Prop := typed P (fun _ => True) p.

Lemma typed_ret P {A} (Q : A -> Prop) a : Q a -> typed P Q (mret a : prog S C A).
Proof. done. Qed.

Lemma typed_bind P {A B} (R : A -> Prop) (Q : B -> Prop) (p : prog S C A) (f : A -> prog S C B) :
  typed P R p -> (forall a, R a -> typed P Q (f a)) -> typed P Q (p ≫= f).
Proof.
  unfold mbind, prog_mbind. intros Hp Hf. revert Hp. induction p; cbn; try naive_solver.
Qed.

Lemma typed_after P {A B} (Q : B -> Prop) (p : prog S C A) (f : A -> prog S C B) :
  preserves P p -> (forall a, typed P Q (f a)) -> typed P Q (p ≫= f).
Proof. intros Hp Hf. apply (typed_bind P (fun _ => True)); auto. Qed.

(** What is read from a state in [P]. *)
Lemma typed_gets P {A B} (Q : B -> Prop) (g : S -> A) (f : A -> prog S C B) :
  (forall s, P s -> typed P Q (f (g s))) -> typed P Q (gets g ≫= f).
Proof. done. Qed.

Lemma preserves_gets P {A} (f : S -> A) : preserves P (gets f : prog S C A).
Proof. done. Qed.

Lemma preserves_modify P f :
  (forall s, P s -> P (f s)) -> preserves P (modify f : prog S C unit).
Proof. intros Hf s Hs. split; [auto|exact I]. Qed.

Lemma preserves_call P {X} (c : C X) : preserves P (call c : prog S C X).
Proof. done. Qed.

Lemma preserves_for_each P {X} (xs : list X) (body : X -> prog S C unit) :
  (forall x, x ∈ xs -> preserves P (body x)) -> preserves P (for_each xs body).
Proof.
  intros Hb. induction xs as [|x xs IH]; cbn [for_each]; [done|].
  apply typed_after; [apply Hb; by left|]. intros _. apply IH. intros y Hy. apply Hb. by right.
Qed.

Lemma typed_weaken P {A} (Q : A -> Prop) (p : prog S C A) : typed P Q p -> preserves P p.
Proof. unfold preserves. induction p; cbn; naive_solver. Qed.

Lemma typed_run {E} (ext : forall X, C X -> E -> X * E) P {A} (Q : A -> Prop) (p : prog S C A)
    s e a s' e' :
  typed P Q p -> P s -> run ext p s e = Some (a, s', e') -> P s' /\ Q a.
Proof.
  revert s e. induction p; cbn; intros s1 e1 Hp Hs Hr; simplify_eq; eauto.
  - destruct Hp. eauto.
Qed.
End typed.

(** One step of a proof of [typed]: the first applicable rule; a function that
    has a lemma in the database [typed] is closed by it. *)
Create HintDb typed.

Ltac typed_step :=
  lazymatch goal with
  | |- forall _, _ => intros ?
  | |- preserves _ (gets _) => apply preserves_gets
  | |- preserves _ (call _) => apply preserves_call
  | |- preserves _ (modify _) => apply preserves_modify; intros ? ?; try first [done | solve [eauto 4 with typed]]
  | |- preserves _ (for_each _ _) => apply preserves_for_each; intros ? ?
  | |- preserves _ (when _ _) => unfold when
  | |- preserves ?P (match ?x with _ => _ end) => destruct x eqn:?
  | |- preserves _ Spin => exact I
  | |- preserves ?P (mret _) => exact I
  | |- preserves ?P (Ret _) => exact I
  | |- preserves ?P (_ ≫= _) => unfold preserves
  | |- typed _ _ Spin => exact I
  | |- typed _ _ (mret _) => apply typed_ret; try first [exact I | solve [eauto 4 with typed]]
  | |- typed _ _ (Ret _) => apply typed_ret; try first [exact I | solve [eauto 4 with typed]]
  | |- typed _ _ (gets _ ≫= _) => apply typed_gets; intros ? ?
  | |- typed _ _ (_ ≫= _) =>
      first [ eapply typed_bind; [solve [eauto 3 with typed]|intros ? ?]
            | apply typed_after; [|intros ?] ]
  | |- typed _ _ (match ?x with _ => _ end) => destruct x eqn:?
  | |- typed ?P (fun _ => True) ?p => first [solve [eauto 3 with typed] | change (preserves P p)]
  | |- _ => solve [eauto 3 with typed]
  end.

Ltac typed_auto := repeat (typed_step; cbn beta).

(** ** Invariants of state and environment

    [keeps ext I Q p]: [p], run from a state and environment in [I], ends in [I]
    with a result in [Q], if it ends. Unlike [typed] it follows the environment,
    so the rules for calls have their laws at hand. *)

Section keeps.
Context {S : Type} {C : Type -> Type} {E : Type}.
Variable ext : forall X, C X -> E -> X * E.
Implicit Types (I : S -> E -> Prop).

(** Partial correctness. *)
Definition wlp {A} (p : prog S C A) s e (Q : A -> S -> E -> Prop) : Prop :=
  forall a s' e', run ext p s e = Some (a, s', e') -> Q a s' e'.

Definition keeps I {A} (Q : A -> Prop) (p : prog S C A) : Prop :=
  forall s e, I s e -> wlp p s e (fun a s' e' => I s' e' /\ Q a).

Lemma run_bind {A B} (p : prog S C A) (f : A -> prog S C B) s e :
  run ext (p ≫= f) s e =
  match run ext p s e with Some (a, s', e') => run ext (f a) s' e' | None => None end.
Proof. unfold mbind, prog_mbind. revert s e. by induction p; intros; cbn. Qed.

Lemma wlp_bind {A B} (p : prog S C A) (f : A -> prog S C B) s e Q :
  wlp p s e (fun a s' e' => wlp (f a) s' e' Q) -> wlp (p ≫= f) s e Q.
Proof.
  unfold wlp. intros H b s2 e2. rewrite run_bind.
  destruct (run ext p s e) as [[[a s1] e1]|] eqn:Hp; [|done]. by apply H.
Qed.

Lemma wlp_mono {A} (p : prog S C A) s e (Q1 Q2 : A -> S -> E -> Prop) :
  wlp p s e Q1 -> (forall a s' e', Q1 a s' e' -> Q2 a s' e') -> wlp p s e Q2.
Proof. unfold wlp. eauto. Qed.

Lemma wlp_wp {A} (p : prog S C A) s e Q : wp ext p s e Q -> wlp p s e Q.
Proof. intros H a s' e' Hr. by eapply wp_elim. Qed.

Lemma wlp_ret {A} (a : A) s e (Q : A -> S -> E -> Prop) : Q a s e -> wlp (mret a) s e Q.
Proof. intros H a' s' e' Hr. cbn in Hr. by simplify_eq. Qed.

Lemma wlp_gets {A B} (h : S -> A) (f : A -> prog S C B) s e Q :
  wlp (f (h s)) s e Q -> wlp (gets h ≫= f) s e Q.
Proof. done. Qed.

Lemma wlp_modify {B} (h : S -> S) (f : unit -> prog S C B) s e Q :
  wlp (f tt) (h s) e Q -> wlp (modify h ≫= f) s e Q.
Proof. done. Qed.

Lemma wlp_call {X B} (c : C X) (f : X -> prog S C B) s e Q :
  wlp (f (ext _ c e).1) s (ext _ c e).2 Q -> wlp (call c ≫= f) s e Q.
Proof. done. Qed.

(** A program that keeps [I], in the middle of another. *)
Lemma wlp_keeps I {A B} (R : A -> Prop) (p : prog S C A) (f : A -> prog S C B) s e Q :
  keeps I R p -> I s e -> (forall a s' e', I s' e' -> R a -> wlp (f a) s' e' Q) ->
  wlp (p ≫= f) s e Q.
Proof. intros Hp HI Hf. apply wlp_bind. eapply wlp_mono; [by apply Hp|]. intros a s' e' []. auto. Qed.

Lemma keeps_ret I {A} (Q : A -> Prop) a : Q a -> keeps I Q (mret a).
Proof. intros Ha s e HI. by apply wlp_ret. Qed.

Lemma keeps_spin I {A} (Q : A -> Prop) : keeps I Q Spin.
Proof. by intros s e _ a s' e' Hr. Qed.

Lemma keeps_bind I {A B} (R : A -> Prop) (Q : B -> Prop) (p : prog S C A) (f : A -> prog S C B) :
  keeps I R p -> (forall a, R a -> keeps I Q (f a)) -> keeps I Q (p ≫= f).
Proof. intros Hp Hf s e HI. eapply wlp_keeps; [exact Hp|done|]. intros a s' e' HI' Ha. by apply Hf. Qed.

Lemma keeps_after I {A B} (Q : B -> Prop) (p : prog S C A) (f : A -> prog S C B) :
  keeps I (fun _ => True) p -> (forall a, keeps I Q (f a)) -> keeps I Q (p ≫= f).
Proof. intros Hp Hf. apply (keeps_bind I (fun _ => True)); auto. Qed.

Lemma keeps_gets I {A B} (Q : B -> Prop) (h : S -> A) (f : A -> prog S C B) :
  (forall s e, I s e -> keeps I Q (f (h s))) -> keeps I Q (gets h ≫= f).
Proof. intros Hf s e HI. apply wlp_gets. by eapply Hf. Qed.

Lemma keeps_gets_last I {A} (h : S -> A) : keeps I (fun _ => True) (gets h).
Proof. intros s e HI a s' e' Hr. cbn in Hr. by simplify_eq. Qed.

Lemma keeps_modify I (h : S -> S) :
  (forall s e, I s e -> I (h s) e) -> keeps I (fun _ => True) (modify h).
Proof. intros Hh s e HI a s' e' Hr. cbn in Hr. simplify_eq. auto. Qed.

Lemma keeps_call I {X} (c : C X) :
  (forall s e, I s e -> I s (ext _ c e).2) -> keeps I (fun _ => True) (call c).
Proof. intros Hc s e HI a s' e' Hr. cbn in Hr. simplify_eq. auto. Qed.

Lemma keeps_for_each I {X} (xs : list X) (body : X -> prog S C unit) :
  (forall x, x ∈ xs -> keeps I (fun _ => True) (body x)) -> keeps I (fun _ => True) (for_each xs body).
Proof.
  intros Hb. induction xs as [|x xs IH]; cbn [for_each]; [by apply keeps_ret|].
  apply keeps_after; [apply Hb; by left|]. intros _. apply IH. intros y Hy. apply Hb. by right.
Qed.

Lemma keeps_weaken I {A} (Q : A -> Prop) (p : prog S C A) : keeps I Q p -> keeps I (fun _ => True) p.
Proof. intros Hp s e HI. eapply wlp_mono; [by apply Hp|]. by intros ? ? ? []. Qed.
End keeps.

Create HintDb keeps.

(** ** The results a program can return *)

Section returns.
Context {S : Type} {C : Type -> Type}.

(** Every result of [p], whatever it reads and is answered, is in [P]. *)
Fixpoint returns {A} (P : A -> Prop) (p : prog S C A) : Prop :=
  match p with
  | Ret a => P a
  | Get k => forall s, returns P (k s)
  | Put _ k => returns P k
  | Call _ k => forall r, returns P (k r)
  | Spin => True
  end.

Lemma returns_bind {A B} (P : B -> Prop) (p : prog S C A) (f : A -> prog S C B) :
  (forall a, returns P (f a)) -> returns P (p ≫= f).
Proof. unfold mbind, prog_mbind. intros Hf. induction p; cbn; auto. Qed.

Lemma returns_run {E} (ext : forall X, C X -> E -> X * E) {A} P (p : prog S C A) s e a s' e' :
  returns P p -> run ext p s e = Some (a, s', e') -> P a.
Proof.
  revert s e. induction p; cbn; intros s1 e1 Hp Hr; simplify_eq; eauto.
Qed.
End returns.

Create HintDb returns.

#[export] Hint Extern 1 (returns _ (mret _)) => cbn : returns.
#[export] Hint Extern 1 (returns _ (Ret _)) => cbn : returns.
#[export] Hint Extern 1 (returns _ Spin) => exact I : returns.
#[export] Hint Extern 1 (returns _ (_ ≫= _)) => apply returns_bind; intros ? : returns.
#[export] Hint Extern 2 (returns _ (match ?x with _ => _ end)) => destruct x : returns.
#[export] Hint Extern 3 =>
  lazymatch goal with |- returns _ _ => fail | |- _ => done end : returns.

Ltac returns_auto := auto 200 with returns nocore.

(** ** Automation *)

(** Use a specification [L] of the program at the head of the goal. *)
Tactic Notation "wp_use" uconstr(L) := eapply wp_mono; [ eapply L | cbn beta ].
