(* ===== verification/Ipv4.v ===== *)
(** * IPv4 addresses at the boundary of the Rust core

    [smoltcp_parse_ipv4], [ipv4_from_be], [ipv4_to_be] and [cidr_to_mask] of
    [components/esp_smoltcp_glue/src/lib.rs]. An address crosses the boundary
    as a [u32]; the helpers differ in the byte order they give it. *)

From S2P Require Import Prelude.

(** Rust's [str::split('.')]: at least one part, empty parts kept. *)
Fixpoint split_dot (s : string) : list string :=
  match s with
  | EmptyString => [EmptyString]
  | String c s' =>
      if Ascii.eqb c "."%char then EmptyString :: split_dot s'
      else match split_dot s' with
           | p :: ps => String c p :: ps
           | [] => [String c EmptyString]
           end
  end.

Definition digit_of (c : ascii) : option Z :=
  let n := Z.of_N (N_of_ascii c) in
  if (48 <=? n) && (n <=? 57) then Some (n - 48) else None.

(** The digit loop of [u8::from_str]: every character a digit, no overflow. *)
Fixpoint parse_digits (s : string) (acc : Z) : option Z :=
  match s with
  | EmptyString => Some acc
  | String c s' =>
      match digit_of c with
      | Some d => if 10 * acc + d <=? 255 then parse_digits s' (10 * acc + d) else None
      | None => None
      end
  end.

(** Rust's [str::parse::<u8>]: the empty string is an error, a leading [+] is
    accepted when digits follow. *)
Definition parse_u8 (s : string) : option Z :=
  match s with
  | EmptyString => None
  | String c s' =>
      if Ascii.eqb c "+"%char then
        match s' with EmptyString => None | _ => parse_digits s' 0 end
      else parse_digits s 0
  end.

(** The loop of [smoltcp_parse_ipv4] over the parts; [octets] are the [i]
    octets stored so far. *)
Fixpoint parse_parts (parts : list string) (octets : list Z) : option (list Z) :=
  match parts with
  | [] => if (length octets =? 4)%nat then Some octets else None
  | part :: parts =>
      if (4 <=? length octets)%nat then None
      else match parse_u8 part with
           | Some v => parse_parts parts (octets ++ [v])
           | None => None
           end
  end.

(** [smoltcp_parse_ipv4]: the value written to [*out_be], or [None] for -1. *)
Definition smoltcp_parse_ipv4 (s : string) : option Z :=
  be_combine <$> parse_parts (split_dot s) [].

(** The octets of the address the core uses for a [u32] it is given, and the
    [u32] it reports for an address. *)
Definition ipv4_from_be (be : Z) : list Z := le_split 4 be.

Definition ipv4_to_be (octets : list Z) : Z := le_combine octets.

Definition cidr_to_mask (prefix : Z) : Z :=
  if prefix =? 0 then 0 else u32 (Z.shiftl (Z.ones 32) (32 - prefix)).

(** [u32::to_be] on a little-endian target. *)
Definition to_be32 (v : Z) : Z := bswap32 v.

(** Octets in dotted-quad notation. *)
Definition dotted_quad (octets : list Z) : string :=
  String.concat "." ((fun b => pretty (Z.to_N b)) <$> octets).

(** ** Lemmas *)

Fixpoint no_dot (s : string) : bool :=
  match s with
  | EmptyString => true
  | String c s' => negb (Ascii.eqb c "."%char) && no_dot s'
  end.

Lemma split_dot_no_dot s : no_dot s = true -> split_dot s = [s].
Proof.
  induction s as [|c s IH]; cbn; [done|].
  intros [Hc Hs]%andb_true_iff. apply negb_true_iff in Hc. by rewrite Hc, IH.
Qed.

Lemma split_dot_app s t :
  no_dot s = true -> split_dot (s +:+ String "."%char t) = s :: split_dot t.
Proof.
  induction s as [|c s IH]; [done|]. cbn [no_dot].
  intros [Hc Hs]%andb_true_iff. apply negb_true_iff in Hc.
  change (String c s +:+ String "."%char t) with (String c (s +:+ String "."%char t)).
  cbn [split_dot]. by rewrite Hc, IH.
Qed.

(** The decimal notation of a byte holds no dot and parses back to it. *)
Lemma byte_decimal b :
  byte_ok b ->
  no_dot (pretty (Z.to_N b)) = true /\ parse_u8 (pretty (Z.to_N b)) = Some b /\
  (1 <= String.length (pretty (Z.to_N b)) <= 3)%nat.
Proof.
  intros Hb.
  set (good b := no_dot (pretty (Z.to_N b)) &&
         bool_decide (parse_u8 (pretty (Z.to_N b)) = Some b) &&
         (1 <=? String.length (pretty (Z.to_N b)))%nat &&
         (String.length (pretty (Z.to_N b)) <=? 3)%nat).
  assert (Hg : good b = true) by by apply byte_forall.
  unfold good in Hg. zify_bools. split_and!; try done.
  by eapply bool_decide_eq_true_1.
Qed.

Lemma split_dotted_quad a b c d :
  byte_ok a -> byte_ok b -> byte_ok c -> byte_ok d ->
  split_dot (dotted_quad [a; b; c; d]) = (fun b => pretty (Z.to_N b)) <$> [a; b; c; d].
Proof.
  intros (Ha&_)%byte_decimal (Hb&_)%byte_decimal (Hc&_)%byte_decimal (Hd&_)%byte_decimal.
  unfold dotted_quad. cbn [fmap list_fmap String.concat].
  repeat change ("."%string +:+ ?x) with (String "."%char x).
  by rewrite !split_dot_app, split_dot_no_dot.
Qed.

(** A dotted quad parses to its octets, first octet most significant. *)
Lemma parse_dotted_quad a b c d :
  byte_ok a -> byte_ok b -> byte_ok c -> byte_ok d ->
  smoltcp_parse_ipv4 (dotted_quad [a; b; c; d]) = Some (be_combine [a; b; c; d]).
Proof.
  intros Ha Hb Hc Hd. unfold smoltcp_parse_ipv4. rewrite split_dotted_quad by done.
  destruct (byte_decimal a Ha) as (_&Pa&_), (byte_decimal b Hb) as (_&Pb&_),
    (byte_decimal c Hc) as (_&Pc&_), (byte_decimal d Hd) as (_&Pd&_).
  cbn [fmap list_fmap parse_parts length Nat.leb Nat.eqb app]. by rewrite Pa, Pb, Pc, Pd.
Qed.

(** Every successful parse gives four octets. *)
Lemma parse_parts_octets parts octets r :
  Forall byte_ok octets -> parse_parts parts octets = Some r ->
  length r = 4%nat /\ Forall byte_ok r.
Proof.
  assert (Hdig : forall s acc v, 0 <= acc <= 255 -> parse_digits s acc = Some v -> byte_ok v).
  { induction s as [|c s IH]; intros acc v Hacc; cbn; [intros; simplify_eq; unfold byte_ok; lia|].
    unfold digit_of. repeat case_test; try done. intros Hp. eapply IH; [|exact Hp]. lia. }
  assert (Hu8 : forall s v, parse_u8 s = Some v -> byte_ok v).
  { intros [|c [|c' s]] v; cbn [parse_u8]; try done; case_test; try done;
      intros Hp; (eapply Hdig; [|exact Hp]; lia). }
  revert octets. induction parts as [|p ps IH]; intros octets Ho; cbn [parse_parts].
  - case_test; intros; simplify_eq. auto.
  - case_test; [done|]. destruct (parse_u8 p) as [v|] eqn:Hv; [|done].
    intros Hp. eapply IH; [|exact Hp]. apply Forall_app. split; [done|].
    constructor; [by eapply Hu8|constructor].
Qed.

Lemma ipv4_from_to_be octets :
  length octets = 4%nat -> Forall byte_ok octets -> ipv4_from_be (ipv4_to_be octets) = octets.
Proof. intros Hl Ho. unfold ipv4_from_be, ipv4_to_be. rewrite <- Hl. by apply le_split_combine. Qed.

Lemma ipv4_to_from_be v : 0 <= v < 4294967296 -> ipv4_to_be (ipv4_from_be v) = v.
Proof.
  intros. unfold ipv4_from_be, ipv4_to_be. rewrite le_combine_split.
  apply Z.mod_small. by change (256 ^ Z.of_nat 4) with 4294967296.
Qed.

(** What the core makes of a parsed address: the octets in reverse. *)
Lemma ipv4_from_be_parsed octets :
  length octets = 4%nat -> Forall byte_ok octets ->
  ipv4_from_be (be_combine octets) = rev octets.
Proof.
  intros Hl Ho. unfold ipv4_from_be, be_combine.
  rewrite <- Hl, <- length_rev. apply le_split_combine.
  apply Forall_forall. intros x Hx%list_elem_of_In%in_rev%list_elem_of_In.
  rewrite Forall_forall in Ho. auto.
Qed.
