(* ===== verification/Dns.v ===== *)
(** * The core's DNS parser

    [parse_a_response] of [components/esp_smoltcp_glue/src/dns.rs]. A Rust index
    out of range panics: the parser runs in an error monad with that outcome, and
    [usize] additions wrap at 32 bits ([overflow-checks = false]). What it should
    do is stated against a message type and its RFC 1035 encoding. *)

From S2P Require Import Prelude.

(** ** Rust code that can panic *)

Inductive outcome (A : Type) : Type :=
  | Returns (a : A)
  | Panics
  | Diverges.

Arguments Returns {A} a.
Arguments Panics {A}.
Arguments Diverges {A}.

#[global] Instance outcome_mret : MRet outcome := fun A a => Returns a.
#[global] Instance outcome_mbind : MBind outcome := fun A B f o =>
  match o with
  | Returns a => f a
  | Panics => Panics
  | Diverges => Diverges
  end.

Definition usize (z : Z) : Z := wrap 32 z.

(** [pkt[i]] *)
Definition byte_at (pkt : list Z) (i : Z) : outcome Z :=
  match pkt !! Z.to_nat i with
  | Some b => Returns b
  | None => Panics
  end.

(** [u16::from_be_bytes([pkt[i], pkt[j]])] *)
Definition be16_at (pkt : list Z) (i j : Z) : outcome Z :=
  hi ← byte_at pkt i;
  lo ← byte_at pkt j;
  Returns (be_combine [hi; lo]).

Definition len (pkt : list Z) : Z := Z.of_nat (length pkt).

(** The loop over the labels of the question; [None] is its [return None]. *)
Fixpoint skip_question (fuel : nat) (pkt : list Z) (i : Z) : outcome (option Z) :=
  match fuel with
  | O => Diverges
  | S fuel =>
      if i <? len pkt then
        l ← byte_at pkt i;
        if l =? 0 then Returns (Some i)
        else if negb (Z.land l 192 =? 0) then Returns None
        else skip_question fuel pkt (usize (i + (1 + l)))
      else Returns (Some i)
  end.

(** The loop over the labels of an answer's owner name. *)
Fixpoint skip_labels (fuel : nat) (pkt : list Z) (i : Z) : outcome Z :=
  match fuel with
  | O => Diverges
  | S fuel =>
      if i <? len pkt then
        l ← byte_at pkt i;
        if l =? 0 then Returns i
        else skip_labels fuel pkt (usize (i + (1 + l)))
      else Returns i
  end.

Definition skip_owner (pkt : list Z) (i : Z) : outcome Z :=
  b ← byte_at pkt i;
  if Z.land b 192 =? 192 then Returns (usize (i + 2))
  else
    i ← skip_labels (S (length pkt)) pkt i;
    Returns (usize (i + 1)).

(** [for _ in 0..ancount] *)
Fixpoint answers_loop (n : nat) (pkt : list Z) (i : Z) : outcome (option (list Z)) :=
  match n with
  | O => Returns None
  | S n =>
      if len pkt <? usize (i + 12) then Returns None
      else
        i ← skip_owner pkt i;
        if len pkt <? usize (i + 10) then Returns None
        else
          qtype ← be16_at pkt i (usize (i + 1));
          rdlen ← be16_at pkt (usize (i + 8)) (usize (i + 9));
          let i := usize (i + 10) in
          if len pkt <? usize (i + rdlen) then Returns None
          else if (qtype =? 1) && (rdlen =? 4) then
            a ← byte_at pkt i;
            b ← byte_at pkt (usize (i + 1));
            c ← byte_at pkt (usize (i + 2));
            d ← byte_at pkt (usize (i + 3));
            Returns (Some [a; b; c; d])
          else answers_loop n pkt (usize (i + rdlen))
  end.

(** The octets of the address found. *)
Definition parse_a_response (pkt : list Z) (expect_id : Z) : outcome (option (list Z)) :=
  if len pkt <? 12 then Returns None
  else
    id ← be16_at pkt 0 1;
    if negb (id =? expect_id) then Returns None
    else
      flags ← be16_at pkt 2 3;
      if negb (Z.land flags 15 =? 0) then Returns None
      else
        ancount ← be16_at pkt 6 7;
        if ancount =? 0 then Returns None
        else
          r ← skip_question (S (length pkt)) pkt 12;
          match r with
          | None => Returns None
          | Some i => answers_loop (Z.to_nat ancount) pkt (usize (i + 5))
          end.

(** ** The messages of RFC 1035

    A reference encoding: a name is a sequence of labels, an owner name ends in
    the root or in a compression pointer. *)

Inductive owner : Type :=
  | Labels (ls : list (list Z))
  | Compressed (ls : list (list Z)) (off : Z).

Record rr := RR {
  rr_owner : owner;
  rr_type : Z;
  rr_class : Z;
  rr_ttl : Z;
  rr_data : list Z
}.

Record message := Message {
  msg_id : Z;
  msg_flags : Z;
  msg_qname : list (list Z);
  msg_qtype : Z;
  msg_qclass : Z;
  msg_answers : list rr;
  msg_nscount : Z;
  msg_arcount : Z
}.

(** Big-endian bytes ([to_be_bytes]). *)
Definition be_split (n : nat) (v : Z) : list Z := rev (le_split n v).

Definition encode_labels (ls : list (list Z)) : list Z :=
  concat ((fun l => len l :: l) <$> ls).

Definition encode_owner (o : owner) : list Z :=
  match o with
  | Labels ls => encode_labels ls ++ [0]
  | Compressed ls off => encode_labels ls ++ be_split 2 (49152 + off)
  end.

Definition encode_rr (r : rr) : list Z :=
  encode_owner (rr_owner r) ++ be_split 2 (rr_type r) ++ be_split 2 (rr_class r) ++
  be_split 4 (rr_ttl r) ++ be_split 2 (len (rr_data r)) ++ rr_data r.

(** Header, question and answers; the other sections follow. *)
Definition encode_message (m : message) : list Z :=
  be_split 2 (msg_id m) ++ be_split 2 (msg_flags m) ++ be_split 2 1 ++
  be_split 2 (Z.of_nat (length (msg_answers m))) ++
  be_split 2 (msg_nscount m) ++ be_split 2 (msg_arcount m) ++
  encode_labels (msg_qname m) ++ [0] ++ be_split 2 (msg_qtype m) ++ be_split 2 (msg_qclass m) ++
  concat (encode_rr <$> msg_answers m).

Definition is_a (r : rr) : bool := (rr_type r =? 1) && (len (rr_data r) =? 4).

(** The address of the first A record. *)
Definition first_a (rs : list rr) : option (list Z) := rr_data <$> List.find is_a rs.

Definition label_ok (l : list Z) : Prop := (1 <= length l <= 63)%nat.

(** Owner names in literal form or as one pointer. *)
Definition owner_ok (o : owner) : Prop :=
  match o with
  | Labels ls => Forall label_ok ls
  | Compressed ls off => ls = [] /\ 0 <= off < 16384
  end.

Definition rr_ok (r : rr) : Prop :=
  owner_ok (rr_owner r) /\ 0 <= rr_type r < 65536 /\ len (rr_data r) < 65536.

Record header_ok (m : message) : Prop := {
  ho_id : 0 <= msg_id m < 65536;
  ho_flags : 0 <= msg_flags m < 65536;
  ho_qname : Forall label_ok (msg_qname m);
  ho_count : Z.of_nat (length (msg_answers m)) < 65536
}.

Definition message_ok (m : message) : Prop := header_ok m /\ Forall rr_ok (msg_answers m).

(** ** Reading a packet at a position

    [view pkt i rest]: the bytes of [pkt] from [i] on are [rest]. *)

Definition view (pkt : list Z) (i : Z) (rest : list Z) : Prop :=
  0 <= i <= len pkt /\ drop (Z.to_nat i) pkt = rest.

Lemma len_app l1 l2 : len (l1 ++ l2) = len l1 + len l2.
Proof. unfold len. rewrite length_app. lia. Qed.

Lemma len_cons b l : len (b :: l) = 1 + len l.
Proof. unfold len. cbn [length]. lia. Qed.

Lemma len_nonneg l : 0 <= len l.
Proof. unfold len. lia. Qed.

Lemma len_be_split n v : len (be_split n v) = Z.of_nat n.
Proof. unfold len, be_split. by rewrite length_rev, length_le_split. Qed.

Lemma view_start pkt : view pkt 0 pkt.
Proof. split; [unfold len; lia|done]. Qed.

Lemma view_len pkt i rest : view pkt i rest -> i + len rest = len pkt.
Proof. intros [Hi <-]. unfold len in *. rewrite length_drop. lia. Qed.

Lemma view_app pkt i l rest : view pkt i (l ++ rest) -> view pkt (i + len l) rest.
Proof.
  intros Hv. pose proof (view_len _ _ _ Hv) as Hl. rewrite len_app in Hl.
  destruct Hv as [Hi Hd]. pose proof (len_nonneg rest). pose proof (len_nonneg l).
  split; [lia|]. rewrite Z2Nat.inj_add by lia. unfold len. rewrite Nat2Z.id.
  by rewrite <- drop_drop, Hd, drop_app_length.
Qed.

Lemma view_cons pkt i b rest : view pkt i (b :: rest) -> view pkt (i + 1) rest.
Proof. intros Hv. by apply (view_app pkt i [b]). Qed.

Lemma view_byte pkt i b rest : view pkt i (b :: rest) -> byte_at pkt i = Returns b.
Proof.
  intros [Hi Hd]. unfold byte_at.
  assert (Hb : drop (Z.to_nat i) pkt !! 0%nat = Some b) by by rewrite Hd.
  rewrite lookup_drop, Nat.add_0_r in Hb. by rewrite Hb.
Qed.

Lemma view_lt pkt i b rest : view pkt i (b :: rest) -> 0 <= i < len pkt.
Proof.
  intros Hv. pose proof (view_len _ _ _ Hv) as Hl. rewrite len_cons in Hl.
  pose proof (len_nonneg rest). destruct Hv. lia.
Qed.

Lemma be_split_2 v : 0 <= v < 65536 -> be_split 2 v = [v / 256; v mod 256].
Proof.
  intros Hv. unfold be_split. cbn [le_split rev app]. f_equal.
  apply Z.mod_small. split; [apply Z.div_pos|apply Z.div_lt_upper_bound]; lia.
Qed.

Lemma view_be16 pkt i v rest :
  0 <= v < 65536 -> view pkt i (be_split 2 v ++ rest) ->
  be16_at pkt i (i + 1) = Returns v /\ view pkt (i + 2) rest.
Proof.
  intros Hv Hview. pose proof (view_app _ _ _ _ Hview) as Hr. rewrite len_be_split in Hr.
  split; [|done]. rewrite be_split_2 in Hview by done. cbn [app] in Hview.
  unfold be16_at. rewrite (view_byte _ _ _ _ Hview). cbn [mbind outcome_mbind].
  rewrite (view_byte _ _ _ _ (view_cons _ _ _ _ Hview)). cbn.
  f_equal. pose proof (Z.div_mod v 256). lia.
Qed.

Lemma usize_small z : 0 <= z < 4294967296 -> usize z = z.
Proof. apply (wrap_small 32). Qed.

(** ** The parser on an encoded message *)

Lemma land_192_small b : 0 <= b < 64 -> Z.land b 192 = 0.
Proof.
  intros Hb. apply Z.eqb_eq.
  assert (Hall : (64 <=? b) || (Z.land b 192 =? 0) = true)
    by (apply (byte_forall (fun b => (64 <=? b) || (Z.land b 192 =? 0)));
        [by vm_compute|unfold byte_ok; lia]).
  apply orb_true_iff in Hall as [?|?]; [zify_bools; lia|done].
Qed.

Lemma pointer_head off :
  0 <= off < 16384 ->
  Z.land ((49152 + off) / 256) 192 = 192 /\ 192 <= (49152 + off) / 256 < 256.
Proof.
  intros Hoff.
  assert (Hq : 192 <= (49152 + off) / 256 < 256)
    by (split; [apply Z.div_le_lower_bound|apply Z.div_lt_upper_bound]; lia).
  split; [|done]. apply Z.eqb_eq. set (b := (49152 + off) / 256) in *.
  assert (Hall : (b <? 192) || (Z.land b 192 =? 192) = true)
    by (apply (byte_forall (fun b => (b <? 192) || (Z.land b 192 =? 192)));
        [by vm_compute|unfold byte_ok; lia]).
  apply orb_true_iff in Hall as [?|?]; [zify_bools; lia|done].
Qed.

Lemma encode_labels_cons l ls : encode_labels (l :: ls) = len l :: l ++ encode_labels ls.
Proof. done. Qed.

Lemma encode_rr_length r : 11 + len (rr_data r) <= len (encode_rr r).
Proof.
  unfold encode_rr. rewrite !len_app, !len_be_split.
  assert (1 <= len (encode_owner (rr_owner r))).
  { destruct (rr_owner r); cbn [encode_owner]; rewrite len_app.
    - pose proof (len_nonneg (encode_labels ls)). change (len [0]) with 1. lia.
    - rewrite len_be_split. pose proof (len_nonneg (encode_labels ls)). lia. }
  lia.
Qed.

Section parser.
Context (pkt : list Z) (Hpkt : len pkt < 2147483648).

(** A view that starts with a label, and one that starts with the root. *)
Lemma label_view l ls i rest :
  label_ok l -> view pkt i (encode_labels (l :: ls) ++ rest) ->
  i < len pkt /\ byte_at pkt i = Returns (len l) /\ 1 <= len l < 64 /\
  usize (i + (1 + len l)) = i + (1 + len l) /\
  view pkt (i + (1 + len l)) (encode_labels ls ++ rest) /\
  i + len (encode_labels (l :: ls)) = i + (1 + len l) + len (encode_labels ls).
Proof.
  intros Hl Hv. unfold label_ok in Hl. rewrite encode_labels_cons in Hv |- *.
  rewrite len_cons, len_app. rewrite <- app_comm_cons, <- app_assoc in Hv.
  pose proof (view_lt _ _ _ _ Hv). pose proof (view_byte _ _ _ _ Hv).
  apply view_cons, view_app in Hv. pose proof (proj1 Hv). rewrite Z.add_assoc.
  rewrite usize_small by lia. unfold len in *. split_and!; try done; lia.
Qed.

Lemma root_view i rest :
  view pkt i (0 :: rest) -> i < len pkt /\ byte_at pkt i = Returns 0 /\ i + len (encode_labels []) = i.
Proof.
  intros Hv. pose proof (view_lt _ _ _ _ Hv). pose proof (view_byte _ _ _ _ Hv).
  change (len (encode_labels [])) with 0. split_and!; [lia|done|lia].
Qed.

Lemma skip_question_view ls i rest fuel :
  Forall label_ok ls -> view pkt i (encode_labels ls ++ 0 :: rest) -> len pkt - i < Z.of_nat fuel ->
  skip_question fuel pkt i = Returns (Some (i + len (encode_labels ls))).
Proof.
  intros Hls. revert i fuel. induction Hls as [|l ls Hl Hls IH]; intros i fuel Hv Hf.
  - destruct (root_view i rest Hv) as (Hi & Hb & ->), fuel as [|fuel]; [lia|]. cbn [skip_question].
    apply Z.ltb_lt in Hi. by rewrite Hi, Hb.
  - destruct (label_view l ls i _ Hl Hv) as (Hi & Hb & Hn & Hu & Hv' & ->), fuel as [|fuel]; [lia|].
    cbn [skip_question]. rewrite (proj2 (Z.ltb_lt _ _) Hi), Hb. cbn [mbind outcome_mbind].
    rewrite (proj2 (Z.eqb_neq (len l) 0)), land_192_small by lia. cbn [negb Z.eqb].
    rewrite Hu. apply IH; [done|lia].
Qed.

Lemma skip_labels_view ls i rest fuel :
  Forall label_ok ls -> view pkt i (encode_labels ls ++ 0 :: rest) -> len pkt - i < Z.of_nat fuel ->
  skip_labels fuel pkt i = Returns (i + len (encode_labels ls)).
Proof.
  intros Hls. revert i fuel. induction Hls as [|l ls Hl Hls IH]; intros i fuel Hv Hf.
  - destruct (root_view i rest Hv) as (Hi & Hb & ->), fuel as [|fuel]; [lia|]. cbn [skip_labels].
    apply Z.ltb_lt in Hi. by rewrite Hi, Hb.
  - destruct (label_view l ls i _ Hl Hv) as (Hi & Hb & Hn & Hu & Hv' & ->), fuel as [|fuel]; [lia|].
    cbn [skip_labels]. rewrite (proj2 (Z.ltb_lt _ _) Hi), Hb. cbn [mbind outcome_mbind].
    rewrite (proj2 (Z.eqb_neq (len l) 0)) by lia. rewrite Hu. apply IH; [done|lia].
Qed.

(** The byte an owner name starts with, and the position after it. *)
Lemma skip_owner_view o i rest :
  owner_ok o -> view pkt i (encode_owner o ++ rest) ->
  skip_owner pkt i = Returns (i + len (encode_owner o)).
Proof.
  intros Ho Hv. pose proof (view_len _ _ _ Hv) as Hlen. destruct Hv as [Hi Hd].
  assert (Hv : view pkt i (encode_owner o ++ rest)) by done. rewrite len_app in Hlen.
  pose proof (len_nonneg rest). destruct o as [ls|ls off]; cbn [encode_owner owner_ok] in *.
  - rewrite <- app_assoc in Hv.
    assert (Hb : exists b, byte_at pkt i = Returns b /\ 0 <= b < 64).
    { destruct Ho as [|l ls Hl Hls].
      - exists 0. destruct (root_view i rest Hv) as (_ & ? & _). split; [done|lia].
      - exists (len l). destruct (label_view l ls i _ Hl Hv) as (_ & ? & ? & _). split; [done|lia]. }
    destruct Hb as (b & Hb & Hrange). unfold skip_owner. rewrite Hb. cbn [mbind outcome_mbind].
    rewrite land_192_small by done. cbn [Z.eqb].
    rewrite (skip_labels_view ls i rest) by (done || unfold len in *; lia).
    cbn [mbind outcome_mbind]. rewrite len_app in *. change (len [0]) with 1 in *.
    rewrite usize_small by (pose proof (len_nonneg (encode_labels ls)); lia). f_equal. lia.
  - destruct Ho as [-> Hoff]. destruct (pointer_head off Hoff) as [Hh _].
    rewrite app_nil_l in *. rewrite be_split_2 in * by lia. cbn [app] in Hv.
    unfold skip_owner. rewrite (view_byte _ _ _ _ Hv). cbn [mbind outcome_mbind].
    rewrite Hh. cbn [Z.eqb]. change (len [_; _]) with 2 in *. by rewrite usize_small by lia.
Qed.

(** The fields of a record after its owner name. *)
Lemma fields_view i ty cl ttl n rest :
  0 <= ty < 65536 -> 0 <= n < 65536 ->
  view pkt i (be_split 2 ty ++ be_split 2 cl ++ be_split 4 ttl ++ be_split 2 n ++ rest) ->
  (len pkt <? usize (i + 10)) = false /\
  be16_at pkt i (usize (i + 1)) = Returns ty /\
  be16_at pkt (usize (i + 8)) (usize (i + 9)) = Returns n /\
  usize (i + 10) = i + 10 /\ view pkt (i + 10) rest.
Proof.
  intros Hty Hn Hv. destruct (view_be16 _ _ _ _ Hty Hv) as [Ht Hv2].
  apply view_app, view_app in Hv2. rewrite !len_be_split in Hv2.
  destruct (view_be16 _ _ _ _ Hn Hv2) as [Hr Hv3]. pose proof (proj1 Hv3). pose proof (proj1 Hv).
  replace (i + 10) with (i + 2 + Z.of_nat 2 + Z.of_nat 4 + 2) by lia.
  rewrite !usize_small by lia. split_and!; try done.
  - apply Z.ltb_ge. lia.
  - rewrite <- Hr. f_equal; lia.
Qed.

Lemma address_view i data rest :
  length data = 4%nat -> view pkt i (data ++ rest) ->
  (a ← byte_at pkt i; b ← byte_at pkt (usize (i + 1)); c ← byte_at pkt (usize (i + 2));
   d ← byte_at pkt (usize (i + 3)); Returns (Some [a; b; c; d])) = Returns (Some data).
Proof.
  intros Hl Hv. destruct data as [|a [|b [|c [|d [|]]]]]; try done. cbn [app] in Hv.
  pose proof (view_cons _ _ _ _ Hv) as Hb. pose proof (view_cons _ _ _ _ Hb) as Hc.
  pose proof (view_cons _ _ _ _ Hc) as Hd. pose proof (view_lt _ _ _ _ Hd). pose proof (proj1 Hv).
  replace (i + 1 + 1 + 1) with (i + 3) in Hd by lia. replace (i + 1 + 1) with (i + 2) in Hc by lia.
  rewrite !usize_small by lia. rewrite (view_byte _ _ _ _ Hv), (view_byte _ _ _ _ Hb).
  by rewrite (view_byte _ _ _ _ Hc), (view_byte _ _ _ _ Hd).
Qed.

(** Records of eleven bytes or more: in less than twelve bytes there is no
    address. *)
Lemma no_room_no_a rs rest :
  len (concat (encode_rr <$> rs) ++ rest) < 12 -> first_a rs = None.
Proof.
  intros Hl. destruct rs as [|r rs]; [done|]. cbn [concat fmap list_fmap] in Hl.
  rewrite !len_app in Hl. pose proof (encode_rr_length r). pose proof (len_nonneg rest).
  pose proof (len_nonneg (concat (encode_rr <$> rs))). pose proof (len_nonneg (rr_data r)).
  assert (Hr : is_a r = false).
  { unfold is_a. apply andb_false_iff. right. apply Z.eqb_neq. lia. }
  unfold first_a. cbn [List.find]. rewrite Hr.
  destruct rs as [|r' rs]; [done|]. cbn [concat fmap list_fmap] in *.
  rewrite len_app in *. pose proof (encode_rr_length r'). pose proof (len_nonneg (rr_data r')).
  pose proof (len_nonneg (concat (encode_rr <$> rs))). lia.
Qed.

Lemma answers_loop_view rs i rest :
  Forall rr_ok rs -> view pkt i (concat (encode_rr <$> rs) ++ rest) ->
  answers_loop (length rs) pkt i = Returns (first_a rs).
Proof.
  intros Hrs. revert i. induction Hrs as [|r rs (Ho & Hty & Hn) Hrs IH]; intros i Hv; [done|].
  cbn [length answers_loop]. pose proof (view_len _ _ _ Hv) as Hlen. pose proof (proj1 Hv).
  rewrite usize_small by lia.
  case_test; [by rewrite (no_room_no_a (r :: rs) rest) by lia|]. clear Hlen.
  cbn [concat fmap list_fmap] in Hv. unfold encode_rr at 1 in Hv. rewrite <- !app_assoc in Hv.
  rewrite (skip_owner_view (rr_owner r) i _ Ho Hv). cbn [mbind outcome_mbind]. apply view_app in Hv.
  pose proof (len_nonneg (rr_data r)).
  destruct (fields_view _ _ _ _ _ _ Hty (conj (len_nonneg _) Hn) Hv) as (-> & -> & -> & -> & Hv').
  cbn [mbind outcome_mbind]. pose proof (view_app _ _ _ _ Hv') as Hv3. pose proof (proj1 Hv3).
  rewrite usize_small by lia.
  rewrite (proj2 (Z.ltb_ge (len pkt) (_ + 10 + len (rr_data r)))) by lia.
  unfold first_a. cbn [List.find]. fold (is_a r). destruct (is_a r) eqn:Ha.
  - apply andb_true_iff in Ha as [_ Ha%Z.eqb_eq].
    by apply (address_view _ _ (concat (encode_rr <$> rs) ++ rest)); [unfold len in Ha; lia|].
  - by apply IH.
Qed.
End parser.

(** The header fields the parser looks at. *)
Lemma header_view m rest :
  header_ok m ->
  let pkt := encode_message m ++ rest in
  be16_at pkt 0 1 = Returns (msg_id m) /\ be16_at pkt 2 3 = Returns (msg_flags m) /\
  be16_at pkt 6 7 = Returns (Z.of_nat (length (msg_answers m))) /\
  view pkt 12 (encode_labels (msg_qname m) ++ [0] ++ be_split 2 (msg_qtype m) ++
    be_split 2 (msg_qclass m) ++ concat (encode_rr <$> msg_answers m) ++ rest).
Proof.
  intros [Hid Hfl _ Hn] pkt. pose proof (view_start pkt) as Hv.
  unfold pkt at 2, encode_message in Hv. rewrite <- !app_assoc in Hv.
  destruct (view_be16 _ _ _ _ Hid Hv) as [H0 Hv2].
  destruct (view_be16 _ _ _ _ Hfl Hv2) as [H2 Hv4].
  apply view_app in Hv4. rewrite len_be_split in Hv4.
  destruct (view_be16 _ _ _ _ (conj (Nat2Z.is_nonneg _) Hn) Hv4) as [H6 Hv8].
  do 2 apply view_app in Hv8. rewrite !len_be_split in Hv8. done.
Qed.

(** The parser up to the answers. *)
Lemma parse_to_answers m rest expect_id :
  header_ok m -> len (encode_message m ++ rest) < 2147483648 ->
  exists i, view (encode_message m ++ rest) i (concat (encode_rr <$> msg_answers m) ++ rest) /\
    parse_a_response (encode_message m ++ rest) expect_id
    = if (msg_id m =? expect_id) && (Z.land (msg_flags m) 15 =? 0)
      then answers_loop (length (msg_answers m)) (encode_message m ++ rest) i
      else Returns None.
Proof.
  intros Hm Hpkt. destruct (header_view m rest Hm) as (Hid & Hfl & Hn & Hv).
  set (pkt := encode_message m ++ rest) in *. pose proof (proj1 Hv).
  unfold parse_a_response. rewrite (proj2 (Z.ltb_ge (len pkt) 12)), Hid by lia.
  cbn [mbind outcome_mbind]. pose proof Hv as Hend.
  do 4 apply view_app in Hend. rewrite !len_be_split in Hend.
  eexists. split; [exact Hend|]. apply proj1 in Hend.
  destruct (msg_id m =? expect_id); cbn [negb andb]; [|done].
  rewrite Hfl. cbn [mbind outcome_mbind].
  destruct (Z.land (msg_flags m) 15 =? 0); cbn [negb]; [|done].
  rewrite Hn. cbn [mbind outcome_mbind]. case_test.
  { destruct (msg_answers m); cbn [length] in *; [done|lia]. }
  rewrite (skip_question_view pkt Hpkt _ _ _ _ (ho_qname _ Hm) Hv) by (unfold len; lia).
  cbn [mbind outcome_mbind]. change (len [0]) with 1 in *.
  rewrite usize_small, Nat2Z.id by lia. f_equal. lia.
Qed.

(** ** The parser on any packet *)

Lemma byte_at_ok pkt i :
  Forall byte_ok pkt -> 0 <= i < len pkt ->
  exists b, byte_at pkt i = Returns b /\ pkt !! Z.to_nat i = Some b /\ byte_ok b.
Proof.
  intros Hpkt Hi. unfold byte_at, len in *.
  destruct (pkt !! Z.to_nat i) as [b|] eqn:Hb.
  - exists b. split_and!; [done..|]. by eapply Forall_lookup_1.
  - apply lookup_ge_None_1 in Hb. lia.
Qed.

Lemma be16_at_ok pkt i j :
  Forall byte_ok pkt -> 0 <= i < len pkt -> 0 <= j < len pkt ->
  exists hi lo, be16_at pkt i j = Returns (256 * hi + lo) /\
    pkt !! Z.to_nat i = Some hi /\ pkt !! Z.to_nat j = Some lo /\ byte_ok hi /\ byte_ok lo.
Proof.
  intros Hpkt Hi Hj. destruct (byte_at_ok _ _ Hpkt Hi) as (hi & Hhi & ? & ?).
  destruct (byte_at_ok _ _ Hpkt Hj) as (lo & Hlo & ? & ?).
  exists hi, lo. unfold be16_at. rewrite Hhi, Hlo. cbn. split_and!; try done. f_equal. lia.
Qed.

Lemma lookup_four {A} (l : list A) (n : nat) a b c d :
  l !! n = Some a -> l !! (n + 1)%nat = Some b -> l !! (n + 2)%nat = Some c ->
  l !! (n + 3)%nat = Some d -> take 4 (drop n l) = [a; b; c; d].
Proof.
  intros Ha Hb Hc Hd. rewrite (drop_S _ _ _ Ha). rewrite Nat.add_1_r in Hb.
  replace (n + 2)%nat with (S (S n)) in Hc by lia. replace (n + 3)%nat with (S (S (S n))) in Hd by lia.
  by rewrite (drop_S _ _ _ Hb), (drop_S _ _ _ Hc), (drop_S _ _ _ Hd).
Qed.

Section any_packet.
Context (pkt : list Z) (Hbytes : Forall byte_ok pkt) (Hpkt : len pkt < 2147483648).

Lemma skip_question_total i fuel :
  0 <= i -> (Z.to_nat (len pkt - i) < fuel)%nat ->
  exists r, skip_question fuel pkt i = Returns r /\
    forall i', r = Some i' -> i <= i' /\ (i' = i \/ i' < len pkt + 256).
Proof.
  revert i. induction fuel as [|fuel IH]; intros i Hi Hf; [lia|].
  cbn [skip_question]. case_test.
  - destruct (byte_at_ok pkt i Hbytes ltac:(lia)) as (l & -> & _ & Hl). cbn [mbind outcome_mbind].
    unfold byte_ok in Hl. case_test; [eexists; split; [done|]; intros; simplify_eq; lia|].
    case_test; [by eexists|]. rewrite usize_small by lia.
    destruct (IH (i + (1 + l)) ltac:(lia) ltac:(lia)) as (r & Hr & Hb). exists r. split; [done|].
    intros i' Hi'. specialize (Hb i' Hi'). lia.
  - eexists. split; [done|]. intros. simplify_eq. lia.
Qed.

Lemma skip_labels_total i fuel :
  0 <= i -> (Z.to_nat (len pkt - i) < fuel)%nat ->
  exists i', skip_labels fuel pkt i = Returns i' /\ i <= i' /\ (i' = i \/ i' < len pkt + 256).
Proof.
  revert i. induction fuel as [|fuel IH]; intros i Hi Hf; [lia|].
  cbn [skip_labels]. case_test.
  - destruct (byte_at_ok pkt i Hbytes ltac:(lia)) as (l & -> & _ & Hl). cbn [mbind outcome_mbind].
    unfold byte_ok in Hl. case_test; [eexists; split; [done|]; lia|].
    rewrite usize_small by lia.
    destruct (IH (i + (1 + l)) ltac:(lia) ltac:(lia)) as (r & Hr & Hb). exists r. split; [done|lia].
  - eexists. split; [done|lia].
Qed.

Lemma skip_owner_total i :
  0 <= i < len pkt -> exists i', skip_owner pkt i = Returns i' /\ i < i' <= len pkt + 256.
Proof.
  intros Hi. unfold skip_owner.
  destruct (byte_at_ok pkt i Hbytes Hi) as (b & -> & _ & _). cbn [mbind outcome_mbind].
  case_test; [rewrite usize_small by lia; eexists; split; [done|lia]|].
  destruct (skip_labels_total i (S (length pkt))) as (i' & -> & Hi'); [lia|unfold len in *; lia|].
  cbn [mbind outcome_mbind]. rewrite usize_small by lia. eexists; split; [done|lia].
Qed.

(** An address found is four bytes of the packet after a length of four. *)
Definition address_in (addr : list Z) : Prop :=
  exists pre post, pkt = pre ++ [0; 4] ++ addr ++ post /\ length addr = 4%nat.

Lemma address_in_at i a b c d :
  0 <= i -> pkt !! Z.to_nat (i + 8) = Some 0 -> pkt !! Z.to_nat (i + 9) = Some 4 ->
  pkt !! Z.to_nat (i + 10) = Some a -> pkt !! Z.to_nat (i + 11) = Some b ->
  pkt !! Z.to_nat (i + 12) = Some c -> pkt !! Z.to_nat (i + 13) = Some d ->
  address_in [a; b; c; d].
Proof.
  intros Hi H8 H9 Ha Hb Hc Hd. set (n := Z.to_nat (i + 10)) in *.
  replace (Z.to_nat (i + 11)) with (n + 1)%nat in Hb by lia.
  replace (Z.to_nat (i + 12)) with (n + 2)%nat in Hc by lia.
  replace (Z.to_nat (i + 13)) with (n + 3)%nat in Hd by lia.
  pose proof (lookup_four pkt n a b c d Ha Hb Hc Hd) as H4.
  exists (take (Z.to_nat (i + 8)) pkt), (drop 4 (drop n pkt)). split; [|done].
  rewrite <- H4, take_drop. unfold n. replace (Z.to_nat (i + 10)) with (S (Z.to_nat (i + 9))) by lia.
  cbn [app]. rewrite <- (drop_S _ _ _ H9).
  replace (Z.to_nat (i + 9)) with (S (Z.to_nat (i + 8))) by lia.
  by rewrite <- (drop_S _ _ _ H8), take_drop.
Qed.

Lemma answers_loop_total n i :
  0 <= i <= len pkt + 300 ->
  exists r, answers_loop n pkt i = Returns r /\ forall addr, r = Some addr -> address_in addr.
Proof.
  revert i. induction n as [|n IH]; intros i Hi; cbn [answers_loop]; [by exists None|].
  rewrite usize_small by lia. case_test; [by exists None|].
  destruct (skip_owner_total i ltac:(lia)) as (j & -> & Hj). cbn [mbind outcome_mbind].
  rewrite (usize_small (j + 10)) by lia. case_test; [by exists None|].
  rewrite !(usize_small (j + _)) by lia.
  destruct (be16_at_ok pkt j (j + 1) Hbytes ltac:(lia) ltac:(lia)) as (? & ? & -> & _).
  destruct (be16_at_ok pkt (j + 8) (j + 9) Hbytes ltac:(lia) ltac:(lia)) as (hi & lo & -> & H8 & H9 & Hhi & Hlo).
  cbn [mbind outcome_mbind]. unfold byte_ok in *. rewrite usize_small by lia.
  case_test; [by exists None|]. case_test; [|apply IH; lia].
  rewrite !(usize_small (j + 10 + _)) by lia. rewrite <- !(Z.add_assoc j 10).
  destruct (byte_at_ok pkt (j + 10) Hbytes ltac:(lia)) as (a & -> & Ha & _).
  destruct (byte_at_ok pkt (j + 11) Hbytes ltac:(lia)) as (b & Hb' & Hb & _).
  destruct (byte_at_ok pkt (j + 12) Hbytes ltac:(lia)) as (c & Hc' & Hc & _).
  destruct (byte_at_ok pkt (j + 13) Hbytes ltac:(lia)) as (d & Hd' & Hd & _).
  cbn [mbind outcome_mbind]. change (10 + 1) with 11. change (10 + 2) with 12.
  change (10 + 3) with 13. rewrite Hb', Hc', Hd'.
  cbn [mbind outcome_mbind]. eexists. split; [done|]. intros ? [= <-].
  assert (hi = 0) as -> by lia. assert (lo = 4) as -> by lia.
  apply (address_in_at j); [lia|done..].
Qed.
End any_packet.

Lemma parse_returns pkt id :
  Forall byte_ok pkt -> len pkt < 2147483648 ->
  exists r, parse_a_response pkt id = Returns r /\ forall addr, r = Some addr -> address_in pkt addr.
Proof.
  intros Hb Hl. unfold parse_a_response. case_test; [by exists None|].
  destruct (be16_at_ok pkt 0 1 Hb ltac:(lia) ltac:(lia)) as (? & ? & -> & _).
  cbn [mbind outcome_mbind]. case_test; [by exists None|].
  destruct (be16_at_ok pkt 2 3 Hb ltac:(lia) ltac:(lia)) as (? & ? & -> & _).
  cbn [mbind outcome_mbind]. case_test; [by exists None|].
  destruct (be16_at_ok pkt 6 7 Hb ltac:(lia) ltac:(lia)) as (? & ? & -> & _).
  cbn [mbind outcome_mbind]. case_test; [by exists None|].
  destruct (skip_question_total pkt Hb Hl 12 (S (length pkt))) as (r & -> & Hr);
    [lia|unfold len in *; lia|].
  cbn [mbind outcome_mbind]. destruct r as [i|]; [|by exists None].
  specialize (Hr i eq_refl). rewrite usize_small by lia. apply answers_loop_total; [done..|lia].
Qed.

(** An owner name that ends in a pointer after some labels: the high byte of
    the pointer is taken for a length, and nothing is left in a packet without
    200 more bytes. *)
Lemma skip_labels_pointer pkt ls off i rest fuel :
  len pkt < 2147483648 -> Forall label_ok ls -> 0 <= off < 16384 ->
  view pkt i (encode_labels ls ++ be_split 2 (49152 + off) ++ rest) -> len rest <= 190 ->
  len pkt - i < Z.of_nat fuel -> (1 < fuel)%nat ->
  exists i', skip_labels fuel pkt i = Returns i' /\ len pkt <= i' < len pkt + 256.
Proof.
  intros Hpkt Hls Hoff. revert i fuel. induction Hls as [|l ls Hl Hls IH]; intros i fuel Hv Hrest Hf Hf1.
  - change (view pkt i (be_split 2 (49152 + off) ++ rest)) in Hv. pose proof (view_len _ _ _ Hv) as Hlen.
    rewrite len_app, len_be_split in Hlen. pose proof (proj1 Hv). pose proof (len_nonneg rest).
    rewrite be_split_2 in Hv by lia. destruct (pointer_head off Hoff) as [_ Hh].
    destruct fuel as [|[|fuel]]; [lia..|]. cbn [skip_labels].
    rewrite (proj2 (Z.ltb_lt i (len pkt))), (view_byte _ _ _ _ Hv) by lia.
    cbn [mbind outcome_mbind]. rewrite (proj2 (Z.eqb_neq _ 0)), usize_small by lia.
    rewrite (proj2 (Z.ltb_ge _ _)) by lia. eexists. split; [done|lia].
  - destruct (label_view pkt Hpkt l ls i _ Hl Hv) as (Hi & Hb & Hn & Hu & Hv' & _).
    pose proof (view_lt _ _ _ _ Hv). pose proof (view_len _ _ _ Hv') as Hlen.
    rewrite !len_app, len_be_split in Hlen. pose proof (len_nonneg rest).
    pose proof (len_nonneg (encode_labels ls)).
    destruct fuel as [|fuel]; [lia|]. cbn [skip_labels].
    rewrite (proj2 (Z.ltb_lt _ _) Hi), Hb. cbn [mbind outcome_mbind].
    rewrite (proj2 (Z.eqb_neq (len l) 0)), Hu by lia. apply IH; [done..|lia|lia].
Qed.

(** ** Properties *)

(** C8. The parser is equivalent to RFC 1035 on the messages it supports. For a
    message with one question and any answers, owner names literal or a single
    compression pointer, encoded and followed by any bytes, it gives the address
    of the first A record when the id is the expected one and the response code
    is zero, and nothing otherwise. *)
Theorem parse_reference m rest expect_id :
  message_ok m -> len (encode_message m ++ rest) < 2147483648 ->
  parse_a_response (encode_message m ++ rest) expect_id
  = Returns (if (msg_id m =? expect_id) && (Z.land (msg_flags m) 15 =? 0)
             then first_a (msg_answers m) else None).
Proof.
  intros [Hm Hrs] Hpkt. destruct (parse_to_answers m rest expect_id Hm Hpkt) as (i & Hv & ->).
  case_match; [|done]. by apply (answers_loop_view _ Hpkt _ _ rest).
Qed.

(** C16. The parser never panics and always ends. On any bytes a server or an
    attacker sends, no index is out of range and the loops terminate within the
    packet's length; an address it gives is four consecutive bytes of the packet
    that follow a length field of four. *)
Theorem parse_total pkt expect_id :
  Forall byte_ok pkt -> len pkt < 2147483648 ->
  exists r, parse_a_response pkt expect_id = Returns r /\
    forall addr, r = Some addr ->
      exists pre post, pkt = pre ++ [0; 4] ++ addr ++ post /\ length addr = 4%nat.
Proof. apply parse_returns. Qed.

(** A compressed owner name after labels is not understood. When the owner of
    the first answer is labels that end in a pointer, as RFC 1035 allows, and at
    most 190 bytes follow the pointer, the parser gives nothing, whatever the
    record is. *)
Theorem compressed_owner_missed m ls off r rs rest :
  header_ok m -> msg_answers m = r :: rs -> rr_owner r = Compressed ls off ->
  ls <> [] -> Forall label_ok ls -> 0 <= off < 16384 ->
  len (concat (encode_rr <$> msg_answers m) ++ rest) <= len (encode_labels ls) + 192 ->
  len (encode_message m ++ rest) < 2147483648 ->
  parse_a_response (encode_message m ++ rest) (msg_id m) = Returns None.
Proof.
  intros Hm Hrs Hr Hne Hls Hoff Hroom Hpkt.
  destruct (parse_to_answers m rest (msg_id m) Hm Hpkt) as (i & Hv & ->).
  case_match; [|done]. set (pkt := encode_message m ++ rest) in *.
  rewrite Hrs in *. cbn [length answers_loop concat fmap list_fmap] in *. pose proof (view_len _ _ _ Hv).
  pose proof (proj1 Hv). rewrite usize_small by lia. case_test; [done|].
  unfold encode_rr at 1 in Hv. unfold encode_rr at 1 in Hroom. rewrite Hr in Hv, Hroom.
  cbn [encode_owner] in Hv, Hroom. rewrite <- !app_assoc in Hv, Hroom.
  destruct ls as [|l ls]; [done|]. pose proof (Forall_inv Hls) as Hl.
  destruct (label_view pkt Hpkt l ls i _ Hl Hv) as (Hi & Hb & Hn & _).
  unfold skip_owner. rewrite Hb. cbn [mbind outcome_mbind].
  rewrite land_192_small by lia. cbn [Z.eqb].
  rewrite !len_app, !len_be_split in Hroom.
  edestruct (skip_labels_pointer pkt (l :: ls) off i) as (j & -> & Hj); [done..| | | |].
  - rewrite !len_app, !len_be_split. lia.
  - unfold len. lia.
  - unfold len in *. lia.
  - cbn [mbind outcome_mbind]. rewrite (usize_small (j + 1)), usize_small by lia.
    by rewrite (proj2 (Z.ltb_lt _ _)) by lia.
Qed.

(** ** Witnesses *)

(** A response for "a.bc": an alias, then the address 10.0.0.7, named by a pointer. *)
Definition sample_answer (r : rr) : message :=
  Message 4660 33152 [[97]; [98; 99]] 1 1
    [RR (Compressed [] 12) 5 1 60 [1; 120; 0]; r] 0 0.

Definition sample_message : message := sample_answer (RR (Compressed [] 12) 1 1 60 [10; 0; 0; 7]).

Lemma sample_ok : message_ok sample_message.
Proof.
  split; [split; cbn; try lia|]; repeat constructor; cbn; lia.
Qed.

Lemma parse_reference_witness :
  parse_a_response (encode_message sample_message ++ [0; 0]) 4660 = Returns (Some [10; 0; 0; 7]).
Proof.
  rewrite (parse_reference sample_message [0; 0] 4660); [reflexivity|apply sample_ok|].
  vm_compute. reflexivity.
Defined.

(** A header that promises answers, and a label that points past the end. *)
Lemma parse_total_witness :
  exists r, parse_a_response [18; 52; 129; 128; 0; 1; 0; 3; 0; 0; 0; 0; 63; 1] 4660 = Returns r.
Proof.
  destruct (parse_total [18; 52; 129; 128; 0; 1; 0; 3; 0; 0; 0; 0; 63; 1] 4660) as (r & Hr & _).
  - repeat (apply Forall_cons_2; [split; [done|reflexivity]|]). constructor.
  - vm_compute. reflexivity.
  - exists r. exact Hr.
Defined.

Lemma compressed_owner_missed_witness :
  parse_a_response (encode_message (Message 4660 33152 [[97]; [98; 99]] 1 1
    [RR (Compressed [[99]] 12) 1 1 60 [10; 0; 0; 7]] 0 0) ++ []) 4660 = Returns None /\
  first_a [RR (Compressed [[99]] 12) 1 1 60 [10; 0; 0; 7]] = Some [10; 0; 0; 7].
Proof.
  split; [|reflexivity].
  apply (compressed_owner_missed (Message 4660 33152 [[97]; [98; 99]] 1 1
    [RR (Compressed [[99]] 12) 1 1 60 [10; 0; 0; 7]] 0 0) [[99]] 12
    (RR (Compressed [[99]] 12) 1 1 60 [10; 0; 0; 7]) [] []); try done.
  - split; cbn; try lia. repeat constructor; cbn; lia.
  - repeat constructor; cbn; lia.
Defined.
