(* ===== verification/Resolver.v ===== *)
(** * The core's DNS resolver

    [smoltcp_resolve] of [components/esp_smoltcp_glue/src/dns.rs]: the query it
    builds, the dotted-quad shortcut and the polling loop. The smoltcp socket
    operations, the random numbers and the clock are calls. *)

From S2P Require Import Prelude Prog Ipv4 Dns.

(** ** The query *)

Definition bytes_of (s : string) : list Z :=
  (fun c => Z.of_N (N_of_ascii c)) <$> String.list_ascii_of_string s.

(** The loop over [cs.split('.')]; [None] is [return -1]. *)
Fixpoint push_labels (labels : list string) (query : list Z) : option (list Z) :=
  match labels with
  | [] => Some query
  | label :: labels =>
      if (String.length label =? 0)%nat || (63 <? String.length label)%nat then None
      else push_labels labels
             (query ++ [u8 (Z.of_nat (String.length label))] ++ bytes_of label)
  end.

Definition build_query (id : Z) (name : string) : option (list Z) :=
  query ← push_labels (split_dot name)
    (be_split 2 id ++ [1; 0] ++ [0; 1; 0; 0; 0; 0; 0; 0]);
  Some (query ++ [0] ++ [0; 1] ++ [0; 1]).

(** A number of a dotted quad as [Ipv4Addr::from_str] reads it: no sign, and
    no leading zero. *)
Definition strict_u8 (s : string) : option Z :=
  match s with
  | EmptyString => None
  | String c EmptyString => digit_of c
  | String c _ => if Ascii.eqb c "0"%char then None else parse_digits s 0
  end.

(** [str::parse::<core::net::Ipv4Addr>], the octets. *)
Definition parse_ipv4_addr (s : string) : option (list Z) :=
  match split_dot s with
  | [a; b; c; d] => mapM strict_u8 [a; b; c; d]
  | _ => None
  end.

Definition continuation (b : Z) : bool := (128 <=? b) && (b <=? 191).

(** Well-formed UTF-8, the test of [CStr::to_str]. *)
Fixpoint utf8_valid (bs : list Z) : bool :=
  match bs with
  | [] => true
  | b1 :: r1 =>
      if b1 <? 128 then utf8_valid r1
      else match r1 with
      | [] => false
      | b2 :: r2 =>
          if (194 <=? b1) && (b1 <=? 223) then continuation b2 && utf8_valid r2
          else match r2 with
          | [] => false
          | b3 :: r3 =>
              if (224 <=? b1) && (b1 <=? 239) then
                ((if b1 =? 224 then 160 <=? b2 else 128 <=? b2) &&
                 (if b1 =? 237 then b2 <=? 159 else b2 <=? 191)) &&
                continuation b3 && utf8_valid r3
              else match r3 with
              | [] => false
              | b4 :: r4 =>
                  ((240 <=? b1) && (b1 <=? 244)) &&
                  ((if b1 =? 240 then 144 <=? b2 else 128 <=? b2) &&
                   (if b1 =? 244 then b2 <=? 143 else b2 <=? 191)) &&
                  continuation b3 && continuation b4 && utf8_valid r4
              end
          end
      end
  end.

(** ** The resolver

    The calls to [smoltcp] and to the C side. Times are microseconds, as in
    [smoltcp::time::Instant]; a handle is a number. A [bool] answer is
    [is_err()]; [recv_slice] gives the bytes it has put in the 512-byte buffer. *)
Inductive glue_call : Type -> Type :=
  | Glue_rand32 : glue_call Z
  | Now : glue_call Z
  | Udp_bind (port : Z) : glue_call bool
  | Udp_send_slice (data : list Z) (addr : list Z) (port : Z) : glue_call bool
  | Sockets_add : glue_call Z
  | Iface_poll (now : Z) : glue_call unit
  | Udp_recv_slice (handle : Z) : glue_call (option (list Z))
  | Sockets_remove (handle : Z) : glue_call unit.

(** The state is the cell [*out_be]. *)
Abbreviation rust A := (prog Z glue_call A).

(** The polling loop. A panic aborts the program ([panic = "abort"]). *)
Fixpoint await_answer (fuel : nat) (handle id deadline : Z) : rust (option (list Z)) :=
  match fuel with
  | O => Spin
  | S fuel =>
      now ← call Now;
      call (Iface_poll now);;
      r ← call (Udp_recv_slice handle);
      let check_deadline :=
        now ← call Now;
        if deadline <=? now then mret None else await_answer fuel handle id deadline in
      match r with
      | Some pkt =>
          match parse_a_response pkt id with
          | Returns (Some addr) => mret (Some addr)
          | Returns None => check_deadline
          | Panics | Diverges => Spin
          end
      | None => check_deadline
      end
  end.

Definition smoltcp_resolve (fuel : nat) (h : ptr) (name : option string) (server_be timeout_ms : Z)
    (out_be : ptr) : rust Z :=
  match name with
  | None => mret (-1)
  | Some name =>
      if is_null h || is_null out_be then mret (-1)
      else if negb (utf8_valid (bytes_of name)) then mret (-1)
      else match parse_ipv4_addr name with
      | Some octets => modify (fun _ => le_combine octets);; mret 0
      | None =>
          r ← call Glue_rand32;
          let id := u16 (Z.land r 65535) in
          match build_query id name with
          | None => mret (-1)
          | Some query =>
              r ← call Glue_rand32;
              let local := u16 (49152 + u16 (Z.land r 16383)) in
              err ← call (Udp_bind local);
              if (err : bool) then mret (-1)
              else
                err ← call (Udp_send_slice query (le_split 4 server_be) 53);
                if (err : bool) then mret (-1)
                else
                  handle ← call Sockets_add;
                  start ← call Now;
                  let deadline := start + timeout_ms * 1000 in
                  result ← await_answer fuel handle id deadline;
                  call (Sockets_remove handle);;
                  match result with
                  | Some addr => modify (fun _ => le_combine addr);; mret 0
                  | None => mret (-1)
                  end
          end
      end
  end.

(** ** The query, read by a reference decoder *)

Record question := Question {
  q_id : Z;
  q_flags : Z;
  q_name : string;
  q_type : Z;
  q_class : Z
}.

Definition take_be (n : nat) (bs : list Z) : option (Z * list Z) :=
  if (length bs <? n)%nat then None else Some (be_combine (take n bs), drop n bs).

Fixpoint decode_labels (fuel : nat) (bs : list Z) : option (list (list Z) * list Z) :=
  match fuel, bs with
  | S fuel, l :: bs =>
      if l =? 0 then Some ([], bs)
      else if len bs <? l then None
      else
        '(ls, rest) ← decode_labels fuel (drop (Z.to_nat l) bs);
        Some (take (Z.to_nat l) bs :: ls, rest)
  | _, _ => None
  end.

Definition string_of (bs : list Z) : string :=
  String.string_of_list_ascii ((fun b => ascii_of_N (Z.to_N b)) <$> bs).

(** A message with one question and no record. *)
Definition decode_query (bs : list Z) : option question :=
  '(id, bs) ← take_be 2 bs;
  '(flags, bs) ← take_be 2 bs;
  '(counts, bs) ← take_be 8 bs;
  if negb (counts =? be_combine [0; 1; 0; 0; 0; 0; 0; 0]) then None
  else
    '(ls, bs) ← decode_labels (length bs) bs;
    '(ty, bs) ← take_be 2 bs;
    '(cl, bs) ← take_be 2 bs;
    match bs with
    | [] => Some (Question id flags (String.concat "." (string_of <$> ls)) ty cl)
    | _ => None
    end.

Definition label_fits (label : string) : Prop := (1 <= String.length label <= 63)%nat.

Lemma string_of_bytes s : string_of (bytes_of s) = s.
Proof.
  unfold string_of, bytes_of. rewrite <- list_fmap_compose.
  transitivity (String.string_of_list_ascii (String.list_ascii_of_string s)).
  - f_equal. rewrite <- (list_fmap_id (String.list_ascii_of_string s)) at 2.
    apply list_fmap_ext. intros _ c _. cbn. by rewrite N2Z.id, ascii_N_embedding.
  - apply String.string_of_list_ascii_of_string.
Qed.

Lemma length_bytes_of s : length (bytes_of s) = String.length s.
Proof. unfold bytes_of. rewrite length_fmap. induction s; cbn; auto. Qed.

Lemma bytes_of_ok s : Forall byte_ok (bytes_of s).
Proof.
  apply Forall_fmap, Forall_forall. intros c _. cbn. pose proof (N_ascii_bounded c).
  unfold byte_ok. lia.
Qed.

Lemma concat_split_dot s : String.concat "." (split_dot s) = s.
Proof.
  induction s as [|c s IH]; [done|]. cbn [split_dot].
  destruct (Ascii.eqb_spec c "."%char) as [->|Hc].
  - destruct (split_dot s) as [|p ps] eqn:Hs; [by destruct s|].
    change (String "."%char (String.concat "." (p :: ps)) = String "."%char s). by rewrite IH.
  - destruct (split_dot s) as [|p [|p' ps]]; [by rewrite <- IH|by rewrite <- IH|].
    change (String c (String.concat "." (p :: p' :: ps)) = String c s). by rewrite IH.
Qed.

Lemma push_labels_ok labels query :
  Forall label_fits labels ->
  push_labels labels query = Some (query ++ encode_labels (bytes_of <$> labels)).
Proof.
  intros Hl. revert query. induction Hl as [|l ls Hl Hls IH]; intros query; cbn [push_labels].
  - by rewrite app_nil_r.
  - unfold label_fits in Hl. rewrite (proj2 (Nat.eqb_neq _ _)), (proj2 (Nat.ltb_ge _ _)) by lia.
    cbn [orb]. rewrite IH, <- app_assoc. unfold u8. rewrite wrap_small by lia.
    cbn [fmap list_fmap]. rewrite encode_labels_cons. unfold len. by rewrite length_bytes_of.
Qed.

Lemma push_labels_none labels query :
  push_labels labels query = None -> exists l, l ∈ labels /\ ~ label_fits l.
Proof.
  revert query. induction labels as [|l ls IH]; intros query; cbn [push_labels]; [done|].
  case_test.
  - intros _. exists l. split; [left|]. unfold label_fits.
    match goal with H : _ || _ = true |- _ => apply orb_true_iff in H as [?|?] end; zify_bools; lia.
  - intros Hn. destruct (IH _ Hn) as (l' & Hin & Hl'). exists l'. split; [by right|done].
Qed.

Lemma push_labels_some labels query q :
  push_labels labels query = Some q -> Forall label_fits labels.
Proof.
  revert query. induction labels as [|l ls IH]; intros query; cbn [push_labels]; [by constructor|].
  case_test; [done|]. intros Hq. constructor; [|by eapply IH]. unfold label_fits. lia.
Qed.

Lemma decode_encode_labels ls rest fuel :
  Forall label_ok ls -> (length ls < fuel)%nat ->
  decode_labels fuel (encode_labels ls ++ 0 :: rest) = Some (ls, rest).
Proof.
  intros Hls. revert fuel. induction Hls as [|l ls Hl Hls IH]; intros [|fuel] Hf; cbn [length] in Hf;
    [lia|done|lia|].
  unfold label_ok in Hl. rewrite encode_labels_cons, <- app_comm_cons, <- app_assoc.
  cbn [decode_labels]. rewrite (proj2 (Z.eqb_neq (len l) 0)) by (unfold len; lia).
  rewrite (proj2 (Z.ltb_ge _ _)).
  - unfold len. rewrite Nat2Z.id, drop_app_length, take_app_length, IH by lia. done.
  - rewrite len_app. pose proof (len_nonneg (encode_labels ls ++ 0 :: rest)). lia.
Qed.

Lemma take_be_split n v rest :
  take_be n (be_split n v ++ rest) = Some (v mod 256 ^ Z.of_nat n, rest).
Proof.
  unfold take_be. rewrite length_app.
  assert (Hl : length (be_split n v) = n) by (unfold be_split; by rewrite length_rev, length_le_split).
  rewrite (proj2 (Nat.ltb_ge _ _)) by lia.
  rewrite <- Hl at 1 3. rewrite take_app_length, drop_app_length.
  unfold be_combine, be_split. by rewrite rev_involutive, le_combine_split.
Qed.

Lemma take_be_app bs rest :
  take_be (length bs) (bs ++ rest) = Some (be_combine bs, rest).
Proof.
  unfold take_be. rewrite length_app, (proj2 (Nat.ltb_ge _ _)) by lia.
  by rewrite take_app_length, drop_app_length.
Qed.

Lemma build_query_eq id name :
  Forall label_fits (split_dot name) ->
  build_query id name
  = Some (be_split 2 id ++ [1; 0] ++ [0; 1; 0; 0; 0; 0; 0; 0] ++
          encode_labels (bytes_of <$> split_dot name) ++ 0 :: [0; 1] ++ [0; 1]).
Proof.
  intros Hl. unfold build_query. rewrite push_labels_ok by done. cbn [mbind option_bind].
  by rewrite <- !app_assoc.
Qed.

Lemma labels_fit_ok labels : Forall label_fits labels -> Forall label_ok (bytes_of <$> labels).
Proof.
  intros Hl. apply Forall_fmap. eapply Forall_impl; [exact Hl|]. intros s Hs.
  unfold label_ok, label_fits in *. cbn. by rewrite length_bytes_of.
Qed.

(** The labels of a name, each with its length byte: one byte more than the
    name with its dots. *)
Lemma len_encode_split name :
  len (encode_labels (bytes_of <$> split_dot name)) = 1 + Z.of_nat (String.length name).
Proof.
  assert (Hcons : forall l ls, len (encode_labels (bytes_of <$> (l :: ls)))
    = 1 + Z.of_nat (String.length l) + len (encode_labels (bytes_of <$> ls))).
  { intros l ls. cbn [fmap list_fmap]. rewrite encode_labels_cons, len_cons, len_app.
    unfold len at 1. rewrite length_bytes_of. lia. }
  induction name as [|c s IH]; [done|]. cbn [split_dot].
  destruct (Ascii.eqb c "."); [rewrite Hcons, IH; cbn [String.length]; lia|].
  destruct (split_dot s) as [|p ps]; [change (0 = 1 + Z.of_nat (String.length s)) in IH; lia|].
  rewrite Hcons in *. cbn [String.length]. lia.
Qed.

Lemma be_split_ok n v : Forall byte_ok (be_split n v).
Proof. apply Forall_rev, le_split_bytes. Qed.

Lemma encode_labels_ok ls :
  Forall label_ok ls -> Forall (Forall byte_ok) ls -> Forall byte_ok (encode_labels ls).
Proof.
  induction 1 as [|l ls Hl _ IH]; [constructor|]. intros [? ?]%Forall_cons.
  rewrite encode_labels_cons. constructor; [|by apply Forall_app_2; auto].
  unfold label_ok, byte_ok, len in *. lia.
Qed.

Lemma decode_built_query id name :
  0 <= id < 65536 -> Forall label_fits (split_dot name) ->
  exists q, build_query id name = Some q /\ decode_query q = Some (Question id 256 name 1 1).
Proof.
  intros Hid Hl. eexists. split; [by apply build_query_eq|].
  unfold decode_query. rewrite take_be_split, Z.mod_small by done. cbn [mbind option_bind].
  rewrite (take_be_app [1; 0]). cbn [mbind option_bind].
  rewrite (take_be_app [0; 1; 0; 0; 0; 0; 0; 0]). cbn [mbind option_bind].
  rewrite Z.eqb_refl. cbn [negb]. rewrite decode_encode_labels.
  - cbn [mbind option_bind]. rewrite (take_be_app [0; 1]). cbn [mbind option_bind].
    change (take_be 2 [0; 1]) with (Some (be_combine [0; 1], @nil Z)). cbn [mbind option_bind].
    rewrite <- list_fmap_compose, (list_fmap_ext _ (fun s => s)).
    2: { intros _ s _. apply string_of_bytes. }
    rewrite list_fmap_id, concat_split_dot. done.
  - by apply labels_fit_ok.
  - rewrite length_app. cbn [length]. enough (forall ls, length ls <= length (encode_labels ls))%nat.
    { specialize (H (bytes_of <$> split_dot name)). lia. }
    induction ls as [|l ls IH]; [done|]. rewrite encode_labels_cons. cbn [length].
    rewrite length_app. lia.
Qed.

(** ** The resolver in an environment

    A script of what the outside gives: the readings of the clock, the datagram
    the socket has at each [recv_slice], the random numbers. The world counts
    how much of it is used, and holds the sockets of the core's set, the ports
    bound and the datagrams sent. *)

Record script := Script {
  clock : nat -> Z;
  inbox : nat -> option (list Z);
  rand : nat -> Z;
  bind_err : bool;
  send_err : bool;
  fresh : Z
}.

Record world := World {
  n_now : nat;
  n_recv : nat;
  n_rand : nat;
  sockets : list Z;
  ports : list Z;
  sent : list (list Z * list Z * Z)
}.

Definition glue_ext (sc : script) (X : Type) (c : glue_call X) (w : world) : X * world :=
  let '(World nn nr nd ss ps sn) := w in
  match c in glue_call X return X * world with
  | Glue_rand32 => (rand sc nd, World nn nr (S nd) ss ps sn)
  | Now => (clock sc nn, World (S nn) nr nd ss ps sn)
  | Udp_bind port =>
      (bind_err sc, World nn nr nd ss (if bind_err sc then ps else ps ++ [port]) sn)
  | Udp_send_slice data addr port =>
      (send_err sc, World nn nr nd ss ps (if send_err sc then sn else sn ++ [(data, addr, port)]))
  | Sockets_add => (fresh sc, World nn nr nd (fresh sc :: ss) ps sn)
  | Iface_poll _ => (tt, w)
  | Udp_recv_slice _ => (inbox sc nr, World nn (S nr) nd ss ps sn)
  | Sockets_remove handle => (tt, World nn nr nd (List.remove Z.eq_dec handle ss) ps sn)
  end.

(** What the parser makes of the [k]-th datagram. *)
Definition answer_of (sc : script) (id : Z) (k : nat) : option (list Z) :=
  pkt ← inbox sc k;
  match parse_a_response pkt id with
  | Returns r => r
  | _ => None
  end.

(** The datagrams fit the 512-byte buffer. *)
Definition inbox_ok (sc : script) : Prop :=
  forall k pkt, inbox sc k = Some pkt -> Forall byte_ok pkt /\ len pkt <= 512.

Section await.
Context (sc : script) (Hin : inbox_ok sc) (id handle deadline : Z).

(** The loop, at clock reading [nn] and datagram [nr], stops with [r] at the
    first turn that has an answer or ends after the deadline. *)
Definition awaited (nn nr N : nat) (r : option (list Z)) : Prop :=
  exists k, (k <= N)%nat /\ r = answer_of sc id (k + nr) /\
    (forall j, (j < k)%nat ->
       answer_of sc id (j + nr) = None /\ clock sc (S (2 * j + nn)) < deadline) /\
    (r = None -> deadline <= clock sc (S (2 * k + nn))).

Lemma awaited_now nn nr N r :
  r = answer_of sc id nr -> (r = None -> deadline <= clock sc (S nn)) -> awaited nn nr N r.
Proof. intros. exists 0%nat. split_and!; [lia|done|lia|done]. Qed.

Lemma awaited_later nn nr N r :
  answer_of sc id nr = None -> clock sc (S nn) < deadline ->
  awaited (S (S nn)) (S nr) N r -> awaited nn nr (S N) r.
Proof.
  intros Ha Hc (k & Hk & Hr & Hj & Hl). exists (S k).
  assert (Hn : forall j, S (2 * S j + nn) = S (2 * j + S (S nn))) by lia.
  assert (Hs : forall j, (S j + nr = j + S nr)%nat) by lia.
  rewrite Hn, Hs. split_and!; [lia|done| |done].
  intros [|j] Hjk; [done|]. rewrite Hn, Hs. apply Hj. lia.
Qed.

Lemma wp_await_answer fuel N out nn nr nd ss ps sn :
  (N < fuel)%nat -> deadline <= clock sc (S (2 * N + nn)) ->
  wp (glue_ext sc) (await_answer fuel handle id deadline) out (World nn nr nd ss ps sn)
    (fun r out' w' => out' = out /\ sockets w' = ss /\ ports w' = ps /\ sent w' = sn /\
       awaited nn nr N r).
Proof.
  revert N nn nr. induction fuel as [|fuel IH]; intros N nn nr HN Hlate; [lia|].
  assert (Hcheck : answer_of sc id nr = None ->
    wp (glue_ext sc)
      (now ← call Now; if deadline <=? now then mret None else await_answer fuel handle id deadline)
      out (World (S nn) (S nr) nd ss ps sn)
      (fun r out' w' => out' = out /\ sockets w' = ss /\ ports w' = ps /\ sent w' = sn /\
         awaited nn nr N r)).
  { intros Hnone. rewrite wp_call. cbn [glue_ext fst snd]. case_test.
    - cbn. split_and!; [done..|]. by apply awaited_now.
    - destruct N as [|N]; [cbn in Hlate; lia|]. eapply wp_mono.
      + apply (IH N); [lia|]. by replace (2 * N + S (S nn))%nat with (2 * S N + nn)%nat by lia.
      + intros r out' w' (-> & -> & -> & -> & ?). split_and!; [done..|]. by apply awaited_later. }
  cbn [await_answer]. rewrite !wp_call. cbn [glue_ext fst snd].
  assert (Hans : answer_of sc id nr = pkt ← inbox sc nr;
    match parse_a_response pkt id with Returns r => r | _ => None end) by done.
  destruct (inbox sc nr) as [pkt|] eqn:Hpkt; [|by apply Hcheck].
  destruct (Hin _ _ Hpkt) as [Hb Hl]. cbn [mbind option_bind] in Hans.
  destruct (parse_returns pkt id Hb ltac:(lia)) as ([addr|] & Hp & _); rewrite Hp in *;
    [|by apply Hcheck].
  cbn. split_and!; [done..|]. by apply awaited_now.
Qed.
End await.

Lemma land_ones_range n x : 0 <= Z.land x (Z.ones (Z.of_nat n)) < 2 ^ Z.of_nat n.
Proof. rewrite Z.land_ones by lia. apply Z.mod_pos_bound, Z.pow_pos_nonneg; lia. Qed.

Lemma remove_notin (h : Z) hs : h ∉ hs -> List.remove Z.eq_dec h (h :: hs) = hs.
Proof.
  intros Hh. cbn. destruct (Z.eq_dec h h); [|done]. apply List.notin_remove.
  by rewrite <- list_elem_of_In.
Qed.

(** The resolver up to its polling loop and after it. *)
Lemma wp_resolve sc (Hin : inbox_ok sc) fuel h name server_be timeout_ms out_be out ss N query :
  is_null h = false -> is_null out_be = false -> utf8_valid (bytes_of name) = true ->
  parse_ipv4_addr name = None -> bind_err sc = false -> send_err sc = false -> fresh sc ∉ ss ->
  let deadline := clock sc 0 + timeout_ms * 1000 in
  let id := Z.land (rand sc 0) 65535 in
  (N < fuel)%nat -> deadline <= clock sc (2 * N + 2) -> build_query id name = Some query ->
  wp (glue_ext sc) (smoltcp_resolve fuel h (Some name) server_be timeout_ms out_be) out
    (World 0 0 0 ss [] []) (fun rc out' w' =>
      sent w' = [(query, le_split 4 server_be, 53)] /\
      ports w' = [49152 + Z.land (rand sc 1) 16383] /\ sockets w' = ss /\
      exists r, awaited sc id deadline 1 0 N r /\
        match r with Some addr => rc = 0 /\ out' = le_combine addr | None => rc = -1 /\ out' = out end).
Proof.
  intros Hh Ho Hu Hq Hbind Hsend Hfresh deadline id HN Hlate Hquery.
  assert (Hid : u16 (Z.land (rand sc 0) 65535) = id) by apply u16_small, (land_ones_range 16).
  pose proof (land_ones_range 14 (rand sc 1)) as Hport. change (0 <= Z.land (rand sc 1) 16383 < 16384) in Hport.
  assert (Hlocal : u16 (49152 + u16 (Z.land (rand sc 1) 16383)) = 49152 + Z.land (rand sc 1) 16383)
    by (rewrite (u16_small (Z.land _ _)), u16_small; lia).
  unfold smoltcp_resolve. rewrite Hh, Ho, Hu, Hq. cbn [orb negb].
  rewrite wp_call. cbn [glue_ext fst snd]. rewrite Hid, Hquery, !wp_call. cbn [glue_ext fst snd].
  rewrite Hbind, !wp_call. cbn [glue_ext fst snd]. rewrite Hsend, !wp_call. cbn [glue_ext fst snd].
  rewrite wp_bind. eapply wp_mono.
  { apply (wp_await_answer sc Hin id (fresh sc) _ fuel N); [done|].
    by replace (S (2 * N + 1)) with (2 * N + 2)%nat by lia. }
  intros r out' w' (-> & Hso & Hp & Hs & Haw). rewrite wp_call.
  destruct w' as [nn nr nd ss' ps sn]. cbn [sockets ports sent] in *. subst.
  cbn [glue_ext fst snd]. rewrite remove_notin, Hlocal by done.
  destruct r; cbn; (split_and!; [done..|by eexists]).
Qed.

(** The decimal notation of a byte as the strict parser and UTF-8 take it. *)
Lemma byte_decimal_strict b :
  byte_ok b ->
  strict_u8 (pretty (Z.to_N b)) = Some b /\
  forallb (fun c => c <? 128) (bytes_of (pretty (Z.to_N b))) = true.
Proof.
  intros Hb.
  set (good b := bool_decide (strict_u8 (pretty (Z.to_N b)) = Some b) &&
         forallb (fun c => c <? 128) (bytes_of (pretty (Z.to_N b)))).
  assert (Hg : good b = true) by by apply byte_forall.
  unfold good in Hg. zify_bools. split; [|done]. by eapply bool_decide_eq_true_1.
Qed.

Lemma parse_addr_dotted_quad a b c d :
  byte_ok a -> byte_ok b -> byte_ok c -> byte_ok d ->
  parse_ipv4_addr (dotted_quad [a; b; c; d]) = Some [a; b; c; d].
Proof.
  intros Ha Hb Hc Hd. unfold parse_ipv4_addr. rewrite split_dotted_quad by done.
  cbn [fmap list_fmap mapM]. destruct (byte_decimal_strict a Ha) as [-> _], (byte_decimal_strict b Hb) as [-> _],
    (byte_decimal_strict c Hc) as [-> _], (byte_decimal_strict d Hd) as [-> _]. done.
Qed.

Lemma utf8_ascii bs : forallb (fun c => c <? 128) bs = true -> utf8_valid bs = true.
Proof.
  induction bs as [|b bs IH]; [done|]. cbn [forallb utf8_valid].
  intros [-> Hbs]%andb_true_iff. by apply IH.
Qed.

Lemma bytes_of_app s t : bytes_of (s +:+ t) = bytes_of s ++ bytes_of t.
Proof.
  unfold bytes_of. rewrite <- fmap_app. f_equal. induction s as [|c s IH]; [done|].
  exact (f_equal (cons c) IH).
Qed.

Lemma utf8_dotted_quad a b c d :
  byte_ok a -> byte_ok b -> byte_ok c -> byte_ok d ->
  utf8_valid (bytes_of (dotted_quad [a; b; c; d])) = true.
Proof.
  intros Ha Hb Hc Hd. apply utf8_ascii. unfold dotted_quad. cbn [fmap list_fmap String.concat].
  rewrite !bytes_of_app, !forallb_app.
  destruct (byte_decimal_strict a Ha) as [_ ->], (byte_decimal_strict b Hb) as [_ ->],
    (byte_decimal_strict c Hc) as [_ ->], (byte_decimal_strict d Hd) as [_ ->]. done.
Qed.

(** ** Properties *)

(** C17. The query sent is the one meant. A query is built for exactly the names
    whose labels, between the dots, have 1 to 63 bytes. It is a message that a
    reference decoder reads back to the id, the recursion-desired flag, the
    name and the question for an A record of class IN, and it is 18 bytes
    longer than the name. *)
Theorem query_round_trip id name :
  0 <= id < 65536 ->
  match build_query id name with
  | Some query =>
      decode_query query = Some (Question id 256 name 1 1) /\
      len query = Z.of_nat (String.length name) + 18 /\ Forall byte_ok query /\
      Forall label_fits (split_dot name)
  | None => exists label, label ∈ split_dot name /\ ~ label_fits label
  end.
Proof.
  intros Hid. destruct (build_query id name) as [q|] eqn:Hq.
  - assert (Hl : Forall label_fits (split_dot name)).
    { unfold build_query in Hq. destruct (push_labels _ _) eqn:Hp; [|done]. by eapply push_labels_some. }
    destruct (decode_built_query id name Hid Hl) as (q' & Hq' & Hd). rewrite build_query_eq in * by done.
    simplify_eq. split_and!; try done.
    + rewrite !len_app, len_be_split, len_cons, len_encode_split.
      unfold len. cbn [length app]. lia.
    + apply Forall_app_2; [apply be_split_ok|].
      do 2 (apply Forall_app_2; [by repeat constructor|]).
      apply Forall_app_2; [|by repeat constructor].
      apply encode_labels_ok; [by apply labels_fit_ok|].
      apply Forall_fmap, Forall_forall. intros s _. apply bytes_of_ok.
  - unfold build_query in Hq. destruct (push_labels _ _) eqn:Hp; [done|]. by eapply push_labels_none.
Qed.

(** C15. A name is resolved or given up by the deadline. For a name that is not a
    dotted quad, when the socket takes the port and the query, and the clock has
    passed the deadline at the end of some turn, the resolver sends one query,
    to port 53 of the server, from a port of the dynamic range, and returns at
    the first turn that has an answer or ends after the deadline: 0 with the
    address of that answer, its first octet lowest in memory, or -1 with
    [*out_be] as it was. It leaves the core's socket set as it found it. *)
Theorem resolve_by_deadline sc fuel h name server_be timeout_ms out_be out ss N :
  is_null h = false -> is_null out_be = false -> utf8_valid (bytes_of name) = true ->
  parse_ipv4_addr name = None -> Forall label_fits (split_dot name) ->
  bind_err sc = false -> send_err sc = false -> inbox_ok sc -> fresh sc ∉ ss ->
  let deadline := clock sc 0 + timeout_ms * 1000 in
  let id := Z.land (rand sc 0) 65535 in
  (N < fuel)%nat -> deadline <= clock sc (2 * N + 2) ->
  exists rc out' w' query port k,
    run (glue_ext sc) (smoltcp_resolve fuel h (Some name) server_be timeout_ms out_be) out
      (World 0 0 0 ss [] []) = Some (rc, out', w') /\
    build_query id name = Some query /\ sent w' = [(query, le_split 4 server_be, 53)] /\
    ports w' = [port] /\ 49152 <= port < 65536 /\ sockets w' = ss /\
    (k <= N)%nat /\
    (forall j, (j < k)%nat ->
       answer_of sc id j = None /\ clock sc (2 * j + 2) < deadline) /\
    match answer_of sc id k with
    | Some addr => rc = 0 /\ out' = le_combine addr
    | None => rc = -1 /\ out' = out /\ deadline <= clock sc (2 * k + 2)
    end.
Proof.
  intros Hh Ho Hu Hq Hl Hbind Hsend Hin Hfresh deadline id HN Hlate.
  assert (Hid : 0 <= id < 65536) by apply (land_ones_range 16 (rand sc 0)).
  destruct (decode_built_query id name Hid Hl) as (query & Hquery & _).
  assert (Hwp := wp_resolve sc Hin fuel h name server_be timeout_ms out_be out ss N query
    Hh Ho Hu Hq Hbind Hsend Hfresh HN Hlate Hquery).
  apply wp_run in Hwp as
    (rc & out' & w' & Hr & Hs & Hp & Hso & r & (k & Hk & -> & Hj & Hd) & Hres).
  rewrite !Nat.add_0_r in *.
  assert (Hn : forall j, S (2 * j + 1) = (2 * j + 2)%nat) by lia. rewrite Hn in Hd.
  exists rc, out', w', query, (49152 + Z.land (rand sc 1) 16383), k.
  pose proof (land_ones_range 14 (rand sc 1)) as Hport. change (0 <= Z.land (rand sc 1) 16383 < 16384) in Hport.
  split_and!; try done; [lia..| |].
  - intros j Hjk. specialize (Hj j Hjk). by rewrite Nat.add_0_r, Hn in Hj.
  - fold id in Hres, Hd. destruct (answer_of sc id k); [done|]. split_and!; [apply Hres..|auto].
Qed.

(** A dotted quad is resolved without a query: the result is 0 with the
    address whose octets the core reads in the order written. (The address
    parser of [lib.rs] gives them in the reverse order.) *)
Theorem resolve_dotted_quad sc fuel h a b c d server_be timeout_ms out_be out w :
  is_null h = false -> is_null out_be = false ->
  byte_ok a -> byte_ok b -> byte_ok c -> byte_ok d ->
  exists addr,
    run (glue_ext sc)
      (smoltcp_resolve fuel h (Some (dotted_quad [a; b; c; d])) server_be timeout_ms out_be) out w
      = Some (0, addr, w) /\
    ipv4_from_be addr = [a; b; c; d] /\
    ipv4_from_be <$> smoltcp_parse_ipv4 (dotted_quad [a; b; c; d]) = Some [d; c; b; a].
Proof.
  intros Hh Ho Ha Hb Hc Hd. exists (le_combine [a; b; c; d]).
  assert (Hall : Forall byte_ok [a; b; c; d]) by (repeat (apply Forall_cons_2; [done|]); constructor).
  split_and!.
  - unfold smoltcp_resolve. rewrite Hh, Ho, utf8_dotted_quad, parse_addr_dotted_quad by done. done.
  - by apply ipv4_from_to_be.
  - rewrite parse_dotted_quad by done.
    change (Some (ipv4_from_be (be_combine [a; b; c; d])) = Some [d; c; b; a]).
    by rewrite ipv4_from_be_parsed.
Qed.

(** ** Witnesses *)

Lemma query_round_trip_witness :
  exists q, build_query 4660 "a.bc" = Some q /\ decode_query q = Some (Question 4660 256 "a.bc" 1 1).
Proof.
  pose proof (query_round_trip 4660 "a.bc" ltac:(lia)) as H.
  eexists. split; [reflexivity|]. exact (proj1 H).
Defined.

(** One datagram, with the response, at the second turn. *)
Definition sample_script : script :=
  Script (fun n => 1000 * Z.of_nat n)
    (fun n => if (n =? 1)%nat then Some (encode_message sample_message) else None)
    (fun _ => 4660) false false 9.

Lemma resolve_by_deadline_witness :
  exists out' w', run (glue_ext sample_script) (smoltcp_resolve 10 5 (Some "a.bc"%string) 16843009 5 8)
    0 (World 0 0 0 [3] [] []) = Some (0, out', w') /\ ipv4_from_be out' = [10; 0; 0; 7] /\
    sockets w' = [3].
Proof.
  destruct (resolve_by_deadline sample_script 10 5 "a.bc" 16843009 5 8 0 [3] 3)
    as (rc & out' & w' & q & port & k & Hr & _ & _ & _ & _ & Hso & Hk & _ & Hres).
  - reflexivity.
  - reflexivity.
  - reflexivity.
  - reflexivity.
  - repeat constructor.
  - reflexivity.
  - reflexivity.
  - intros [|[|n]] pkt; cbn [inbox sample_script Nat.eqb]; intros [= <-]. split.
    + repeat (apply Forall_cons_2; [split; [done|reflexivity]|]). constructor.
    + vm_compute. done.
  - intros H%list_elem_of_In. destruct H as [H|[]]. discriminate H.
  - lia.
  - vm_compute. done.
  - assert (Hrun : run (glue_ext sample_script)
      (smoltcp_resolve 10 5 (Some "a.bc"%string) 16843009 5 8) 0 (World 0 0 0 [3] [] [])
      = Some (0, le_combine [10; 0; 0; 7], World 4 2 2 [3] [53812]
          [([18; 52; 1; 0; 0; 1; 0; 0; 0; 0; 0; 0; 1; 97; 2; 98; 99; 0; 0; 1; 0; 1], [1; 1; 1; 1], 53)]))
      by (vm_compute; reflexivity).
    rewrite Hrun in Hr. injection Hr as <- <- <-.
    eexists _, _. split; [exact Hrun|]. split; [reflexivity|reflexivity].
Defined.

Lemma resolve_dotted_quad_witness :
  exists addr, run (glue_ext sample_script)
    (smoltcp_resolve 0 5 (Some (dotted_quad [192; 168; 1; 7])) 0 0 8) 0 (World 0 0 0 [] [] [])
    = Some (0, addr, World 0 0 0 [] [] []) /\ ipv4_from_be addr = [192; 168; 1; 7].
Proof.
  destruct (resolve_dotted_quad sample_script 0 5 192 168 1 7 0 0 8 0 (World 0 0 0 [] [] []))
    as (addr & Hr & Ha & _); try reflexivity; try (split; [done|reflexivity]).
  exists addr. split; [exact Hr|exact Ha].
Defined.
