(* ===== verification/Types.v ===== *)
(** * Data of the program

    The structs, enums and static variables of
    [components/esp_smoltcp/src/esp_smoltcp_internal.h],
    [components/esp_smoltcp/include/esp_smoltcp.h],
    [components/esp_smoltcp/src/esp_smoltcp.c],
    [components/esp_smoltcp_lwip_compat/src/fd_table.h],
    [components/esp_smoltcp_lwip_compat/src/loopback.c] and the other files of
    the lwIP shim, with one setter per field, and the build-time
    configuration of the two [Kconfig] files. *)

From S2P Require Import Prelude Prog.

(** ** Configuration ([sdkconfig]) *)

(** The interface-enumeration mode the esp_netif shim tests for. *)
Inductive netif_mode := MODE_NONE | MODE_ETH | MODE_WIFI | MODE_DUAL.

(** The options of [components/esp_smoltcp/Kconfig] and
    [components/esp_smoltcp_lwip_compat/Kconfig] that the code reads. *)
Class Config := {
  FRAME_POOL_SIZE : nat;          (* CONFIG_NETSTACK_FRAME_POOL_SIZE *)
  RX_QUEUE_DEPTH : nat;           (* CONFIG_NETSTACK_RX_QUEUE_DEPTH *)
  DHCPV4_CLIENT : bool;           (* CONFIG_NETSTACK_DHCPV4_CLIENT *)
  STATIC_IP : string;             (* CONFIG_NETSTACK_STATIC_IP *)
  STATIC_GW : string;             (* CONFIG_NETSTACK_STATIC_GW *)
  DNS_PRIMARY : string;           (* CONFIG_NETSTACK_DNS_PRIMARY *)
  PTP : bool;                     (* CONFIG_NETSTACK_PTP *)
  NTP_SERVER : string;            (* CONFIG_NETSTACK_NTP_SERVER *)
  NTP_POLL_SECONDS : Z;           (* CONFIG_NETSTACK_NTP_POLL_SECONDS *)
  MAX_FDS : nat;                  (* CONFIG_LWIP_COMPAT_MAX_FDS *)
  LISTENER_POOL : Z;              (* CONFIG_LWIP_COMPAT_LISTENER_POOL *)
  DNS_TIMEOUT_MS : Z;             (* CONFIG_LWIP_COMPAT_DNS_TIMEOUT_MS *)
  DEFAULT_IFACE_ETH : bool;       (* CONFIG_LWIP_COMPAT_DEFAULT_IFACE_ETH *)
  NETIF_MODE : netif_mode;        (* CONFIG_NETSTACK_MODE_{DUAL,ETH,WIFI} *)
  APP_HOSTNAME : string;          (* CONFIG_APP_HOSTNAME *)
}.

(** The defaults of the two [Kconfig] files. No [Kconfig] defines a
    [CONFIG_NETSTACK_MODE_*] symbol, and the host name falls back to the one
    [esp_netif_shim.c] defines. *)
Definition kconfig_default : Config := {|
  FRAME_POOL_SIZE := 64;
  RX_QUEUE_DEPTH := 32;
  DHCPV4_CLIENT := true;
  STATIC_IP := "192.168.1.50";
  STATIC_GW := "192.168.1.1";
  DNS_PRIMARY := "1.1.1.1";
  PTP := false;
  NTP_SERVER := "162.159.200.1";
  NTP_POLL_SECONDS := 3600;
  MAX_FDS := 32;
  LISTENER_POOL := 8;
  DNS_TIMEOUT_MS := 3000;
  DEFAULT_IFACE_ETH := true;
  NETIF_MODE := MODE_NONE;
  APP_HOSTNAME := "espressif";
|}.

(** The ranges the [Kconfig] files impose. *)
Class ConfigOk (cfg : Config) : Prop := {
  max_fds_range : (4 <= MAX_FDS <= 64)%nat;
  listener_pool_range : 1 <= LISTENER_POOL <= 16;
}.

#[export] Instance kconfig_default_ok : ConfigOk kconfig_default.
Proof. split; cbn; lia. Qed.

(** ** Error codes *)

(** [esp_err_t]: the codes the code returns or tests, and any other one. *)
Inductive esp_err :=
  | ESP_OK | ESP_FAIL | ESP_ERR_NO_MEM | ESP_ERR_INVALID_ARG
  | ESP_ERR_INVALID_STATE | ESP_ERR_NOT_FOUND | ESP_ERR_TIMEOUT
  | ESP_ERR_OTHER (code : Z).

#[export] Instance esp_err_eq_dec : EqDecision esp_err.
Proof. solve_decision. Defined.

(** The values the shim stores in [errno]. *)
Inductive errno_code :=
  | EAFNOSUPPORT | EPROTONOSUPPORT | ENFILE | ENOBUFS | EINVAL | EADDRINUSE
  | EBADF | ENOMEM | EWOULDBLOCK | ETIMEDOUT | ENOTCONN | EOPNOTSUPP.

#[export] Instance errno_code_eq_dec : EqDecision errno_code.
Proof. solve_decision. Defined.

(** ** Interfaces and events *)

Abbreviation net_iface_id := nat (only parsing).

Definition NET_IFACE_ETH : net_iface_id := 0%nat.

Definition NET_IFACE_WIFI : net_iface_id := 1%nat.

Definition NET_IFACE_MAX : nat := 2%nat.

Inductive net_event :=
  | NET_EVT_IFACE_UP | NET_EVT_IFACE_DOWN | NET_EVT_GOT_IP | NET_EVT_LOST_IP
  | NET_EVT_NTP_SYNCED.

#[export] Instance net_event_eq_dec : EqDecision net_event.
Proof. solve_decision. Defined.

(** [l2_tx_fn]: the only transmit function the program defines. *)
Inductive l2_tx_fn := eth_tx_fn.

(** [struct net_iface_s] *)
Record net_iface := NetIface {
  if_id : net_iface_id;
  enabled : bool;
  link_up : bool;
  ip_up : bool;
  mac : list Z;
  rx_queue : ptr;  (* of net_frame_t* *)
  tx : option l2_tx_fn;
  smoltcp_handle : ptr;
  rx_frames : Z;  (* u32 *)
  rx_bytes : Z;  (* u64 *)
  rx_drops : Z;  (* u32 *)
  tx_frames : Z;  (* u32 *)
  tx_bytes : Z;  (* u64 *)
  tx_fails : Z;  (* u32 *)
  link_ups : Z;  (* u32 *)
  link_downs : Z  (* u32 *)
}.

Definition set_if_id (v : net_iface_id) (r : net_iface) : net_iface :=
  NetIface v (enabled r) (link_up r) (ip_up r) (mac r) (rx_queue r) (tx r)
    (smoltcp_handle r) (rx_frames r) (rx_bytes r) (rx_drops r) (tx_frames r)
    (tx_bytes r) (tx_fails r) (link_ups r) (link_downs r).

Definition set_enabled (v : bool) (r : net_iface) : net_iface :=
  NetIface (if_id r) v (link_up r) (ip_up r) (mac r) (rx_queue r) (tx r)
    (smoltcp_handle r) (rx_frames r) (rx_bytes r) (rx_drops r) (tx_frames r)
    (tx_bytes r) (tx_fails r) (link_ups r) (link_downs r).

Definition set_link_up (v : bool) (r : net_iface) : net_iface :=
  NetIface (if_id r) (enabled r) v (ip_up r) (mac r) (rx_queue r) (tx r)
    (smoltcp_handle r) (rx_frames r) (rx_bytes r) (rx_drops r) (tx_frames r)
    (tx_bytes r) (tx_fails r) (link_ups r) (link_downs r).

Definition set_ip_up (v : bool) (r : net_iface) : net_iface :=
  NetIface (if_id r) (enabled r) (link_up r) v (mac r) (rx_queue r) (tx r)
    (smoltcp_handle r) (rx_frames r) (rx_bytes r) (rx_drops r) (tx_frames r)
    (tx_bytes r) (tx_fails r) (link_ups r) (link_downs r).

Definition set_mac (v : list Z) (r : net_iface) : net_iface :=
  NetIface (if_id r) (enabled r) (link_up r) (ip_up r) v (rx_queue r) (tx r)
    (smoltcp_handle r) (rx_frames r) (rx_bytes r) (rx_drops r) (tx_frames r)
    (tx_bytes r) (tx_fails r) (link_ups r) (link_downs r).

Definition set_rx_queue (v : ptr) (r : net_iface) : net_iface :=
  NetIface (if_id r) (enabled r) (link_up r) (ip_up r) (mac r) v (tx r)
    (smoltcp_handle r) (rx_frames r) (rx_bytes r) (rx_drops r) (tx_frames r)
    (tx_bytes r) (tx_fails r) (link_ups r) (link_downs r).

Definition set_tx (v : option l2_tx_fn) (r : net_iface) : net_iface :=
  NetIface (if_id r) (enabled r) (link_up r) (ip_up r) (mac r) (rx_queue r) v
    (smoltcp_handle r) (rx_frames r) (rx_bytes r) (rx_drops r) (tx_frames r)
    (tx_bytes r) (tx_fails r) (link_ups r) (link_downs r).

Definition set_smoltcp_handle (v : ptr) (r : net_iface) : net_iface :=
  NetIface (if_id r) (enabled r) (link_up r) (ip_up r) (mac r) (rx_queue r) (tx r) v
    (rx_frames r) (rx_bytes r) (rx_drops r) (tx_frames r) (tx_bytes r) (tx_fails r)
    (link_ups r) (link_downs r).

Definition set_rx_frames (v : Z) (r : net_iface) : net_iface :=
  NetIface (if_id r) (enabled r) (link_up r) (ip_up r) (mac r) (rx_queue r) (tx r)
    (smoltcp_handle r) v (rx_bytes r) (rx_drops r) (tx_frames r) (tx_bytes r)
    (tx_fails r) (link_ups r) (link_downs r).

Definition set_rx_bytes (v : Z) (r : net_iface) : net_iface :=
  NetIface (if_id r) (enabled r) (link_up r) (ip_up r) (mac r) (rx_queue r) (tx r)
    (smoltcp_handle r) (rx_frames r) v (rx_drops r) (tx_frames r) (tx_bytes r)
    (tx_fails r) (link_ups r) (link_downs r).

Definition set_rx_drops (v : Z) (r : net_iface) : net_iface :=
  NetIface (if_id r) (enabled r) (link_up r) (ip_up r) (mac r) (rx_queue r) (tx r)
    (smoltcp_handle r) (rx_frames r) (rx_bytes r) v (tx_frames r) (tx_bytes r)
    (tx_fails r) (link_ups r) (link_downs r).

Definition set_tx_frames (v : Z) (r : net_iface) : net_iface :=
  NetIface (if_id r) (enabled r) (link_up r) (ip_up r) (mac r) (rx_queue r) (tx r)
    (smoltcp_handle r) (rx_frames r) (rx_bytes r) (rx_drops r) v (tx_bytes r)
    (tx_fails r) (link_ups r) (link_downs r).

Definition set_tx_bytes (v : Z) (r : net_iface) : net_iface :=
  NetIface (if_id r) (enabled r) (link_up r) (ip_up r) (mac r) (rx_queue r) (tx r)
    (smoltcp_handle r) (rx_frames r) (rx_bytes r) (rx_drops r) (tx_frames r) v
    (tx_fails r) (link_ups r) (link_downs r).

Definition set_tx_fails (v : Z) (r : net_iface) : net_iface :=
  NetIface (if_id r) (enabled r) (link_up r) (ip_up r) (mac r) (rx_queue r) (tx r)
    (smoltcp_handle r) (rx_frames r) (rx_bytes r) (rx_drops r) (tx_frames r)
    (tx_bytes r) v (link_ups r) (link_downs r).

Definition set_link_ups (v : Z) (r : net_iface) : net_iface :=
  NetIface (if_id r) (enabled r) (link_up r) (ip_up r) (mac r) (rx_queue r) (tx r)
    (smoltcp_handle r) (rx_frames r) (rx_bytes r) (rx_drops r) (tx_frames r)
    (tx_bytes r) (tx_fails r) v (link_downs r).

Definition set_link_downs (v : Z) (r : net_iface) : net_iface :=
  NetIface (if_id r) (enabled r) (link_up r) (ip_up r) (mac r) (rx_queue r) (tx r)
    (smoltcp_handle r) (rx_frames r) (rx_bytes r) (rx_drops r) (tx_frames r)
    (tx_bytes r) (tx_fails r) (link_ups r) v.

(** A zero-initialised static [net_iface_t]. *)
Definition net_iface_zero : net_iface :=
  NetIface 0%nat false false false [0; 0; 0; 0; 0; 0] NULL None NULL 0 0 0 0 0 0 0 0.

#[export] Instance net_iface_inhabited : Inhabited net_iface := populate net_iface_zero.

(** [esp_smoltcp_stats_t] *)
Record iface_stats := IfaceStats {
  st_rx_frames : Z;  (* u32 *)
  st_rx_bytes : Z;  (* u64 *)
  st_rx_drops : Z;  (* u32 *)
  st_tx_frames : Z;  (* u32 *)
  st_tx_bytes : Z;  (* u64 *)
  st_tx_fails : Z;  (* u32 *)
  st_link_ups : Z;  (* u32 *)
  st_link_downs : Z;  (* u32 *)
  st_active_sockets : Z  (* u32 *)
}.

Definition NET_FRAME_BUF : Z := 1536.

(** [net_frame_t]: [data] is the fixed buffer of [NET_FRAME_BUF] bytes. *)
Record net_frame := NetFrame {
  len : Z;
  hw_ts_ns : Z;
  data : list Z
}.

Definition set_len (v : Z) (r : net_frame) : net_frame :=
  NetFrame v (hw_ts_ns r) (data r).

Definition set_hw_ts_ns (v : Z) (r : net_frame) : net_frame :=
  NetFrame (len r) v (data r).

Definition set_data (v : list Z) (r : net_frame) : net_frame :=
  NetFrame (len r) (hw_ts_ns r) v.

Definition net_frame_zero : net_frame :=
  NetFrame 0 0 (replicate (Z.to_nat NET_FRAME_BUF) 0).

#[export] Instance net_frame_inhabited : Inhabited net_frame := populate net_frame_zero.

(** The bytes of the frame: the first [len] of the buffer. *)
Definition frame_bytes (f : net_frame) : list Z := take (Z.to_nat (len f)) (data f).

(** [l2_tap_t] *)
Record l2_tap := L2Tap {
  ethertype : Z;  (* host order; 0 = unused slot *)
  tap_cb : ptr;
  tap_user : ptr
}.

Definition set_ethertype (v : Z) (r : l2_tap) : l2_tap :=
  L2Tap v (tap_cb r) (tap_user r).

Definition set_tap_cb (v : ptr) (r : l2_tap) : l2_tap :=
  L2Tap (ethertype r) v (tap_user r).

Definition set_tap_user (v : ptr) (r : l2_tap) : l2_tap :=
  L2Tap (ethertype r) (tap_cb r) v.

Definition l2_tap_zero : l2_tap := L2Tap 0 NULL NULL.

#[export] Instance l2_tap_inhabited : Inhabited l2_tap := populate l2_tap_zero.

Definition L2_TAP_SLOTS : nat := 4%nat.

(** The static variables of [esp_smoltcp.c]. The frame queue of the pool, the
    event groups and the tasks are handles; a mutex is known by its name, so
    only whether it has been created is kept. *)
Record net_statics := NetStatics {
  s_ifaces : list net_iface;  (* [NET_IFACE_MAX] *)
  s_evt : ptr;
  s_task : ptr;
  s_user_cb : ptr;
  s_user_cb_arg : ptr;
  g_smoltcp_lock : bool;
  s_progress_evt : ptr;
  s_frame_pool : list net_frame;  (* [POOL_SZ] *)
  s_frame_free_q : ptr;
  s_frame_alloc_fail : Z;  (* u32 *)
  s_taps : list l2_tap;  (* [L2_TAP_SLOTS] *)
  net_inited : bool;  (* of net_stack_init *)
  s_eth_handle : ptr
}.

Definition set_s_ifaces (v : list net_iface) (r : net_statics) : net_statics :=
  NetStatics v (s_evt r) (s_task r) (s_user_cb r) (s_user_cb_arg r) (g_smoltcp_lock
    r) (s_progress_evt r) (s_frame_pool r) (s_frame_free_q r) (s_frame_alloc_fail r)
    (s_taps r) (net_inited r) (s_eth_handle r).

Definition set_s_evt (v : ptr) (r : net_statics) : net_statics :=
  NetStatics (s_ifaces r) v (s_task r) (s_user_cb r) (s_user_cb_arg r)
    (g_smoltcp_lock r) (s_progress_evt r) (s_frame_pool r) (s_frame_free_q r)
    (s_frame_alloc_fail r) (s_taps r) (net_inited r) (s_eth_handle r).

Definition set_s_task (v : ptr) (r : net_statics) : net_statics :=
  NetStatics (s_ifaces r) (s_evt r) v (s_user_cb r) (s_user_cb_arg r)
    (g_smoltcp_lock r) (s_progress_evt r) (s_frame_pool r) (s_frame_free_q r)
    (s_frame_alloc_fail r) (s_taps r) (net_inited r) (s_eth_handle r).

Definition set_s_user_cb (v : ptr) (r : net_statics) : net_statics :=
  NetStatics (s_ifaces r) (s_evt r) (s_task r) v (s_user_cb_arg r) (g_smoltcp_lock
    r) (s_progress_evt r) (s_frame_pool r) (s_frame_free_q r) (s_frame_alloc_fail r)
    (s_taps r) (net_inited r) (s_eth_handle r).

Definition set_s_user_cb_arg (v : ptr) (r : net_statics) : net_statics :=
  NetStatics (s_ifaces r) (s_evt r) (s_task r) (s_user_cb r) v (g_smoltcp_lock r)
    (s_progress_evt r) (s_frame_pool r) (s_frame_free_q r) (s_frame_alloc_fail r)
    (s_taps r) (net_inited r) (s_eth_handle r).

Definition set_g_smoltcp_lock (v : bool) (r : net_statics) : net_statics :=
  NetStatics (s_ifaces r) (s_evt r) (s_task r) (s_user_cb r) (s_user_cb_arg r) v
    (s_progress_evt r) (s_frame_pool r) (s_frame_free_q r) (s_frame_alloc_fail r)
    (s_taps r) (net_inited r) (s_eth_handle r).

Definition set_s_progress_evt (v : ptr) (r : net_statics) : net_statics :=
  NetStatics (s_ifaces r) (s_evt r) (s_task r) (s_user_cb r) (s_user_cb_arg r)
    (g_smoltcp_lock r) v (s_frame_pool r) (s_frame_free_q r) (s_frame_alloc_fail r)
    (s_taps r) (net_inited r) (s_eth_handle r).

Definition set_s_frame_pool (v : list net_frame) (r : net_statics) : net_statics :=
  NetStatics (s_ifaces r) (s_evt r) (s_task r) (s_user_cb r) (s_user_cb_arg r)
    (g_smoltcp_lock r) (s_progress_evt r) v (s_frame_free_q r) (s_frame_alloc_fail
    r) (s_taps r) (net_inited r) (s_eth_handle r).

Definition set_s_frame_free_q (v : ptr) (r : net_statics) : net_statics :=
  NetStatics (s_ifaces r) (s_evt r) (s_task r) (s_user_cb r) (s_user_cb_arg r)
    (g_smoltcp_lock r) (s_progress_evt r) (s_frame_pool r) v (s_frame_alloc_fail r)
    (s_taps r) (net_inited r) (s_eth_handle r).

Definition set_s_frame_alloc_fail (v : Z) (r : net_statics) : net_statics :=
  NetStatics (s_ifaces r) (s_evt r) (s_task r) (s_user_cb r) (s_user_cb_arg r)
    (g_smoltcp_lock r) (s_progress_evt r) (s_frame_pool r) (s_frame_free_q r) v
    (s_taps r) (net_inited r) (s_eth_handle r).

Definition set_s_taps (v : list l2_tap) (r : net_statics) : net_statics :=
  NetStatics (s_ifaces r) (s_evt r) (s_task r) (s_user_cb r) (s_user_cb_arg r)
    (g_smoltcp_lock r) (s_progress_evt r) (s_frame_pool r) (s_frame_free_q r)
    (s_frame_alloc_fail r) v (net_inited r) (s_eth_handle r).

Definition set_net_inited (v : bool) (r : net_statics) : net_statics :=
  NetStatics (s_ifaces r) (s_evt r) (s_task r) (s_user_cb r) (s_user_cb_arg r)
    (g_smoltcp_lock r) (s_progress_evt r) (s_frame_pool r) (s_frame_free_q r)
    (s_frame_alloc_fail r) (s_taps r) v (s_eth_handle r).

Definition set_s_eth_handle (v : ptr) (r : net_statics) : net_statics :=
  NetStatics (s_ifaces r) (s_evt r) (s_task r) (s_user_cb r) (s_user_cb_arg r)
    (g_smoltcp_lock r) (s_progress_evt r) (s_frame_pool r) (s_frame_free_q r)
    (s_frame_alloc_fail r) (s_taps r) (net_inited r) v.

Definition net_statics_zero `{Config} : net_statics :=
  NetStatics (replicate NET_IFACE_MAX net_iface_zero) NULL NULL NULL NULL false NULL
    (replicate FRAME_POOL_SIZE net_frame_zero) NULL 0
    (replicate L2_TAP_SLOTS l2_tap_zero) false NULL.

(** ** The lwIP shim *)

Inductive fd_kind := FD_FREE | FD_TCP | FD_UDP | FD_TCP_LISTEN.

#[export] Instance fd_kind_eq_dec : EqDecision fd_kind.
Proof. solve_decision. Defined.

(** [fd_entry_t]. [pool] is the array the listener allocated, or [NULL], and
    [pool_socks] its contents; sockets ([net_sock_t]) are their 32-bit ids. *)
Record fd_entry := FdEntry {
  kind : fd_kind;
  nonblocking : bool;
  connected : bool;
  loopback : bool;
  lo_rx : ptr;  (* queue of lo_msg_t* *)
  rcv_timeout_ms : Z;  (* u32 *)
  snd_timeout_ms : Z;  (* u32 *)
  sock : Z;  (* net_sock_t *)
  pool : ptr;
  pool_socks : list Z;  (* the array pool points to *)
  pool_len : nat;
  pool_next : nat;
  port : Z;  (* u16 *)
  local_ipv4_be : Z;  (* u32 *)
  local_port : Z;  (* u16 *)
  fd_iface : net_iface_id;
  evt : ptr
}.

Definition set_kind (v : fd_kind) (r : fd_entry) : fd_entry :=
  FdEntry v (nonblocking r) (connected r) (loopback r) (lo_rx r) (rcv_timeout_ms r)
    (snd_timeout_ms r) (sock r) (pool r) (pool_socks r) (pool_len r) (pool_next r)
    (port r) (local_ipv4_be r) (local_port r) (fd_iface r) (evt r).

Definition set_nonblocking (v : bool) (r : fd_entry) : fd_entry :=
  FdEntry (kind r) v (connected r) (loopback r) (lo_rx r) (rcv_timeout_ms r)
    (snd_timeout_ms r) (sock r) (pool r) (pool_socks r) (pool_len r) (pool_next r)
    (port r) (local_ipv4_be r) (local_port r) (fd_iface r) (evt r).

Definition set_connected (v : bool) (r : fd_entry) : fd_entry :=
  FdEntry (kind r) (nonblocking r) v (loopback r) (lo_rx r) (rcv_timeout_ms r)
    (snd_timeout_ms r) (sock r) (pool r) (pool_socks r) (pool_len r) (pool_next r)
    (port r) (local_ipv4_be r) (local_port r) (fd_iface r) (evt r).

Definition set_loopback (v : bool) (r : fd_entry) : fd_entry :=
  FdEntry (kind r) (nonblocking r) (connected r) v (lo_rx r) (rcv_timeout_ms r)
    (snd_timeout_ms r) (sock r) (pool r) (pool_socks r) (pool_len r) (pool_next r)
    (port r) (local_ipv4_be r) (local_port r) (fd_iface r) (evt r).

Definition set_lo_rx (v : ptr) (r : fd_entry) : fd_entry :=
  FdEntry (kind r) (nonblocking r) (connected r) (loopback r) v (rcv_timeout_ms r)
    (snd_timeout_ms r) (sock r) (pool r) (pool_socks r) (pool_len r) (pool_next r)
    (port r) (local_ipv4_be r) (local_port r) (fd_iface r) (evt r).

Definition set_rcv_timeout_ms (v : Z) (r : fd_entry) : fd_entry :=
  FdEntry (kind r) (nonblocking r) (connected r) (loopback r) (lo_rx r) v
    (snd_timeout_ms r) (sock r) (pool r) (pool_socks r) (pool_len r) (pool_next r)
    (port r) (local_ipv4_be r) (local_port r) (fd_iface r) (evt r).

Definition set_snd_timeout_ms (v : Z) (r : fd_entry) : fd_entry :=
  FdEntry (kind r) (nonblocking r) (connected r) (loopback r) (lo_rx r)
    (rcv_timeout_ms r) v (sock r) (pool r) (pool_socks r) (pool_len r) (pool_next r)
    (port r) (local_ipv4_be r) (local_port r) (fd_iface r) (evt r).

Definition set_sock (v : Z) (r : fd_entry) : fd_entry :=
  FdEntry (kind r) (nonblocking r) (connected r) (loopback r) (lo_rx r)
    (rcv_timeout_ms r) (snd_timeout_ms r) v (pool r) (pool_socks r) (pool_len r)
    (pool_next r) (port r) (local_ipv4_be r) (local_port r) (fd_iface r) (evt r).

Definition set_pool (v : ptr) (r : fd_entry) : fd_entry :=
  FdEntry (kind r) (nonblocking r) (connected r) (loopback r) (lo_rx r)
    (rcv_timeout_ms r) (snd_timeout_ms r) (sock r) v (pool_socks r) (pool_len r)
    (pool_next r) (port r) (local_ipv4_be r) (local_port r) (fd_iface r) (evt r).

Definition set_pool_socks (v : list Z) (r : fd_entry) : fd_entry :=
  FdEntry (kind r) (nonblocking r) (connected r) (loopback r) (lo_rx r)
    (rcv_timeout_ms r) (snd_timeout_ms r) (sock r) (pool r) v (pool_len r)
    (pool_next r) (port r) (local_ipv4_be r) (local_port r) (fd_iface r) (evt r).

Definition set_pool_len (v : nat) (r : fd_entry) : fd_entry :=
  FdEntry (kind r) (nonblocking r) (connected r) (loopback r) (lo_rx r)
    (rcv_timeout_ms r) (snd_timeout_ms r) (sock r) (pool r) (pool_socks r) v
    (pool_next r) (port r) (local_ipv4_be r) (local_port r) (fd_iface r) (evt r).

Definition set_pool_next (v : nat) (r : fd_entry) : fd_entry :=
  FdEntry (kind r) (nonblocking r) (connected r) (loopback r) (lo_rx r)
    (rcv_timeout_ms r) (snd_timeout_ms r) (sock r) (pool r) (pool_socks r) (pool_len
    r) v (port r) (local_ipv4_be r) (local_port r) (fd_iface r) (evt r).

Definition set_port (v : Z) (r : fd_entry) : fd_entry :=
  FdEntry (kind r) (nonblocking r) (connected r) (loopback r) (lo_rx r)
    (rcv_timeout_ms r) (snd_timeout_ms r) (sock r) (pool r) (pool_socks r) (pool_len
    r) (pool_next r) v (local_ipv4_be r) (local_port r) (fd_iface r) (evt r).

Definition set_local_ipv4_be (v : Z) (r : fd_entry) : fd_entry :=
  FdEntry (kind r) (nonblocking r) (connected r) (loopback r) (lo_rx r)
    (rcv_timeout_ms r) (snd_timeout_ms r) (sock r) (pool r) (pool_socks r) (pool_len
    r) (pool_next r) (port r) v (local_port r) (fd_iface r) (evt r).

Definition set_local_port (v : Z) (r : fd_entry) : fd_entry :=
  FdEntry (kind r) (nonblocking r) (connected r) (loopback r) (lo_rx r)
    (rcv_timeout_ms r) (snd_timeout_ms r) (sock r) (pool r) (pool_socks r) (pool_len
    r) (pool_next r) (port r) (local_ipv4_be r) v (fd_iface r) (evt r).

Definition set_fd_iface (v : net_iface_id) (r : fd_entry) : fd_entry :=
  FdEntry (kind r) (nonblocking r) (connected r) (loopback r) (lo_rx r)
    (rcv_timeout_ms r) (snd_timeout_ms r) (sock r) (pool r) (pool_socks r) (pool_len
    r) (pool_next r) (port r) (local_ipv4_be r) (local_port r) v (evt r).

Definition set_evt (v : ptr) (r : fd_entry) : fd_entry :=
  FdEntry (kind r) (nonblocking r) (connected r) (loopback r) (lo_rx r)
    (rcv_timeout_ms r) (snd_timeout_ms r) (sock r) (pool r) (pool_socks r) (pool_len
    r) (pool_next r) (port r) (local_ipv4_be r) (local_port r) (fd_iface r) v.

Definition fd_entry_zero : fd_entry :=
  FdEntry FD_FREE false false false NULL 0 0 0 NULL [] 0 0 0 0 0 0 NULL.

#[export] Instance fd_entry_inhabited : Inhabited fd_entry := populate fd_entry_zero.

(** The static variables of [fd_table.c]. *)
Record fd_statics := FdStatics {
  s_table : list fd_entry;  (* [MAX_FDS] *)
  fd_s_lock : bool
}.

Definition set_s_table (v : list fd_entry) (r : fd_statics) : fd_statics :=
  FdStatics v (fd_s_lock r).

Definition set_fd_s_lock (v : bool) (r : fd_statics) : fd_statics :=
  FdStatics (s_table r) v.
(** [lo_msg_t]: one queued loopback datagram. *)
Record lo_msg := LoMsg {
  src_be : Z;
  src_port : Z;
  lo_len : Z;  (* u16 *)
  lo_data : list Z
}.
(** [lo_slot_t]; [slot_fd] points into [s_table]. *)
Record lo_slot := LoSlot {
  slot_port : Z;  (* 0 = slot free *)
  slot_fd : option nat
}.

Definition set_slot_fd (v : option nat) (r : lo_slot) : lo_slot :=
  LoSlot (slot_port r) v.

Definition lo_slot_zero : lo_slot := LoSlot 0 None.

#[export] Instance lo_msg_inhabited : Inhabited lo_msg := populate (LoMsg 0 0 0 []).

#[export] Instance lo_slot_inhabited : Inhabited lo_slot := populate lo_slot_zero.

#[export] Instance lo_msg_eq_dec : EqDecision lo_msg.
Proof. solve_decision. Defined.

Definition LO_PORT_SLOTS : nat := 4%nat.

Definition LO_QUEUE_DEPTH : nat := 8%nat.

(** The static variables of [loopback.c], and the heap cells its [malloc]ed
    messages live in. *)
Record lo_statics := LoStatics {
  s_slots : list lo_slot;  (* [LO_PORT_SLOTS] *)
  lo_s_lock : bool;
  lo_inited : bool;
  lo_heap : gmap ptr lo_msg
}.

Definition set_s_slots (v : list lo_slot) (r : lo_statics) : lo_statics :=
  LoStatics v (lo_s_lock r) (lo_inited r) (lo_heap r).

Definition set_lo_s_lock (v : bool) (r : lo_statics) : lo_statics :=
  LoStatics (s_slots r) v (lo_inited r) (lo_heap r).

Definition set_lo_inited (v : bool) (r : lo_statics) : lo_statics :=
  LoStatics (s_slots r) (lo_s_lock r) v (lo_heap r).

Definition set_lo_heap (v : gmap ptr lo_msg) (r : lo_statics) : lo_statics :=
  LoStatics (s_slots r) (lo_s_lock r) (lo_inited r) v.
(** The static variables of [gethostbyname]: the name buffer of 64 bytes and
    the address the [h_addr_list] points to. *)
Record netdb_statics := NetdbStatics {
  name_copy : list Z;  (* [64] *)
  nd_addr_be : Z  (* u32 *)
}.

Definition set_name_copy (v : list Z) (r : netdb_statics) : netdb_statics :=
  NetdbStatics v (nd_addr_be r).

Definition set_nd_addr_be (v : Z) (r : netdb_statics) : netdb_statics :=
  NetdbStatics (name_copy r) v.
(** All the static state of the program. *)
Record globals := Globals {
  net : net_statics;
  fdt : fd_statics;
  lo : lo_statics;
  netdb : netdb_statics;
  errno : option errno_code
}.

Definition set_net (v : net_statics) (r : globals) : globals :=
  Globals v (fdt r) (lo r) (netdb r) (errno r).

Definition set_fdt (v : fd_statics) (r : globals) : globals :=
  Globals (net r) v (lo r) (netdb r) (errno r).

Definition set_lo (v : lo_statics) (r : globals) : globals :=
  Globals (net r) (fdt r) v (netdb r) (errno r).

Definition set_netdb (v : netdb_statics) (r : globals) : globals :=
  Globals (net r) (fdt r) (lo r) v (errno r).

Definition set_errno (v : option errno_code) (r : globals) : globals :=
  Globals (net r) (fdt r) (lo r) (netdb r) v.

Definition globals_zero `{Config} : globals :=
  Globals net_statics_zero
    (FdStatics (replicate MAX_FDS fd_entry_zero) false)
    (LoStatics (replicate LO_PORT_SLOTS lo_slot_zero) false false ∅)
    (NetdbStatics (replicate 64 0) 0) None.

(** ** Access paths into the state *)

(** [s_ifaces[i]], [s_frame_pool[i]], [s_table[i]]. *)
Definition iface_at (i : nat) (g : globals) : net_iface := s_ifaces (net g) !!! i.

Definition frame_at (f : ptr) (g : globals) : net_frame := s_frame_pool (net g) !!! Z.to_nat f.

Definition entry_at (i : nat) (g : globals) : fd_entry := s_table (fdt g) !!! i.

Definition upd_net (f : net_statics -> net_statics) (g : globals) : globals :=
  set_net (f (net g)) g.

Definition upd_iface (i : nat) (f : net_iface -> net_iface) : globals -> globals :=
  upd_net (fun n => set_s_ifaces (alter f i (s_ifaces n)) n).

Definition upd_frame (p : ptr) (f : net_frame -> net_frame) : globals -> globals :=
  upd_net (fun n => set_s_frame_pool (alter f (Z.to_nat p) (s_frame_pool n)) n).

Definition upd_fdt (f : fd_statics -> fd_statics) (g : globals) : globals :=
  set_fdt (f (fdt g)) g.

Definition upd_entry (i : nat) (f : fd_entry -> fd_entry) : globals -> globals :=
  upd_fdt (fun t => set_s_table (alter f i (s_table t)) t).

Definition upd_lo (f : lo_statics -> lo_statics) (g : globals) : globals :=
  set_lo (f (lo g)) g.

(** The arrays of the state have the sizes they are declared with. *)
Record sizes_ok `{Config} (g : globals) : Prop := {
  ifaces_size : length (s_ifaces (net g)) = NET_IFACE_MAX;
  pool_size : length (s_frame_pool (net g)) = FRAME_POOL_SIZE;
  taps_size : length (s_taps (net g)) = L2_TAP_SLOTS;
  table_size : length (s_table (fdt g)) = MAX_FDS;
  slots_size : length (s_slots (lo g)) = LO_PORT_SLOTS;
}.

Lemma globals_zero_sizes `{Config} : sizes_ok globals_zero.
Proof. split; cbn; by rewrite ?length_replicate. Qed.

(** ** Reading back an update *)

Section paths.
Context `{cfg : Config}.
Implicit Types (g : globals).

Lemma iface_at_upd i f g :
  (i < length (s_ifaces (net g)))%nat -> iface_at i (upd_iface i f g) = f (iface_at i g).
Proof. intros. by apply lookup_total_alter. Qed.

Lemma iface_at_upd_ne i j f g : i <> j -> iface_at j (upd_iface i f g) = iface_at j g.
Proof. intros. by apply lookup_total_alter_ne. Qed.

Lemma upd_iface_upd i f h g :
  upd_iface i f (upd_iface i h g) = upd_iface i (fun it => f (h it)) g.
Proof. unfold upd_iface, upd_net. cbn. by rewrite alter_alter. Qed.

Lemma upd_frame_upd p f h g :
  upd_frame p f (upd_frame p h g) = upd_frame p (fun fr => f (h fr)) g.
Proof. unfold upd_frame, upd_net. cbn. by rewrite alter_alter. Qed.

Lemma upd_entry_upd i f h g :
  upd_entry i f (upd_entry i h g) = upd_entry i (fun en => f (h en)) g.
Proof. unfold upd_entry, upd_fdt. cbn. by rewrite alter_alter. Qed.

Lemma frame_at_upd p f g :
  (Z.to_nat p < length (s_frame_pool (net g)))%nat ->
  frame_at p (upd_frame p f g) = f (frame_at p g).
Proof. intros. by apply lookup_total_alter. Qed.

Lemma frame_at_upd_ne p q f g :
  0 <= p -> 0 <= q -> p <> q -> frame_at q (upd_frame p f g) = frame_at q g.
Proof. intros. apply lookup_total_alter_ne. lia. Qed.

Lemma entry_at_upd i f g :
  (i < length (s_table (fdt g)))%nat -> entry_at i (upd_entry i f g) = f (entry_at i g).
Proof. intros. by apply lookup_total_alter. Qed.

Lemma entry_at_upd_ne i j f g : i <> j -> entry_at j (upd_entry i f g) = entry_at j g.
Proof. intros. by apply lookup_total_alter_ne. Qed.
End paths.

#[export] Hint Resolve globals_zero_sizes : smoltcp.
