(* ===== verification/Platform.v ===== *)
(** * The platform the code runs on

    The calls the C code makes outside itself: FreeRTOS ([rtos_call]), ESP-IDF,
    the C heap and application callbacks ([idf_call]), and the C surface of the
    Rust core, [components/esp_smoltcp_glue/include/smoltcp_glue.h]
    ([core_call]). None of them has a definition here: a [Platform] is any
    environment that answers them, and the classes after it state the
    documented behaviour (of queues, of the clock, of the heap, of buffers)
    that a theorem relies on. *)

From S2P Require Import Prelude Prog Types.

(** The three mutexes of the program. Each variable is assigned once, so a
    mutex is known by the variable that holds it: [g_smoltcp_lock] of
    [esp_smoltcp.c], [s_lock] of [fd_table.c], [s_lock] of [loopback.c]. *)
Inductive mutex := M_smoltcp | M_fd | M_lo.

#[export] Instance mutex_eq_dec : EqDecision mutex.
Proof. solve_decision. Defined.

(** ** FreeRTOS *)

Inductive rtos_call : Type -> Type :=
  | XQueueCreate (length : nat) : rtos_call ptr
  | XQueueSend (q : ptr) (item ticks : Z) : rtos_call bool
  | XQueueReceive (q : ptr) (ticks : Z) : rtos_call (option Z)
  | UxQueueMessagesWaiting (q : ptr) : rtos_call Z
  | VQueueDelete (q : ptr) : rtos_call unit
  | XSemaphoreCreateMutex (m : mutex) : rtos_call bool
  | XSemaphoreTake (m : mutex) : rtos_call unit
  | XSemaphoreGive (m : mutex) : rtos_call unit
  | XEventGroupCreate : rtos_call ptr
  | XEventGroupSetBits (e : ptr) (bits : Z) : rtos_call unit
  | XEventGroupClearBits (e : ptr) (bits : Z) : rtos_call unit
  | XEventGroupWaitBits (e : ptr) (bits : Z) (clear_on_exit all : bool) (ticks : Z) : rtos_call Z
  | XTaskGetTickCount : rtos_call Z
  | VTaskDelay (ticks : Z) : rtos_call unit
  | XTaskNotifyGive (t : ptr) : rtos_call unit
  | VTaskNotifyGiveFromISR (t : ptr) : rtos_call unit
  | UlTaskNotifyTake (clear : bool) (ticks : Z) : rtos_call Z
  | XTaskCreate (name : string) (arg : Z) : rtos_call (option ptr)
  | VTaskDelete : rtos_call unit.

(** ** ESP-IDF, libc and the application's callbacks *)

(** The levels of the [ESP_LOGx] calls that are modelled: those of the PTP stub
    and of the example application, which do nothing else. *)
Inductive log_level := LOG_INFO | LOG_WARN | LOG_DEBUG.

Inductive idf_call : Type -> Type :=
  | NvsFlashInit : idf_call esp_err
  | EspEventLoopCreateDefault : idf_call esp_err
  | EspTimerGetTime : idf_call Z
  | EspRandom : idf_call Z
  | EspEthTransmit (h : ptr) (frame : list Z) : idf_call esp_err
  | EspEthIoctlGetMac (h : ptr) : idf_call (esp_err * list Z)
  | EspEthUpdateInputPath (h : ptr) : idf_call esp_err
  | EspEventHandlerRegister : idf_call esp_err
  | EspEthStart (h : ptr) : idf_call esp_err
  (** the driver installation of the example: the fields it sets *)
  | EspEthMacNewEsp32 (mdc_num mdio_num : Z) : idf_call ptr
  | EspEthPhyNewIp101 (phy_addr reset_gpio_num : Z) : idf_call ptr
  | EspEthDriverInstall (mac phy : ptr) : idf_call (esp_err * ptr)
  | EspLog (level : log_level) (tag text : string) : idf_call unit
  | EspReadMac (eth : bool) : idf_call (esp_err * list Z)
  | SetTimeOfDay (secs : Z) : idf_call unit
  | Malloc (size : Z) : idf_call ptr
  | Free (p : ptr) : idf_call unit
  (** [s_user_cb(iface, evt, arg)] and [cb(iface, frame, len, ts, user)] *)
  | UserEventCb (cb : ptr) (iface : nat) (e : net_event) (arg : ptr) : idf_call unit
  | L2TapCb (cb : ptr) (iface : nat) (frame : list Z) (ts : Z) (user : ptr) : idf_call unit
  (** the lwIP functions the [--wrap] shim falls back to for foreign fds *)
  | RealLwip (name : string) (fd arg1 arg2 : Z) : idf_call Z.

(** ** The Rust core ([smoltcp_glue.h]) *)

(** What [smoltcp_udp_recvfrom] returns and writes through its pointers: the
    bytes of the buffer, the source address (written for an IPv4 peer) and the
    source port (written on success). *)
Record udp_rx := UdpRx {
  ur_n : Z;
  ur_data : list Z;
  ur_src_be : option Z;
  ur_src_port : option Z;
}.

(** One constructor per declaration of the header, in its order;
    [smoltcp_parse_ipv4] has a definition instead, in [Ipv4]. *)
Inductive core_call : Type -> Type :=
  | Smoltcp_core_init : core_call unit
  | Smoltcp_iface_new (iface_id : nat) (mac : list Z) : core_call ptr
  | Smoltcp_iface_destroy (h : ptr) : core_call unit
  | Smoltcp_iface_rx (h : ptr) (frame : list Z) : core_call unit
  (** the response is the list of the [smoltcp_glue_tx_cb] callbacks (interface
      and frame) the core makes while it runs; it ignores their results *)
  | Smoltcp_iface_poll (h : ptr) : core_call (list (nat * list Z))
  | Smoltcp_iface_poll_delay_us (h : ptr) : core_call Z
  | Smoltcp_iface_set_link_up (h : ptr) (up : bool) : core_call unit
  | Smoltcp_iface_has_ip (h : ptr) : core_call bool
  | Smoltcp_iface_get_ipv4 (h : ptr) : core_call Z
  | Smoltcp_iface_get_gw (h : ptr) : core_call Z
  | Smoltcp_iface_get_netmask (h : ptr) : core_call Z
  | Smoltcp_iface_get_ipv6 (h : ptr) : core_call (option (list Z))
  | Smoltcp_iface_socket_count (h : ptr) : core_call Z
  | Smoltcp_iface_set_static (h : ptr) (ipv4_be prefix gw_be : Z) : core_call unit
  | Smoltcp_iface_enable_dhcp (h : ptr) : core_call unit
  | Smoltcp_iface_mcast_join (h : ptr) (group_be : Z) : core_call Z
  | Smoltcp_iface_mcast_leave (h : ptr) (group_be : Z) : core_call Z
  | Smoltcp_tcp_open (h : ptr) : core_call Z
  | Smoltcp_tcp_connect (h : ptr) (s ipv4_be port local_port : Z) : core_call Z
  | Smoltcp_tcp_listen (h : ptr) (s port : Z) : core_call Z
  | Smoltcp_tcp_send (h : ptr) (s : Z) (buf : list Z) : core_call Z
  | Smoltcp_tcp_recv (h : ptr) (s cap : Z) : core_call (Z * list Z)
  | Smoltcp_tcp_is_active (h : ptr) (s : Z) : core_call bool
  | Smoltcp_tcp_is_connected (h : ptr) (s : Z) : core_call bool
  | Smoltcp_tcp_recv_queue (h : ptr) (s : Z) : core_call Z
  | Smoltcp_tcp_send_capacity (h : ptr) (s : Z) : core_call Z
  | Smoltcp_tcp_close (h : ptr) (s : Z) : core_call unit
  | Smoltcp_udp_open (h : ptr) (port : Z) : core_call Z
  | Smoltcp_udp_sendto (h : ptr) (s : Z) (buf : list Z) (ipv4_be port : Z) : core_call Z
  | Smoltcp_udp_recvfrom (h : ptr) (s cap : Z) : core_call udp_rx
  | Smoltcp_udp_close (h : ptr) (s : Z) : core_call unit
  (** returns the code, and the address it wrote *)
  | Smoltcp_resolve (h : ptr) (name : string) (server_be timeout_ms : Z) : core_call (Z * Z).

Inductive ccall : Type -> Type :=
  | Rtos {X} (c : rtos_call X) : ccall X
  | Idf {X} (c : idf_call X) : ccall X
  | Core {X} (c : core_call X) : ccall X.

(** The programs of this development. *)
Abbreviation cprog := (prog globals ccall).

Definition rtos {X} (c : rtos_call X) : cprog X := call (Rtos c).

Definition idf {X} (c : idf_call X) : cprog X := call (Idf c).

Definition core {X} (c : core_call X) : cprog X := call (Core c).

(** [SMOLTCP_LOCK()] and [SMOLTCP_UNLOCK()]. *)
Definition SMOLTCP_LOCK : cprog unit := rtos (XSemaphoreTake M_smoltcp).

Definition SMOLTCP_UNLOCK : cprog unit := rtos (XSemaphoreGive M_smoltcp).

(** A core call made with the lock held. *)
Definition locked {X} (c : core_call X) : cprog X :=
  SMOLTCP_LOCK ≫= fun _ => core c ≫= fun r => SMOLTCP_UNLOCK ≫= fun _ => mret r.

(** ** Platforms *)

(** A platform answers every call; [pdMS_TO_TICKS] is its tick conversion and
    [portMAX_DELAY] its "wait forever" value. *)
Class Platform (E : Type) := {
  ext : forall X, ccall X -> E -> X * E;
  pdMS_TO_TICKS : Z -> Z;
  portMAX_DELAY : Z;
}.

(** The names C code uses for the parts of the socket headers: their values
    are the platform's. *)
Class SocketConsts := {
  AF_INET : Z;
  SOCK_STREAM : Z;
  SOCK_DGRAM : Z;
  SOL_SOCKET : Z;
  SO_RCVTIMEO : Z;
  SO_SNDTIMEO : Z;
  IPPROTO_IP : Z;
  IP_ADD_MEMBERSHIP : Z;
  IP_DROP_MEMBERSHIP : Z;
  SO_ERROR : Z;
  F_GETFL : Z;
  F_SETFL : Z;
  O_NONBLOCK : Z;
  FIONBIO : Z;
  LWIP_SOCKET_OFFSET : Z;
  (* sizeof(struct timeval) and sizeof(struct ip_mreq) *)
  timeval_size : Z;
  ip_mreq_size : Z;
}.

(** Calls on queues, and calls that let time pass for the other tasks: while the
    caller sleeps or waits they can change the queues. The laws below describe one
    run without preemption, so a call that returns at once is taken to leave the
    queues alone; of the application's callbacks, which are not part of the
    repository, that is an assumption. *)
Definition queue_op {X} (c : ccall X) : bool :=
  match c with
  | Rtos (XQueueCreate _) | Rtos (XQueueSend _ _ _) | Rtos (XQueueReceive _ _)
  | Rtos (VQueueDelete _) => true
  | _ => false
  end.

Definition runs_others {X} (c : ccall X) : bool :=
  match c with
  | Rtos (VTaskDelay _) | Rtos (UlTaskNotifyTake _ _)
  | Rtos (XEventGroupWaitBits _ _ _ _ _) => true
  | _ => false
  end.

(** FreeRTOS queues: fixed capacity, first in first out, and a zero-tick send
    or receive that fails at once on a full or an empty queue. *)
Class QueueLaws (E : Type) `{!Platform E} := {
  qview : E -> gmap ptr (nat * list Z);
  q_send e q v t c l :
    qview e !! q = Some (c, l) -> (length l < c)%nat ->
    exists e', ext _ (Rtos (XQueueSend q v t)) e = (true, e') /\
      qview e' = <[q := (c, l ++ [v])]> (qview e);
  q_send_full e q v c l :
    qview e !! q = Some (c, l) -> (c <= length l)%nat ->
    exists e', ext _ (Rtos (XQueueSend q v 0)) e = (false, e') /\ qview e' = qview e;
  q_recv e q t c v l :
    qview e !! q = Some (c, v :: l) ->
    exists e', ext _ (Rtos (XQueueReceive q t)) e = (Some v, e') /\
      qview e' = <[q := (c, l)]> (qview e);
  q_recv_empty e q c :
    qview e !! q = Some (c, []) ->
    exists e', ext _ (Rtos (XQueueReceive q 0)) e = (None, e') /\ qview e' = qview e;
  q_create e n :
    exists q e', ext _ (Rtos (XQueueCreate n)) e = (q, e') /\
      (q = NULL /\ qview e' = qview e \/
       q <> NULL /\ qview e !! q = None /\ qview e' = <[q := (n, [])]> (qview e));
  q_delete e q :
    exists e', ext _ (Rtos (VQueueDelete q)) e = (tt, e') /\
      qview e' = delete q (qview e);
  q_waiting e q c l :
    qview e !! q = Some (c, l) ->
    (ext _ (Rtos (UxQueueMessagesWaiting q)) e).1 = Z.of_nat (length l);
  q_frame X (c : ccall X) e :
    queue_op c = false -> runs_others c = false -> qview (ext _ c e).2 = qview e;
}.

(** The tick counter is a 32-bit unsigned integer. *)
Class ClockLaws (E : Type) `{!Platform E} := {
  tick_range e : 0 <= (ext _ (Rtos XTaskGetTickCount) e).1 < 2 ^ 32;
  max_delay_range : 0 < portMAX_DELAY < 2 ^ 32;
}.

(** ** History

    A platform that remembers every call it was asked and its answer. This
    assumes nothing of the answers: it is how theorems speak of what a program
    did to the outside, in order. *)

Definition event : Type := { X : Type & (ccall X * X)%type }.

Class History (E : Type) `{!Platform E} := {
  hist : E -> list event;
  hist_step X (c : ccall X) e : hist (ext _ c e).2 = hist e ++ [existT X (c, (ext _ c e).1)];
}.

Lemma hist_call `{!Platform E, !History E} {X} (c : ccall X) (e e' : E) r :
  ext _ c e = (r, e') -> hist e' = hist e ++ [existT X (c, r)].
Proof. intros H. pose proof (hist_step X c e) as Hs. by rewrite H in Hs. Qed.

(** The calls of a list of events are all of a kind, and the platform answered
    them. *)
Definition made `{!Platform E} (ok : forall X, ccall X -> Prop) (evs : list event) : Prop :=
  Forall (fun ev => ok (projT1 ev) (projT2 ev).1 /\
    exists e : E, (projT2 ev).2 = (ext _ (projT2 ev).1 e).1) evs.

(** A program only adds to the history, and only calls it makes. *)
Lemma wp_trace `{!Platform E, !History E} {A} ok (p : cprog A) g (e : E) Q :
  only ok p -> wp ext p g e Q ->
  wp ext p g e (fun a g' e' =>
    Q a g' e' /\ exists evs, hist e' = hist e ++ evs /\ made (E := E) ok evs).
Proof.
  intros Hp. apply (wp_only ext ok (fun e' => exists evs, hist e' = hist e ++ evs /\ made (E := E) ok evs)).
  - done.
  - intros X c e1 Hc (evs & Hh & Hm). exists (evs ++ [existT X (c, (ext _ c e1).1)]).
    rewrite hist_step, Hh, <- app_assoc. split; [done|]. apply Forall_app_2; [done|].
    apply Forall_cons_2; [|done]. cbn. eauto.
  - exists []. rewrite app_nil_r. by split; [|constructor].
Qed.

(** The events of one kind, in order. *)
Definition picked {E} `{!Platform E, !History E} {A} (f : event -> option A) (e : E) : list A :=
  omap f (hist e).

Lemma picked_step `{!Platform E, !History E} {X A} (f : event -> option A) (c : ccall X) (e : E) :
  picked f (ext _ c e).2
  = picked f e ++ (match f (existT X (c, (ext _ c e).1)) with Some a => [a] | None => [] end).
Proof. unfold picked. rewrite hist_step, omap_app. cbn. by destruct (f _). Qed.

Lemma picked_call `{!Platform E, !History E} {X A} (f : event -> option A) (c : ccall X)
    (e e' : E) r :
  ext _ c e = (r, e') ->
  picked f e' = picked f e ++ (match f (existT X (c, r)) with Some a => [a] | None => [] end).
Proof. intros H. pose proof (picked_step f c e) as Hs. by rewrite H in Hs. Qed.

(** The events of one kind in an extension of the history. *)
Lemma picked_hist `{!Platform E, !History E} {A} (f : event -> option A) (e e' : E) evs :
  hist e' = hist e ++ evs -> picked f e' = picked f e ++ omap f evs.
Proof. unfold picked. intros ->. by rewrite omap_app. Qed.

Lemma omap_of_picked `{!Platform E, !History E} {A} (f : event -> option A) (e e' : E) evs l :
  hist e' = hist e ++ evs -> picked f e' = picked f e ++ l -> omap f evs = l.
Proof. intros Hh Hp. rewrite (picked_hist f e e' evs Hh) in Hp. by apply app_inv_head in Hp. Qed.

(** Events of a kind the calls do not make. *)
Lemma omap_made `{!Platform E} {A} (f : event -> option A) ok evs :
  (forall X (c : ccall X) r, ok X c -> f (existT X (c, r)) = None) -> made (E := E) ok evs ->
  omap f evs = [].
Proof.
  intros Hf. induction 1 as [|[X [c r]] evs [Hc _] _ IH]; [done|]. cbn [projT1 projT2 fst] in Hc.
  change (match f (existT X (c, r)) with
          | Some y => y :: omap f evs | None => omap f evs end = []).
  by rewrite Hf.
Qed.

(** Calls are read from the source names. *)
#[export] Hint Extern 1 (only _ (rtos _)) => apply only_call : only.
#[export] Hint Extern 1 (only _ (idf _)) => apply only_call : only.
#[export] Hint Extern 1 (only _ (core _)) => apply only_call : only.
#[export] Hint Extern 1 (only _ (call _)) => apply only_call : only.
#[export] Hint Extern 1 (only _ SMOLTCP_LOCK) => apply only_call : only.
#[export] Hint Extern 1 (only _ SMOLTCP_UNLOCK) => apply only_call : only.

#[export] Hint Extern 1 (preserves _ (rtos _)) => apply preserves_call : typed.
#[export] Hint Extern 1 (preserves _ (idf _)) => apply preserves_call : typed.
#[export] Hint Extern 1 (preserves _ (core _)) => apply preserves_call : typed.
#[export] Hint Extern 1 (preserves _ SMOLTCP_LOCK) => apply preserves_call : typed.
#[export] Hint Extern 1 (preserves _ SMOLTCP_UNLOCK) => apply preserves_call : typed.

(** A program none of whose calls makes an [f] event leaves the [f] events as
    they were. *)
Lemma wp_no_events `{!Platform E, !History E} {A B} (f : event -> option B) (p : cprog A) g e Q :
  only (fun X c => forall r, f (existT X (c, r)) = None) p ->
  wp ext p g e Q ->
  wp ext p g e (fun a g' e' => Q a g' e' /\ picked f e' = picked f e).
Proof.
  intros Hp. eapply (wp_only ext _ (fun e' => picked f e' = picked f e)); [exact Hp| |done].
  intros X c e1 Hc <-. rewrite picked_step, Hc. apply app_nil_r.
Qed.

(** ** Symbolic execution of calls *)

Section wp_calls.
Context {E : Type} `{!Platform E}.
Implicit Types (g : globals) (e : E).

Lemma wp_rtos {X B} (c : rtos_call X) (f : X -> cprog B) g e Q :
  wp ext (rtos c ≫= f) g e Q
  <-> wp ext (f (ext _ (Rtos c) e).1) g (ext _ (Rtos c) e).2 Q.
Proof. done. Qed.

Lemma wp_idf {X B} (c : idf_call X) (f : X -> cprog B) g e Q :
  wp ext (idf c ≫= f) g e Q
  <-> wp ext (f (ext _ (Idf c) e).1) g (ext _ (Idf c) e).2 Q.
Proof. done. Qed.

Lemma wp_core {X B} (c : core_call X) (f : X -> cprog B) g e Q :
  wp ext (core c ≫= f) g e Q
  <-> wp ext (f (ext _ (Core c) e).1) g (ext _ (Core c) e).2 Q.
Proof. done. Qed.

Lemma wp_ret {B} (b : B) g e Q : wp ext (mret b : cprog B) g e Q <-> Q b g e.
Proof. done. Qed.

Lemma wp_ret_last {B} (b : B) g e Q : wp ext (Ret b : cprog B) g e Q <-> Q b g e.
Proof. done. Qed.

Lemma wp_mret_bind {A B} (a : A) (f : A -> cprog B) g e Q :
  wp ext (mret a ≫= f) g e Q <-> wp ext (f a) g e Q.
Proof. done. Qed.

Lemma wp_rtos_last {X} (c : rtos_call X) g e Q :
  wp ext (rtos c) g e Q <-> Q (ext _ (Rtos c) e).1 g (ext _ (Rtos c) e).2.
Proof. done. Qed.

Lemma wp_idf_last {X} (c : idf_call X) g e Q :
  wp ext (idf c) g e Q <-> Q (ext _ (Idf c) e).1 g (ext _ (Idf c) e).2.
Proof. done. Qed.

Lemma wp_modify_last f g e Q :
  wp ext (modify f : cprog unit) g e Q <-> Q tt (f g) e.
Proof. done. Qed.
End wp_calls.

(** Execute the straight-line head of the goal, one call or access at a time;
    [prog_steps] stops at calls, whose laws the proof applies. *)
Ltac prog_step :=
  first [ rewrite wp_gets | rewrite wp_modify | rewrite wp_ret | rewrite wp_modify_last
        | rewrite wp_ret_bind | rewrite wp_mret_bind | rewrite wp_ret_last | progress cbn [when] ].

Ltac prog_steps := repeat (prog_step; cbn beta).

(** Step over a call whose response and successor environment the hypothesis
    [H : ext _ c e = (r, e')] gives. *)
Ltac call_step H :=
  first [ rewrite wp_rtos | rewrite wp_idf | rewrite wp_core | rewrite wp_rtos_last ];
  rewrite H; cbn [fst snd]; prog_steps.
