(* ===== verification/Sim.v ===== *)
(** * A platform to run on

    A concrete platform for the witnesses and for running the definitions:
    queues behave as FreeRTOS documents them, and every other call is answered
    by an oracle, a function of the call and of the calls made before it. The
    laws of [Platform] hold of it whatever the oracle, so they are consistent. *)

From S2P Require Import Prelude Prog Types Platform.

Definition oracle : Type := forall X, ccall X -> list event -> X.

Record sim_state := Sim {
  sim_queues : gmap ptr (nat * list Z);
  sim_hist : list event;
}.

(** The states of the simulation driven by [o]. *)
Definition sim (o : oracle) : Type := sim_state.

Definition sim_start {o} : sim o := Sim ∅ [].

(** Benign answers: success, nothing received, no address. *)
Definition default_rtos {X} (c : rtos_call X) (n : nat) : X :=
  match c in rtos_call X return X with
  | XQueueCreate _ => 0
  | XQueueSend _ _ _ => false
  | XQueueReceive _ _ => None
  | UxQueueMessagesWaiting _ => 0
  | VQueueDelete _ => tt
  | XSemaphoreCreateMutex _ => true
  | XSemaphoreTake _ | XSemaphoreGive _ => tt
  | XEventGroupCreate => 256 + Z.of_nat n
  | XEventGroupSetBits _ _ | XEventGroupClearBits _ _ => tt
  | XEventGroupWaitBits _ _ _ _ _ => 0
  | XTaskGetTickCount => Z.of_nat n
  | VTaskDelay _ | XTaskNotifyGive _ | VTaskNotifyGiveFromISR _ => tt
  | UlTaskNotifyTake _ _ => 0
  | XTaskCreate _ _ => Some 77
  | VTaskDelete => tt
  end.

Definition default_idf {X} (c : idf_call X) (n : nat) : X :=
  match c in idf_call X return X with
  | NvsFlashInit | EspEventLoopCreateDefault => ESP_OK
  | EspTimerGetTime => Z.of_nat n
  | EspRandom => 4
  | EspEthTransmit _ _ => ESP_OK
  | EspEthIoctlGetMac _ => (ESP_OK, [2; 0; 0; 0; 0; 1])
  | EspEthUpdateInputPath _ | EspEventHandlerRegister | EspEthStart _ => ESP_OK
  | EspEthMacNewEsp32 _ _ | EspEthPhyNewIp101 _ _ => 1 + Z.of_nat n
  | EspEthDriverInstall _ _ => (ESP_OK, 1 + Z.of_nat n)
  | EspLog _ _ _ => tt
  | EspReadMac _ => (ESP_OK, [2; 0; 0; 0; 0; 1])
  | SetTimeOfDay _ => tt
  | Malloc _ => 4096 + Z.of_nat n
  | Free _ | UserEventCb _ _ _ _ | L2TapCb _ _ _ _ _ => tt
  | RealLwip _ _ _ _ => -1
  end.

Definition default_core {X} (c : core_call X) (n : nat) : X :=
  match c in core_call X return X with
  | Smoltcp_core_init => tt
  | Smoltcp_iface_new _ _ => 512
  | Smoltcp_iface_destroy _ => tt
  | Smoltcp_iface_rx _ _ => tt
  | Smoltcp_iface_poll _ => []
  | Smoltcp_iface_poll_delay_us _ => -1
  | Smoltcp_iface_set_link_up _ _ => tt
  | Smoltcp_iface_has_ip _ => false
  | Smoltcp_iface_get_ipv4 _ | Smoltcp_iface_get_gw _ | Smoltcp_iface_get_netmask _ => 0
  | Smoltcp_iface_get_ipv6 _ => None
  | Smoltcp_iface_socket_count _ => 0
  | Smoltcp_iface_set_static _ _ _ _ | Smoltcp_iface_enable_dhcp _ => tt
  | Smoltcp_iface_mcast_join _ _ | Smoltcp_iface_mcast_leave _ _ => 0
  | Smoltcp_tcp_open _ => 1 + Z.of_nat n
  | Smoltcp_tcp_connect _ _ _ _ _ | Smoltcp_tcp_listen _ _ _ => 0
  | Smoltcp_tcp_send _ _ buf => Z.of_nat (length buf)
  | Smoltcp_tcp_recv _ _ _ => (-1, [])
  | Smoltcp_tcp_is_active _ _ | Smoltcp_tcp_is_connected _ _ => false
  | Smoltcp_tcp_recv_queue _ _ | Smoltcp_tcp_send_capacity _ _ => 0
  | Smoltcp_tcp_close _ _ => tt
  | Smoltcp_udp_open _ _ => 1 + Z.of_nat n
  | Smoltcp_udp_sendto _ _ buf _ _ => Z.of_nat (length buf)
  | Smoltcp_udp_recvfrom _ _ _ => UdpRx (-1) [] None None
  | Smoltcp_udp_close _ _ => tt
  | Smoltcp_resolve _ _ _ _ => (-1, 0)
  end.

Definition default_oracle : oracle := fun X c h =>
  match c with
  | Rtos c => default_rtos c (length h)
  | Idf c => default_idf c (length h)
  | Core c => default_core c (length h)
  end.

(** A queue handle not in use, and not [NULL]. *)
Definition fresh_queue (m : gmap ptr (nat * list Z)) : ptr := fresh ({[NULL]} ∪ dom m).

(** The answer of a call and the queues after it. *)
Definition sim_answer (o : oracle) {X} (c : ccall X) (s : sim_state)
    : X * gmap ptr (nat * list Z) :=
  let qs := sim_queues s in
  match c in ccall X return X * gmap ptr (nat * list Z) with
  | Rtos r =>
      match r in rtos_call X return X * gmap ptr (nat * list Z) with
      | XQueueCreate n => (fresh_queue qs, <[fresh_queue qs := (n, [])]> qs)
      | XQueueSend q v _ =>
          match qs !! q with
          | Some (c, l) =>
              if (length l <? c)%nat then (true, <[q := (c, l ++ [v])]> qs) else (false, qs)
          | None => (false, qs)
          end
      | XQueueReceive q _ =>
          match qs !! q with
          | Some (c, v :: l) => (Some v, <[q := (c, l)]> qs)
          | _ => (None, qs)
          end
      | VQueueDelete q => (tt, delete q qs)
      | UxQueueMessagesWaiting q =>
          (match qs !! q with Some (_, l) => Z.of_nat (length l) | None => 0 end, qs)
      | r => (o _ (Rtos r) (sim_hist s), qs)
      end
  | c => (o _ c (sim_hist s), qs)
  end.

Definition sim_ext (o : oracle) (X : Type) (c : ccall X) (s : sim_state) : X * sim_state :=
  let (r, qs) := sim_answer o c s in
  (r, Sim qs (sim_hist s ++ [existT X (c, r)])).

Definition MAX_DELAY : Z := 4294967295.

(** A tick of one millisecond. *)
#[export] Instance sim_platform o : Platform (sim o) := {|
  ext := sim_ext o;
  pdMS_TO_TICKS ms := u32 ms;
  portMAX_DELAY := MAX_DELAY;
|}.

Lemma fresh_queue_ok m : fresh_queue m <> NULL /\ m !! fresh_queue m = None.
Proof.
  pose proof (is_fresh ({[NULL]} ∪ dom m : gset Z)) as Hf.
  apply not_elem_of_union in Hf as [H0 Hd]. split.
  - intros Heq. apply H0, elem_of_singleton, Heq.
  - by apply not_elem_of_dom.
Qed.

#[export] Instance sim_history o : History (sim o).
Proof.
  refine {| hist := sim_hist |}.
  intros X c e. cbn. unfold sim_ext. by destruct (sim_answer o c e).
Defined.

#[export] Instance sim_queue_laws o : QueueLaws (sim o).
Proof.
  refine {| qview := sim_queues |}; intros; cbn; unfold sim_ext, sim_answer.
  - rewrite H, (proj2 (Nat.ltb_lt _ _)) by done. eauto.
  - rewrite H, (proj2 (Nat.ltb_ge _ _)) by done. eauto.
  - rewrite H. eauto.
  - rewrite H. eauto.
  - do 2 eexists. split; [done|]. right. pose proof (fresh_queue_ok (sim_queues e)) as []. done.
  - eauto.
  - by rewrite H.
  - destruct c as [?|?|?]; try done. by destruct c.
Defined.

(** A small configuration for the witnesses. *)
Definition tiny : Config := {|
  FRAME_POOL_SIZE := 3;
  RX_QUEUE_DEPTH := 2;
  DHCPV4_CLIENT := true;
  STATIC_IP := "192.168.1.50";
  STATIC_GW := "192.168.1.1";
  DNS_PRIMARY := "1.1.1.1";
  PTP := false;
  NTP_SERVER := "162.159.200.1";
  NTP_POLL_SECONDS := 3600;
  MAX_FDS := 4;
  LISTENER_POOL := 2;
  DNS_TIMEOUT_MS := 3000;
  DEFAULT_IFACE_ETH := true;
  NETIF_MODE := MODE_NONE;
  APP_HOSTNAME := "espressif";
|}.

#[export] Instance tiny_ok : ConfigOk tiny.
Proof. split; cbn; lia. Qed.

(** The values of lwIP's and newlib's headers. *)
Definition lwip_consts : SocketConsts := {|
  AF_INET := 2;
  SOCK_STREAM := 1;
  SOCK_DGRAM := 2;
  SOL_SOCKET := 4095;
  SO_RCVTIMEO := 4102;
  SO_SNDTIMEO := 4101;
  IPPROTO_IP := 0;
  IP_ADD_MEMBERSHIP := 3;
  IP_DROP_MEMBERSHIP := 4;
  SO_ERROR := 4103;
  F_GETFL := 3;
  F_SETFL := 4;
  O_NONBLOCK := 16384;
  FIONBIO := 2147772030;
  LWIP_SOCKET_OFFSET := 48;
  timeval_size := 16;
  ip_mreq_size := 8;
|}.
