(* ===== verification/FramePool.v ===== *)
(** * The frame slab pool

    [frame_pool_init], [net_frame_alloc], [net_frame_free] and
    [net_stack_frame_drops] of [components/esp_smoltcp/src/esp_smoltcp.c].
    A [net_frame_t *] is the index of the frame in [s_frame_pool]; the free
    list is the FreeRTOS queue [s_frame_free_q]. *)

From S2P Require Import Prelude Prog Types Platform.

Section code.
Context `{cfg : Config}.

Definition POOL_SZ : nat := FRAME_POOL_SIZE.

Definition free_q (g : globals) : ptr := s_frame_free_q (net g).

(** [s_frame_alloc_fail++] *)
Definition bump_alloc_fail : cprog unit :=
  modify (upd_net (fun n => set_s_frame_alloc_fail (u32 (s_frame_alloc_fail n + 1)) n)).

Definition frame_pool_init : cprog unit :=
  q ← rtos (XQueueCreate POOL_SZ);
  modify (upd_net (set_s_frame_free_q q));;
  for_each (seq 0 POOL_SZ) (fun i =>
    q ← gets free_q;
    _ ← rtos (XQueueSend q (Z.of_nat i) 0);
    mret tt).

Definition net_frame_alloc (n : Z) : cprog (option ptr) :=
  q ← gets free_q;
  if is_null q || (NET_FRAME_BUF <? n) then
    bump_alloc_fail;;
    mret None
  else
    r ← rtos (XQueueReceive q 0);
    match r with
    | None =>
        bump_alloc_fail;;
        mret None
    | Some f =>
        modify (upd_frame f (set_len n));;
        modify (upd_frame f (set_hw_ts_ns (-1)));;
        mret (Some f)
    end.

Definition net_frame_free (f : option ptr) : cprog unit :=
  q ← gets free_q;
  match f with
  | None => mret tt
  | Some f =>
      if is_null q then mret tt
      else
        _ ← rtos (XQueueSend q f 0);
        mret tt
  end.

Definition net_stack_frame_drops : cprog Z :=
  gets (fun g => s_frame_alloc_fail (net g)).
End code.

(** ** Specifications *)

Section proofs.
Context `{cfg : Config} {E : Type} `{!Platform E, !QueueLaws E}.
Implicit Types (g : globals) (e : E) (free : list Z).

(** The free list of the pool is [free]. *)
Definition free_list g e free : Prop :=
  free_q g <> NULL /\ qview e !! free_q g = Some (POOL_SZ, free).

(** [f] points into the pool. *)
Definition frame_ok (f : Z) : Prop := 0 <= f < Z.of_nat POOL_SZ.

(** The frame an allocation of [n] bytes hands out. *)
Definition alloc_frame (n : Z) (f : net_frame) : net_frame := set_hw_ts_ns (-1) (set_len n f).

Lemma free_list_upd_frame g e free f h :
  free_list (upd_frame f h g) e free <-> free_list g e free.
Proof. done. Qed.

Lemma is_null_false p : p <> NULL -> is_null p = false.
Proof. apply Z.eqb_neq. Qed.

Lemma wp_alloc_some g e f free n :
  free_list g e (f :: free) -> n <= NET_FRAME_BUF ->
  wp ext (net_frame_alloc n) g e (fun r g' e' =>
    r = Some f /\
    g' = upd_frame f (set_hw_ts_ns (-1)) (upd_frame f (set_len n) g) /\
    qview e' = <[free_q g := (POOL_SZ, free)]> (qview e)).
Proof.
  intros [Hq Hv] Hn. unfold net_frame_alloc. prog_steps.
  rewrite is_null_false by done. case_test; [lia|].
  destruct (q_recv e (free_q g) 0 _ _ _ Hv) as (e' & He & Hv').
  by call_step He.
Qed.

Lemma wp_alloc_fail g e free n :
  free_list g e free -> free = [] \/ NET_FRAME_BUF < n ->
  wp ext (net_frame_alloc n) g e (fun r g' e' =>
    r = None /\
    g' = upd_net (fun s => set_s_frame_alloc_fail (u32 (s_frame_alloc_fail s + 1)) s) g /\
    qview e' = qview e).
Proof.
  intros [Hq Hv] Hn. unfold net_frame_alloc, bump_alloc_fail. prog_steps.
  rewrite is_null_false by done. case_test; prog_steps; [done|].
  destruct Hn as [-> | ?]; [|lia].
  destruct (q_recv_empty e (free_q g) _ Hv) as (e' & He & Hv').
  by call_step He.
Qed.

Lemma wp_free g e free f :
  free_list g e free -> (length free < POOL_SZ)%nat ->
  wp ext (net_frame_free (Some f)) g e (fun _ g' e' =>
    g' = g /\ qview e' = <[free_q g := (POOL_SZ, free ++ [f])]> (qview e)).
Proof.
  intros [Hq Hv] Hlen. unfold net_frame_free. prog_steps.
  rewrite is_null_false by done.
  destruct (q_send e (free_q g) f 0 _ _ Hv Hlen) as (e' & He & Hv').
  by call_step He.
Qed.
End proofs.
