(* ===== verification/L2Tap.v ===== *)
(** * The L2 tap

    [net_stack_l2_tap] and [dispatch_tap] of
    [components/esp_smoltcp/src/esp_smoltcp.c], and the table [s_taps] seen as
    a finite map from EtherTypes to callbacks. *)

From S2P Require Import Prelude Prog Types Platform Sim.

Definition taps (g : globals) : list l2_tap := s_taps (net g).

Definition upd_tap (i : nat) (f : l2_tap -> l2_tap) : globals -> globals :=
  upd_net (fun n => set_s_taps (alter f i (s_taps n)) n).

(** The loops stop at the first slot that satisfies their test. *)
Definition find_tap (P : l2_tap -> Prop) `{!∀ t, Decision (P t)} (g : globals) : option nat :=
  fst <$> list_find P (taps g).

Definition net_stack_l2_tap (et : Z) (cb user : ptr) : cprog esp_err :=
  slot ← gets (find_tap (fun t => ethertype t = et));
  match slot with
  | Some i =>
      modify (upd_tap i (set_tap_cb cb));;
      modify (upd_tap i (set_tap_user user));;
      when (is_null cb) (modify (upd_tap i (set_ethertype 0)));;
      mret ESP_OK
  | None =>
      if is_null cb then mret ESP_OK
      else
        unused ← gets (find_tap (fun t => ethertype t = 0));
        match unused with
        | Some i =>
            modify (upd_tap i (fun _ => L2Tap et cb user));;
            mret ESP_OK
        | None => mret ESP_ERR_NO_MEM
        end
  end.

(** The EtherType of a frame: bytes 12 and 13, big-endian. *)
Definition frame_ethertype (f : net_frame) : Z :=
  Z.lor (Z.shiftl (data f !!! 12%nat) 8) (data f !!! 13%nat).

Definition dispatch_tap (iface : nat) (f : ptr) : cprog bool :=
  fr ← gets (frame_at f);
  if len fr <? 14 then mret false
  else
    slot ← gets (find_tap (fun t => ethertype t = frame_ethertype fr /\ tap_cb t <> NULL));
    match slot with
    | Some i =>
        t ← gets (fun g => taps g !!! i);
        idf (L2TapCb (tap_cb t) iface (frame_bytes fr) (hw_ts_ns fr) (tap_user t));;
        mret true
    | None => mret false
    end.

Lemma upd_tap_upd i f h g : upd_tap i f (upd_tap i h g) = upd_tap i (fun t => f (h t)) g.
Proof.
  unfold upd_tap, upd_net. cbn. by rewrite alter_alter.
Qed.

(** ** The table as a finite map *)

(** The entry [et] is registered with, for [et <> 0]. *)
Definition tap_lookup (ts : list l2_tap) (et : Z) : option (ptr * ptr) :=
  (fun '(_, t) => (tap_cb t, tap_user t)) <$> list_find (fun t => ethertype t = et) ts.

(** Well-formed tables: slots in use hold a callback, no two the same type. *)
Record taps_wf (ts : list l2_tap) : Prop := {
  taps_unique i j t t' :
    ts !! i = Some t -> ts !! j = Some t' -> ethertype t = ethertype t' ->
    ethertype t <> 0 -> i = j;
  taps_cb i t : ts !! i = Some t -> ethertype t <> 0 -> tap_cb t <> NULL;
}.

(** The specification: [reg] updates the map, within the capacity. *)
Definition tap_register (m : Z -> option (ptr * ptr)) (et : Z) (cb user : ptr)
    : Z -> option (ptr * ptr) :=
  fun et' => if decide (et' = et) then if is_null cb then None else Some (cb, user) else m et'.

Section table.
Implicit Types (ts : list l2_tap) (t : l2_tap).

Lemma tap_lookup_Some ts et cu :
  taps_wf ts -> et <> 0 ->
  tap_lookup ts et = Some cu <->
  exists i t, ts !! i = Some t /\ ethertype t = et /\ (tap_cb t, tap_user t) = cu.
Proof.
  intros Hwf Het. unfold tap_lookup. split.
  - destruct (list_find _ ts) as [[i t]|] eqn:Hf; cbn; [|done]. intros [= <-].
    apply list_find_first in Hf as [??]. eauto.
  - intros (i & t & Hi & Ht & <-).
    destruct (list_find_elem_of (fun t => ethertype t = et) ts t) as [[j t'] Hf];
      [by eapply list_elem_of_lookup_2|done|].
    rewrite Hf. cbn. apply list_find_first in Hf as [Hj Ht'].
    assert (i = j) as -> by (eapply (taps_unique _ Hwf); eauto; congruence). by simplify_eq.
Qed.

Lemma tap_lookup_None ts et :
  tap_lookup ts et = None <-> forall i t, ts !! i = Some t -> ethertype t <> et.
Proof.
  unfold tap_lookup. rewrite fmap_None, list_find_None, Forall_lookup. done.
Qed.

(** Lookups of a table and of the same table with one slot replaced agree on
    every type the two slots do not hold. *)
Lemma tap_lookup_insert_ne ts i t' et :
  (forall t, ts !! i = Some t -> ethertype t <> et) -> ethertype t' <> et ->
  tap_lookup (<[i := t']> ts) et = tap_lookup ts et.
Proof.
  intros Hold Hnew. unfold tap_lookup. revert i Hold.
  induction ts as [|t ts IH]; intros i Hold; [done|]. destruct i as [|i]; cbn.
  - specialize (Hold t eq_refl). by rewrite !decide_False.
  - case_decide; [done|]. specialize (IH i Hold).
    destruct (list_find _ (<[i:=t']> ts)) as [[??]|],
      (list_find _ ts) as [[??]|]; cbn in *; congruence.
Qed.

(** Replacing a slot by one whose type no other slot has keeps the table
    well formed. *)
Lemma taps_wf_insert ts i t' :
  taps_wf ts -> (i < length ts)%nat ->
  (ethertype t' <> 0 -> tap_cb t' <> NULL) ->
  (forall j t, j <> i -> ts !! j = Some t -> ethertype t' <> 0 -> ethertype t <> ethertype t') ->
  taps_wf (<[i := t']> ts).
Proof.
  intros [Hu Hc] Hi Hcb Hne.
  assert (Hlk : forall j t, <[i := t']> ts !! j = Some t ->
            j = i /\ t = t' \/ j <> i /\ ts !! j = Some t).
  { intros j t. destruct (decide (j = i)) as [->|Hj].
    - rewrite list_lookup_insert_eq by done. intros [= <-]. auto.
    - rewrite list_lookup_insert_ne by done. auto. }
  split.
  - intros j k t u Hj Hk Heq Hz.
    apply Hlk in Hj as [[-> ->]|[??]]; apply Hlk in Hk as [[-> ->]|[??]]; eauto.
    + destruct (Hne k u); auto.
    + destruct (Hne j t); auto; congruence.
  - intros j t [[-> ->]|[? Hj]]%Hlk; eauto.
Qed.
End table.

(** Filling slot [i], which holds [et] or nothing, with an entry for [et] (or
    clearing it, for a null callback) is registration in the abstract map. *)
Lemma tap_insert_refines ts i t et cb user :
  taps_wf ts -> et <> 0 -> ts !! i = Some t -> (ethertype t = et \/ ethertype t = 0) ->
  (forall j u, j <> i -> ts !! j = Some u -> ethertype u <> et) ->
  let ts' := <[i := L2Tap (if is_null cb then 0 else et) cb user]> ts in
  taps_wf ts' /\
  (forall et', et' <> 0 -> tap_lookup ts' et' = tap_register (tap_lookup ts) et cb user et').
Proof.
  intros Hwf Het Hi Ht Hne ts'. pose proof (lookup_lt_Some _ _ _ Hi) as Hlt.
  assert (Hwf' : taps_wf ts').
  { apply taps_wf_insert; [done..| |]; cbn; destruct (is_null cb) eqn:Hcb; try done.
    - intros _. by apply Z.eqb_neq.
    - intros j u Hj Hu _. eauto. }
  split; [done|]. intros et' Het'. unfold tap_register. case_decide as Heq; [subst et'|].
  - destruct (is_null cb) eqn:Hcb.
    + apply tap_lookup_None. intros j u Hu. subst ts'.
      destruct (decide (j = i)) as [->|Hj].
      * rewrite list_lookup_insert_eq in Hu by done. simplify_eq. cbn. congruence.
      * rewrite list_lookup_insert_ne in Hu by done. eauto.
    + apply tap_lookup_Some; [done..|]. exists i, (L2Tap et cb user).
      subst ts'. by rewrite list_lookup_insert_eq.
  - apply tap_lookup_insert_ne.
    + intros u Hu. simplify_eq. destruct Ht; congruence.
    + cbn. destruct (is_null cb); congruence.
Qed.

(** ** The operations against the specification *)

Section proofs.
Context {E : Type} `{!Platform E}.
Implicit Types (g : globals) (e : E).

(** The table the successful cases leave. *)
Definition taps_insert i t g : globals := upd_net (set_s_taps (<[i := t]> (taps g))) g.

Lemma wp_l2_tap g e et cb user :
  wp ext (net_stack_l2_tap et cb user) g e (fun r g' e' =>
    e' = e /\
    (r = ESP_OK /\ (exists i t, taps g !! i = Some t /\ ethertype t = et /\
       g' = taps_insert i (L2Tap (if is_null cb then 0 else et) cb user) g) \/
     r = ESP_OK /\ is_null cb = true /\ g' = g /\
       (forall i t, taps g !! i = Some t -> ethertype t <> et) \/
     r = ESP_OK /\ is_null cb = false /\
       (forall i t, taps g !! i = Some t -> ethertype t <> et) /\
       (exists i t, taps g !! i = Some t /\ ethertype t = 0 /\
          g' = taps_insert i (L2Tap et cb user) g) \/
     r = ESP_ERR_NO_MEM /\ g' = g /\ is_null cb = false /\
       (forall i t, taps g !! i = Some t -> ethertype t <> et /\ ethertype t <> 0))).
Proof.
  assert (Hset : forall i f t, taps g !! i = Some t ->
            upd_tap i f g = taps_insert i (f t) g).
  { intros i f t Hi. unfold upd_tap, taps_insert, upd_net. do 2 f_equal.
    by apply alter_as_insert. }
  unfold net_stack_l2_tap, find_tap. prog_steps.
  destruct (list_find _ (taps g)) as [[i t]|] eqn:Hf; cbn [fst fmap option_fmap option_map].
  - apply list_find_first in Hf as [Hi Ht]. prog_steps.
    rewrite upd_tap_upd.
    destruct (is_null cb); prog_steps; (split; [done|]); left; (split; [done|]);
      exists i, t; rewrite ?upd_tap_upd; erewrite Hset by done;
      split_and!; [done..|]; cbn; by subst.
  - apply list_find_None in Hf. rewrite Forall_lookup in Hf.
    destruct (is_null cb) eqn:Hcb; prog_steps; [split; auto 10|].
    destruct (list_find _ (taps g)) as [[i t]|] eqn:Hf0;
      cbn [fst fmap option_fmap option_map]; prog_steps; (split; [done|]).
    + apply list_find_first in Hf0 as [Hi Ht]. do 2 right. left.
      split_and!; [done..|]. exists i, t. by erewrite Hset.
    + apply list_find_None in Hf0. rewrite Forall_lookup in Hf0. do 3 right.
      split_and!; eauto.
Qed.

(** Refinement: a successful registration updates the abstract map, and one
    fails exactly when the type is new and every slot is in use. *)
Lemma l2_tap_refines g e et cb user :
  taps_wf (taps g) -> et <> 0 ->
  wp ext (net_stack_l2_tap et cb user) g e (fun r g' e' =>
    taps_wf (taps g') /\
    (r = ESP_OK /\ (forall et', et' <> 0 ->
       tap_lookup (taps g') et' = tap_register (tap_lookup (taps g)) et cb user et') \/
     r = ESP_ERR_NO_MEM /\ g' = g /\ cb <> NULL /\ tap_lookup (taps g) et = None /\
       Forall (fun t => ethertype t <> 0) (taps g))).
Proof.
  intros Hwf Het. eapply wp_mono; [apply wp_l2_tap|].
  intros r g' e' (-> & [(-> & i & t & Hi & Ht & ->)|[(-> & Hcb & -> & Hno)|
    [(-> & Hcb & Hno & i & t & Hi & Ht & ->)|(-> & -> & Hcb & Hno)]]]).
  - destruct (tap_insert_refines (taps g) i t et cb user) as [Hwf' Hl]; auto.
    intros j u Hj Hu Heq. apply Hj. eapply (taps_unique _ Hwf); eauto; congruence.
  - split; [done|]. left. split; [done|]. intros et' _. unfold tap_register.
    case_decide; [subst|done]. rewrite Hcb. by apply tap_lookup_None.
  - destruct (tap_insert_refines (taps g) i t et cb user) as [Hwf' Hl]; eauto.
    rewrite Hcb in Hwf', Hl. auto.
  - split; [done|]. right. split_and!; [done..| | |].
    + by apply Z.eqb_neq.
    + apply tap_lookup_None. intros i t Hi. by apply (Hno i t).
    + apply Forall_lookup. intros i t Hi. by apply (Hno i t).
Qed.

(** The slot a frame is dispatched to. *)
Definition tap_slot (fr : net_frame) g : option l2_tap :=
  if len fr <? 14 then None
  else (fun i => taps g !!! i) <$>
         find_tap (fun t => ethertype t = frame_ethertype fr /\ tap_cb t <> NULL) g.

(** Dispatch: a frame with a slot goes to its callback, with the frame's bytes
    and time stamp, and nothing else happens to any frame. *)
Lemma wp_dispatch_tap g e iface f :
  wp ext (dispatch_tap iface f) g e (fun r g' e' =>
    let fr := frame_at f g in
    g' = g /\
    match tap_slot fr g with
    | Some t => r = true /\
        e' = (ext _ (Idf (L2TapCb (tap_cb t) iface (frame_bytes fr) (hw_ts_ns fr) (tap_user t))) e).2
    | None => r = false /\ e' = e
    end).
Proof.
  unfold dispatch_tap, tap_slot. prog_steps. case_test; prog_steps; [done|].
  destruct (find_tap _ g) as [i|]; cbn [fmap option_fmap option_map]; prog_steps; [|done].
  rewrite wp_idf. by prog_steps.
Qed.

(** In a well-formed table that slot is the registration of the type. *)
Lemma tap_slot_lookup g fr :
  taps_wf (taps g) -> frame_ethertype fr <> 0 -> 14 <= len fr ->
  (fun t => (tap_cb t, tap_user t)) <$> tap_slot fr g = tap_lookup (taps g) (frame_ethertype fr).
Proof.
  intros Hwf Het Hlen. unfold tap_slot, find_tap. case_test; [lia|].
  destruct (list_find _ (taps g)) as [[i t]|] eqn:Hf; cbn.
  - apply list_find_first in Hf as [Hi [Ht Hcb]].
    rewrite (list_lookup_total_correct _ _ _ Hi). symmetry.
    apply tap_lookup_Some; eauto 10.
  - symmetry. apply list_find_None in Hf. rewrite Forall_lookup in Hf.
    apply tap_lookup_None. intros i t Hi Ht. apply (Hf i t Hi). split; [done|].
    eapply taps_cb; [done..|]. by rewrite Ht.
Qed.
End proofs.

(** ** Properties *)

Section properties.
Context {E : Type} `{!Platform E}.
Implicit Types (g : globals) (e : E).

(** C18. Registration refines a finite map. On a well-formed table and for a
    type other than 0 (the mark of an unused slot), [net_stack_l2_tap] ends,
    keeps the table well formed, and either answers [ESP_OK] having updated
    the map from types to callbacks ([NULL] removes the entry) and no other
    entry, or answers [ESP_ERR_NO_MEM] with the table unchanged, which happens
    only for a new type with all slots in use. *)
Theorem l2_tap_refines_map g e et cb user :
  taps_wf (taps g) -> et <> 0 ->
  exists r g' e', run ext (net_stack_l2_tap et cb user) g e = Some (r, g', e') /\
    taps_wf (taps g') /\
    (r = ESP_OK /\ (forall et', et' <> 0 ->
       tap_lookup (taps g') et' = tap_register (tap_lookup (taps g)) et cb user et') \/
     r = ESP_ERR_NO_MEM /\ g' = g /\ cb <> NULL /\ tap_lookup (taps g) et = None /\
       Forall (fun t => ethertype t <> 0) (taps g)).
Proof.
  intros Hwf Het. pose proof (l2_tap_refines g e et cb user Hwf Het) as Hwp.
  apply wp_run in Hwp as (r & g' & e' & ? & ? & ?). by exists r, g', e'.
Qed.

(** Dispatch reads that map. A frame of at least 14 bytes whose EtherType
    is registered goes to its callback, with exactly the frame's bytes, its
    time stamp and the user pointer of the registration, and is reported as
    consumed; any other frame causes no call at all. *)
Theorem dispatch_tap_reads_map g e iface f :
  taps_wf (taps g) -> frame_ethertype (frame_at f g) <> 0 ->
  exists r e', run ext (dispatch_tap iface f) g e = Some (r, g, e') /\
    let fr := frame_at f g in
    match (if len fr <? 14 then None else tap_lookup (taps g) (frame_ethertype fr)) with
    | Some (cb, user) => r = true /\
        e' = (ext _ (Idf (L2TapCb cb iface (frame_bytes fr) (hw_ts_ns fr) user)) e).2
    | None => r = false /\ e' = e
    end.
Proof.
  intros Hwf Het. pose proof (wp_dispatch_tap g e iface f) as Hwp.
  apply wp_run in Hwp as (r & g' & e' & Hrun & -> & Hcase). exists r, e'. split; [done|].
  cbn zeta in *. destruct (len (frame_at f g) <? 14) eqn:Hl.
  - unfold tap_slot in Hcase. by rewrite Hl in Hcase.
  - zify_bools. rewrite <- (tap_slot_lookup g (frame_at f g)) by (done || lia).
    by destruct (tap_slot (frame_at f g) g).
Qed.
End properties.

(** ** Witnesses *)

#[local] Existing Instance tiny.

Lemma taps_wf_zero : taps_wf (taps globals_zero).
Proof.
  assert (H : forall i t, taps globals_zero !! i = Some t -> ethertype t = 0).
  { intros [|[|[|[|i]]]] t; cbn; intros; by simplify_eq. }
  split; intros.
  - exfalso. eauto.
  - exfalso. eauto.
Qed.

Lemma l2_tap_refines_map_witness :
  exists r g' (e' : sim default_oracle),
    run (ext (E := sim default_oracle)) (net_stack_l2_tap 35063 5 6) globals_zero sim_start
      = Some (r, g', e') /\ taps_wf (taps g').
Proof.
  destruct (l2_tap_refines_map (E := sim default_oracle) globals_zero sim_start 35063 5 6)
    as (r & g' & e' & Hrun & Hwf & _).
  - apply taps_wf_zero.
  - lia.
  - exists r, g', e'. split; [exact Hrun|exact Hwf].
Defined.

(** A frame of the pool with EtherType 0x88F7. *)
Definition ptp_frame : net_frame :=
  NetFrame 48 (-1) (replicate 12 0 ++ [136; 247] ++ replicate 1522 1).

Lemma dispatch_tap_reads_map_witness :
  exists r (e' : sim default_oracle),
    run (ext (E := sim default_oracle)) (dispatch_tap 0 0)
      (upd_frame 0 (fun _ => ptp_frame) globals_zero) sim_start
      = Some (r, upd_frame 0 (fun _ => ptp_frame) globals_zero, e').
Proof.
  destruct (dispatch_tap_reads_map (E := sim default_oracle)
    (upd_frame 0 (fun _ => ptp_frame) globals_zero) sim_start 0 0) as (r & e' & Hrun & _).
  - exact taps_wf_zero.
  - vm_compute. discriminate.
  - exists r, e'. exact Hrun.
Defined.
