(* ===== verification/NetStack.v ===== *)
(** * The network stack task and its drivers

    The rest of [components/esp_smoltcp/src/esp_smoltcp.c]: the receive path
    from the Ethernet driver ([eth_input_cb], [net_stack_post_rx]) through the
    poll task ([poll_iface], [net_stack_task]) to the core, the transmit path
    back ([smoltcp_glue_tx_cb], [eth_tx]), link and IP events, bring-up
    ([net_stack_init], [esp_smoltcp_attach_eth]) and the queries of the public
    API. A [net_iface_t *] is an index into [s_ifaces]. *)

From S2P Require Import Prelude Prog Ipv4 Types Platform FramePool L2Tap.

(** [ESP_RETURN_ON_ERROR(p); k]. *)
Definition ESP_RETURN_ON_ERROR (p : cprog esp_err) (k : cprog esp_err) : cprog esp_err :=
  r ← p;
  if decide (r = ESP_OK) then k else mret r.

(** The events [eth_event] distinguishes. *)
Inductive eth_event_id :=
  ETHERNET_EVENT_CONNECTED | ETHERNET_EVENT_DISCONNECTED | ETHERNET_EVENT_OTHER.

Section code.
Context `{cfg : Config} {E : Type} `{!Platform E}.

(** [1u << i] *)
Definition IP_UP_BIT_ (i : nat) : Z := Z.shiftl 1 (Z.of_nat i).

Definition PROGRESS_BIT : Z := 1.

Definition emit_event (iface : nat) (evt : net_event) : cprog unit :=
  cb ← gets (fun g => s_user_cb (net g));
  if is_null cb then mret tt
  else
    arg ← gets (fun g => s_user_cb_arg (net g));
    idf (UserEventCb cb iface evt arg).

(** [if (s_task) xTaskNotifyGive(s_task)] *)
Definition net_stack_kick_poll : cprog unit :=
  t ← gets (fun g => s_task (net g));
  if is_null t then mret tt else rtos (XTaskNotifyGive t).

Definition net_stack_link_event (iface : nat) (up : bool) : cprog unit :=
  if (NET_IFACE_MAX <=? iface)%nat then mret tt
  else
    modify (upd_iface iface (set_link_up up));;
    (if up
     then modify (upd_iface iface (fun i => set_link_ups (u32 (link_ups i + 1)) i))
     else modify (upd_iface iface (fun i => set_link_downs (u32 (link_downs i + 1)) i)));;
    lock ← gets (fun g => g_smoltcp_lock (net g));
    (if lock : bool then
       SMOLTCP_LOCK;;
       h ← gets (fun g => smoltcp_handle (iface_at iface g));
       core (Smoltcp_iface_set_link_up h up);;
       SMOLTCP_UNLOCK
     else mret tt);;
    emit_event iface (if up then NET_EVT_IFACE_UP else NET_EVT_IFACE_DOWN);;
    net_stack_kick_poll.

Definition net_stack_post_rx (iface : nat) (f : ptr) : cprog unit :=
  i ← gets (iface_at iface);
  if (NET_IFACE_MAX <=? iface)%nat || negb (enabled i) then net_frame_free (Some f)
  else
    modify (upd_iface iface (fun i => set_rx_frames (u32 (rx_frames i + 1)) i));;
    n ← gets (fun g => len (frame_at f g));
    modify (upd_iface iface (fun i => set_rx_bytes (u64 (rx_bytes i + n)) i));;
    ok ← rtos (XQueueSend (rx_queue i) f 0);
    if negb ok then
      modify (upd_iface iface (fun i => set_rx_drops (u32 (rx_drops i + 1)) i));;
      net_frame_free (Some f)
    else
      t ← gets (fun g => s_task (net g));
      if is_null t then mret tt else rtos (VTaskNotifyGiveFromISR t).

(** [eth_tx], the only value [iface->tx] takes. *)
Definition eth_tx (frame : list Z) : cprog esp_err :=
  h ← gets (fun g => s_eth_handle (net g));
  idf (EspEthTransmit h frame).

Definition call_tx (tx : l2_tx_fn) (frame : list Z) : cprog esp_err :=
  match tx with eth_tx_fn => eth_tx frame end.

Definition smoltcp_glue_tx_cb (iface_id : nat) (frame : list Z) : cprog Z :=
  i ← gets (iface_at iface_id);
  if (NET_IFACE_MAX <=? iface_id)%nat then mret (-1)
  else
    match enabled i, tx i with
    | true, Some tx =>
        r ← call_tx tx frame;
        if decide (r = ESP_OK) then
          modify (upd_iface iface_id (fun i => set_tx_frames (u32 (tx_frames i + 1)) i));;
          modify (upd_iface iface_id (fun i =>
            set_tx_bytes (u64 (tx_bytes i + Z.of_nat (length frame))) i));;
          mret 0
        else
          modify (upd_iface iface_id (fun i => set_tx_fails (u32 (tx_fails i + 1)) i));;
          mret (-1)
    | _, _ => mret (-1)
    end.

Definition smoltcp_glue_now_us : cprog Z := idf EspTimerGetTime.

Definition smoltcp_glue_rand32 : cprog Z := idf EspRandom.

(** The pointer returned is the index of the interface. *)
Definition net_iface_get (id : nat) : cprog (option nat) :=
  i ← gets (iface_at id);
  if (NET_IFACE_MAX <=? id)%nat || negb (enabled i) then mret None else mret (Some id).

(** The body of the draining loop of [poll_iface]: one frame. *)
Definition handle_rx (i : nat) (f : ptr) : cprog unit :=
  id ← gets (fun g => if_id (iface_at i g));
  tapped ← dispatch_tap id f;
  (if tapped : bool then mret tt
   else
     SMOLTCP_LOCK;;
     h ← gets (fun g => smoltcp_handle (iface_at i g));
     fr ← gets (fun g => frame_bytes (frame_at f g));
     core (Smoltcp_iface_rx h fr);;
     SMOLTCP_UNLOCK);;
  net_frame_free (Some f).

(** The loop of [poll_iface] that drains the receive queue. *)
Fixpoint drain_rx (fuel : nat) (i : nat) : cprog unit :=
  match fuel with
  | O => Spin
  | S fuel =>
      q ← gets (fun g => rx_queue (iface_at i g));
      r ← rtos (XQueueReceive q 0);
      match r with
      | None => mret tt
      | Some f =>
          handle_rx i f;;
          drain_rx fuel i
      end
  end.

(** One poll of the core under the lock, with the transmit callbacks it
    makes; the result is whether the interface has an address. *)
Definition run_core (i : nat) : cprog bool :=
  SMOLTCP_LOCK;;
  h ← gets (fun g => smoltcp_handle (iface_at i g));
  sent ← core (Smoltcp_iface_poll h);
  for_each sent (fun '(id, frame) => smoltcp_glue_tx_cb id frame;; mret tt);;
  h ← gets (fun g => smoltcp_handle (iface_at i g));
  ip_up_now ← core (Smoltcp_iface_has_ip h);
  SMOLTCP_UNLOCK;;
  mret ip_up_now.

(** The end of [poll_iface]: a change of [ip_up] is reported. *)
Definition surface_ip (i : nat) (ip_up_now : bool) : cprog unit :=
  was_up ← gets (fun g => ip_up (iface_at i g));
  modify (upd_iface i (set_ip_up ip_up_now));;
  if bool_decide (ip_up_now = was_up) then mret tt
  else
    id ← gets (fun g => if_id (iface_at i g));
    emit_event id (if ip_up_now then NET_EVT_GOT_IP else NET_EVT_LOST_IP);;
    ev ← gets (fun g => s_evt (net g));
    if ip_up_now
    then rtos (XEventGroupSetBits ev (IP_UP_BIT_ id))
    else rtos (XEventGroupClearBits ev (IP_UP_BIT_ id)).

Definition poll_iface (fuel : nat) (i : nat) : cprog unit :=
  drain_rx fuel i;;
  ip_up_now ← run_core i;
  p ← gets (fun g => s_progress_evt (net g));
  rtos (XEventGroupSetBits p PROGRESS_BIT);;
  surface_ip i ip_up_now.

Definition INT64_MAX : Z := 9223372036854775807.

(** [if (d >= 0 && d < next_us) next_us = d] *)
Definition sooner (next_us d : Z) : Z := if (0 <=? d) && (d <? next_us) then d else next_us.

(** The soonest deadline of the enabled interfaces. *)
Fixpoint soonest (ids : list nat) (next_us : Z) : cprog Z :=
  match ids with
  | [] => mret next_us
  | i :: ids =>
      it ← gets (iface_at i);
      if negb (enabled it) then soonest ids next_us
      else
        d ← core (Smoltcp_iface_poll_delay_us (smoltcp_handle it));
        soonest ids (sooner next_us d)
  end.

(** [wait ? wait : 1], with [wait] the tick count of the deadline. The sum is an
    [int64_t]. *)
Definition wait_ticks (next_us : Z) : Z :=
  let wait :=
    if next_us =? INT64_MAX then portMAX_DELAY
    else pdMS_TO_TICKS (Z.quot (i64 (next_us + 999)) 1000) in
  if wait =? 0 then 1 else wait.

(** One turn of the endless loop of the poll task. *)
Definition net_stack_turn (fuel : nat) : cprog unit :=
  for_each (seq 0 NET_IFACE_MAX) (fun i =>
    it ← gets (iface_at i);
    if enabled it then poll_iface fuel i else mret tt);;
  SMOLTCP_LOCK;;
  next_us ← soonest (seq 0 NET_IFACE_MAX) INT64_MAX;
  SMOLTCP_UNLOCK;;
  rtos (UlTaskNotifyTake true (wait_ticks next_us));;
  mret tt.

(** [net_stack_task], for as many turns as there is fuel. *)
Fixpoint net_stack_task (turns fuel : nat) : cprog unit :=
  match turns with
  | O => Spin
  | S turns => net_stack_turn fuel;; net_stack_task turns fuel
  end.

Definition net_stack_register_event_cb (cb user : ptr) : cprog esp_err :=
  modify (upd_net (set_s_user_cb cb));;
  modify (upd_net (set_s_user_cb_arg user));;
  mret ESP_OK.

Definition net_stack_wait_progress (timeout_ms : Z) : cprog unit :=
  p ← gets (fun g => s_progress_evt (net g));
  if is_null p then rtos (VTaskDelay 1)
  else
    rtos (XEventGroupWaitBits p PROGRESS_BIT true false (pdMS_TO_TICKS timeout_ms));;
    mret tt.

(** [SMOLTCP_LOCK(); v = c(s_ifaces[iface].smoltcp_handle); SMOLTCP_UNLOCK();] *)
Definition locked_at {X} (iface : nat) (c : ptr -> core_call X) : cprog X :=
  SMOLTCP_LOCK;;
  h ← gets (fun g => smoltcp_handle (iface_at iface g));
  v ← core (c h);
  SMOLTCP_UNLOCK;;
  mret v.

(** The guard and lock around the three address queries. *)
Definition query_iface (iface : nat) (c : ptr -> core_call Z) : cprog Z :=
  i ← gets (iface_at iface);
  if (NET_IFACE_MAX <=? iface)%nat || negb (enabled i) then mret 0
  else locked_at iface c.

Definition net_stack_get_ipv4 (iface : nat) : cprog Z :=
  query_iface iface Smoltcp_iface_get_ipv4.

Definition net_stack_get_gateway (iface : nat) : cprog Z :=
  query_iface iface Smoltcp_iface_get_gw.

Definition net_stack_get_netmask (iface : nat) : cprog Z :=
  query_iface iface Smoltcp_iface_get_netmask.

(** [out] is the buffer passed, if any; the result holds the bytes written. *)
Definition esp_smoltcp_get_ipv6_link_local (iface : nat) (out : bool)
    : cprog (esp_err * option (list Z)) :=
  i ← gets (iface_at iface);
  if (NET_IFACE_MAX <=? iface)%nat || negb (enabled i) || negb out
  then mret (ESP_ERR_NOT_FOUND, None)
  else
    r ← locked_at iface Smoltcp_iface_get_ipv6;
    mret (match r with Some _ => ESP_OK | None => ESP_ERR_NOT_FOUND end, r).

Definition net_stack_l2_send (iface : nat) (frame : list Z) : cprog esp_err :=
  i ← gets (iface_at iface);
  if (NET_IFACE_MAX <=? iface)%nat then mret ESP_ERR_INVALID_ARG
  else
    match enabled i, tx i with
    | true, Some tx => call_tx tx frame
    | _, _ => mret ESP_ERR_INVALID_STATE
    end.

(** What is written to [*out], if anything. *)
Definition net_stack_get_stats (iface : nat) (out : bool) : cprog (esp_err * option iface_stats) :=
  i ← gets (iface_at iface);
  if (NET_IFACE_MAX <=? iface)%nat || negb out then mret (ESP_ERR_INVALID_ARG, None)
  else
    let stats := IfaceStats (rx_frames i) (rx_bytes i) (rx_drops i) (tx_frames i) (tx_bytes i)
                   (tx_fails i) (link_ups i) (link_downs i) in
    if enabled i && negb (is_null (smoltcp_handle i)) then
      n ← locked_at iface Smoltcp_iface_socket_count;
      mret (ESP_OK, Some (stats n))
    else mret (ESP_OK, Some (stats 0)).

Definition net_stack_smoltcp_handle (iface : nat) : cprog ptr :=
  i ← gets (iface_at iface);
  if (NET_IFACE_MAX <=? iface)%nat || negb (enabled i) then mret NULL
  else mret (smoltcp_handle i).

Definition esp_smoltcp_wait_for_ip (iface : nat) (timeout_ms : Z) : cprog esp_err :=
  if (NET_IFACE_MAX <=? iface)%nat then mret ESP_ERR_INVALID_ARG
  else
    ev ← gets (fun g => s_evt (net g));
    let bit := IP_UP_BIT_ iface in
    got ← rtos (XEventGroupWaitBits ev bit false false (pdMS_TO_TICKS timeout_ms));
    mret (if Z.land got bit =? 0 then ESP_ERR_TIMEOUT else ESP_OK).

(** The alias [net_stack_wait_ready(ms)] of [esp_smoltcp.h]. *)
Definition net_stack_wait_ready (ms : Z) : cprog esp_err := esp_smoltcp_wait_for_ip NET_IFACE_ETH ms.

(** The body of [net_stack_init] after the two IDF initialisations. *)
Definition init_resources : cprog esp_err :=
  ev ← rtos XEventGroupCreate;
  modify (upd_net (set_s_evt ev));;
  p ← rtos XEventGroupCreate;
  modify (upd_net (set_s_progress_evt p));;
  if is_null ev || is_null p then mret ESP_ERR_NO_MEM
  else
    m ← rtos (XSemaphoreCreateMutex M_smoltcp);
    modify (upd_net (set_g_smoltcp_lock m));;
    if negb m then mret ESP_ERR_NO_MEM
    else
      frame_pool_init;;
      core Smoltcp_core_init;;
      for_each (seq 0 NET_IFACE_MAX) (fun i =>
        modify (upd_iface i (set_if_id i));;
        q ← rtos (XQueueCreate RX_QUEUE_DEPTH);
        modify (upd_iface i (set_rx_queue q)));;
      t ← rtos (XTaskCreate "esp_smoltcp" 0);
      match t with
      | None => mret ESP_ERR_NO_MEM
      | Some t =>
          modify (upd_net (set_s_task t));;
          mret ESP_OK
      end.

Definition net_stack_init : cprog esp_err :=
  inited ← gets (fun g => net_inited (net g));
  if inited : bool then mret ESP_OK
  else
    modify (upd_net (set_net_inited true));;
    ESP_RETURN_ON_ERROR (idf NvsFlashInit) (
    ESP_RETURN_ON_ERROR (idf EspEventLoopCreateDefault) init_resources).

Definition eth_input_cb (buf : list Z) (buf_ptr : ptr) : cprog esp_err :=
  let n := Z.of_nat (length buf) in
  f ← net_frame_alloc n;
  match f with
  | None =>
      idf (Free buf_ptr);;
      mret ESP_ERR_NO_MEM
  | Some f =>
      modify (upd_frame f (fun fr => set_data (memcpy (data fr) buf (length buf)) fr));;
      idf (Free buf_ptr);;
      net_stack_post_rx NET_IFACE_ETH f;;
      mret ESP_OK
  end.

Definition eth_event (id : eth_event_id) : cprog unit :=
  match id with
  | ETHERNET_EVENT_CONNECTED => net_stack_link_event NET_IFACE_ETH true
  | ETHERNET_EVENT_DISCONNECTED => net_stack_link_event NET_IFACE_ETH false
  | ETHERNET_EVENT_OTHER => mret tt
  end.

(** [ptp_start] is defined with the PTP component; it is passed in. *)
Definition esp_smoltcp_attach_eth (ptp_start : nat -> cprog esp_err) (eth_handle : ptr)
    : cprog esp_err :=
  if is_null eth_handle then mret ESP_ERR_INVALID_ARG
  else
    i ← gets (iface_at NET_IFACE_ETH);
    if enabled i then mret ESP_ERR_INVALID_STATE
    else
      modify (upd_net (set_s_eth_handle eth_handle));;
      modify (upd_iface NET_IFACE_ETH (set_enabled true));;
      modify (upd_iface NET_IFACE_ETH (set_tx (Some eth_tx_fn)));;
      ESP_RETURN_ON_ERROR (
        r ← idf (EspEthIoctlGetMac eth_handle);
        modify (upd_iface NET_IFACE_ETH (set_mac r.2));;
        mret r.1) (
      ESP_RETURN_ON_ERROR (idf (EspEthUpdateInputPath eth_handle)) (
      ESP_RETURN_ON_ERROR (idf EspEventHandlerRegister) (
        m ← gets (fun g => mac (iface_at NET_IFACE_ETH g));
        h ← core (Smoltcp_iface_new NET_IFACE_ETH m);
        modify (upd_iface NET_IFACE_ETH (set_smoltcp_handle h));;
        idf (EspEthStart eth_handle);;
        (if DHCPV4_CLIENT then locked_at NET_IFACE_ETH Smoltcp_iface_enable_dhcp
         else
           let ip_be := default 0 (smoltcp_parse_ipv4 STATIC_IP) in
           let gw_be := default 0 (smoltcp_parse_ipv4 STATIC_GW) in
           locked_at NET_IFACE_ETH (fun h => Smoltcp_iface_set_static h ip_be 24 gw_be));;
        (if PTP then ptp_start NET_IFACE_ETH;; mret tt else mret tt);;
        net_stack_kick_poll;;
        mret ESP_OK))).
End code.
