(* ===== verification/RxPath.v ===== *)
(** * The receive path: frames are conserved and delivered in order

    Theorems about [FramePool], [L2Tap] and [NetStack]: every frame of the slab
    pool is at any time in the free list or in exactly one receive queue, an
    input frame is queued with its bytes, and a poll hands the queued frames,
    oldest first, to their tap or to the core and returns them to the pool. *)

From S2P Require Import Prelude Prog Ipv4 Types Platform FramePool L2Tap NetStack.

(** ** What a frame is routed to *)

Inductive rx_event :=
  | TapRx (cb : ptr) (iface : nat) (frame : list Z) (ts : Z) (user : ptr)
  | CoreRx (h : ptr) (frame : list Z).

Definition ev_rx (ev : event) : option rx_event :=
  match ev with
  | existT _ (c, _) =>
      match c with
      | Idf (L2TapCb cb iface frame ts user) => Some (TapRx cb iface frame ts user)
      | Core (Smoltcp_iface_rx h frame) => Some (CoreRx h frame)
      | _ => None
      end
  end.

(** The calls that hand a frame over. *)
Definition rx_call {X} (c : ccall X) : bool :=
  match c with
  | Idf (L2TapCb _ _ _ _ _) | Core (Smoltcp_iface_rx _ _) => true
  | _ => false
  end.

Lemma ev_rx_other {X} (c : ccall X) r : rx_call c = false -> ev_rx (existT X (c, r)) = None.
Proof. destruct c as [?|? []|? []]; done. Qed.

(** A frame that matches a tap slot goes to its callback, every other one to
    the core. *)
Definition route (g : globals) (i : nat) (f : ptr) : rx_event :=
  let fr := frame_at f g in
  match tap_slot fr g with
  | Some t => TapRx (tap_cb t) (if_id (iface_at i g)) (frame_bytes fr) (hw_ts_ns fr) (tap_user t)
  | None => CoreRx (smoltcp_handle (iface_at i g)) (frame_bytes fr)
  end.

(** ** Code that leaves the queues alone *)

(** The handles the receive path goes through. *)
Definition rx_handles (g : globals) : ptr * list ptr * nat :=
  (free_q g, rx_queue <$> s_ifaces (net g), length (s_frame_pool (net g))).

Section keeps.
Context {E : Type} `{!Platform E, !QueueLaws E, !History E}.
Implicit Types (g : globals) (e : E).

(** The handles, the queues and the frames handed over are unchanged. *)
Definition rx_same g e g' e' : Prop := rx_handles g' = rx_handles g /\ qview e' = qview e /\ picked ev_rx e' = picked ev_rx e.

Definition rx_keeps {A} (p : cprog A) : Prop :=
  forall g e, wp ext p g e (fun _ g' e' => rx_same g e g' e').

Lemma rx_same_trans g1 e1 g2 e2 g3 e3 :
  rx_same g1 e1 g2 e2 -> rx_same g2 e2 g3 e3 -> rx_same g1 e1 g3 e3.
Proof. unfold rx_same. intros (?&?&?) (?&?&?). split_and!; congruence. Qed.

Lemma rx_keeps_ret {A} (a : A) : rx_keeps (mret a).
Proof. by intros g e. Qed.

Lemma rx_keeps_bind {A B} (p : cprog A) (f : A -> cprog B) :
  rx_keeps p -> (forall a, rx_keeps (f a)) -> rx_keeps (p ≫= f).
Proof.
  intros Hp Hf g e. rewrite wp_bind. eapply wp_mono; [apply Hp|].
  intros a g' e' Hs. eapply wp_mono; [apply Hf|]. intros b g'' e'' Hs'.
  exact (rx_same_trans _ _ _ _ _ _ Hs Hs').
Qed.

Lemma rx_keeps_gets {A} (f : globals -> A) : rx_keeps (gets f).
Proof. by intros g e. Qed.

Lemma rx_keeps_modify f : (forall g, rx_handles (f g) = rx_handles g) -> rx_keeps (modify f).
Proof. intros Hf g e. split_and!; [apply Hf|done..]. Qed.

Lemma rx_keeps_call {X} (c : ccall X) :
  queue_op c = false -> runs_others c = false -> rx_call c = false -> rx_keeps (call c).
Proof.
  intros ??? g e. split_and!; [done|by apply q_frame|].
  rewrite picked_step, ev_rx_other by done. apply app_nil_r.
Qed.

Lemma rx_keeps_if {A} (b : bool) (p q : cprog A) : rx_keeps p -> rx_keeps q -> rx_keeps (if b then p else q).
Proof. by destruct b. Qed.

Lemma rx_keeps_decide {A} P `{!Decision P} (p q : cprog A) :
  rx_keeps p -> rx_keeps q -> rx_keeps (if decide P then p else q).
Proof. by destruct (decide P). Qed.

Lemma rx_keeps_for_each {X} (xs : list X) (body : X -> cprog unit) :
  (forall x, rx_keeps (body x)) -> rx_keeps (for_each xs body).
Proof.
  intros Hb. induction xs as [|x xs IH]; cbn [for_each]; [apply rx_keeps_ret|].
  by apply rx_keeps_bind.
Qed.

(** Updates of an interface that keep its queue. *)
Lemma rx_handles_upd_iface i f g :
  (forall it, rx_queue (f it) = rx_queue it) ->
  rx_handles (upd_iface i f g) = rx_handles g.
Proof.
  intros Hf. unfold rx_handles, upd_iface, upd_net. cbn. do 2 f_equal.
  apply list_eq. intros j. rewrite !list_lookup_fmap.
  destruct (decide (i = j)) as [<-|?].
  - rewrite list_lookup_alter_eq. destruct (s_ifaces (net g) !! i); cbn; by rewrite ?Hf.
  - by rewrite list_lookup_alter_ne.
Qed.

Lemma rx_handles_upd_frame p f g : rx_handles (upd_frame p f g) = rx_handles g.
Proof. unfold rx_handles, upd_frame, upd_net. cbn. by rewrite length_alter. Qed.
End keeps.

Create HintDb rx_keeps.

#[export] Hint Resolve rx_keeps_ret rx_keeps_bind rx_keeps_gets rx_keeps_if rx_keeps_decide rx_keeps_for_each : rx_keeps.

#[export] Hint Extern 1 (rx_keeps (mret _)) => apply rx_keeps_ret : rx_keeps.
#[export] Hint Extern 1 (rx_keeps (Ret _)) => apply rx_keeps_ret : rx_keeps.
#[export] Hint Extern 1 (rx_keeps (_ ≫= _)) => apply rx_keeps_bind; [|intros ?] : rx_keeps.
#[export] Hint Extern 1 (rx_keeps (rtos _)) => apply rx_keeps_call; reflexivity : rx_keeps.
#[export] Hint Extern 1 (rx_keeps (idf _)) => apply rx_keeps_call; reflexivity : rx_keeps.
#[export] Hint Extern 1 (rx_keeps (core _)) => apply rx_keeps_call; reflexivity : rx_keeps.
#[export] Hint Extern 1 (rx_keeps SMOLTCP_LOCK) => apply rx_keeps_call; reflexivity : rx_keeps.
#[export] Hint Extern 1 (rx_keeps SMOLTCP_UNLOCK) => apply rx_keeps_call; reflexivity : rx_keeps.
#[export] Hint Extern 1 (rx_keeps (modify _)) =>
  apply rx_keeps_modify; intros ?; first [ done | by apply rx_handles_upd_iface
                                      | by apply rx_handles_upd_frame ] : rx_keeps.
#[export] Hint Extern 2 (rx_keeps (match ?x with _ => _ end)) => destruct x : rx_keeps.

Ltac rx_keeps_auto := auto 100 with rx_keeps nocore.

Section kept.
Context `{cfg : Config} {E : Type} `{!Platform E, !QueueLaws E, !History E}.

Lemma rx_keeps_emit i evt : rx_keeps (emit_event i evt).
Proof. unfold emit_event. rx_keeps_auto. Qed.

Lemma rx_keeps_kick : rx_keeps net_stack_kick_poll.
Proof. unfold net_stack_kick_poll. rx_keeps_auto. Qed.
End kept.

#[export] Hint Resolve rx_keeps_emit rx_keeps_kick : rx_keeps.

Section kept2.
Context `{cfg : Config} {E : Type} `{!Platform E, !QueueLaws E, !History E}.

Lemma rx_keeps_link_event i up : rx_keeps (net_stack_link_event i up).
Proof. unfold net_stack_link_event. rx_keeps_auto. Qed.

Lemma rx_keeps_tx_cb i frame : rx_keeps (smoltcp_glue_tx_cb i frame).
Proof. unfold smoltcp_glue_tx_cb, call_tx, eth_tx. rx_keeps_auto. Qed.

Lemma rx_keeps_surface_ip i b : rx_keeps (surface_ip i b).
Proof. unfold surface_ip. rx_keeps_auto. Qed.

Lemma rx_keeps_l2_tap et cb user : rx_keeps (net_stack_l2_tap et cb user).
Proof. unfold net_stack_l2_tap, when. rx_keeps_auto. Qed.
End kept2.

#[export] Hint Resolve rx_keeps_link_event rx_keeps_tx_cb rx_keeps_surface_ip rx_keeps_l2_tap : rx_keeps.

Section kept3.
Context `{cfg : Config} {E : Type} `{!Platform E, !QueueLaws E, !History E}.

Lemma rx_keeps_run_core i : rx_keeps (run_core i).
Proof.
  unfold run_core. rx_keeps_auto.
Qed.

Lemma rx_keeps_attach ptp h : (forall i, rx_keeps (ptp i)) -> rx_keeps (esp_smoltcp_attach_eth ptp h).
Proof.
  intros Hptp. unfold esp_smoltcp_attach_eth, ESP_RETURN_ON_ERROR, locked_at. rx_keeps_auto.
Qed.

Lemma rx_keeps_l2_send i frame : rx_keeps (net_stack_l2_send i frame).
Proof. unfold net_stack_l2_send, call_tx, eth_tx. rx_keeps_auto. Qed.
End kept3.

(** ** Conservation of frames *)

Section conservation.
Context `{cfg : Config} {E : Type} `{!Platform E, !QueueLaws E, !History E}.
Implicit Types (g : globals) (e : E) (held free : list Z) (qs : list (list Z)).

Definition rxq (i : nat) (g : globals) : ptr := rx_queue (iface_at i g).

(** The free list is [free], the receive queue of interface [i] holds
    [qs !! i], and the running code holds the frames [held]. The queues are
    different objects, and together they account for every frame of the pool
    exactly once. *)
Record rx_ok g e held free qs : Prop := {
  rx_ifaces : length (s_ifaces (net g)) = NET_IFACE_MAX;
  rx_pool : length (s_frame_pool (net g)) = POOL_SZ;
  rx_free : free_list g e free;
  rx_qs : length qs = NET_IFACE_MAX;
  rx_queues i fs : qs !! i = Some fs -> qview e !! rxq i g = Some (RX_QUEUE_DEPTH, fs);
  rx_bound i fs : qs !! i = Some fs -> (length fs <= RX_QUEUE_DEPTH)%nat;
  rx_distinct : NoDup (free_q g :: (rx_queue <$> s_ifaces (net g)));
  rx_all : held ++ free ++ concat qs ≡ₚ Z.of_nat <$> seq 0 POOL_SZ;
}.

Definition frames_conserved g e : Prop := exists free qs, rx_ok g e [] free qs.

Lemma rx_handles_rxq g g' i : rx_handles g' = rx_handles g -> rxq i g' = rxq i g.
Proof.
  unfold rx_handles. intros [= _ Hq _]. unfold rxq, iface_at.
  rewrite !list_lookup_total_alt. apply (f_equal (fun l => l !! i)) in Hq.
  rewrite !list_lookup_fmap in Hq.
  destruct (s_ifaces (net g') !! i), (s_ifaces (net g) !! i); cbn in *; congruence.
Qed.

Lemma rx_ok_handles g g' e e' held free qs :
  rx_handles g' = rx_handles g -> qview e' = qview e ->
  rx_ok g e held free qs -> rx_ok g' e' held free qs.
Proof.
  intros Hh Hq [Hi Hp [Hf0 Hf] Hl Hqs Hb Hd Ha].
  pose proof Hh as [= Hfq Hiq Hpl].
  pose proof (f_equal length Hiq) as Hil. rewrite !length_fmap in Hil.
  split; unfold free_list; rewrite ?Hil, ?Hpl, ?Hfq, ?Hq, ?Hiq; try done.
  intros i fs Hfs. rewrite (rx_handles_rxq _ _ _ Hh). eauto.
Qed.

Lemma rx_same_conserved g e g' e' :
  rx_same g e g' e' -> frames_conserved g e -> frames_conserved g' e'.
Proof.
  intros (Hh & Hq & _) (free & qs & Hok). exists free, qs. by eapply rx_ok_handles.
Qed.

Lemma rx_keeps_conserved {A} (p : cprog A) g e :
  rx_keeps p -> frames_conserved g e ->
  wp ext p g e (fun _ g' e' => frames_conserved g' e').
Proof. intros Hp Hc. wp_use Hp. intros a g' e' Hs. by eapply rx_same_conserved. Qed.

(** A pointer the queues or the code hold is a frame of the pool. *)
Lemma rx_ok_frame g e held free qs f :
  rx_ok g e held free qs -> f ∈ held ++ free ++ concat qs -> frame_ok f.
Proof.
  intros Hok Hf. rewrite (rx_all _ _ _ _ _ Hok) in Hf.
  apply list_elem_of_fmap in Hf as (n & -> & Hn%elem_of_seq). unfold frame_ok. lia.
Qed.

Lemma rx_ok_nodup g e held free qs :
  rx_ok g e held free qs -> NoDup (held ++ free ++ concat qs).
Proof.
  intros Hok. rewrite (rx_all _ _ _ _ _ Hok). apply NoDup_fmap; [apply _|apply NoDup_seq].
Qed.

Lemma rx_ok_length g e held free qs :
  rx_ok g e held free qs ->
  (length held + (length free + length (concat qs)) = POOL_SZ)%nat.
Proof.
  intros Hok. pose proof (Permutation_length (rx_all _ _ _ _ _ Hok)) as Hl.
  rewrite !length_app, length_fmap, length_seq in Hl. lia.
Qed.

(** A receive queue is not the free list, nor another receive queue. *)
Lemma rx_ok_queue g e held free qs i :
  rx_ok g e held free qs -> (i < NET_IFACE_MAX)%nat ->
  rxq i g <> free_q g /\
  (forall j, (j < NET_IFACE_MAX)%nat -> rxq i g = rxq j g -> i = j).
Proof.
  intros [Hi _ _ _ _ _ Hd _] Hlt. rewrite <- Hi in *.
  assert (Hlk : forall j, (j < length (s_ifaces (net g)))%nat ->
            (rx_queue <$> s_ifaces (net g)) !! j = Some (rxq j g)).
  { intros j [x Hx]%lookup_lt_is_Some. rewrite list_lookup_fmap, Hx. cbn.
    unfold rxq, iface_at. by rewrite (list_lookup_total_correct _ _ _ Hx). }
  apply NoDup_cons in Hd as [Hnin Hd]. split.
  - intros Heq. apply Hnin. rewrite <- Heq. by eapply list_elem_of_lookup_2, Hlk.
  - intros j Hj Heq. eapply NoDup_lookup; [done|by apply Hlk|]. rewrite Hlk by done. by f_equal.
Qed.

(** Replacing what one queue holds. *)
Lemma concat_insert_perm {A} (qs : list (list A)) i fs fs' :
  qs !! i = Some fs -> concat (<[i := fs']> qs) ++ fs ≡ₚ concat qs ++ fs'.
Proof.
  revert i. induction qs as [|q qs IH]; intros [|i]; cbn; intros H; simplify_eq.
  - rewrite (Permutation_app_comm fs' (concat qs)), (Permutation_app_comm fs (concat qs)),
      <- !app_assoc. apply Permutation_app_head, Permutation_app_comm.
  - rewrite <- !app_assoc. by rewrite IH.
Qed.

(** The two ways the queues move. *)
Lemma rx_ok_set_free g g' e e' held held' free free' qs :
  rx_ok g e held free qs -> rx_handles g' = rx_handles g ->
  qview e' = <[free_q g := (POOL_SZ, free')]> (qview e) ->
  held' ++ free' ≡ₚ held ++ free -> rx_ok g' e' held' free' qs.
Proof.
  intros Hok Hh Hq Hp. pose proof Hok as [Hi Hpl [Hf0 Hf] Hl Hqs Hb Hd Ha].
  pose proof Hh as [= Hfq Hiq Hpl'].
  pose proof (f_equal length Hiq) as Hil. rewrite !length_fmap in Hil.
  split; unfold free_list; rewrite ?Hil, ?Hpl', ?Hfq, ?Hiq; try done.
  - by rewrite Hq, lookup_insert_eq.
  - intros i fs Hfs. rewrite (rx_handles_rxq _ _ _ Hh), Hq.
    rewrite lookup_insert_ne; [eauto|]. intros Heq.
    apply lookup_lt_Some in Hfs. rewrite Hl in Hfs.
    by destruct (rx_ok_queue _ _ _ _ _ i Hok Hfs) as [[] _].
  - by rewrite (app_assoc held'), Hp, <- app_assoc.
Qed.

Lemma rx_ok_set_queue g g' e e' held held' free qs i fs fs' :
  rx_ok g e held free qs -> rx_handles g' = rx_handles g -> qs !! i = Some fs ->
  qview e' = <[rxq i g := (RX_QUEUE_DEPTH, fs')]> (qview e) ->
  held' ++ fs' ≡ₚ held ++ fs -> (length fs' <= RX_QUEUE_DEPTH)%nat ->
  rx_ok g' e' held' free (<[i := fs']> qs).
Proof.
  intros Hok Hh Hfs Hq Hp Hlen. pose proof Hok as [Hi Hpl [Hf0 Hf] Hl Hqs Hb Hd Ha].
  pose proof Hh as [= Hfq Hiq Hpl'].
  pose proof (f_equal length Hiq) as Hil. rewrite !length_fmap in Hil.
  assert (Hlt : (i < NET_IFACE_MAX)%nat) by (rewrite <- Hl; by eapply lookup_lt_Some).
  destruct (rx_ok_queue _ _ _ _ _ i Hok Hlt) as [Hne Hinj].
  split; unfold free_list; rewrite ?Hil, ?Hpl', ?Hfq, ?Hiq, ?length_insert; try done.
  - by rewrite Hq, lookup_insert_ne.
  - intros j fs0. rewrite (rx_handles_rxq _ _ _ Hh), Hq.
    destruct (decide (i = j)) as [<-|Hij].
    + rewrite list_lookup_insert_eq by lia. intros [= <-]. by rewrite lookup_insert_eq.
    + rewrite list_lookup_insert_ne by done. intros Hj.
      rewrite lookup_insert_ne; [eauto|]. intros Heq. apply Hij, Hinj; [|done].
      rewrite <- Hl. by eapply lookup_lt_Some.
  - intros j fs0 Hj. destruct (decide (i = j)) as [<-|Hij].
    + rewrite list_lookup_insert_eq in Hj by lia. by simplify_eq.
    + rewrite list_lookup_insert_ne in Hj by done. eauto.
  - apply (Permutation_app_inv_r fs). rewrite <- Ha, <- !app_assoc.
    rewrite (concat_insert_perm _ _ _ fs' Hfs).
    rewrite (Permutation_app_comm (concat qs) fs'), (app_assoc free), (app_assoc held').
    rewrite (Permutation_app_comm free fs'), (app_assoc held'), Hp.
    rewrite <- !app_assoc. apply Permutation_app_head.
    rewrite (Permutation_app_comm fs), <- !app_assoc. done.
Qed.
End conservation.

(** ** The operations of the receive path *)

(** The counters after a frame of [n] bytes was offered to an interface. *)
Definition count_rx (n : Z) (dropped : bool) (it : net_iface) : net_iface :=
  set_rx_drops (if dropped then u32 (rx_drops it + 1) else rx_drops it)
    (set_rx_bytes (u64 (rx_bytes it + n)) (set_rx_frames (u32 (rx_frames it + 1)) it)).

Section rx_ops.
Context `{cfg : Config} {E : Type} `{!Platform E, !QueueLaws E, !History E}.
Implicit Types (g : globals) (e : E) (held free : list Z) (qs : list (list Z)).

Lemma rx_alloc g e held f free qs n :
  rx_ok g e held (f :: free) qs -> n <= NET_FRAME_BUF ->
  wp ext (net_frame_alloc n) g e (fun r g' e' =>
    r = Some f /\ g' = upd_frame f (alloc_frame n) g /\ rx_ok g' e' (f :: held) free qs).
Proof.
  intros Hok Hn. wp_use wp_alloc_some; [apply Hok|done|].
  intros r g' e' (-> & -> & Hq). rewrite upd_frame_upd. split_and!; [done..|].
  eapply rx_ok_set_free; [done|apply rx_handles_upd_frame|done|].
  cbn. by rewrite Permutation_middle.
Qed.

Lemma rx_free_frame g e held f free qs :
  rx_ok g e (f :: held) free qs ->
  wp ext (net_frame_free (Some f)) g e (fun _ g' e' =>
    g' = g /\ e' = (ext _ (Rtos (XQueueSend (free_q g) f 0)) e).2 /\
    rx_ok g' e' held (free ++ [f]) qs).
Proof.
  intros Hok. pose proof (rx_ok_length _ _ _ _ _ Hok) as Hlen. cbn [length] in Hlen.
  assert (Hlt : (length free < POOL_SZ)%nat) by lia.
  destruct (rx_free _ _ _ _ _ Hok) as [Hq Hv].
  unfold net_frame_free. prog_steps. rewrite is_null_false by done.
  destruct (q_send e (free_q g) f 0 _ _ Hv Hlt) as (e' & He & Hv').
  call_step He. split_and!; [done..|].
  eapply rx_ok_set_free; [done|done|done|].
  by rewrite app_assoc, (Permutation_app_comm _ [f]).
Qed.

Lemma rx_post g e held f free qs i fs :
  rx_ok g e (f :: held) free qs -> qs !! i = Some fs ->
  wp ext (net_stack_post_rx i f) g e (fun _ g' e' =>
    let n := len (frame_at f g) in
    if negb (enabled (iface_at i g)) then g' = g /\ rx_ok g' e' held (free ++ [f]) qs
    else if (length fs <? RX_QUEUE_DEPTH)%nat
    then g' = upd_iface i (count_rx n false) g /\ rx_ok g' e' held free (<[i := fs ++ [f]]> qs)
    else g' = upd_iface i (count_rx n true) g /\ rx_ok g' e' held (free ++ [f]) qs).
Proof.
  intros Hok Hfs. pose proof (rx_queues _ _ _ _ _ Hok i fs Hfs) as Hv.
  assert (Hi : (i < NET_IFACE_MAX)%nat).
  { rewrite <- (rx_qs _ _ _ _ _ Hok). by eapply lookup_lt_Some. }
  assert (Hcount : forall d, rx_handles (upd_iface i (count_rx (len (frame_at f g)) d) g)
            = rx_handles g) by (intros; by apply rx_handles_upd_iface).
  unfold net_stack_post_rx. prog_steps.
  rewrite (proj2 (Nat.leb_gt _ _) Hi). cbn [orb].
  destruct (enabled (iface_at i g)); cbn [negb].
  2:{ wp_use rx_free_frame; [done|]. intros _ g' e' (-> & _ & Hok'). by split. }
  prog_steps. case_test.
  - destruct (q_send e (rx_queue (iface_at i g)) f 0 _ _ Hv) as (e' & He & Hv'); [done|].
    call_step He. cbn [negb].
    assert (Hend : rx_ok (upd_iface i (count_rx (len (frame_at f g)) false) g) e' held free
              (<[i := fs ++ [f]]> qs)).
    { eapply rx_ok_set_queue; [done|apply Hcount|done|done| |].
      - by rewrite app_assoc, (Permutation_app_comm _ [f]).
      - rewrite length_app. cbn. lia. }
    rewrite upd_iface_upd. prog_steps.
    case_test; prog_steps; [by split|]. rewrite wp_rtos_last. split; [done|].
    eapply rx_ok_handles; [done| |done]. by apply q_frame.
  - destruct (q_send_full e (rx_queue (iface_at i g)) f _ _ Hv) as (e' & He & Hv'); [done|].
    call_step He. cbn [negb]. prog_steps. rewrite !upd_iface_upd.
    wp_use (rx_free_frame _ e' held f free qs).
    + eapply rx_ok_handles; [apply (Hcount true)|done|done].
    + intros _ g' e'' (-> & _ & Hok'). by split.
Qed.
End rx_ops.

(** ** From the driver to the queue *)

(** A frame of the pool filled with the driver's buffer. *)
Definition fill_frame (buf : list Z) (fr : net_frame) : net_frame :=
  set_data (memcpy (data fr) buf (length buf)) (alloc_frame (Z.of_nat (length buf)) fr).

Lemma fill_frame_bytes buf fr : frame_bytes (fill_frame buf fr) = buf.
Proof.
  unfold frame_bytes, fill_frame, alloc_frame. cbn. rewrite Nat2Z.id, take_memcpy by lia.
  apply firstn_all.
Qed.

Section input.
Context `{cfg : Config} {E : Type} `{!Platform E, !QueueLaws E, !History E}.
Implicit Types (g : globals) (e : E) (held free : list Z) (qs : list (list Z)).

Definition alloc_failed g : globals :=
  upd_net (fun s => set_s_frame_alloc_fail (u32 (s_frame_alloc_fail s + 1)) s) g.

Lemma wp_eth_input g e free qs fs buf p :
  rx_ok g e [] free qs -> qs !! NET_IFACE_ETH = Some fs ->
  wp ext (eth_input_cb buf p) g e (fun r g' e' =>
    let n := Z.of_nat (length buf) in
    (r = ESP_ERR_NO_MEM /\ (free = [] \/ NET_FRAME_BUF < n) /\
     g' = alloc_failed g /\ rx_ok g' e' [] free qs) \/
    (exists f rest, r = ESP_OK /\ free = f :: rest /\ n <= NET_FRAME_BUF /\
      let g1 := upd_frame f (fill_frame buf) g in
      if negb (enabled (iface_at NET_IFACE_ETH g)) then g' = g1 /\ rx_ok g' e' [] (rest ++ [f]) qs
      else if (length fs <? RX_QUEUE_DEPTH)%nat
      then g' = upd_iface NET_IFACE_ETH (count_rx n false) g1 /\
           rx_ok g' e' [] rest (<[NET_IFACE_ETH := fs ++ [f]]> qs)
      else g' = upd_iface NET_IFACE_ETH (count_rx n true) g1 /\
           rx_ok g' e' [] (rest ++ [f]) qs)).
Proof.
  intros Hok Hfs. unfold eth_input_cb. rewrite wp_bind.
  set (n := Z.of_nat (length buf)).
  assert (Hcase : (free = [] \/ NET_FRAME_BUF < n)
            \/ exists f rest, free = f :: rest /\ n <= NET_FRAME_BUF).
  { destruct (decide (NET_FRAME_BUF < n)); [auto|]. destruct free as [|f rest]; [auto|].
    right. exists f, rest. split; [done|lia]. }
  destruct Hcase as [Hbad|(f & rest & -> & Hn)].
  - wp_use wp_alloc_fail; [apply Hok|done|].
    intros r g' e' (-> & -> & Hq). rewrite wp_idf. prog_steps. left. split_and!; [done..|].
    refine (rx_ok_handles _ _ _ _ _ _ _ _ _ Hok); [done|by rewrite q_frame].
  - wp_use rx_alloc; [done..|]. intros r g' e' (-> & -> & Hok'). prog_steps.
    rewrite wp_idf. rewrite upd_frame_upd, wp_bind.
    set (g1 := upd_frame f _ g).
    assert (Hok1 : rx_ok g1 (ext _ (Idf (Free p)) e').2 [f] rest qs).
    { eapply rx_ok_handles; [|by apply q_frame|done].
      unfold g1. by rewrite !rx_handles_upd_frame. }
    assert (Hlen : len (frame_at f g1) = n).
    { unfold g1. rewrite frame_at_upd; [done|].
      rewrite (rx_pool _ _ _ _ _ Hok).
      assert (frame_ok f); [|unfold frame_ok in *; lia].
      eapply rx_ok_frame; [apply Hok|]. apply elem_of_app. right. by left. }
    wp_use rx_post; [apply Hok1|done|]. rewrite Hlen. intros _ g' e'' Hpost.
    prog_steps. right. exists f, rest. split_and!; [done..|]. exact Hpost.
Qed.

Lemma eth_input_conserved buf p g e :
  frames_conserved g e -> wp ext (eth_input_cb buf p) g e (fun _ => frames_conserved).
Proof.
  intros (free & qs & Hok).
  assert (exists fs, qs !! NET_IFACE_ETH = Some fs) as [fs Hfs].
  { apply lookup_lt_is_Some. rewrite (rx_qs _ _ _ _ _ Hok). unfold NET_IFACE_ETH, NET_IFACE_MAX. lia. }
  wp_use wp_eth_input; [eassumption..|]. intros r g' e' [(_ & _ & _ & Hok')|(f & rest & _ & _ & _ & H)].
  - by eexists _, _.
  - cbn zeta in H. destruct (negb _), (length fs <? RX_QUEUE_DEPTH)%nat; destruct H as [_ H]; by eexists _, _.
Qed.
End input.

(** ** From the queue to the tap or the core *)

Section poll.
Context `{cfg : Config} {E : Type} `{!Platform E, !QueueLaws E, !History E}.
Implicit Types (g : globals) (e : E) (held free : list Z) (qs : list (list Z)).

Lemma picked_rx_rtos {X} (c : rtos_call X) e :
  picked ev_rx (ext _ (Rtos c) e).2 = picked ev_rx e.
Proof. rewrite picked_step. apply app_nil_r. Qed.

Lemma wp_drain_S fuel i g e Q :
  wp ext (drain_rx (S fuel) i) g e Q
  <-> wp ext (rtos (XQueueReceive (rxq i g) 0)) g e (fun r g' e' =>
        match r with
        | None => Q tt g' e'
        | Some f => wp ext (handle_rx i f) g' e' (fun _ g' e' => wp ext (drain_rx fuel i) g' e' Q)
        end).
Proof.
  cbn [drain_rx]. rewrite wp_gets, wp_rtos, wp_rtos_last.
  change (rx_queue (iface_at i g)) with (rxq i g).
  destruct (ext _ (Rtos (XQueueReceive (rxq i g) 0)) e) as [[f|] e']; cbn [fst snd].
  - by rewrite wp_bind.
  - by rewrite wp_ret.
Qed.

Lemma wp_handle_rx g e held f free qs i :
  rx_ok g e (f :: held) free qs ->
  wp ext (handle_rx i f) g e (fun _ g' e' =>
    g' = g /\ rx_ok g e' held (free ++ [f]) qs /\
    picked ev_rx e' = picked ev_rx e ++ [route g i f]).
Proof.
  intros Hok. unfold handle_rx. prog_steps. rewrite wp_bind.
  wp_use wp_dispatch_tap. intros r g' e' [-> Hr]. rewrite wp_bind. unfold route.
  destruct (tap_slot (frame_at f g) g) as [t|].
  - destruct Hr as [-> ->]. prog_steps.
    wp_use rx_free_frame;
      [refine (rx_ok_handles g g e _ _ _ _ _ _ Hok); [done|by rewrite q_frame]|].
    intros [] g' e' (-> & -> & Hok'). split_and!; [done..|].
    by rewrite picked_rx_rtos, picked_step.
  - destruct Hr as [-> ->]. unfold SMOLTCP_LOCK, SMOLTCP_UNLOCK.
    rewrite wp_rtos. prog_steps. rewrite wp_core, wp_rtos_last.
    wp_use rx_free_frame;
      [refine (rx_ok_handles g g e _ _ _ _ _ _ Hok); [done|by rewrite !q_frame]|].
    intros [] g' e' (-> & -> & Hok'). split_and!; [done..|].
    by rewrite !picked_rx_rtos, picked_step, picked_rx_rtos.
Qed.

(** Draining: with fuel for every queued frame, the queue ends empty, its
    frames are back in the pool, and they were routed oldest first. *)
Lemma wp_drain fuel i g e free qs fs :
  rx_ok g e [] free qs -> qs !! i = Some fs -> (length fs < fuel)%nat ->
  wp ext (drain_rx fuel i) g e (fun _ g' e' =>
    g' = g /\ rx_ok g e' [] (free ++ fs) (<[i := []]> qs) /\
    picked ev_rx e' = picked ev_rx e ++ (route g i <$> fs)).
Proof.
  revert e free qs fs. induction fuel as [|fuel IH]; intros e free qs fs Hok Hfs Hlt; [lia|].
  rewrite wp_drain_S, wp_rtos_last.
  pose proof (rx_queues _ _ _ _ _ Hok _ _ Hfs) as Hv. destruct fs as [|f fs].
  - destruct (q_recv_empty e _ _ Hv) as (e' & He & Hq).
    pose proof (picked_call ev_rx _ _ _ _ He) as Hp. rewrite He. cbn [fst snd].
    rewrite app_nil_r, list_insert_id by done.
    split_and!; [done|by eapply rx_ok_handles|done].
  - destruct (q_recv e _ 0 _ _ _ Hv) as (e' & He & Hq).
    pose proof (picked_call ev_rx _ _ _ _ He) as Hp. rewrite He. cbn [fst snd].
    cbn [length] in Hlt.
    assert (Hok1 : rx_ok g e' [f] free (<[i := fs]> qs)).
    { eapply rx_ok_set_queue; [done|done|done|done|done|].
      pose proof (rx_bound _ _ _ _ _ Hok _ _ Hfs) as Hb. cbn in Hb. lia. }
    wp_use wp_handle_rx; [done..|]. intros _ g' e'' (-> & Hok2 & Hp2).
    assert (Hi : (i < length qs)%nat) by by eapply lookup_lt_Some.
    wp_use (IH e'' (free ++ [f]) (<[i := fs]> qs) fs);
      [done|by apply list_lookup_insert_eq|lia|].
    intros _ g' e3 (-> & Hok3 & Hp3). rewrite <- app_assoc, list_insert_insert_eq in Hok3.
    split_and!; [done..|]. rewrite Hp3, Hp2, Hp. cbn. by rewrite app_nil_r, <- app_assoc.
Qed.

(** One poll: the queue of the interface is drained into the tap and the
    core, and the frames are free again. Fuel for a full queue is enough. *)
Lemma wp_poll fuel i g e free qs fs :
  rx_ok g e [] free qs -> qs !! i = Some fs -> (RX_QUEUE_DEPTH < fuel)%nat ->
  wp ext (poll_iface fuel i) g e (fun _ g' e' =>
    rx_ok g' e' [] (free ++ fs) (<[i := []]> qs) /\
    picked ev_rx e' = picked ev_rx e ++ (route g i <$> fs)).
Proof.
  intros Hok Hfs Hfuel. unfold poll_iface. rewrite wp_bind.
  pose proof (rx_bound _ _ _ _ _ Hok _ _ Hfs) as Hb.
  wp_use wp_drain; [done..|lia|]. intros [] g' e' (-> & Hok' & Hp).
  assert (Hk : rx_keeps (ip_up_now ← run_core i;
      p ← gets (fun g => s_progress_evt (net g));
      rtos (XEventGroupSetBits p PROGRESS_BIT);;
      surface_ip i ip_up_now)) by (pose proof rx_keeps_run_core; rx_keeps_auto).
  wp_use Hk. intros [] g' e'' (Hh & Hq & Hp'). rewrite Hp', Hp.
  split; [by eapply rx_ok_handles|done].
Qed.
End poll.

(** ** Every reachable state *)

Section reach.
Context `{cfg : Config} {E : Type} `{!Platform E, !QueueLaws E, !History E}.

(** The steps of the stack: an interrupt or task of the driver, the poll task
    or the application runs one function to its end; or the outside world
    moves without touching the queues. *)
Inductive rx_step : globals * E -> globals * E -> Prop :=
  | step_input buf p g e r g' e' :
      run ext (eth_input_cb buf p) g e = Some (r, g', e') -> rx_step (g, e) (g', e')
  | step_poll i g e r g' e' :
      (i < NET_IFACE_MAX)%nat ->
      run ext (poll_iface (S RX_QUEUE_DEPTH) i) g e = Some (r, g', e') ->
      rx_step (g, e) (g', e')
  | step_link i up g e r g' e' :
      run ext (net_stack_link_event i up) g e = Some (r, g', e') -> rx_step (g, e) (g', e')
  | step_tap et cb user g e r g' e' :
      run ext (net_stack_l2_tap et cb user) g e = Some (r, g', e') -> rx_step (g, e) (g', e')
  | step_attach ptp h g e r g' e' :
      (forall i, rx_keeps (ptp i)) ->
      run ext (esp_smoltcp_attach_eth ptp h) g e = Some (r, g', e') -> rx_step (g, e) (g', e')
  | step_l2_send i frame g e r g' e' :
      run ext (net_stack_l2_send i frame) g e = Some (r, g', e') -> rx_step (g, e) (g', e')
  | step_event_cb cb user g e r g' e' :
      run ext (net_stack_register_event_cb cb user) g e = Some (r, g', e') ->
      rx_step (g, e) (g', e')
  | step_outside g e e' : qview e' = qview e -> rx_step (g, e) (g, e').

Lemma poll_conserved i g e :
  (i < NET_IFACE_MAX)%nat -> frames_conserved g e ->
  wp ext (poll_iface (S RX_QUEUE_DEPTH) i) g e (fun _ => frames_conserved).
Proof.
  intros Hi (free & qs & Hok).
  assert (exists fs, qs !! i = Some fs) as [fs Hfs].
  { apply lookup_lt_is_Some. by rewrite (rx_qs _ _ _ _ _ Hok). }
  wp_use wp_poll; [eassumption..|lia|]. intros [] g' e' [Hok' _]. by eexists _, _.
Qed.

Lemma rx_step_conserved s s' :
  rx_step s s' -> frames_conserved s.1 s.2 -> frames_conserved s'.1 s'.2.
Proof.
  intros Hs Hc. destruct Hs; cbn [fst snd] in *;
    lazymatch goal with
    | H : run _ (eth_input_cb _ _) _ _ = _ |- _ =>
        exact (wp_elim _ _ _ _ _ _ _ _ (eth_input_conserved _ _ _ _ Hc) H)
    | H : run _ (poll_iface _ _) _ _ = _ |- _ =>
        eapply (wp_elim _ _ _ _ _ _ _ _ (poll_conserved _ _ _ ltac:(done) Hc)); exact H
    | H : run _ ?p _ _ = _ |- _ =>
        refine (wp_elim _ _ _ _ _ _ _ _ (rx_keeps_conserved p _ _ _ Hc) H);
        pose proof rx_keeps_attach; pose proof rx_keeps_l2_send;
        unfold net_stack_register_event_cb; rx_keeps_auto
    | H : qview _ = _ |- _ =>
        destruct Hc as (free & qs & Hok); exists free, qs; by eapply rx_ok_handles
    end.
Qed.
End reach.
