(* ===== verification/Delivery.v ===== *)
(** * Delivery: what becomes of the frames the driver hands over

    The properties of the receive path built on [RxPath]: conservation of the
    frame pool in every reachable state, the fate of one input frame, and
    end-to-end delivery of a burst of frames. *)

From S2P Require Import Prelude Prog Ipv4 Types Platform Sim FramePool L2Tap NetStack RxPath.

Section delivery.
Context `{cfg : Config} {E : Type} `{!Platform E, !QueueLaws E, !History E}.
Implicit Types (g : globals) (e : E) (free : list Z) (qs : list (list Z)).

(** The hand-over of a frame with the bytes [buf] and no time stamp. *)
Definition deliver g (i : nat) (buf : list Z) : rx_event :=
  let fr := NetFrame (Z.of_nat (length buf)) (-1) buf in
  match tap_slot fr g with
  | Some t => TapRx (tap_cb t) (if_id (iface_at i g)) buf (-1) (tap_user t)
  | None => CoreRx (smoltcp_handle (iface_at i g)) buf
  end.

(** The frame [f] of the pool holds the bytes [buf], as the driver input
    leaves them. *)
Definition holds g (f : ptr) (buf : list Z) : Prop :=
  exists fr, frame_at f g = fill_frame buf fr.

(** The routing of a frame depends on its bytes only. *)
Lemma route_deliver g i f buf : holds g f buf -> route g i f = deliver g i buf.
Proof.
  intros (fr & Hf). unfold route, deliver, tap_slot. rewrite Hf, fill_frame_bytes. cbn.
  case_test; [done|].
  assert (Het : frame_ethertype (fill_frame buf fr)
            = frame_ethertype (NetFrame (Z.of_nat (length buf)) (-1) buf)).
  { unfold frame_ethertype, fill_frame, memcpy. cbn. rewrite firstn_all.
    by rewrite !lookup_total_app_l by lia. }
  by rewrite Het.
Qed.

(** What routing looks at beside the frame. *)
Definition same_routing g g' : Prop :=
  taps g' = taps g /\ (forall i, if_id (iface_at i g') = if_id (iface_at i g)) /\
  (forall i, smoltcp_handle (iface_at i g') = smoltcp_handle (iface_at i g)) /\
  (forall i, enabled (iface_at i g') = enabled (iface_at i g)).

Lemma deliver_same g g' i buf : same_routing g g' -> deliver g' i buf = deliver g i buf.
Proof.
  intros (Ht & Hid & Hh & _). unfold deliver, tap_slot, find_tap. by rewrite Ht, Hid, Hh.
Qed.

Lemma same_routing_trans g1 g2 g3 :
  same_routing g1 g2 -> same_routing g2 g3 -> same_routing g1 g3.
Proof. unfold same_routing. intros (?&?&?&?) (?&?&?&?). split_and!; congruence. Qed.

Lemma same_routing_iface g i f :
  (forall it, if_id (f it) = if_id it /\ smoltcp_handle (f it) = smoltcp_handle it /\
     enabled (f it) = enabled it) ->
  same_routing g (upd_iface i f g).
Proof.
  intros Hf.
  assert (Hat : forall j, iface_at j (upd_iface i f g) = iface_at j g \/
            iface_at j (upd_iface i f g) = f (iface_at j g)).
  { intros j. destruct (decide (i = j)) as [<-|?]; [|left; by apply iface_at_upd_ne].
    destruct (decide (i < length (s_ifaces (net g)))%nat); [right; by apply iface_at_upd|].
    left. unfold iface_at, upd_iface, upd_net. cbn. rewrite !list_lookup_total_alt, list_lookup_alter_eq.
    by rewrite lookup_ge_None_2 by lia. }
  split; [done|]. split_and!; intros j; destruct (Hat j) as [-> | ->]; try done; apply Hf.
Qed.

(** One frame of a burst: with a free frame and room in the queue, the
    driver's buffer ends up at the back of the queue. *)
Lemma wp_input_queued g e f rest qs fs buf p :
  rx_ok g e [] (f :: rest) qs -> qs !! NET_IFACE_ETH = Some fs ->
  enabled (iface_at NET_IFACE_ETH g) = true ->
  Z.of_nat (length buf) <= NET_FRAME_BUF -> (length fs < RX_QUEUE_DEPTH)%nat ->
  wp ext (eth_input_cb buf p) g e (fun r g' e' =>
    r = ESP_OK /\ rx_ok g' e' [] rest (<[NET_IFACE_ETH := fs ++ [f]]> qs) /\
    same_routing g g' /\ holds g' f buf /\
    (forall f' b, f' ∈ fs -> holds g f' b -> holds g' f' b)).
Proof.
  intros Hok Hfs Hen Hlen Hroom. wp_use wp_eth_input; [done..|]. cbn zeta.
  rewrite Hen. cbn [negb].
  intros r g' e' [(_ & [?|?] & _)|(f' & rest' & -> & [= <- <-] & _ & H)]; [done|lia|].
  rewrite (proj2 (Nat.ltb_lt _ _) Hroom) in H. destruct H as [-> Hok']. split_and!; [done..| | |].
  - eapply same_routing_trans; [|by apply same_routing_iface]. done.
  - exists (frame_at f g). change (frame_at f (upd_iface _ _ ?g)) with (frame_at f g).
    apply frame_at_upd. rewrite (rx_pool _ _ _ _ _ Hok).
    assert (Hfr : frame_ok f); [|unfold frame_ok in *; lia].
    eapply rx_ok_frame; [apply Hok|]. apply elem_of_app. right. by left.
  - intros f' b Hf' (fr & Hfr). exists fr.
    change (frame_at f' (upd_iface _ _ ?g)) with (frame_at f' g). rewrite <- Hfr.
    assert (Hff : forall x, x ∈ f :: fs -> frame_ok x).
    { intros x Hx. eapply rx_ok_frame; [apply Hok|]. apply elem_of_cons in Hx as [-> |Hx].
      - by left.
      - cbn. right. apply elem_of_app. right. by eapply elem_of_concat. }
    apply frame_at_upd_ne.
    + destruct (Hff f); [by left|done].
    + destruct (Hff f'); [by right|done].
    + intros <-. pose proof (rx_ok_nodup _ _ _ _ _ Hok) as Hnd. cbn in Hnd.
      apply NoDup_cons in Hnd as [Hnin _]. apply Hnin. apply elem_of_app. right.
      by eapply elem_of_concat.
Qed.

Lemma only_eth_input buf p :
  only (fun X c => forall r, ev_rx (existT X (c, r)) = None) (eth_input_cb buf p).
Proof.
  unfold eth_input_cb, net_frame_alloc, net_stack_post_rx, net_frame_free, bump_alloc_fail.
  only_auto.
Qed.

Definition input_burst (bufs : list (list Z)) (p : ptr) : cprog unit :=
  for_each bufs (fun buf => eth_input_cb buf p;; mret tt).

Lemma only_burst bufs p :
  only (fun X c => forall r, ev_rx (existT X (c, r)) = None) (input_burst bufs p).
Proof. unfold input_burst. pose proof only_eth_input. only_auto. Qed.

(** A burst that fits the pool and the queue is queued, in order. *)
Lemma wp_burst g e free qs bufs p :
  rx_ok g e [] free qs -> qs !! NET_IFACE_ETH = Some [] ->
  enabled (iface_at NET_IFACE_ETH g) = true ->
  Forall (fun buf => Z.of_nat (length buf) <= NET_FRAME_BUF) bufs ->
  (length bufs <= RX_QUEUE_DEPTH)%nat -> (length bufs <= length free)%nat ->
  wp ext (input_burst bufs p) g e (fun _ g' e' => exists free' fs,
    rx_ok g' e' [] free' (<[NET_IFACE_ETH := fs]> qs) /\ same_routing g g' /\
    Forall2 (holds g') fs bufs /\ fs ++ free' = free).
Proof.
  intros Hok Hq Hen Hlens Hdepth Hfree. unfold input_burst.
  apply (wp_for_each _ _ _ (fun seen g' e' => exists free' fs,
    rx_ok g' e' [] free' (<[NET_IFACE_ETH := fs]> qs) /\ same_routing g g' /\
    Forall2 (holds g') fs seen /\ fs ++ free' = free)).
  - exists free, []. rewrite list_insert_id by done. by split_and!.
  - intros seen buf g1 e1 (rest & ->) (free1 & fs & Hok1 & Hsame & Hholds & <-).
    rewrite length_app in Hdepth, Hfree. cbn in Hdepth, Hfree. rewrite length_app in Hfree.
    pose proof (Forall2_length _ _ _ Hholds) as Hl.
    destruct free1 as [|f free1]; [cbn in Hfree; lia|].
    assert (Hlt : (NET_IFACE_ETH < length qs)%nat) by by eapply lookup_lt_Some.
    rewrite wp_bind. wp_use wp_input_queued.
    + done.
    + by apply list_lookup_insert_eq.
    + destruct Hsame as (_ & _ & _ & ->). done.
    + apply Forall_app in Hlens as [_ Hlens]. by apply Forall_cons in Hlens as [? _].
    + lia.
    + intros r g' e' (-> & Hok' & Hsame' & Hnew & Hold). prog_steps.
      rewrite list_insert_insert_eq in Hok'. exists free1, (fs ++ [f]).
      split_and!; [done|by eapply same_routing_trans| |by rewrite <- app_assoc].
      apply Forall2_app; [|by repeat constructor].
      apply Forall2_same_length_lookup_2; [done|]. intros j f' b Hf' Hb.
      apply Hold; [by eapply list_elem_of_lookup_2|].
      by eapply Forall2_lookup_lr.
Qed.

(** The burst, then one poll of the interface. *)
Lemma wp_burst_poll g e free qs bufs p :
  rx_ok g e [] free qs -> qs !! NET_IFACE_ETH = Some [] ->
  enabled (iface_at NET_IFACE_ETH g) = true ->
  Forall (fun buf => Z.of_nat (length buf) <= NET_FRAME_BUF) bufs ->
  (length bufs <= RX_QUEUE_DEPTH)%nat -> (length bufs <= length free)%nat ->
  wp ext (input_burst bufs p;; poll_iface (S RX_QUEUE_DEPTH) NET_IFACE_ETH) g e (fun _ g' e' =>
    (exists free', free' ≡ₚ free /\ rx_ok g' e' [] free' qs) /\
    picked ev_rx e' = picked ev_rx e ++ (deliver g NET_IFACE_ETH <$> bufs)).
Proof.
  intros Hok Hq Hen Hlens Hdepth Hfree. rewrite wp_bind.
  wp_use wp_no_events; [apply only_burst|by apply wp_burst|].
  intros [] g1 e1 [(free1 & fs & Hok1 & Hsame & Hholds & <-) <-].
  assert (Hlt : (NET_IFACE_ETH < length qs)%nat) by by eapply lookup_lt_Some.
  wp_use wp_poll; [done|by apply list_lookup_insert_eq|lia|].
  intros [] g' e' [Hok' Hp]. split.
  - exists (free1 ++ fs). split; [apply Permutation_app_comm|].
    by rewrite list_insert_insert_eq, list_insert_id in Hok'.
  - rewrite Hp. f_equal.
    apply list_eq_Forall2, Forall2_fmap, (Forall2_impl _ _ _ _ Hholds).
    intros f buf Hf. cbn. rewrite (route_deliver _ _ _ _ Hf). by apply deliver_same.
Qed.
End delivery.

(** ** Properties *)

Section properties.
Context `{cfg : Config} {E : Type} `{!Platform E, !QueueLaws E, !History E}.
Implicit Types (g : globals) (e : E) (free : list Z) (qs : list (list Z)).

(** C4. End-to-end delivery. A burst of frames the Ethernet driver hands to
    [eth_input_cb], none larger than a pool buffer and no more of them than
    the queue and the free list hold, followed by one [poll_iface], reaches
    its receivers: the call ends, every frame of the burst was handed over
    exactly once, in order and with its exact bytes, to the tap registered
    for its EtherType or else to the core; and the frames used are free again. *)
Theorem burst_delivered g e free qs bufs p :
  rx_ok g e [] free qs -> qs !! NET_IFACE_ETH = Some [] ->
  enabled (iface_at NET_IFACE_ETH g) = true ->
  Forall (fun buf => Z.of_nat (length buf) <= NET_FRAME_BUF) bufs ->
  (length bufs <= RX_QUEUE_DEPTH)%nat -> (length bufs <= length free)%nat ->
  exists g' e' free',
    run ext (input_burst bufs p;; poll_iface (S RX_QUEUE_DEPTH) NET_IFACE_ETH) g e
      = Some (tt, g', e') /\
    picked ev_rx e' = picked ev_rx e ++ (deliver g NET_IFACE_ETH <$> bufs) /\
    rx_ok g' e' [] free' qs /\ free' ≡ₚ free.
Proof.
  intros. pose proof (wp_burst_poll g e free qs bufs p) as Hwp.
  apply wp_run in Hwp as ([] & g' & e' & Hrun & (free' & ? & ?) & ?); [|done..].
  exists g', e', free'. by split_and!.
Qed.

(** C23. The fate of one input frame, on every branch of [eth_input_cb] and
    [net_stack_post_rx]. Without a free frame, or for a frame over the buffer
    size, the driver gets [ESP_ERR_NO_MEM], the drop is counted in
    [s_frame_alloc_fail] and nothing else changes. Otherwise the frame is
    taken from the head of the free list and, on an enabled interface, counted
    in [rx_frames] and [rx_bytes] and queued; on a full queue it is also
    counted in [rx_drops] and freed; a disabled interface frees it uncounted. *)
Theorem input_frame_fate g e free qs fs buf p :
  rx_ok g e [] free qs -> qs !! NET_IFACE_ETH = Some fs ->
  exists r g' e', run ext (eth_input_cb buf p) g e = Some (r, g', e') /\
  match free with
  | f :: rest =>
      let n := Z.of_nat (length buf) in
      let g1 := upd_frame f (fill_frame buf) g in
      if decide (NET_FRAME_BUF < n)
      then r = ESP_ERR_NO_MEM /\ g' = alloc_failed g /\ rx_ok g' e' [] free qs
      else r = ESP_OK /\
        if negb (enabled (iface_at NET_IFACE_ETH g))
        then g' = g1 /\ rx_ok g' e' [] (rest ++ [f]) qs
        else if (length fs <? RX_QUEUE_DEPTH)%nat
        then g' = upd_iface NET_IFACE_ETH (count_rx n false) g1 /\
             rx_ok g' e' [] rest (<[NET_IFACE_ETH := fs ++ [f]]> qs)
        else g' = upd_iface NET_IFACE_ETH (count_rx n true) g1 /\
             rx_ok g' e' [] (rest ++ [f]) qs
  | [] => r = ESP_ERR_NO_MEM /\ g' = alloc_failed g /\ rx_ok g' e' [] [] qs
  end.
Proof.
  intros Hok Hfs. pose proof (wp_eth_input g e free qs fs buf p Hok Hfs) as Hwp.
  apply wp_run in Hwp as (r & g' & e' & Hrun & Hcase). exists r, g', e'. split; [done|].
  destruct Hcase as [(-> & Hbad & -> & Hok')|(f & rest & -> & -> & Hn & Hcase)].
  - destruct free as [|f rest]; [done|]. destruct Hbad as [?|?]; [done|].
    by rewrite decide_True.
  - rewrite decide_False by lia. done.
Qed.
End properties.

(** ** Witnesses *)

#[local] Existing Instance tiny.

(** The state and environment after a successful bring-up: a pool of three
    frames, all free, and an enabled Ethernet interface with an empty queue. *)
Definition up_globals : globals :=
  upd_net (set_s_frame_free_q 10)
    (upd_iface 0 (fun i => set_rx_queue 11 (set_smoltcp_handle 512 (set_enabled true i)))
      (upd_iface 1 (set_rx_queue 12) globals_zero)).

Definition up_env {o} : sim o :=
  Sim (<[10 := (3%nat, [0; 1; 2])]> (<[11 := (2%nat, [])]> {[12 := (2%nat, [])]})) [].

Lemma up_rx_ok o : rx_ok (E := sim o) up_globals up_env [] [0; 1; 2] [[]; []].
Proof.
  split; try done; try (by vm_compute).
  - intros [|[|i]] fs; cbn; intros; simplify_eq; by vm_compute.
  - intros [|[|i]] fs; cbn; intros; simplify_eq; cbn; lia.
  - change (NoDup [10; 11; 12]). apply (bool_decide_unpack _). by vm_compute.
Qed.

Lemma burst_delivered_witness :
  let o := default_oracle in
  exists g' (e' : sim o),
    picked ev_rx e' = [CoreRx 512 [1; 2; 3]; CoreRx 512 [4; 5]] /\
    run ext (input_burst [[1; 2; 3]; [4; 5]] 0;;
             poll_iface 3 NET_IFACE_ETH) up_globals up_env = Some (tt, g', e').
Proof.
  intros o.
  destruct (burst_delivered (E := sim o) up_globals up_env [0; 1; 2] [[]; []]
    [[1; 2; 3]; [4; 5]] 0) as (g' & e' & free' & Hrun & Hp & _).
  - apply up_rx_ok.
  - reflexivity.
  - reflexivity.
  - repeat constructor; done.
  - cbn. lia.
  - cbn. lia.
  - exists g', e'. split; [exact Hp|exact Hrun].
Defined.

Lemma input_frame_fate_witness :
  let o := default_oracle in
  exists r g' (e' : sim o),
    run ext (eth_input_cb [7; 8] 0) up_globals up_env = Some (r, g', e') /\
    r = ESP_OK.
Proof.
  intros o.
  destruct (input_frame_fate (E := sim o) up_globals up_env [0; 1; 2] [[]; []] []
    [7; 8] 0) as (r & g' & e' & Hrun & Hcase).
  - apply up_rx_ok.
  - reflexivity.
  - exists r, g', e'. split; [exact Hrun|]. apply Hcase.
Defined.
