(* ===== verification/Events.v ===== *)
(** * Events, transmit accounting and the sleep of the poll task

    Theorems about the parts of [NetStack] around the receive path: the address
    and link events the application sees, the transmit callback of the core, how
    long the poll task sleeps, and a failed Ethernet attach. *)

From S2P Require Import Prelude Prog Ipv4 Types Platform Sim FramePool L2Tap NetStack RxPath Delivery.

(** What the application's event callback is told. *)
Definition ev_user (ev : event) : option (nat * net_event) :=
  match ev with
  | existT _ (c, _) =>
      match c with Idf (UserEventCb _ iface evt _) => Some (iface, evt) | _ => None end
  end.

(** The events of a sequence of observations: one at each change. *)
Fixpoint edges (i : nat) (was : bool) (obs : list bool) : list (nat * net_event) :=
  match obs with
  | [] => []
  | now :: obs =>
      (if bool_decide (now = was) then []
       else [(i, if now then NET_EVT_GOT_IP else NET_EVT_LOST_IP)]) ++ edges i now obs
  end.

(** The last observation, or the state before any. *)
Definition latest (was : bool) (obs : list bool) : bool := foldl (fun _ b => b) was obs.

Lemma edges_snoc i was obs now :
  edges i was (obs ++ [now]) = edges i was obs ++ edges i (latest was obs) [now].
Proof.
  revert was. induction obs as [|b obs IH]; intros was; [done|]. cbn [app edges].
  by rewrite IH, app_assoc.
Qed.

(** An interface asked for its delay, and its answer. *)
Definition asked (h : ptr) (d : Z) : event :=
  existT (P := fun X : Type => (ccall X * X)%type) Z (Core (Smoltcp_iface_poll_delay_us h), d).

(** The ticks of a call that waits; callbacks into the application and the
    mutexes do not count. *)
Definition ev_wait (ev : event) : option Z :=
  match ev with
  | existT _ (c, _) =>
      match c with
      | Rtos (UlTaskNotifyTake _ t) | Rtos (VTaskDelay t) => Some t
      | Rtos (XEventGroupWaitBits _ _ _ _ t) => Some t
      | Rtos (XQueueReceive _ t) | Rtos (XQueueSend _ _ t) => if t =? 0 then None else Some t
      | _ => None
      end
  end.

(** The interfaces of the poll loops. *)
Definition enabled_ids `{Config} (g : globals) : list nat :=
  List.filter (fun i => enabled (iface_at i g)) (seq 0 NET_IFACE_MAX).

(** The smallest non-negative delay, if below [next]. *)
Lemma sooner_spec next ds :
  0 <= next ->
  let n := foldl sooner next ds in
  0 <= n <= next /\ Forall (fun d => 0 <= d -> n <= d) ds /\ (n = next \/ n ∈ ds).
Proof.
  revert next. induction ds as [|d ds IH]; intros next Hn; cbn [foldl].
  - split_and!; [lia|lia|constructor|by left].
  - assert (Hs : 0 <= sooner next d <= next /\ (0 <= d -> sooner next d <= d) /\
              (sooner next d = next \/ sooner next d = d)).
    { unfold sooner. destruct ((0 <=? d) && (d <? next)) eqn:Hb; zify_bools; [lia|].
      apply andb_false_iff in Hb as [Hb|Hb]; zify_bools; lia. }
    destruct Hs as (Hs1 & Hs2 & Hs3).
    destruct (IH (sooner next d)) as (H1 & H2 & H3); [lia|]. cbn zeta. split_and!; [lia|lia| |].
    + constructor; [lia|done].
    + destruct H3 as [-> |H3]; [|by right; right].
      destruct Hs3 as [-> | ->]; [by left|right; by left].
Qed.

Section events.
Context `{cfg : Config} {E : Type} `{!Platform E, !History E}.
Implicit Types (g : globals) (e : E).

Lemma wp_emit i evt g e :
  s_user_cb (net g) <> NULL ->
  wp ext (emit_event i evt) g e (fun _ g' e' =>
    g' = g /\ e' = (ext _ (Idf (UserEventCb (s_user_cb (net g)) i evt (s_user_cb_arg (net g)))) e).2).
Proof.
  intros Hcb. unfold emit_event. prog_steps.
  rewrite (is_null_ne _ Hcb). prog_steps.
  done.
Qed.

Lemma picked_user_cb cb i evt arg e :
  picked ev_user (ext _ (Idf (UserEventCb cb i evt arg)) e).2 = picked ev_user e ++ [(i, evt)].
Proof. apply (picked_step ev_user). Qed.

Lemma picked_user_rtos {X} (c : rtos_call X) e :
  picked ev_user (ext _ (Rtos c) e).2 = picked ev_user e.
Proof. rewrite picked_step. apply app_nil_r. Qed.

(** One observation of the address state. *)
Lemma wp_surface i b g e :
  s_user_cb (net g) <> NULL -> (i < length (s_ifaces (net g)))%nat ->
  wp ext (surface_ip i b) g e (fun _ g' e' =>
    g' = upd_iface i (set_ip_up b) g /\
    picked ev_user e' = picked ev_user e ++
      edges (if_id (iface_at i g)) (ip_up (iface_at i g)) [b]).
Proof.
  intros Hcb Hi. unfold surface_ip. prog_steps. cbn [edges]. case_test; prog_steps.
  - by rewrite app_nil_r.
  - rewrite wp_bind. wp_use wp_emit; [done|].
    assert (Hid : if_id (iface_at i (upd_iface i (set_ip_up b) g)) = if_id (iface_at i g))
      by by rewrite iface_at_upd.
    intros [] g' e' [-> ->]. prog_steps. rewrite Hid.
    destruct b; rewrite wp_rtos_last; (split; [done|]);
      by rewrite picked_user_rtos, picked_user_cb.
Qed.

Lemma wp_surface_all i obs g e :
  s_user_cb (net g) <> NULL -> (i < length (s_ifaces (net g)))%nat ->
  wp ext (for_each obs (surface_ip i)) g e (fun _ g' e' =>
    ip_up (iface_at i g') = latest (ip_up (iface_at i g)) obs /\
    picked ev_user e' = picked ev_user e ++
      edges (if_id (iface_at i g)) (ip_up (iface_at i g)) obs).
Proof.
  intros Hcb Hi.
  wp_use (wp_for_each _ _ _ (fun seen g' e' =>
    s_user_cb (net g') <> NULL /\ (i < length (s_ifaces (net g')))%nat /\
    if_id (iface_at i g') = if_id (iface_at i g) /\
    ip_up (iface_at i g') = latest (ip_up (iface_at i g)) seen /\
    picked ev_user e' = picked ev_user e ++
      edges (if_id (iface_at i g)) (ip_up (iface_at i g)) seen)).
  - split_and!; [done..|]. by rewrite app_nil_r.
  - intros seen b g1 e1 _ (Hcb1 & Hi1 & Hid & Hup & Hp).
    wp_use wp_surface; [done..|]. intros [] g' e' [-> Hp']. split_and!.
    + done.
    + cbn. by rewrite length_alter.
    + by rewrite iface_at_upd.
    + rewrite iface_at_upd by done. cbn. unfold latest. by rewrite foldl_snoc.
    + by rewrite Hp', Hp, Hid, Hup, edges_snoc, app_assoc.
  - by intros [] g' e' (_ & _ & _ & ? & ?).
Qed.

(** The counters and link state after a link event. *)
Definition count_link (up : bool) (it : net_iface) : net_iface :=
  if up then set_link_ups (u32 (link_ups it + 1)) (set_link_up up it)
  else set_link_downs (u32 (link_downs it + 1)) (set_link_up up it).

Definition link_evt (up : bool) : net_event :=
  if up then NET_EVT_IFACE_UP else NET_EVT_IFACE_DOWN.

Lemma wp_link_event i up g e :
  s_user_cb (net g) <> NULL -> g_smoltcp_lock (net g) = true ->
  (i < length (s_ifaces (net g)))%nat -> (i < NET_IFACE_MAX)%nat ->
  wp ext (net_stack_link_event i up) g e (fun _ g' e' =>
    g' = upd_iface i (count_link up) g /\
    exists tail, hist e' = hist e ++
      [existT _ (Rtos (XSemaphoreTake M_smoltcp), tt);
       existT _ (Core (Smoltcp_iface_set_link_up (smoltcp_handle (iface_at i g)) up), tt);
       existT _ (Rtos (XSemaphoreGive M_smoltcp), tt);
       existT _ (Idf (UserEventCb (s_user_cb (net g)) i (link_evt up)
         (s_user_cb_arg (net g))), tt)] ++ tail /\
      (length tail <= 1)%nat).
Proof.
  intros Hcb Hlock Hi Hmax.
  assert (Htt : forall c e0, (ext unit c e0).1 = tt)
    by (intros; by destruct (ext unit c e0) as [[] ?]).
  unfold net_stack_link_event. rewrite (proj2 (Nat.leb_gt _ _) Hmax), wp_modify, wp_bind.
  set (g' := upd_iface i (count_link up) g).
  assert (Hh : smoltcp_handle (iface_at i g') = smoltcp_handle (iface_at i g)).
  { unfold g'. rewrite iface_at_upd by lia. by destruct up. }
  match goal with |- wp _ ?p _ _ _ => assert (Hup : wp ext p (upd_iface i (set_link_up up) g) e
    (fun _ g1 e1 => g1 = g' /\ e1 = e)) end.
  { unfold g', count_link. destruct up; by rewrite wp_modify_last, upd_iface_upd. }
  wp_use Hup. intros [] ? ? [-> ->]. prog_steps.
  change (g_smoltcp_lock (net g')) with (g_smoltcp_lock (net g)). rewrite Hlock.
  unfold SMOLTCP_LOCK, SMOLTCP_UNLOCK. rewrite wp_bind, wp_rtos. prog_steps.
  rewrite Hh, wp_core, wp_rtos_last, wp_bind. wp_use wp_emit; [done|].
  intros [] ? e4 [-> ->]. unfold net_stack_kick_poll. prog_steps. case_test.
  - rewrite wp_ret. split; [done|]. exists []. rewrite app_nil_r, !hist_step, !Htt, <- !app_assoc.
    by split; [|cbn; lia].
  - rewrite wp_rtos_last. split; [done|]. eexists [_]. rewrite !hist_step, !Htt, <- !app_assoc.
    by split.
Qed.

(** The scan for the soonest deadline asks every enabled interface. *)
Lemma wp_soonest ids next g e :
  wp ext (soonest ids next) g e (fun n g' e' =>
    let hs := (fun i => smoltcp_handle (iface_at i g))
                <$> List.filter (fun i => enabled (iface_at i g)) ids in
    g' = g /\ exists ds, hist e' = hist e ++ zip_with asked hs ds /\
      length ds = length hs /\ n = foldl sooner next ds).
Proof.
  revert next e. induction ids as [|i ids IH]; intros next e; cbn [soonest]; prog_steps.
  - split; [done|]. exists []. by rewrite app_nil_r.
  - cbn [List.filter]. destruct (enabled (iface_at i g)); cbn [negb]; [|apply IH].
    rewrite wp_core. wp_use IH. intros n g' e' (-> & ds & Hp & Hl & ->). split; [done|].
    exists ((ext _ (Core (Smoltcp_iface_poll_delay_us (smoltcp_handle (iface_at i g)))) e).1 :: ds).
    split_and!; [|cbn; by rewrite Hl|done].
    by rewrite Hp, hist_step, <- app_assoc.
Qed.

(** The sleep is for a positive time. *)
Lemma wait_ticks_spec n :
  0 < portMAX_DELAY -> (forall ms, 0 <= pdMS_TO_TICKS ms) -> 0 <= n ->
  1 <= wait_ticks n /\
  (n = INT64_MAX -> wait_ticks n = portMAX_DELAY) /\
  (n <= INT64_MAX - 999 -> wait_ticks n = 1 `max` pdMS_TO_TICKS ((n + 999) / 1000)).
Proof.
  intros Hmax Hpos Hn. unfold wait_ticks. destruct (n =? INT64_MAX) eqn:Hb; zify_bools.
  - split_and!; [case_test; lia| |unfold INT64_MAX in *; lia]. case_test; lia.
  - pose proof (Hpos (Z.quot (i64 (n + 999)) 1000)) as Hq.
    split_and!; [case_test; lia|done|]. intros Hle.
    rewrite i64_small by (unfold INT64_MAX in Hle; lia). rewrite <- Z.quot_div_nonneg by lia.
    pose proof (Hpos (Z.quot (n + 999) 1000)). case_test; lia.
Qed.

(** The polls of a turn wait for nothing. *)
Definition waitless X (c : ccall X) : Prop := forall r, ev_wait (existT X (c, r)) = None.

Lemma only_poll_waits fuel i : only waitless (poll_iface fuel i).
Proof.
  assert (Hd : forall i f, only waitless (dispatch_tap i f)) by (intros; unfold dispatch_tap; only_auto).
  assert (Hdr : only waitless (drain_rx fuel i)).
  { induction fuel; cbn [drain_rx]; unfold handle_rx, net_frame_free; only_auto. }
  assert (Htx : forall i frame, only waitless (smoltcp_glue_tx_cb i frame))
    by (intros; unfold smoltcp_glue_tx_cb, call_tx, eth_tx; only_auto).
  unfold poll_iface, run_core, surface_ip, emit_event. only_auto.
Qed.

(** The polls of one turn. *)
Lemma wp_poll_all `{!QueueLaws E} fuel g e :
  frames_conserved g e -> (RX_QUEUE_DEPTH < fuel)%nat ->
  wp ext (for_each (seq 0 NET_IFACE_MAX) (fun i =>
    it ← gets (iface_at i);
    if enabled it then poll_iface fuel i else mret tt)) g e (fun _ => frames_conserved).
Proof.
  intros Hc Hfuel. wp_use (wp_for_each _ _ _ (fun _ => frames_conserved)); [done| |done].
  intros seen i g1 e1 Hi (free & qs & Hok). prog_steps.
  destruct (enabled (iface_at i g1)); [|rewrite wp_ret; by exists free, qs].
  assert (exists fs, qs !! i = Some fs) as [fs Hfs].
  { apply lookup_lt_is_Some. rewrite (rx_qs _ _ _ _ _ Hok).
    destruct Hi as [rest Hi]. apply (f_equal (fun l => i ∈ l)) in Hi.
    assert (i ∈ seq 0 NET_IFACE_MAX) as Hin%elem_of_seq; [rewrite Hi; set_solver|lia]. }
  wp_use wp_poll; [eassumption..|done|]. intros [] g' e' [Hok' _]. by eexists _, _.
Qed.
End events.

(** ** Properties *)

Section properties.
Context `{cfg : Config} {E : Type} `{!Platform E, !History E}.
Implicit Types (g : globals) (e : E).

(** C30. Address events are edges. Whatever sequence of address states the
    polls of an interface observe, a registered application callback hears
    exactly the changes, in order: [NET_EVT_GOT_IP] at each change to up and
    [NET_EVT_LOST_IP] at each change to down, for that interface's id; and the
    recorded state is the last one observed. *)
Theorem ip_events_are_edges i obs g e :
  s_user_cb (net g) <> NULL -> (i < length (s_ifaces (net g)))%nat ->
  exists g' e', run ext (for_each obs (surface_ip i)) g e = Some (tt, g', e') /\
    picked ev_user e' = picked ev_user e ++
      edges (if_id (iface_at i g)) (ip_up (iface_at i g)) obs /\
    ip_up (iface_at i g') = latest (ip_up (iface_at i g)) obs.
Proof.
  intros Hcb Hi. pose proof (wp_surface_all i obs g e Hcb Hi) as Hwp.
  apply wp_run in Hwp as ([] & g' & e' & ? & ? & ?). by exists g', e'.
Qed.

(** A link event is recorded and counted, told to the core between a lock
    and an unlock, and then, with no lock held, to the application; at most one
    more call, the wake-up of the poll task, follows. This is the whole effect,
    whatever the platform answers; an interface number out of range has none. *)
Theorem link_event_effects i up g e :
  s_user_cb (net g) <> NULL -> g_smoltcp_lock (net g) = true ->
  length (s_ifaces (net g)) = NET_IFACE_MAX ->
  exists g' e', run ext (net_stack_link_event i up) g e = Some (tt, g', e') /\
  if decide (i < NET_IFACE_MAX)%nat then
    g' = upd_iface i (count_link up) g /\
    exists tail, hist e' = hist e ++
      [existT _ (Rtos (XSemaphoreTake M_smoltcp), tt);
       existT _ (Core (Smoltcp_iface_set_link_up (smoltcp_handle (iface_at i g)) up), tt);
       existT _ (Rtos (XSemaphoreGive M_smoltcp), tt);
       existT _ (Idf (UserEventCb (s_user_cb (net g)) i (link_evt up)
         (s_user_cb_arg (net g))), tt)] ++ tail /\
      (length tail <= 1)%nat
  else g' = g /\ e' = e.
Proof.
  intros Hcb Hlock Hlen. case_decide as Hi.
  - pose proof (wp_link_event i up g e Hcb Hlock) as Hwp.
    apply wp_run in Hwp as ([] & g' & e' & ? & ? & ?); [|lia|done]. by exists g', e'.
  - exists g, e. unfold net_stack_link_event.
    by rewrite (proj2 (Nat.leb_le _ _)) by lia.
Qed.

(** Transmit accounting. For an enabled interface with a driver, the frame
    the core sends is given to the driver once, byte for byte; on success the
    callback answers 0 and counts the frame and its bytes, on any driver error
    it answers -1 and counts a failure; no other state changes. A disabled
    interface, one without a driver, and a number out of range answer -1 with
    no effect at all. *)
Theorem tx_cb_accounts i frame g e :
  exists r g' e', run ext (smoltcp_glue_tx_cb i frame) g e = Some (r, g', e') /\
  if decide ((i < NET_IFACE_MAX)%nat /\ enabled (iface_at i g) = true /\
             tx (iface_at i g) <> None)
  then
    let sent := ext _ (Idf (EspEthTransmit (s_eth_handle (net g)) frame)) e in
    e' = sent.2 /\
    if decide (sent.1 = ESP_OK)
    then r = 0 /\ g' = upd_iface i (fun it =>
           set_tx_bytes (u64 (tx_bytes it + Z.of_nat (length frame)))
             (set_tx_frames (u32 (tx_frames it + 1)) it)) g
    else r = -1 /\ g' = upd_iface i (fun it => set_tx_fails (u32 (tx_fails it + 1)) it) g
  else r = -1 /\ g' = g /\ e' = e.
Proof.
  match goal with |- exists r g' e', _ /\ @?Q r g' e' =>
    cut (wp ext (smoltcp_glue_tx_cb i frame) g e Q);
      [intros (r & g' & e' & ?)%wp_run; eauto|] end.
  unfold smoltcp_glue_tx_cb. prog_steps.
  destruct (NET_IFACE_MAX <=? i)%nat eqn:Hi; zify_bools.
  { rewrite wp_ret, decide_False by lia. done. }
  destruct (enabled (iface_at i g)) eqn:Hen.
  2:{ rewrite wp_ret, decide_False by intuition congruence. done. }
  destruct (tx (iface_at i g)) as [[]|] eqn:Htx.
  2:{ rewrite wp_ret, decide_False by intuition congruence. done. }
  unfold call_tx, eth_tx. rewrite wp_bind, wp_gets.
  rewrite wp_idf_last.
  cbn beta zeta. destruct (decide (_ = ESP_OK)); prog_steps;
    rewrite (decide_True (P := _ /\ _)) by done; by rewrite ?upd_iface_upd.
Qed.

(** C31. A turn of the poll task ends with its one sleep. From a state in which
    the frames are accounted for, a turn returns. The only call of it that waits
    is the last: the polls before wait for nothing, then under the lock each
    enabled interface is asked once for its delay, the lock is released, and the
    task waits for a notification for [w] ticks. [w] is positive. With [n] the
    least non-negative answer below [INT64_MAX], if there is one, [w] is [n]
    rounded up to a millisecond, in ticks, and at least 1; with no such answer it
    is [portMAX_DELAY]. (For [n] within 999 of [INT64_MAX] the sum of the code
    overflows, and only [1 <= w] is left.) *)
Theorem sleep_until_soonest `{!QueueLaws E} fuel g e :
  frames_conserved g e -> (RX_QUEUE_DEPTH < fuel)%nat ->
  0 < portMAX_DELAY -> (forall ms, 0 <= pdMS_TO_TICKS ms) ->
  exists polls ds n w r g' e',
    run ext (net_stack_turn fuel) g e = Some (tt, g', e') /\
    omap ev_wait polls = [] /\
    hist e' = hist e ++ polls ++
      [existT _ (Rtos (XSemaphoreTake M_smoltcp), tt)] ++
      zip_with asked ((fun i => smoltcp_handle (iface_at i g')) <$> enabled_ids g') ds ++
      [existT _ (Rtos (XSemaphoreGive M_smoltcp), tt);
       existT _ (Rtos (UlTaskNotifyTake true w), r)] /\
    length ds = length (enabled_ids g') /\
    0 <= n <= INT64_MAX /\ Forall (fun d => 0 <= d -> n <= d) ds /\ (n = INT64_MAX \/ n ∈ ds) /\
    1 <= w /\ (n = INT64_MAX -> w = portMAX_DELAY) /\
    (n <= INT64_MAX - 999 -> w = 1 `max` pdMS_TO_TICKS ((n + 999) / 1000)).
Proof.
  intros Hc Hfuel Hmax Hpos.
  match goal with |- exists polls ds n w r g' e', _ /\ @?Q polls ds n w r g' e' =>
    cut (wp ext (net_stack_turn fuel) g e (fun _ g' e' => exists polls ds n w r, Q polls ds n w r g' e'));
      [intros ([] & g' & e' & ? & polls & ds & n & w & r & ?)%wp_run;
       by exists polls, ds, n, w, r, g', e'|] end.
  unfold net_stack_turn. rewrite wp_bind.
  eapply wp_mono; [apply (wp_trace waitless); [|exact (wp_poll_all fuel g e Hc Hfuel)]|].
  { pose proof only_poll_waits. only_auto. }
  intros [] g1 e1 [_ (polls & Hh & Hm)]. unfold SMOLTCP_LOCK, SMOLTCP_UNLOCK.
  rewrite wp_rtos, wp_bind. wp_use wp_soonest. intros n ? e3 (-> & ds & Hh3 & Hl & Hn).
  rewrite wp_rtos, wp_rtos, wp_ret.
  destruct (sooner_spec INT64_MAX ds) as (H1 & H2 & H3); [done|]. rewrite <- Hn in *.
  destruct (wait_ticks_spec n Hmax Hpos) as (Hw1 & Hw2 & Hw3); [lia|].
  assert (Htt : forall c e0, (ext unit c e0).1 = tt)
    by (intros; by destruct (ext unit c e0) as [[] ?]).
  rewrite length_fmap in Hl. destruct H1 as [Hn0 Hn1].
  eexists polls, ds, n, (wait_ticks n), _. split_and!; try done; [exact (omap_made ev_wait waitless polls (fun X c r Hc => Hc r) Hm)|].
  rewrite !hist_step, Hh3, !hist_step, Hh, !Htt, <- !app_assoc. done.
Qed.

(** A failed attach cannot be retried. If [esp_smoltcp_attach_eth] fails
    on a free interface at any of its steps, the interface stays marked
    enabled, so every later attach is refused with [ESP_ERR_INVALID_STATE],
    and the core was never given the interface. *)
Theorem attach_failure_sticks ptp h g e r g' e' :
  length (s_ifaces (net g)) = NET_IFACE_MAX ->
  h <> NULL -> enabled (iface_at NET_IFACE_ETH g) = false ->
  run ext (esp_smoltcp_attach_eth ptp h) g e = Some (r, g', e') -> r <> ESP_OK ->
  smoltcp_handle (iface_at NET_IFACE_ETH g') = smoltcp_handle (iface_at NET_IFACE_ETH g) /\
  forall h2 e2, h2 <> NULL ->
    run ext (esp_smoltcp_attach_eth ptp h2) g' e2 = Some (ESP_ERR_INVALID_STATE, g', e2).
Proof.
  intros Hlen Hh Hen Hrun%wp_of_run Hr.
  cut (enabled (iface_at NET_IFACE_ETH g') = true /\
       smoltcp_handle (iface_at NET_IFACE_ETH g') = smoltcp_handle (iface_at NET_IFACE_ETH g)).
  { intros [Hen' Hsm]. split; [done|]. intros h2 e2 Hh2. unfold esp_smoltcp_attach_eth.
    rewrite (is_null_ne _ Hh2). cbn [run mbind prog_mbind bind gets]. by rewrite Hen'. }
  assert (Hi : (NET_IFACE_ETH < length (s_ifaces (net g)))%nat)
    by (rewrite Hlen; unfold NET_IFACE_ETH, NET_IFACE_MAX; lia).
  revert Hrun. unfold esp_smoltcp_attach_eth, is_null, ESP_RETURN_ON_ERROR.
  rewrite (proj2 (Z.eqb_neq _ _) Hh), wp_gets. cbn beta. rewrite Hen, !wp_modify, wp_bind.
  rewrite wp_idf, wp_modify, wp_ret, !upd_iface_upd.
  set (g1 := upd_iface _ _ _). assert (Hg1 : enabled (iface_at NET_IFACE_ETH g1) = true /\
    smoltcp_handle (iface_at NET_IFACE_ETH g1) = smoltcp_handle (iface_at NET_IFACE_ETH g)).
  { unfold g1. by rewrite iface_at_upd. }
  clearbody g1.
  destruct (decide (_ = ESP_OK)); [|rewrite wp_ret; intros; by simplify_eq].
  rewrite wp_idf. destruct (decide (_ = ESP_OK)); [|rewrite wp_ret; intros; by simplify_eq].
  rewrite wp_idf. destruct (decide (_ = ESP_OK)); [|rewrite wp_ret; intros; by simplify_eq].
  intros (? & ? & ? & Hrun & ?)%wp_run. simplify_eq. exfalso. apply Hr.
  revert Hrun. apply (returns_run ext (fun r => r = ESP_OK)). returns_auto.
Qed.
End properties.

(** ** Witnesses *)

#[local] Existing Instance tiny.

(** Ethernet up, with an application callback and the lock created. *)
Definition app_up : globals :=
  upd_net (fun n => set_s_user_cb 90 (set_g_smoltcp_lock true n))
    (upd_iface 0 (fun i => set_smoltcp_handle 512 (set_tx (Some eth_tx_fn) (set_enabled true i)))
      globals_zero).

Lemma ip_events_are_edges_witness :
  exists g' (e' : sim default_oracle),
    run ext (for_each [false; true; true; false] (surface_ip 0)) app_up (@sim_start default_oracle)
      = Some (tt, g', e') /\
    picked ev_user e' = [(0%nat, NET_EVT_GOT_IP); (0%nat, NET_EVT_LOST_IP)].
Proof.
  destruct (ip_events_are_edges (E := sim default_oracle) 0 [false; true; true; false] app_up
    (@sim_start default_oracle)) as (g' & e' & Hrun & Hp & _).
  - discriminate.
  - vm_compute. lia.
  - exists g', e'. split; [exact Hrun|exact Hp].
Defined.

Lemma link_event_effects_witness :
  exists g' (e' : sim default_oracle),
    run ext (net_stack_link_event 0 true) app_up (@sim_start default_oracle) = Some (tt, g', e').
Proof.
  destruct (link_event_effects (E := sim default_oracle) 0 true app_up
    (@sim_start default_oracle)) as (g' & e' & Hrun & _).
  - discriminate.
  - reflexivity.
  - reflexivity.
  - exists g', e'. exact Hrun.
Defined.

(** A core whose next deadline is 2.5 ms away. *)
Definition delayed : oracle := fun X c h =>
  match c in ccall X return X with
  | Core c0 =>
      match c0 in core_call X return X with
      | Smoltcp_iface_poll_delay_us _ => 2500
      | c0 => default_core c0 (length h)
      end
  | Rtos c0 => default_rtos c0 (length h)
  | Idf c0 => default_idf c0 (length h)
  end.

Lemma sleep_until_soonest_witness :
  exists w r g' (e' : sim delayed) before,
    run (ext (E := sim delayed)) (net_stack_turn (E := sim delayed) 3) up_globals (@up_env delayed) = Some (tt, g', e') /\
    sim_hist e' = before ++ [existT _ (Rtos (UlTaskNotifyTake true w), r)] /\ 1 <= w.
Proof.
  destruct (sleep_until_soonest (E := sim delayed) 3 up_globals (@up_env delayed))
    as (polls & ds & n & w & r & g' & e' & Hrun & _ & Hh & _ & _ & _ & _ & Hw & _).
  - exists [0; 1; 2], [[]; []]. apply up_rx_ok.
  - cbn. lia.
  - reflexivity.
  - intros ms. cbn. apply u32_range.
  - exists w, r, g', e'. eexists. split; [exact Hrun|]. split; [|exact Hw].
    etransitivity; [exact Hh|]. rewrite !app_assoc.
    match goal with |- _ ++ [?a; ?b] = _ => change [a; b] with ([a] ++ [b]) end.
    rewrite app_assoc. reflexivity.
Defined.

(** A driver that reports an error when its receive callback is set. *)
Definition input_path_fails : oracle := fun X c h =>
  match c in ccall X return X with
  | Idf c0 =>
      match c0 in idf_call X return X with
      | EspEthUpdateInputPath _ => ESP_FAIL
      | c0 => default_idf c0 (length h)
      end
  | Rtos c0 => default_rtos c0 (length h)
  | Core c0 => default_core c0 (length h)
  end.

Lemma attach_failure_sticks_witness :
  exists g (e : sim input_path_fails),
    run (ext (E := sim input_path_fails)) (esp_smoltcp_attach_eth (fun _ => mret ESP_OK) 33)
      globals_zero sim_start = Some (ESP_FAIL, g, e) /\
    run (ext (E := sim input_path_fails)) (esp_smoltcp_attach_eth (fun _ => mret ESP_OK) 33) g e
      = Some (ESP_ERR_INVALID_STATE, g, e).
Proof.
  pose (x := exec (ext (E := sim input_path_fails))
    (esp_smoltcp_attach_eth (fun _ => mret ESP_OK) 33) (globals_zero, sim_start)).
  assert (Hrun : run (ext (E := sim input_path_fails))
    (esp_smoltcp_attach_eth (fun _ => mret ESP_OK) 33) globals_zero sim_start
    = Some (ESP_FAIL, x.1, x.2)) by (vm_compute; reflexivity).
  exists x.1, x.2. split; [exact Hrun|].
  destruct (attach_failure_sticks (E := sim input_path_fails) (fun _ => mret ESP_OK) 33
    globals_zero sim_start ESP_FAIL x.1 x.2) as [_ Hretry].
  - reflexivity.
  - discriminate.
  - reflexivity.
  - exact Hrun.
  - discriminate.
  - apply Hretry. discriminate.
Defined.
