(* ===== verification/Init.v ===== *)
(** * Bring-up

    Theorems about [net_stack_init] and [esp_smoltcp_attach_eth]: what a
    successful initialisation establishes, and what a failed one leaves. *)

From S2P Require Import Prelude Prog Ipv4 Types Platform Sim FramePool L2Tap NetStack RxPath.

Section init.
Context `{cfg : Config} {E : Type} `{!Platform E, !QueueLaws E, !History E}.
Implicit Types (g : globals) (e : E).

(** The slab pool starts with every frame free, in order. *)
Lemma wp_frame_pool_init g e :
  wp ext frame_pool_init g e (fun _ g' e' =>
    let q := (ext _ (Rtos (XQueueCreate POOL_SZ)) e).1 in
    g' = upd_net (set_s_frame_free_q q) g /\
    (q <> NULL -> qview e !! q = None /\
       qview e' = <[q := (POOL_SZ, Z.of_nat <$> seq 0 POOL_SZ)]> (qview e))).
Proof.
  unfold frame_pool_init.
  destruct (q_create e POOL_SZ) as (q & e1 & He & Hq). call_step He.
  set (g1 := upd_net (set_s_frame_free_q q) g).
  wp_use (wp_for_each _ _ _ (fun seen g' e' => g' = g1 /\
    (q <> NULL -> qview e' = <[q := (POOL_SZ, Z.of_nat <$> seen)]> (qview e)))).
  - split; [done|]. intros Hn. by destruct Hq as [[]|(_ & _ & ->)].
  - intros seen i g' e' (rest & Hseq) [-> Hv]. prog_steps.
    change (free_q g1) with q. rewrite wp_rtos. prog_steps. split; [done|].
    intros Hn. specialize (Hv Hn).
    assert (Hlen : (length (Z.of_nat <$> seen) < POOL_SZ)%nat).
    { rewrite length_fmap. pose proof (f_equal length Hseq) as Hl.
      rewrite length_seq, length_app in Hl. cbn in Hl. lia. }
    destruct (q_send e' q (Z.of_nat i) 0 POOL_SZ (Z.of_nat <$> seen)) as (e2 & He2 & Hv2);
      [by rewrite Hv, lookup_insert_eq|done|].
    rewrite He2. cbn [snd]. by rewrite Hv2, Hv, insert_insert_eq, fmap_app.
  - intros [] g' e' [-> Hv]. split; [done|]. intros Hn. split; [|auto].
    by destruct Hq as [[]|(_ & Hnone & _)].
Qed.

(** The loop over the interfaces. *)
Definition init_iface (i : nat) : cprog unit :=
  modify (upd_iface i (set_if_id i));;
  q ← rtos (XQueueCreate RX_QUEUE_DEPTH);
  modify (upd_iface i (set_rx_queue q)).

Lemma wp_init_iface i g e :
  wp ext (init_iface i) g e (fun _ g' e' =>
    exists q, g' = upd_iface i (fun it => set_rx_queue q (set_if_id i it)) g /\
      (q <> NULL -> qview e !! q = None /\
         qview e' = <[q := (RX_QUEUE_DEPTH, [])]> (qview e))).
Proof.
  unfold init_iface. prog_steps.
  destruct (q_create e RX_QUEUE_DEPTH) as (q & e1 & He & Hq). call_step He.
  exists q. rewrite upd_iface_upd. split; [done|]. intros Hn.
  by destruct Hq as [[]|(_ & ? & ?)].
Qed.

Lemma rxq_upd_iface i j f g :
  (i < length (s_ifaces (net g)))%nat ->
  rxq j (upd_iface i f g) = if decide (i = j) then rx_queue (f (iface_at i g)) else rxq j g.
Proof.
  intros Hi. unfold rxq. case_decide as Hij; [subst|].
  - by rewrite iface_at_upd.
  - by rewrite iface_at_upd_ne.
Qed.

(** Fresh queues of an initialised stack. *)
Lemma fresh_queues_conserved g e qf q0 q1 m :
  sizes_ok g -> free_q g = qf -> rx_queue <$> s_ifaces (net g) = [q0; q1] ->
  qf <> NULL ->
  m !! qf = None ->
  <[qf := (POOL_SZ, Z.of_nat <$> seq 0 POOL_SZ)]> m !! q0 = None ->
  <[q0 := (RX_QUEUE_DEPTH, [])]> (<[qf := (POOL_SZ, Z.of_nat <$> seq 0 POOL_SZ)]> m) !! q1 = None ->
  qview e = <[q1 := (RX_QUEUE_DEPTH, [])]> (<[q0 := (RX_QUEUE_DEPTH, [])]>
    (<[qf := (POOL_SZ, Z.of_nat <$> seq 0 POOL_SZ)]> m)) ->
  frames_conserved g e.
Proof.
  intros Hs Hf Hqs Hn Hm H0 H1 Hv.
  apply lookup_insert_None in H0 as [_ H0], H1 as [H1 H1'].
  apply lookup_insert_None in H1 as [_ H1].
  assert (Hq : forall i q, [q0; q1] !! i = Some q -> rxq i g = q).
  { intros i q. rewrite <- Hqs, list_lookup_fmap. unfold rxq, iface_at.
    rewrite list_lookup_total_alt. destruct (s_ifaces (net g) !! i); cbn; congruence. }
  exists (Z.of_nat <$> seq 0 POOL_SZ), [[]; []]. split.
  - apply Hs.
  - apply Hs.
  - split; [congruence|]. rewrite Hv, Hf.
    by rewrite lookup_insert_ne, lookup_insert_ne, lookup_insert_eq by done.
  - done.
  - intros [|[|i]] fs; cbn; intros; simplify_eq; rewrite Hv.
    + rewrite (Hq 0%nat q0) by done. by rewrite lookup_insert_ne, lookup_insert_eq by done.
    + rewrite (Hq 1%nat q1) by done. by rewrite lookup_insert_eq.
  - intros [|[|i]] fs; cbn; intros; simplify_eq; cbn; lia.
  - rewrite Hf, Hqs. repeat (apply NoDup_cons; split;
      [rewrite ?elem_of_cons, ?elem_of_nil; intuition congruence|]). apply NoDup_nil_2.
  - by rewrite app_nil_r.
Qed.

(** Success of [init_resources] is success of everything it created. *)
Lemma wp_init_resources g e :
  sizes_ok g ->
  wp ext init_resources g e (fun r g' e' =>
    r = ESP_OK -> free_q g' <> NULL ->
    rxq NET_IFACE_ETH g' <> NULL -> rxq NET_IFACE_WIFI g' <> NULL ->
    frames_conserved g' e').
Proof.
  intros Hs. unfold init_resources. rewrite wp_rtos. prog_steps. rewrite wp_rtos. prog_steps.
  case_test; prog_steps; [done|]. rewrite wp_rtos. prog_steps.
  case_test; prog_steps; [done|]. rewrite wp_bind.
  set (e1 := (ext _ (Rtos (XSemaphoreCreateMutex M_smoltcp)) _).2).
  set (g1 := upd_net (set_g_smoltcp_lock _) _).
  assert (Hs1 : sizes_ok g1) by (destruct Hs; by split).
  clearbody e1 g1. wp_use wp_frame_pool_init. cbn zeta.
  set (qf := (ext _ (Rtos (XQueueCreate POOL_SZ)) e1).1). clearbody qf.
  intros [] g2 e2 [-> Hqf]. rewrite wp_core, wp_bind.
  change (for_each (seq 0 NET_IFACE_MAX) _) with
    (init_iface 0;; init_iface 1;; (mret tt : cprog unit)).
  set (e3 := (ext _ (Core Smoltcp_core_init) e2).2).
  assert (Hv3 : qview e3 = qview e2) by by apply q_frame. clearbody e3.
  rewrite wp_bind. wp_use wp_init_iface. intros [] g4 e4 (q0 & -> & Hq0).
  rewrite wp_bind. wp_use wp_init_iface. intros [] g5 e5 (q1 & -> & Hq1).
  prog_steps. rewrite wp_rtos. destruct (ext _ (Rtos (XTaskCreate _ _)) e5) as [[t|] e6] eqn:He6;
    cbn [fst snd]; prog_steps; [|done].
  assert (Hv6 : qview e6 = qview e5).
  { change e6 with (Some t, e6).2. rewrite <- He6. by apply q_frame. }
  intros _ Hnf Hn0 Hn1. destruct Hs1 as [Hi Hp Htp Htb Hsl].
  destruct (s_ifaces (net g1)) as [|i0 [|i1 [|]]] eqn:Hifs; try done.
  unfold rxq, iface_at in Hn0, Hn1. cbn in Hn0, Hn1. rewrite Hifs in Hn0, Hn1. cbn in Hn0, Hn1.
  destruct (Hqf Hnf) as [Hm Hv2], (Hq0 Hn0) as [Hm0 Hv4], (Hq1 Hn1) as [Hm1 Hv5].
  rewrite Hv3, Hv2 in *. rewrite Hv4 in *.
  eapply (fresh_queues_conserved _ _ qf q0 q1); [|done| |done|done|done|done|congruence].
  - split; cbn; rewrite ?length_alter, ?Hifs; done.
  - cbn. by rewrite Hifs.
Qed.
End init.

(** ** The properties of bring-up *)

Section properties.
Context `{cfg : Config} {E : Type} `{!Platform E, !QueueLaws E, !History E}.

(** The state of the program at boot. *)
Lemma wp_net_stack_init_ok g e :
  sizes_ok g -> net_inited (net g) = false ->
  wp ext net_stack_init g e (fun r g' e' =>
    r = ESP_OK -> free_q g' <> NULL ->
    rxq NET_IFACE_ETH g' <> NULL -> rxq NET_IFACE_WIFI g' <> NULL ->
    frames_conserved g' e').
Proof.
  intros Hs Hi. unfold net_stack_init. prog_steps. rewrite Hi. prog_steps.
  unfold ESP_RETURN_ON_ERROR. rewrite wp_idf. case_decide; prog_steps; [|done].
  rewrite wp_idf. case_decide; prog_steps; [|done].
  apply wp_init_resources. destruct Hs. by split.
Qed.

(** Whether bring-up has been tried. *)
Definition tried g : Prop := net_inited (net g) = true.

Lemma net_stack_init_tried g e r g' e' :
  run ext net_stack_init g e = Some (r, g', e') -> tried g'.
Proof.
  intros Hrun%wp_of_run. unfold net_stack_init in Hrun. rewrite wp_gets in Hrun. cbn beta in Hrun.
  destruct (net_inited (net g)) eqn:Hi; [rewrite wp_ret in Hrun; by simplify_eq|].
  rewrite wp_modify in Hrun. apply wp_run in Hrun as (? & ? & ? & Hrun & [= -> -> ->]).
  refine (proj1 (typed_run ext tried (fun _ => True) _ _ _ _ _ _ _ _ Hrun)); [|done].
  unfold ESP_RETURN_ON_ERROR, init_resources, frame_pool_init. typed_auto.
Qed.

(** C3. No frame of the slab pool is ever lost or shared. From a successful
    [net_stack_init] at boot, with memory for its queues, through any sequence
    of driver inputs, polls, link events, tap registrations, attaches and L2
    sends, every frame of the pool is in exactly one place: the free list or
    one receive queue. *)
Theorem frames_never_lost e r g e' s :
  run ext net_stack_init globals_zero e = Some (r, g, e') -> r = ESP_OK ->
  free_q g <> NULL -> rxq NET_IFACE_ETH g <> NULL -> rxq NET_IFACE_WIFI g <> NULL ->
  rtc rx_step (g, e') s -> frames_conserved s.1 s.2.
Proof.
  intros Hrun Hr Hf H0 H1 Hs.
  assert (Hc : frames_conserved g e')
    by exact (wp_elim _ _ _ _ _ _ _ _ (wp_net_stack_init_ok globals_zero e
      globals_zero_sizes eq_refl) Hrun Hr Hf H0 H1).
  change (frames_conserved (g, e').1 (g, e').2) in Hc. clear Hrun Hf H0 H1.
  induction Hs; eauto using rx_step_conserved.
Qed.

(** C38. A failed bring-up is masked: whatever step of [net_stack_init] failed,
    and with whatever error, every later call answers [ESP_OK] at once and
    creates nothing. *)
Theorem net_stack_init_masks_failure g e err g1 e1 :
  run ext net_stack_init g e = Some (err, g1, e1) -> err <> ESP_OK ->
  forall e2, run ext net_stack_init g1 e2 = Some (ESP_OK, g1, e2).
Proof.
  intros Hrun _ e2. apply net_stack_init_tried in Hrun. unfold tried in Hrun.
  unfold net_stack_init. cbn. by rewrite Hrun.
Qed.
End properties.

(** ** Witnesses *)

#[local] Existing Instance tiny.

Definition boot_run : option (esp_err * globals * sim default_oracle) :=
  run (ext (E := sim default_oracle)) net_stack_init globals_zero sim_start.

(** Bring-up on the simulated platform, then a frame and a poll. *)
Lemma frames_never_lost_witness :
  exists g (e : sim default_oracle) s, boot_run = Some (ESP_OK, g, e) /\
    rtc rx_step (g, e) s /\ frames_conserved s.1 s.2.
Proof.
  pose (x := (globals_zero, @sim_start default_oracle) : globals * sim default_oracle).
  pose (x1 := exec (ext (E := sim default_oracle)) net_stack_init x).
  pose (x2 := exec (ext (E := sim default_oracle)) (eth_input_cb [1; 2; 3] 0) x1).
  assert (Hrun : run (ext (E := sim default_oracle)) net_stack_init x.1 x.2
    = Some (ESP_OK, x1.1, x1.2)) by (vm_compute; reflexivity).
  exists x1.1, x1.2, x2. split; [exact Hrun|].
  assert (Hs : rtc rx_step (x1.1, x1.2) x2).
  { apply rtc_once.
    destruct (run_exec (ext (E := sim default_oracle)) (eth_input_cb [1; 2; 3] 0) x1) as [r Hr];
      [vm_compute; reflexivity|].
    replace x2 with (x2.1, x2.2) by (vm_compute; reflexivity).
    eapply step_input. exact Hr. }
  split; [exact Hs|].
  eapply (frames_never_lost (E := sim default_oracle)); [exact Hrun|reflexivity| | | |exact Hs];
    vm_compute; discriminate.
Defined.

(** A platform whose flash storage cannot be initialised. *)
Definition nvs_fails : oracle := fun X c h =>
  match c in ccall X return X with
  | Idf c0 =>
      match c0 in idf_call X return X with
      | NvsFlashInit => ESP_FAIL
      | c0 => default_idf c0 (length h)
      end
  | Rtos c0 => default_rtos c0 (length h)
  | Core c0 => default_core c0 (length h)
  end.

Lemma net_stack_init_masks_failure_witness :
  exists g (e : sim nvs_fails),
    run (ext (E := sim nvs_fails)) net_stack_init globals_zero sim_start = Some (ESP_FAIL, g, e) /\
    run (ext (E := sim nvs_fails)) net_stack_init g e = Some (ESP_OK, g, e).
Proof.
  pose (x := exec (ext (E := sim nvs_fails)) net_stack_init (globals_zero, sim_start)).
  assert (Hrun : run (ext (E := sim nvs_fails)) net_stack_init globals_zero sim_start
    = Some (ESP_FAIL, x.1, x.2)) by (vm_compute; reflexivity).
  exists x.1, x.2. split; [exact Hrun|].
  refine (net_stack_init_masks_failure _ _ _ _ _ Hrun _ x.2). discriminate.
Defined.
