(* ===== verification/NetSock.v ===== *)
(** * The native socket API

    [components/esp_smoltcp/src/esp_smoltcp_sock.c]: application-thread socket
    calls serialised onto the core. A [net_sock_t] is its 32-bit id, the
    interface in the top byte and the core's socket id below it. *)

From S2P Require Import Prelude Prog Types Platform Sim NetStack.

Definition NET_SOCK_INVALID : Z := 0.

Definition net_sock_valid (s : Z) : bool := negb (s =? 0).

(** [IFACE(s)] and [LOCAL(s)]. *)
Definition IFACE (s : Z) : nat := Z.to_nat (Z.land (Z.shiftr s 24) 255).

Definition LOCAL (s : Z) : Z := Z.land s 16777215.

(** [((uint32_t)iface << 24) | (id & 0x00FFFFFF)] *)
Definition pack_sock (iface : nat) (id : Z) : Z :=
  Z.lor (u32 (Z.shiftl (Z.of_nat iface) 24)) (Z.land id 16777215).

Section code.
Context {E : Type} `{!Platform E}.

Definition handle_for (id : nat) : cprog ptr :=
  i ← net_iface_get id;
  match i with
  | Some i => gets (fun g => smoltcp_handle (iface_at i g))
  | None => mret NULL
  end.

Definition xTaskGetTickCount : cprog Z := rtos XTaskGetTickCount.

(** [xTaskGetTickCount() + pdMS_TO_TICKS(timeout_ms)], a 32-bit sum. *)
Definition deadline_in (timeout_ms : Z) : cprog Z :=
  t ← xTaskGetTickCount;
  mret (u32 (t + pdMS_TO_TICKS timeout_ms)).

Definition net_tcp_open (iface : nat) : cprog Z :=
  h ← handle_for iface;
  if is_null h then mret NET_SOCK_INVALID
  else
    id ← locked (Smoltcp_tcp_open h);
    mret (if id =? 0 then NET_SOCK_INVALID else pack_sock iface id).

Fixpoint tcp_connect_wait (fuel : nat) (h : ptr) (s deadline : Z) : cprog esp_err :=
  match fuel with
  | O => Spin
  | S fuel =>
      t ← xTaskGetTickCount;
      if negb (t <? deadline) then mret ESP_ERR_TIMEOUT
      else
        active ← locked (Smoltcp_tcp_is_active h (LOCAL s));
        if active : bool then mret ESP_OK
        else
          rtos (VTaskDelay (pdMS_TO_TICKS 20));;
          tcp_connect_wait fuel h s deadline
  end.

Definition net_tcp_connect (fuel : nat) (s ipv4_be port timeout_ms : Z) : cprog esp_err :=
  h ← handle_for (IFACE s);
  if is_null h then mret ESP_ERR_INVALID_ARG
  else
    rc ← locked (Smoltcp_tcp_connect h (LOCAL s) ipv4_be port 0);
    if negb (rc =? 0) then mret ESP_FAIL
    else
      deadline ← deadline_in timeout_ms;
      tcp_connect_wait fuel h s deadline.

Definition net_tcp_listen (s port : Z) : cprog esp_err :=
  h ← handle_for (IFACE s);
  if is_null h then mret ESP_ERR_INVALID_ARG
  else
    rc ← locked (Smoltcp_tcp_listen h (LOCAL s) port);
    mret (if rc =? 0 then ESP_OK else ESP_FAIL).

(** The loop of [net_tcp_send]: [total] bytes of [buf] are sent. *)
Fixpoint tcp_send_loop (fuel : nat) (h : ptr) (s : Z) (buf : list Z) (deadline : Z)
    (total : nat) : cprog nat :=
  match fuel with
  | O => Spin
  | S fuel =>
      if (length buf <=? total)%nat then mret total
      else
        n ← locked (Smoltcp_tcp_send h (LOCAL s) (drop total buf));
        if 0 <? n then
          net_stack_kick_poll;;
          tcp_send_loop fuel h s buf deadline (total + Z.to_nat n)
        else
          t ← xTaskGetTickCount;
          if deadline <=? t then mret total
          else
            net_stack_kick_poll;;
            net_stack_wait_progress 50;;
            tcp_send_loop fuel h s buf deadline total
  end.

Definition net_tcp_send (fuel : nat) (s : Z) (buf : list Z) (timeout_ms : Z) : cprog Z :=
  h ← handle_for (IFACE s);
  if is_null h then mret (-1)
  else
    deadline ← deadline_in timeout_ms;
    total ← tcp_send_loop fuel h s buf deadline 0;
    mret (if (total =? 0)%nat then -1 else i32 (Z.of_nat total)).

(** The loop of the two receive functions: attempts, with a wait for the poll
    task between them, until one succeeds or the deadline has passed. *)
Fixpoint recv_until {A} (fuel : nat) (deadline : Z) (attempt : cprog (option A))
    : cprog (option A) :=
  match fuel with
  | O => Spin
  | S fuel =>
      t ← xTaskGetTickCount;
      if negb (t <=? deadline) then mret None
      else
        r ← attempt;
        match r with
        | Some a => mret (Some a)
        | None =>
            net_stack_wait_progress 50;;
            recv_until fuel deadline attempt
        end
  end.

Definition tcp_recv_attempt (h : ptr) (s cap : Z) : cprog (option (Z * list Z)) :=
  r ← locked (Smoltcp_tcp_recv h (LOCAL s) cap);
  if 0 <? r.1 then
    net_stack_kick_poll;;
    mret (Some r)
  else mret None.

(** The result, and the bytes written to the buffer of size [cap]. *)
Definition net_tcp_recv (fuel : nat) (s cap timeout_ms : Z) : cprog (Z * list Z) :=
  h ← handle_for (IFACE s);
  if is_null h then mret (-1, [])
  else
    deadline ← deadline_in timeout_ms;
    r ← recv_until fuel deadline (tcp_recv_attempt h s cap);
    mret (default (0, []) r).

Definition net_tcp_close (s : Z) : cprog esp_err :=
  h ← handle_for (IFACE s);
  if is_null h then mret ESP_ERR_INVALID_ARG
  else
    locked (Smoltcp_tcp_close h (LOCAL s));;
    mret ESP_OK.

(** The guard and lock shared by the queries of a socket. *)
Definition query_sock {A} (s : Z) (none : A) (c : ptr -> Z -> core_call A) : cprog A :=
  h ← handle_for (IFACE s);
  if is_null h then mret none else locked (c h (LOCAL s)).

Definition net_tcp_is_active (s : Z) : cprog bool := query_sock s false Smoltcp_tcp_is_active.

Definition net_tcp_is_connected (s : Z) : cprog bool :=
  query_sock s false Smoltcp_tcp_is_connected.

Definition net_tcp_recv_queue (s : Z) : cprog Z := query_sock s 0 Smoltcp_tcp_recv_queue.

Definition net_tcp_send_capacity (s : Z) : cprog Z := query_sock s 0 Smoltcp_tcp_send_capacity.

Definition net_udp_open (iface : nat) (local_port : Z) : cprog Z :=
  h ← handle_for iface;
  if is_null h then mret NET_SOCK_INVALID
  else
    id ← locked (Smoltcp_udp_open h local_port);
    mret (if id =? 0 then NET_SOCK_INVALID else pack_sock iface id).

Definition net_udp_sendto (s : Z) (buf : list Z) (dst_be dst_port : Z) : cprog Z :=
  h ← handle_for (IFACE s);
  if is_null h then mret (-1)
  else
    n ← locked (Smoltcp_udp_sendto h (LOCAL s) buf dst_be dst_port);
    (if 0 <? n then net_stack_kick_poll else mret tt);;
    mret n.

Definition udp_recv_attempt (h : ptr) (s cap : Z) : cprog (option udp_rx) :=
  r ← locked (Smoltcp_udp_recvfrom h (LOCAL s) cap);
  mret (if 0 <? ur_n r then Some r else None).

(** What an unsuccessful [net_udp_recvfrom] returns: nothing is written. *)
Definition udp_nothing (n : Z) : udp_rx := UdpRx n [] None None.

Definition net_udp_recvfrom (fuel : nat) (s cap timeout_ms : Z) : cprog udp_rx :=
  h ← handle_for (IFACE s);
  if is_null h then mret (udp_nothing (-1))
  else
    deadline ← deadline_in timeout_ms;
    r ← recv_until fuel deadline (udp_recv_attempt h s cap);
    mret (default (udp_nothing 0) r).

Definition net_udp_close (s : Z) : cprog esp_err :=
  h ← handle_for (IFACE s);
  if is_null h then mret ESP_ERR_INVALID_ARG
  else
    locked (Smoltcp_udp_close h (LOCAL s));;
    mret ESP_OK.

Definition net_mcast_join (iface : nat) (group_be : Z) : cprog esp_err :=
  h ← handle_for iface;
  if is_null h then mret ESP_ERR_INVALID_ARG
  else
    rc ← locked (Smoltcp_iface_mcast_join h group_be);
    mret (if rc =? 0 then ESP_OK else ESP_FAIL).

Definition net_mcast_leave (iface : nat) (group_be : Z) : cprog esp_err :=
  h ← handle_for iface;
  if is_null h then mret ESP_ERR_INVALID_ARG
  else
    rc ← locked (Smoltcp_iface_mcast_leave h group_be);
    mret (if rc =? 0 then ESP_OK else ESP_FAIL).
End code.

(** ** Socket ids *)

Lemma land_low24 z : Z.land z 16777215 = z mod 16777216.
Proof. change 16777215 with (Z.ones 24). by rewrite Z.land_ones. Qed.

Lemma pack_sock_add iface id :
  (iface < 256)%nat -> pack_sock iface id = Z.of_nat iface * 16777216 + id mod 16777216.
Proof.
  intros Hi. unfold pack_sock. rewrite land_low24.
  rewrite u32_small by (rewrite Z.shiftl_mul_pow2 by lia; change (2 ^ 24) with 16777216; lia).
  rewrite lor_shiftl_add; [done|lia|]. apply Z.mod_pos_bound. done.
Qed.

Lemma IFACE_pack iface id : (iface < 256)%nat -> IFACE (pack_sock iface id) = iface.
Proof.
  intros Hi. unfold IFACE. rewrite pack_sock_add by done.
  rewrite Z.shiftr_div_pow2 by lia. change (2 ^ 24) with 16777216.
  pose proof (Z.mod_pos_bound id 16777216).
  rewrite Z.div_add_l, Z.div_small by lia. rewrite land_255, Z.mod_small by lia. lia.
Qed.

Lemma LOCAL_pack iface id : (iface < 256)%nat -> LOCAL (pack_sock iface id) = id mod 16777216.
Proof.
  intros Hi. unfold LOCAL. rewrite pack_sock_add, land_low24 by done.
  rewrite Z.add_comm, Z.mod_add by lia. by rewrite Z.mod_mod.
Qed.

(** ** The traffic of a socket *)

(** The bytes the core accepted for the socket [(h, s)], call by call. *)
Definition ev_tcp_sent (h : ptr) (s : Z) (ev : event) : option (list Z) :=
  let (X, cr) := ev in
  match cr.1 in ccall X return X -> option (list Z) with
  | Core c =>
      match c in core_call X return X -> option (list Z) with
      | Smoltcp_tcp_send h' s' buf => fun n =>
          if (h' =? h) && (s' =? s) && (0 <? n) then Some (take (Z.to_nat n) buf) else None
      | _ => fun _ => None
      end
  | _ => fun _ => None
  end cr.2.

(** The answers to the receive calls on the socket [(h, s)]. *)
Definition ev_tcp_recv (h : ptr) (s : Z) (ev : event) : option (Z * list Z) :=
  let (X, cr) := ev in
  match cr.1 in ccall X return X -> option (Z * list Z) with
  | Core c =>
      match c in core_call X return X -> option (Z * list Z) with
      | Smoltcp_tcp_recv h' s' _ => fun r => if (h' =? h) && (s' =? s) then Some r else None
      | _ => fun _ => None
      end
  | _ => fun _ => None
  end cr.2.

Definition ev_udp_recv (h : ptr) (s : Z) (ev : event) : option udp_rx :=
  let (X, cr) := ev in
  match cr.1 in ccall X return X -> option udp_rx with
  | Core c =>
      match c in core_call X return X -> option udp_rx with
      | Smoltcp_udp_recvfrom h' s' _ => fun r => if (h' =? h) && (s' =? s) then Some r else None
      | _ => fun _ => None
      end
  | _ => fun _ => None
  end cr.2.

(** The TCP sockets closed at the core. *)
Definition ev_tcp_close (ev : event) : option (ptr * Z) :=
  match ev with
  | existT _ (c, _) =>
      match c with Core (Smoltcp_tcp_close h s) => Some (h, s) | _ => None end
  end.

(** ** The clock *)

Section clock.
Context {E : Type} `{!Platform E}.

(** The clock is read before the deadline [d] only finitely often: every such
    reading lowers [rank], and nothing raises it. *)
Definition clock_reaches (d : Z) (rank : E -> nat) : Prop :=
  (forall X (c : ccall X) e, (rank (ext _ c e).2 <= rank e)%nat) /\
  (forall e, (ext _ (Rtos XTaskGetTickCount) e).1 < d ->
     (rank (ext _ (Rtos XTaskGetTickCount) e).2 < rank e)%nat).

Lemma rank_call d rank X (c : ccall X) e :
  clock_reaches d rank -> (rank (ext _ c e).2 <= rank e)%nat.
Proof. intros []. auto. Qed.
End clock.

(** ** Locked calls and waits *)

Section sock.
Context {E : Type} `{!Platform E, !History E}.
Implicit Types (g : globals) (e : E).

(** The handle the sockets of an interface are served by. *)
Definition handle_of (i : nat) g : ptr :=
  if (NET_IFACE_MAX <=? i)%nat || negb (enabled (iface_at i g)) then NULL
  else smoltcp_handle (iface_at i g).

Lemma wp_handle_for i g e Q : wp ext (handle_for i) g e Q <-> Q (handle_of i g) g e.
Proof.
  unfold handle_for, net_iface_get, handle_of. rewrite wp_bind, wp_gets.
  by destruct ((NET_IFACE_MAX <=? i)%nat || negb (enabled (iface_at i g))).
Qed.

(** A lock, a core call and an unlock are one event that counts. *)
Lemma wp_locked {X} (c : core_call X) g e (Q : X -> globals -> E -> Prop) :
  (forall e1 e2, e1 = (ext _ (Rtos (XSemaphoreTake M_smoltcp)) e).2 ->
     e2 = (ext _ (Core c) e1).2 ->
     Q (ext _ (Core c) e1).1 g (ext _ (Rtos (XSemaphoreGive M_smoltcp)) e2).2) ->
  wp ext (locked c) g e Q.
Proof.
  intros HQ. unfold locked, SMOLTCP_LOCK, SMOLTCP_UNLOCK. rewrite wp_rtos, wp_core, wp_rtos.
  rewrite wp_ret. by apply HQ.
Qed.

(** The environment after calls that are no [f] event and do not raise [rank]. *)
Definition quiet {A} (f : event -> option A) (rank : E -> nat) e e' : Prop :=
  picked f e' = picked f e /\ (rank e' <= rank e)%nat.

Definition rtos_silent {A} (f : event -> option A) : Prop :=
  forall X (c : rtos_call X) r, f (existT X (Rtos c, r)) = None.

Lemma quiet_rtos {A} (f : event -> option A) d rank {X} (c : rtos_call X) e :
  rtos_silent f -> clock_reaches d rank -> quiet f rank e (ext _ (Rtos c) e).2.
Proof.
  intros Hf Hc. split; [|by eapply rank_call].
  rewrite picked_step, Hf. apply app_nil_r.
Qed.

Lemma quiet_trans {A} (f : event -> option A) rank e1 e2 e3 :
  quiet f rank e1 e2 -> quiet f rank e2 e3 -> quiet f rank e1 e3.
Proof. unfold quiet. intros [] []. split; [congruence|lia]. Qed.

Lemma quiet_kick {A} (f : event -> option A) d rank g e :
  rtos_silent f -> clock_reaches d rank ->
  wp ext net_stack_kick_poll g e (fun _ g' e' => g' = g /\ quiet f rank e e').
Proof.
  intros Hf Hc. unfold net_stack_kick_poll. prog_steps. case_test; prog_steps.
  - by split_and!.
  - rewrite wp_rtos_last. split; [done|by eapply quiet_rtos].
Qed.

Lemma quiet_wait {A} (f : event -> option A) d rank ms g e :
  rtos_silent f -> clock_reaches d rank ->
  wp ext (net_stack_wait_progress ms) g e (fun _ g' e' => g' = g /\ quiet f rank e e').
Proof.
  intros Hf Hc. unfold net_stack_wait_progress. prog_steps. case_test.
  - rewrite wp_rtos_last. split; [done|by eapply quiet_rtos].
  - rewrite wp_rtos. prog_steps. split; [done|by eapply quiet_rtos].
Qed.

(** A locked core call adds at most its own event. *)
Lemma wp_locked_event {A X} (f : event -> option A) d rank (c : core_call X) g e Q :
  rtos_silent f -> clock_reaches d rank ->
  (forall r e1 e', r = (ext _ (Core c) e1).1 ->
     picked f e' = picked f e ++ match f (existT X (Core c, r)) with Some a => [a] | None => [] end ->
     (rank e' <= rank e)%nat -> Q r g e') ->
  wp ext (locked c) g e Q.
Proof.
  intros Hf Hc HQ. apply wp_locked. intros e1 e2 He1 He2.
  pose proof (quiet_rtos f d rank (XSemaphoreTake M_smoltcp) e Hf Hc) as [Hp1 Hr1].
  pose proof (quiet_rtos f d rank (XSemaphoreGive M_smoltcp) e2 Hf Hc) as [Hp2 Hr2].
  pose proof (rank_call d rank _ (Core c) e1 Hc) as Hr3.
  rewrite <- He1 in *. rewrite <- He2 in *. eapply (HQ _ e1); [done| |lia].
  rewrite Hp2, He2, picked_step, Hp1. done.
Qed.

(** *** Sending *)

(** The core accepts at most the bytes it is offered. *)
Definition send_law : Prop := forall h s buf e,
  (ext _ (Core (Smoltcp_tcp_send h s buf)) e).1 <= Z.of_nat (length buf).

Lemma rtos_silent_sent h s : rtos_silent (ev_tcp_sent h s).
Proof. done. Qed.

(** The loop ends with a prefix of the buffer accepted, all of it unless the
    deadline passed. *)
Lemma wp_tcp_send_loop fuel h s buf deadline rank total g e :
  send_law -> clock_reaches deadline rank -> (total <= length buf)%nat ->
  (length buf - total + rank e < fuel)%nat ->
  wp ext (tcp_send_loop fuel h s buf deadline total) g e (fun total' g' e' =>
    g' = g /\ (total <= total' <= length buf)%nat /\
    exists chunks, picked (ev_tcp_sent h (LOCAL s)) e' = picked (ev_tcp_sent h (LOCAL s)) e ++ chunks /\
      concat chunks = take (total' - total) (drop total buf) /\
      (total' = length buf \/ exists t, deadline <= t /\
         existT _ (Rtos XTaskGetTickCount, t) ∈ hist e')).
Proof.
  intros Hlaw Hc. revert total e.
  induction fuel as [|fuel IH]; intros total e Htot Hfuel; [lia|]. cbn [tcp_send_loop].
  case_test; [rewrite wp_ret|].
  { split_and!; [done|lia|lia|]. exists []. rewrite app_nil_r, Nat.sub_diag.
    split_and!; [done..|left; lia]. }
  rewrite wp_bind. eapply wp_locked_event; [apply rtos_silent_sent|done|].
  intros n e0 e1 Hn Hp Hr. cbn in Hp. rewrite !Z.eqb_refl in Hp. cbn [andb] in Hp.
  pose proof (Hlaw h (LOCAL s) (drop total buf) e0) as Hle. rewrite <- Hn, length_drop in Hle.
  destruct (0 <? n) eqn:Hpos; zify_bools.
  - rewrite wp_bind. wp_use (quiet_kick (ev_tcp_sent h (LOCAL s)) deadline rank); [done..|].
    intros [] g' e2 (-> & Hp2 & Hr2).
    wp_use (IH (total + Z.to_nat n)%nat e2); [lia|lia|].
    intros total' g' e' (-> & Hb & chunks & Hch & Hcat & Hend). split_and!; [done|lia|lia|].
    exists (take (Z.to_nat n) (drop total buf) :: chunks). split_and!; [| |done].
    + rewrite Hch, Hp2, Hp, <- app_assoc. done.
    + cbn [concat]. rewrite Hcat, <- drop_drop.
      replace (total' - total)%nat with (Z.to_nat n + (total' - (total + Z.to_nat n)))%nat by lia.
      apply take_take_drop.
  - unfold xTaskGetTickCount. rewrite wp_rtos.
    set (e2 := (ext _ (Rtos XTaskGetTickCount) e1).2).
    assert (Hp2 : picked (ev_tcp_sent h (LOCAL s)) e2 = picked (ev_tcp_sent h (LOCAL s)) e1)
      by by eapply quiet_rtos.
    rewrite app_nil_r in Hp. case_test; [rewrite wp_ret|].
    + split_and!; [done|lia|lia|]. exists [].
      rewrite app_nil_r, Nat.sub_diag, Hp2, Hp. split_and!; [done..|]. right.
      eexists. split; [done|]. subst e2. rewrite hist_step. apply elem_of_app. right. by left.
    + assert (Hr2 : (rank e2 < rank e1)%nat) by (apply Hc; lia).
      rewrite wp_bind. wp_use (quiet_kick (ev_tcp_sent h (LOCAL s)) deadline rank); [done..|].
      intros [] g' e3 (-> & Hp3 & Hr3).
      rewrite wp_bind. wp_use (quiet_wait (ev_tcp_sent h (LOCAL s)) deadline rank); [done..|].
      intros [] g' e4 (-> & Hp4 & Hr4).
      wp_use (IH total e4); [lia|lia|]. intros total' g' e' (-> & Hb & chunks & Hch & Hcat & Hend).
      split_and!; [done|lia|lia|]. exists chunks.
      by rewrite Hch, Hp4, Hp3, Hp2, Hp.
Qed.

(** *** Receiving *)

(** One attempt makes one [f] event, and succeeds when it is [good]. *)
Definition attempt_law {A} (f : event -> option A) (good : A -> bool) (rank : E -> nat)
    (attempt : cprog (option A)) : Prop :=
  forall g e, wp ext attempt g e (fun o g' e' =>
    g' = g /\ (rank e' <= rank e)%nat /\
    exists r, picked f e' = picked f e ++ [r] /\ o = if good r then Some r else None).

(** The loop returns the first good answer, or nothing once the clock has
    passed the deadline. *)
Lemma wp_recv_until {A} (f : event -> option A) good deadline rank fuel attempt g e :
  rtos_silent f -> clock_reaches (deadline + 1) rank -> attempt_law f good rank attempt ->
  (rank e < fuel)%nat ->
  wp ext (recv_until fuel deadline attempt) g e (fun o g' e' =>
    g' = g /\ exists fails, Forall (fun r => good r = false) fails /\
    match o with
    | Some r => good r = true /\ picked f e' = picked f e ++ fails ++ [r]
    | None => picked f e' = picked f e ++ fails /\
        exists t, deadline < t /\ existT _ (Rtos XTaskGetTickCount, t) ∈ hist e'
    end).
Proof.
  intros Hf Hc Ha. revert e. induction fuel as [|fuel IH]; intros e Hfuel; [lia|].
  cbn [recv_until]. unfold xTaskGetTickCount. rewrite wp_rtos.
  set (t := (ext _ (Rtos XTaskGetTickCount) e).1).
  set (e1 := (ext _ (Rtos XTaskGetTickCount) e).2).
  assert (Hp1 : picked f e1 = picked f e) by by eapply quiet_rtos.
  destruct (t <=? deadline) eqn:Ht; cbn [negb]; zify_bools.
  2:{ rewrite wp_ret. split; [done|]. exists []. rewrite app_nil_r. split_and!; [constructor|done|].
      exists t. split; [done|]. subst e1. rewrite hist_step. apply elem_of_app. right. by left. }
  assert (Hr1 : (rank e1 < rank e)%nat) by (apply Hc; fold t; lia).
  rewrite wp_bind. wp_use Ha. intros o g' e2 (-> & Hr2 & r & Hp2 & ->).
  destruct (good r) eqn:Hg.
  - rewrite wp_ret. split; [done|]. exists []. split_and!; [constructor|done|].
    by rewrite Hp2, Hp1.
  - rewrite wp_bind. wp_use (quiet_wait f (deadline + 1) rank); [done..|].
    intros [] g' e3 (-> & Hp3 & Hr3). wp_use (IH e3); [lia|].
    intros o g' e' (-> & fails & Hall & Ho). split; [done|]. exists (r :: fails).
    split; [by constructor|].
    assert (Hp : picked f e3 = picked f e ++ [r]) by (rewrite Hp3, Hp2, Hp1; done).
    destruct o as [r'|].
    + destruct Ho as [Hg' ->]. split; [done|]. by rewrite Hp, <- app_assoc.
    + destruct Ho as [-> Hend]. split; [|done]. by rewrite Hp, <- app_assoc.
Qed.

Lemma tcp_attempt_law h s cap d rank :
  clock_reaches d rank ->
  attempt_law (ev_tcp_recv h (LOCAL s)) (fun r => 0 <? r.1) rank (tcp_recv_attempt h s cap).
Proof.
  intros Hc g e. unfold tcp_recv_attempt. rewrite wp_bind.
  eapply (wp_locked_event (ev_tcp_recv h (LOCAL s))); [done|done|].
  intros r e0 e1 _ Hp Hr. cbn in Hp. rewrite !Z.eqb_refl in Hp. cbn [andb] in Hp.
  destruct (0 <? r.1) eqn:Hg.
  - rewrite wp_bind. wp_use (quiet_kick (ev_tcp_recv h (LOCAL s)) d rank); [done..|].
    intros [] g' e2 (-> & Hp2 & Hr2). rewrite wp_ret. split_and!; [done|lia|].
    exists r. rewrite Hg. split; [congruence|done].
  - rewrite wp_ret. split_and!; [done|lia|]. exists r. by rewrite Hg.
Qed.

Lemma udp_attempt_law h s cap d rank :
  clock_reaches d rank ->
  attempt_law (ev_udp_recv h (LOCAL s)) (fun r => 0 <? ur_n r) rank (udp_recv_attempt h s cap).
Proof.
  intros Hc g e. unfold udp_recv_attempt. rewrite wp_bind.
  eapply (wp_locked_event (ev_udp_recv h (LOCAL s))); [done|done|].
  intros r e0 e1 _ Hp Hr. cbn in Hp. rewrite !Z.eqb_refl in Hp. cbn [andb] in Hp.
  rewrite wp_ret. split_and!; [done|lia|]. by exists r.
Qed.

(** The deadline computed now. *)
Definition deadline_from e (timeout_ms : Z) : Z :=
  u32 ((ext _ (Rtos XTaskGetTickCount) e).1 + pdMS_TO_TICKS timeout_ms).

Lemma wp_deadline {A} (f : event -> option A) d rank ms g e Q :
  rtos_silent f -> clock_reaches d rank ->
  (forall e', quiet f rank e e' -> Q (deadline_from e ms) g e') ->
  wp ext (deadline_in ms) g e Q.
Proof.
  intros Hf Hc HQ. unfold deadline_in, xTaskGetTickCount. rewrite wp_rtos, wp_ret.
  by eapply HQ, quiet_rtos.
Qed.

Lemma wp_tcp_send fuel s buf ms rank g e :
  send_law -> clock_reaches (deadline_from e ms) rank -> handle_of (IFACE s) g <> NULL ->
  (length buf + rank e < fuel)%nat ->
  wp ext (net_tcp_send fuel s buf ms) g e (fun r g' e' =>
    g' = g /\ exists total chunks, (total <= length buf)%nat /\
    r = (if (total =? 0)%nat then -1 else i32 (Z.of_nat total)) /\
    picked (ev_tcp_sent (handle_of (IFACE s) g) (LOCAL s)) e'
      = picked (ev_tcp_sent (handle_of (IFACE s) g) (LOCAL s)) e ++ chunks /\
    concat chunks = take total buf /\
    (total = length buf \/ exists t, deadline_from e ms <= t /\
       existT _ (Rtos XTaskGetTickCount, t) ∈ hist e')).
Proof.
  intros Hlaw Hc Hh Hfuel. unfold net_tcp_send. rewrite wp_bind, wp_handle_for.
  rewrite (is_null_ne _ Hh), wp_bind.
  eapply (wp_deadline (ev_tcp_sent (handle_of (IFACE s) g) (LOCAL s))); [done|exact Hc|].
  intros e1 [Hp1 Hr1]. rewrite wp_bind. wp_use wp_tcp_send_loop; [done|exact Hc|lia|lia|].
  intros total g' e' (-> & Hb & chunks & Hp & Hcat & Hend). rewrite wp_ret.
  split; [done|]. exists total, chunks. rewrite Nat.sub_0_r in Hcat.
  split_and!; [lia|done|congruence|done|done].
Qed.

Lemma wp_tcp_recv fuel s cap ms rank g e :
  clock_reaches (deadline_from e ms + 1) rank -> handle_of (IFACE s) g <> NULL ->
  (rank e < fuel)%nat ->
  wp ext (net_tcp_recv fuel s cap ms) g e (fun r g' e' =>
    let f := ev_tcp_recv (handle_of (IFACE s) g) (LOCAL s) in
    g' = g /\ exists fails, Forall (fun a => a.1 <= 0) fails /\
    (0 < r.1 /\ picked f e' = picked f e ++ fails ++ [r] \/
     r = (0, []) /\ picked f e' = picked f e ++ fails /\
     exists t, deadline_from e ms < t /\ existT _ (Rtos XTaskGetTickCount, t) ∈ hist e')).
Proof.
  intros Hc Hh Hfuel. unfold net_tcp_recv. rewrite wp_bind, wp_handle_for.
  set (h := handle_of (IFACE s) g) in *. cbn zeta. set (f := ev_tcp_recv h (LOCAL s)).
  rewrite (is_null_ne _ Hh), wp_bind.
  eapply (wp_deadline f); [done|exact Hc|]. intros e1 [Hp1 Hr1]. rewrite wp_bind.
  wp_use (wp_recv_until f); [done|exact Hc|by eapply tcp_attempt_law|lia|].
  intros o g' e' (-> & fails & Hall & Ho). rewrite wp_ret. split; [done|]. exists fails.
  split; [eapply Forall_impl; [done|]; cbn; intros; zify_bools; lia|].
  rewrite <- Hp1. destruct o as [r|]; cbn.
  - left. destruct Ho as [Hg ->]. zify_bools. by split.
  - right. destruct Ho as [-> ?]. by split_and!.
Qed.

Lemma wp_udp_recv fuel s cap ms rank g e :
  clock_reaches (deadline_from e ms + 1) rank -> handle_of (IFACE s) g <> NULL ->
  (rank e < fuel)%nat ->
  wp ext (net_udp_recvfrom fuel s cap ms) g e (fun r g' e' =>
    let f := ev_udp_recv (handle_of (IFACE s) g) (LOCAL s) in
    g' = g /\ exists fails, Forall (fun a => ur_n a <= 0) fails /\
    (0 < ur_n r /\ picked f e' = picked f e ++ fails ++ [r] \/
     r = udp_nothing 0 /\ picked f e' = picked f e ++ fails /\
     exists t, deadline_from e ms < t /\ existT _ (Rtos XTaskGetTickCount, t) ∈ hist e')).
Proof.
  intros Hc Hh Hfuel. unfold net_udp_recvfrom. rewrite wp_bind, wp_handle_for.
  set (h := handle_of (IFACE s) g) in *. cbn zeta. set (f := ev_udp_recv h (LOCAL s)).
  rewrite (is_null_ne _ Hh), wp_bind.
  eapply (wp_deadline f); [done|exact Hc|]. intros e1 [Hp1 Hr1]. rewrite wp_bind.
  wp_use (wp_recv_until f); [done|exact Hc|by eapply udp_attempt_law|lia|].
  intros o g' e' (-> & fails & Hall & Ho). rewrite wp_ret. split; [done|]. exists fails.
  split; [eapply Forall_impl; [done|]; cbn; intros; zify_bools; lia|].
  rewrite <- Hp1. destruct o as [r|]; cbn.
  - left. destruct Ho as [Hg ->]. zify_bools. by split.
  - right. destruct Ho as [-> ?]. by split_and!.
Qed.
End sock.

(** ** Properties *)

Section properties.
Context {E : Type} `{!Platform E, !History E}.
Implicit Types (g : globals) (e : E).

(** C11. [net_tcp_send] terminates and reports exactly what was sent. On a
    clock that reaches the deadline, and a core that accepts at most the bytes
    it is offered, the call returns after at most [length buf + rank e] turns
    of its loop; the pieces the core accepted for this socket concatenate to a
    prefix of the buffer, the result is the length of that prefix (or -1 when
    it is empty), and the prefix is the whole buffer unless the clock was read
    at or after the deadline. The program's state is untouched. *)
Theorem tcp_send_exact fuel s buf ms rank g e :
  send_law -> clock_reaches (deadline_from e ms) rank -> handle_of (IFACE s) g <> NULL ->
  (length buf + rank e < fuel)%nat ->
  exists r e' total chunks,
    run ext (net_tcp_send fuel s buf ms) g e = Some (r, g, e') /\
    r = (if (total =? 0)%nat then -1 else i32 (Z.of_nat total)) /\
    picked (ev_tcp_sent (handle_of (IFACE s) g) (LOCAL s)) e'
      = picked (ev_tcp_sent (handle_of (IFACE s) g) (LOCAL s)) e ++ chunks /\
    concat chunks = take total buf /\ (total <= length buf)%nat /\
    (total = length buf \/ exists t, deadline_from e ms <= t /\
       existT _ (Rtos XTaskGetTickCount, t) ∈ hist e').
Proof.
  intros Hlaw Hc Hh Hfuel.
  pose proof (wp_tcp_send fuel s buf ms rank g e Hlaw Hc Hh Hfuel) as Hwp.
  apply wp_run in Hwp as (r & g' & e' & Hrun & -> & total & chunks & ? & ? & ? & ? & ?).
  exists r, e', total, chunks. by split_and!.
Qed.

(** [net_tcp_recv] terminates and returns the first data the core has.
    Its calls to the core for this socket answer with no data ([fails]) until
    either one answers with data, which is the result, or the clock has
    passed the deadline, and the result is 0 with nothing written. *)
Theorem tcp_recv_first fuel s cap ms rank g e :
  clock_reaches (deadline_from e ms + 1) rank -> handle_of (IFACE s) g <> NULL ->
  (rank e < fuel)%nat ->
  let f := ev_tcp_recv (handle_of (IFACE s) g) (LOCAL s) in
  exists r e' fails,
    run ext (net_tcp_recv fuel s cap ms) g e = Some (r, g, e') /\
    Forall (fun a => a.1 <= 0) fails /\
    (0 < r.1 /\ picked f e' = picked f e ++ fails ++ [r] \/
     r = (0, []) /\ picked f e' = picked f e ++ fails /\
     exists t, deadline_from e ms < t /\ existT _ (Rtos XTaskGetTickCount, t) ∈ hist e').
Proof.
  intros Hc Hh Hfuel f. pose proof (wp_tcp_recv fuel s cap ms rank g e Hc Hh Hfuel) as Hwp.
  apply wp_run in Hwp as (r & g' & e' & Hrun & -> & fails & ? & ?).
  exists r, e', fails. by split_and!.
Qed.

(** The same for UDP: [net_udp_recvfrom] hands over the first datagram
    the core returns, with the source it reports, and gives up with nothing
    only after the deadline. *)
Theorem udp_recv_first fuel s cap ms rank g e :
  clock_reaches (deadline_from e ms + 1) rank -> handle_of (IFACE s) g <> NULL ->
  (rank e < fuel)%nat ->
  let f := ev_udp_recv (handle_of (IFACE s) g) (LOCAL s) in
  exists r e' fails,
    run ext (net_udp_recvfrom fuel s cap ms) g e = Some (r, g, e') /\
    Forall (fun a => ur_n a <= 0) fails /\
    (0 < ur_n r /\ picked f e' = picked f e ++ fails ++ [r] \/
     r = udp_nothing 0 /\ picked f e' = picked f e ++ fails /\
     exists t, deadline_from e ms < t /\ existT _ (Rtos XTaskGetTickCount, t) ∈ hist e').
Proof.
  intros Hc Hh Hfuel f. pose proof (wp_udp_recv fuel s cap ms rank g e Hc Hh Hfuel) as Hwp.
  apply wp_run in Hwp as (r & g' & e' & Hrun & -> & fails & ? & ?).
  exists r, e', fails. by split_and!.
Qed.

(** A socket id names its interface and its core socket. Whatever 32-bit
    id the core answers to an open on interface [i], below 2^24 and not zero,
    the [net_sock_t] returned is valid, and closing it closes that id on the
    handle it was opened on. *)
Theorem tcp_open_close_same i g e id :
  (i < NET_IFACE_MAX)%nat -> handle_of i g <> NULL ->
  (forall e, (ext _ (Core (Smoltcp_tcp_open (handle_of i g))) e).1 = id) ->
  0 < id < 16777216 ->
  exists r e', run ext (net_tcp_open i) g e = Some (r, g, e') /\
    net_sock_valid r = true /\ IFACE r = i /\ LOCAL r = id /\
    forall e1, exists e2, run ext (net_tcp_close r) g e1 = Some (ESP_OK, g, e2) /\
      picked ev_tcp_close e2 = picked ev_tcp_close e1 ++ [(handle_of i g, id)].
Proof.
  intros Hi Hh Hopen Hid.
  assert (Hi' : (i < 256)%nat) by (unfold NET_IFACE_MAX in Hi; lia).
  assert (Hmod : id mod 16777216 = id) by (apply Z.mod_small; lia).
  assert (HL : LOCAL (pack_sock i id) = id) by by rewrite LOCAL_pack.
  assert (HI : IFACE (pack_sock i id) = i) by by rewrite IFACE_pack.
  assert (Hrun : forall e, wp ext (net_tcp_open i) g e (fun r g' _ => r = pack_sock i id /\ g' = g)).
  { intros e0. unfold net_tcp_open. rewrite wp_bind, wp_handle_for.
    rewrite (is_null_ne _ Hh), wp_bind.
    apply wp_locked. intros e1 e2 _ _. rewrite wp_ret, Hopen. case_test; [lia|done]. }
  specialize (Hrun e). apply wp_run in Hrun as (r & g' & e' & Hrun & -> & ->).
  exists (pack_sock i id), e'. split_and!; [done| |done..|].
  - unfold net_sock_valid. apply negb_true_iff, Z.eqb_neq. rewrite pack_sock_add by done. lia.
  - intros e1.
    assert (Hcl : wp ext (net_tcp_close (pack_sock i id)) g e1 (fun r g' e' => r = ESP_OK /\ g' = g /\
      picked ev_tcp_close e' = picked ev_tcp_close e1 ++ [(handle_of i g, id)])).
    { unfold net_tcp_close. rewrite wp_bind, wp_handle_for, HI.
      rewrite (is_null_ne _ Hh), wp_bind.
      apply wp_locked. intros e2 e3 He2 He3. rewrite wp_ret. split_and!; [done..|].
      rewrite picked_step, He3, picked_step, He2, picked_step, HL. cbn. by rewrite !app_nil_r. }
    apply wp_run in Hcl as (? & ? & e2 & ? & -> & -> & ?). eauto.
Qed.

(** Ids are kept to 24 bits: when the core's 32-bit id counter reaches
    a multiple of 2^24, [net_tcp_open] on interface 0 returns
    [NET_SOCK_INVALID] although the core opened a socket, which no id the
    caller holds can close. *)
Theorem tcp_open_wraps_to_invalid g e k :
  handle_of NET_IFACE_ETH g <> NULL -> 0 < k < 256 ->
  (forall e, (ext _ (Core (Smoltcp_tcp_open (handle_of NET_IFACE_ETH g))) e).1 = k * 16777216) ->
  exists e', run ext (net_tcp_open NET_IFACE_ETH) g e = Some (NET_SOCK_INVALID, g, e').
Proof.
  intros Hh Hk Hopen.
  assert (Hwp : wp ext (net_tcp_open NET_IFACE_ETH) g e (fun r g' _ => r = NET_SOCK_INVALID /\ g' = g)).
  { unfold net_tcp_open. rewrite wp_bind, wp_handle_for.
    rewrite (is_null_ne _ Hh), wp_bind.
    apply wp_locked. intros e1 e2 _ _. rewrite wp_ret, Hopen. case_test; [lia|].
    rewrite pack_sock_add by (unfold NET_IFACE_ETH; lia). by rewrite Z.mod_mul. }
  apply wp_run in Hwp as (? & ? & e' & ? & -> & ->). eauto.
Qed.
End properties.

(** ** Witnesses *)

#[local] Existing Instance tiny.

(** Ethernet is enabled and has a core handle. *)
Definition eth_up : globals :=
  upd_iface 0 (fun i => set_smoltcp_handle 512 (set_enabled true i)) globals_zero.

Definition socket7 : Z := pack_sock 0 7.

Lemma sim_clock_reaches d :
  clock_reaches (E := sim default_oracle) d (fun e => Z.to_nat (d - Z.of_nat (length (sim_hist e)))).
Proof.
  assert (Hstep : forall X (c : ccall X) (e : sim default_oracle),
    length (sim_hist (ext _ c e).2) = S (length (sim_hist e))).
  { intros X c e. pose proof (hist_step X c e) as Hh. cbn [hist sim_history] in Hh.
    rewrite Hh, length_app. cbn. lia. }
  split.
  - intros X c e. rewrite Hstep. lia.
  - intros e Hlt. rewrite Hstep. cbn in Hlt. lia.
Qed.

Lemma tcp_send_exact_witness :
  exists r (e' : sim default_oracle) total chunks,
    run ext (net_tcp_send (E := sim default_oracle) 200 socket7 [1; 2; 3] 100) eth_up (@sim_start default_oracle) = Some (r, eth_up, e') /\
    concat chunks = take total [1; 2; 3] /\ (total <= 3)%nat.
Proof.
  destruct (tcp_send_exact (E := sim default_oracle) 200 socket7 [1; 2; 3] 100
    (fun e => Z.to_nat (100 - Z.of_nat (length (sim_hist e)))) eth_up (@sim_start default_oracle))
    as (r & e' & total & chunks & Hrun & _ & _ & Hcat & Hle & _).
  - intros h s buf e. cbn. lia.
  - apply (sim_clock_reaches 100).
  - vm_compute. discriminate.
  - vm_compute. lia.
  - exists r, e', total, chunks. split; [exact Hrun|]. split; [exact Hcat|exact Hle].
Defined.

Lemma tcp_recv_first_witness :
  exists r (e' : sim default_oracle),
    run ext (net_tcp_recv (E := sim default_oracle) 200 socket7 64 100) eth_up (@sim_start default_oracle) = Some (r, eth_up, e').
Proof.
  destruct (tcp_recv_first (E := sim default_oracle) 200 socket7 64 100
    (fun e => Z.to_nat (101 - Z.of_nat (length (sim_hist e)))) eth_up (@sim_start default_oracle))
    as (r & e' & fails & Hrun & _).
  - apply (sim_clock_reaches 101).
  - vm_compute. discriminate.
  - vm_compute. lia.
  - exists r, e'. exact Hrun.
Defined.

Lemma udp_recv_first_witness :
  exists r (e' : sim default_oracle),
    run ext (net_udp_recvfrom (E := sim default_oracle) 200 socket7 64 100) eth_up (@sim_start default_oracle) = Some (r, eth_up, e').
Proof.
  destruct (udp_recv_first (E := sim default_oracle) 200 socket7 64 100
    (fun e => Z.to_nat (101 - Z.of_nat (length (sim_hist e)))) eth_up (@sim_start default_oracle))
    as (r & e' & fails & Hrun & _).
  - apply (sim_clock_reaches 101).
  - vm_compute. discriminate.
  - vm_compute. lia.
  - exists r, e'. exact Hrun.
Defined.

(** A core that answers every open with [id]. *)
Definition open_oracle (id : Z) : oracle := fun X c h =>
  match c in ccall X return X with
  | Core c0 =>
      match c0 in core_call X return X with
      | Smoltcp_tcp_open _ => id
      | c0 => default_core c0 (length h)
      end
  | Rtos c0 => default_rtos c0 (length h)
  | Idf c0 => default_idf c0 (length h)
  end.

Lemma tcp_open_close_same_witness :
  exists r (e' : sim (open_oracle 9)),
    run ext (net_tcp_open 0) eth_up (@sim_start (open_oracle 9)) = Some (r, eth_up, e') /\ LOCAL r = 9.
Proof.
  destruct (tcp_open_close_same (E := sim (open_oracle 9)) 0 eth_up (@sim_start (open_oracle 9)) 9)
    as (r & e' & Hrun & _ & _ & Hl & _).
  - unfold NET_IFACE_MAX. lia.
  - vm_compute. discriminate.
  - intros e. reflexivity.
  - lia.
  - exists r, e'. split; [exact Hrun|exact Hl].
Defined.

Lemma tcp_open_wraps_to_invalid_witness :
  exists e' : sim (open_oracle 33554432),
    run ext (net_tcp_open NET_IFACE_ETH) eth_up (@sim_start (open_oracle 33554432)) = Some (NET_SOCK_INVALID, eth_up, e').
Proof.
  apply (tcp_open_wraps_to_invalid (E := sim (open_oracle 33554432)) eth_up (@sim_start (open_oracle 33554432)) 2).
  - vm_compute. discriminate.
  - lia.
  - intros e. reflexivity.
Defined.
