(* ===== verification/Device.v ===== *)
(** * The core's network device

    [EspDevice] of [components/esp_smoltcp_glue/src/lib.rs]: the one-frame inbox that
    [smoltcp_iface_rx] fills, the static pool of transmit buffers, the tokens
    smoltcp sends and receives through, and the table of socket ids of
    [IfaceCtx]. Rust's moves and [Drop] are explicit: an operation that consumes a
    token takes its buffer index. *)

From S2P Require Import Prelude Prog Ipv4 Types Platform Sim FramePool L2Tap NetStack RxPath Delivery NetSock.

Definition TX_FRAME : nat := 1536%nat.

Definition TX_POOL_N : nat := 16%nat.

(** [u32::trailing_zeros] *)
Fixpoint ctz (p : positive) : nat :=
  match p with
  | xO p => S (ctz p)
  | _ => O
  end.

Definition trailing_zeros (m : Z) : nat := match m with Zpos p => ctz p | _ => 32%nat end.

Record tx_pool := TxPool { bufs : list (list Z); free_mask : Z }.

Definition TX_POOL : tx_pool :=
  TxPool (replicate TX_POOL_N (replicate TX_FRAME 0)) (Z.shiftl 1 (Z.of_nat TX_POOL_N) - 1).

(** The index; the buffer is [bufs] at it. *)
Definition tx_pool_alloc (p : tx_pool) : option (nat * tx_pool) :=
  if free_mask p =? 0 then None
  else
    let idx := trailing_zeros (free_mask p) in
    Some (idx, TxPool (bufs p) (Z.land (free_mask p) (u32 (Z.lnot (Z.shiftl 1 (Z.of_nat idx)))))).

Definition tx_pool_free (idx : nat) (p : tx_pool) : tx_pool :=
  TxPool (bufs p) (Z.lor (free_mask p) (Z.shiftl 1 (Z.of_nat idx))).

Record esp_device := EspDevice { rx_inbox : option (list Z); dev_link_up : bool }.

Definition push_rx (frame : list Z) (d : esp_device) : esp_device :=
  match rx_inbox d with
  | None => EspDevice (Some frame) (dev_link_up d)
  | Some _ => d
  end.

(** [Device::receive]: the frame of the receive token and the buffer of the
    transmit token, if any, and the state after. *)
Definition receive (d : esp_device) (p : tx_pool) : option (list Z * nat) * esp_device * tx_pool :=
  match rx_inbox d with
  | None => (None, d, p)
  | Some frame =>
      let d := EspDevice None (dev_link_up d) in
      match tx_pool_alloc p with
      | None => (None, d, p)
      | Some (idx, p) => (Some (frame, idx), d, p)
      end
  end.

(** [Device::transmit] *)
Definition transmit (d : esp_device) (p : tx_pool) : option nat * tx_pool :=
  if negb (dev_link_up d) then (None, p)
  else match tx_pool_alloc p with
       | None => (None, p)
       | Some (idx, p) => (Some idx, p)
       end.

(** [TxToken::consume]: [f] writes the first [len] bytes of the buffer; the frame
    passed to [smoltcp_glue_tx_cb]. [None] is the panic of a slice out of range. *)
Definition consume {R} (idx len : nat) (f : list Z -> R * list Z) (p : tx_pool)
    : option (R * list Z * tx_pool) :=
  if (TX_FRAME <? len)%nat then None
  else
    let buf := bufs p !!! idx in
    let (r, written) := f (take len buf) in
    let buf := written ++ drop len buf in
    Some (r, take len buf, tx_pool_free idx (TxPool (<[idx := buf]> (bufs p)) (free_mask p))).

(** The ids of an interface's sockets; a [SocketHandle] is a number. *)
Record id_table := IdTable { handles : gmap Z nat; next_id : Z }.

Definition alloc_id (h : nat) (t : id_table) : Z * id_table :=
  let id := next_id t in
  (id, IdTable (<[id := h]> (handles t)) (Z.max (u32 (id + 1)) 1)).

Definition lookup_id (id : Z) (t : id_table) : option nat := handles t !! id.

(** ** The free mask *)

(** Buffer [i] is free. *)
Definition is_free (m : Z) (i : nat) : bool := Z.testbit m (Z.of_nat i).

Lemma is_free_double m i : is_free (2 * m) (S i) = is_free m i.
Proof. unfold is_free. rewrite Nat2Z.inj_succ. apply Z.double_bits_succ. Qed.

Lemma trailing_zeros_spec m :
  0 < m -> is_free m (trailing_zeros m) = true /\
  forall i, (i < trailing_zeros m)%nat -> is_free m i = false.
Proof.
  destruct m as [|p|p]; [lia| |lia]. intros _. cbn [trailing_zeros].
  induction p as [p IH|p [IH1 IH2]|]; cbn [ctz]; [split; [done|lia]| |split; [done|lia]].
  change (Zpos p~0) with (2 * Zpos p). split; [by rewrite is_free_double|].
  intros [|i] Hi; [by rewrite <- (Z.testbit_even_0 (Zpos p))|]. rewrite is_free_double. apply IH2. lia.
Qed.

Lemma is_free_above m i n : 0 <= m < 2 ^ Z.of_nat n -> (n <= i)%nat -> is_free m i = false.
Proof.
  intros Hm Hi. unfold is_free. destruct (decide (m = 0)) as [->|]; [apply Z.bits_0|].
  apply Z.bits_above_log2; [lia|]. assert (Z.log2 m < Z.of_nat n) by (apply Z.log2_lt_pow2; lia). lia.
Qed.

Lemma is_free_set m idx i :
  is_free (Z.lor m (Z.shiftl 1 (Z.of_nat idx))) i = is_free m i || bool_decide (i = idx).
Proof.
  unfold is_free. rewrite Z.lor_spec, Z.shiftl_1_l, Z.pow2_bits_eqb by lia. f_equal.
  case_bool_decide; [apply Z.eqb_eq|apply Z.eqb_neq]; lia.
Qed.

Lemma is_free_clear m idx i :
  (idx < 32)%nat -> (i < 32)%nat ->
  is_free (Z.land m (u32 (Z.lnot (Z.shiftl 1 (Z.of_nat idx))))) i
  = is_free m i && negb (bool_decide (i = idx)).
Proof.
  intros Hidx Hi. unfold is_free. rewrite Z.land_spec. f_equal. unfold u32, wrap.
  rewrite Z.mod_pow2_bits_low, Z.lnot_spec, Z.shiftl_1_l, Z.pow2_bits_eqb by lia. f_equal.
  case_bool_decide; [apply Z.eqb_eq|apply Z.eqb_neq]; lia.
Qed.

(** ** Tokens in use *)

(** The device with the tokens smoltcp holds. *)
Record dev_state := DevState { ds_dev : esp_device; ds_pool : tx_pool; ds_tokens : list nat }.

Definition dev_start : dev_state := DevState (EspDevice None false) TX_POOL [].

(** What is done with the device: frames come in, smoltcp asks for tokens, and
    consumes or drops those it holds. *)
Inductive dev_op :=
  | OpRx (frame : list Z)
  | OpLink (up : bool)
  | OpReceive
  | OpTransmit
  | OpConsume (k len : nat) (f : list Z -> list Z)
  | OpDrop (k : nat).

(** [None] is a panic. *)
Definition dev_step (st : dev_state) (op : dev_op) : option dev_state :=
  let (d, p, ts) := st in
  match op with
  | OpRx frame => Some (DevState (push_rx frame d) p ts)
  | OpLink up => Some (DevState (EspDevice (rx_inbox d) up) p ts)
  | OpReceive =>
      let '(r, d, p) := receive d p in
      Some (DevState d p (match r with Some (_, idx) => idx :: ts | None => ts end))
  | OpTransmit =>
      let (r, p) := transmit d p in
      Some (DevState d p (match r with Some idx => idx :: ts | None => ts end))
  | OpConsume k len f =>
      match ts !! k with
      | None => Some st
      | Some idx =>
          r ← consume idx len (fun buf => (tt, f buf)) p;
          Some (DevState d r.2 (delete k ts))
      end
  | OpDrop k =>
      match ts !! k with
      | None => Some st
      | Some idx => Some (DevState d (tx_pool_free idx p) (delete k ts))
      end
  end.

Fixpoint dev_run (st : dev_state) (ops : list dev_op) : option dev_state :=
  match ops with
  | [] => Some st
  | op :: ops => st ← dev_step st op; dev_run st ops
  end.

(** The mask is the complement of the tokens held. *)
Record pool_ok (p : tx_pool) (ts : list nat) : Prop := {
  po_mask : 0 <= free_mask p < 2 ^ Z.of_nat TX_POOL_N;
  po_tokens : NoDup ts /\ Forall (fun i => (i < TX_POOL_N)%nat) ts;
  po_free i : (i < TX_POOL_N)%nat -> is_free (free_mask p) i = bool_decide (i ∉ ts);
}.

Lemma pool_ok_start : pool_ok TX_POOL [].
Proof.
  split; [by vm_compute|by split; constructor|]. unfold TX_POOL_N. intros i Hi.
  do 16 (destruct i as [|i]; [by vm_compute|]). lia.
Qed.

(** The tokens are all taken exactly when there are [TX_POOL_N] of them. *)
Lemma tokens_full ts :
  NoDup ts -> Forall (fun i => (i < TX_POOL_N)%nat) ts ->
  (length ts <= TX_POOL_N)%nat /\
  (length ts = TX_POOL_N <-> forall i, (i < TX_POOL_N)%nat -> i ∈ ts).
Proof.
  intros Hnd Hall. rewrite Forall_forall in Hall.
  assert (Hsub : ts ⊆+ seq 0 TX_POOL_N).
  { apply NoDup_submseteq; [done|]. intros i Hi. apply elem_of_seq. apply Hall in Hi. lia. }
  pose proof (submseteq_length _ _ Hsub) as Hl. rewrite length_seq in Hl. split; [done|split].
  - intros Heq i Hi. assert (Hp : ts ≡ₚ seq 0 TX_POOL_N)
      by (apply submseteq_length_Permutation; [done|rewrite length_seq; lia]).
    rewrite Hp. apply elem_of_seq. lia.
  - intros Hi. assert (Hsub' : seq 0 TX_POOL_N ⊆+ ts).
    { apply NoDup_submseteq; [apply NoDup_seq|]. intros i [_ ?]%elem_of_seq. by apply Hi. }
    pose proof (submseteq_length _ _ Hsub') as Hl'. rewrite length_seq in Hl'. lia.
Qed.

(** Allocation takes the lowest buffer no token holds, unless all are held. *)
Lemma alloc_spec p ts :
  pool_ok p ts ->
  match tx_pool_alloc p with
  | Some (idx, p') => (idx < TX_POOL_N)%nat /\ (idx ∉ ts) /\
      (forall i, (i < idx)%nat -> i ∈ ts) /\ pool_ok p' (idx :: ts) /\ bufs p' = bufs p
  | None => length ts = TX_POOL_N
  end.
Proof.
  intros [Hm [Hnd Hall] Hfree]. unfold tx_pool_alloc. case_test.
  - apply tokens_full; [done..|]. intros i Hi. specialize (Hfree i Hi).
    replace (free_mask p) with 0 in Hfree by lia. unfold is_free in Hfree. rewrite Z.bits_0 in Hfree.
    destruct (decide (i ∈ ts)); [done|]. by rewrite bool_decide_eq_true_2 in Hfree.
  - destruct (trailing_zeros_spec (free_mask p)) as [Hset Hlow]; [lia|].
    set (idx := trailing_zeros (free_mask p)) in *.
    assert (Hidx : (idx < TX_POOL_N)%nat).
    { destruct (decide (idx < TX_POOL_N)%nat); [done|].
      rewrite (is_free_above _ _ _ Hm) in Hset by lia. done. }
    assert (Hni : idx ∉ ts) by (rewrite (Hfree idx Hidx) in Hset; by apply bool_decide_eq_true in Hset).
    assert (Hin : forall i, (i < idx)%nat -> i ∈ ts).
    { intros i Hi. pose proof (Hlow i Hi) as Hf. rewrite Hfree in Hf by lia.
      apply bool_decide_eq_false in Hf. by destruct (decide (i ∈ ts)). }
    split_and!; [done..| |done]. split; cbn [free_mask].
    + split; [apply Z.land_nonneg; lia|]. destruct (decide (free_mask p = 0)); [lia|].
      set (v := Z.land _ _). destruct (decide (v = 0)) as [->|Hv]; [lia|].
      assert (0 <= v) by (apply Z.land_nonneg; lia).
      apply Z.log2_lt_pow2; [lia|]. eapply Z.le_lt_trans; [apply Z.log2_land; [lia|]|].
      { apply u32_range. }
      eapply Z.le_lt_trans; [apply Z.le_min_l|]. apply Z.log2_lt_pow2; lia.
    + split; [by constructor|by constructor].
    + unfold TX_POOL_N in *. intros i Hi. rewrite is_free_clear, Hfree by lia.
      pose proof (elem_of_cons ts i idx) as Hc. repeat case_bool_decide; try done; exfalso; tauto.
Qed.

Lemma free_spec p ts k idx :
  pool_ok p ts -> ts !! k = Some idx -> pool_ok (tx_pool_free idx p) (delete k ts).
Proof.
  intros [Hm [Hnd Hall] Hfree] Hk.
  assert (Hidx : (idx < TX_POOL_N)%nat) by by eapply Forall_lookup_1 in Hall.
  pose proof (delete_Permutation ts k idx Hk) as Hp. set (rest := delete k ts) in *. clearbody rest.
  rewrite Hp in Hnd, Hall. apply NoDup_cons in Hnd as [Hni Hnd]. apply Forall_cons in Hall as [_ Hall].
  assert (Hmem : forall i, i ∈ rest <-> i ∈ ts /\ i <> idx).
  { intros i. rewrite Hp, elem_of_cons. split; [|by intros [[->|?] ?]].
    intros Hi. split; [by right|]. by intros ->. }
  split; cbn [free_mask tx_pool_free].
  - assert (0 <= Z.lor (free_mask p) (Z.shiftl 1 (Z.of_nat idx)))
      by (apply Z.lor_nonneg; rewrite Z.shiftl_1_l; lia).
    split; [done|]. set (v := Z.lor _ _) in *. destruct (decide (v = 0)) as [->|Hv]; [lia|].
    apply Z.log2_lt_pow2; [lia|]. unfold v. rewrite Z.log2_lor by (rewrite ?Z.shiftl_1_l; lia).
    rewrite Z.shiftl_1_l, Z.log2_pow2 by lia. apply Z.max_lub_lt; [|lia].
    destruct (decide (free_mask p = 0)) as [->|]; [cbn; lia|]. apply Z.log2_lt_pow2; lia.
  - by split.
  - intros i Hi. rewrite is_free_set, Hfree by done.
    specialize (Hmem i). repeat case_bool_decide; try done; exfalso; tauto.
Qed.

(** A frame fits the buffer it is written to. *)
Definition op_ok (op : dev_op) : Prop :=
  match op with OpConsume _ len _ => (len <= TX_FRAME)%nat | _ => True end.

Lemma pool_ok_bufs p ts bs : pool_ok p ts -> pool_ok (TxPool bs (free_mask p)) ts.
Proof. by intros []. Qed.

Lemma dev_step_ok st op :
  pool_ok (ds_pool st) (ds_tokens st) -> op_ok op ->
  exists st', dev_step st op = Some st' /\ pool_ok (ds_pool st') (ds_tokens st').
Proof.
  destruct st as [d p ts]. cbn [ds_pool ds_tokens]. intros Hok Hop.
  pose proof (alloc_spec p ts Hok) as Halloc. destruct op as [frame|up| | |k len f|k]; cbn [dev_step].
  - eexists. split; [done|exact Hok].
  - eexists. split; [done|exact Hok].
  - unfold receive. destruct (rx_inbox d); [|eexists; split; [done|exact Hok]].
    destruct (tx_pool_alloc p) as [[idx p']|]; eexists; (split; [done|]); [apply Halloc|exact Hok].
  - unfold transmit. destruct (negb (dev_link_up d)); [eexists; split; [done|exact Hok]|].
    destruct (tx_pool_alloc p) as [[idx p']|]; eexists; (split; [done|]); [apply Halloc|exact Hok].
  - destruct (ts !! k) as [idx|] eqn:Hk; [|eexists; split; [done|exact Hok]].
    unfold consume. cbn in Hop. rewrite (proj2 (Nat.ltb_ge _ _) Hop). cbn.
    eexists. split; [done|]. cbn. apply free_spec; [by apply pool_ok_bufs|done].
  - destruct (ts !! k) as [idx|] eqn:Hk; [|eexists; split; [done|exact Hok]].
    eexists. split; [done|]. by apply free_spec.
Qed.

Lemma dev_run_ok st ops :
  pool_ok (ds_pool st) (ds_tokens st) -> Forall op_ok ops ->
  exists st', dev_run st ops = Some st' /\ pool_ok (ds_pool st') (ds_tokens st').
Proof.
  intros Hok Hops. revert st Hok. induction Hops as [|op ops Hop _ IH]; intros st Hok; cbn [dev_run].
  - eauto.
  - destruct (dev_step_ok st op Hok Hop) as (st' & -> & Hok'). by apply IH.
Qed.

(** ** Bursts *)

(** The calls that reach a device: a frame comes in, smoltcp is polled. *)
Inductive dev_event := DevRx (h : ptr) (frame : list Z) | DevPoll (h : ptr).

Definition ev_dev (ev : event) : option dev_event :=
  match ev with
  | existT _ (c, _) =>
      match c with
      | Core (Smoltcp_iface_rx h frame) => Some (DevRx h frame)
      | Core (Smoltcp_iface_poll h) => Some (DevPoll h)
      | _ => None
      end
  end.

(** What the inbox of a device has each time smoltcp is polled; a poll takes it. *)
Fixpoint polled_inboxes (d : esp_device) (evs : list dev_event) : list (option (list Z)) :=
  match evs with
  | [] => []
  | DevRx _ frame :: evs => polled_inboxes (push_rx frame d) evs
  | DevPoll _ :: evs => rx_inbox d :: polled_inboxes (EspDevice None (dev_link_up d)) evs
  end.

Lemma polled_inbox_full d b h frames evs :
  rx_inbox d = Some b ->
  polled_inboxes d ((DevRx h <$> frames) ++ evs) = polled_inboxes d evs.
Proof.
  intros Hd. induction frames as [|frame frames IH]; [done|]. cbn. unfold push_rx. by rewrite Hd.
Qed.

(** Calls other than a poll of the core. *)
Definition pollfree X (c : ccall X) : Prop :=
  match c with Core (Smoltcp_iface_poll _) => False | _ => True end.

(** Calls that reach no device. *)
Definition devfree X (c : ccall X) : Prop := forall r, ev_dev (existT X (c, r)) = None.

(** The frame of a hand-over to the core. *)
Definition dev_rx (ev : rx_event) : option dev_event :=
  match ev with CoreRx h frame => Some (DevRx h frame) | TapRx _ _ _ _ _ => None end.

(** Between polls the frames handed over are all that reaches a device. *)
Lemma dev_of_rx `{!Platform E} evs :
  made (E := E) pollfree evs -> omap ev_dev evs = omap dev_rx (omap ev_rx evs).
Proof.
  induction 1 as [|[X [c r]] evs [Hc _] _ IH]; [done|]. cbn [projT1 projT2 fst] in Hc.
  destruct c as [?|? c|? c]; [exact IH|destruct c; first [exact IH|cbn; exact IH]|].
  destruct c; first [done|exact IH|cbn; by f_equal].
Qed.

Lemma untapped_core `{cfg : Config} g i bufs :
  Forall (fun buf => tap_slot (NetFrame (Z.of_nat (length buf)) (-1) buf) g = None) bufs ->
  omap dev_rx (deliver g i <$> bufs) = DevRx (smoltcp_handle (iface_at i g)) <$> bufs.
Proof.
  induction 1 as [|buf bufs Hb _ IH]; [done|]. cbn in *. unfold deliver at 1. rewrite Hb. cbn.
  by f_equal.
Qed.

Section drained.
Context `{cfg : Config} {E : Type} `{!Platform E, !QueueLaws E, !History E}.
Implicit Types (g : globals) (e : E).

Lemma only_drain_pollfree fuel i : only pollfree (drain_rx fuel i).
Proof.
  induction fuel; cbn [drain_rx]; unfold handle_rx, dispatch_tap, net_frame_free; only_auto.
Qed.

Lemma only_burst_pollfree bufs p : only pollfree (input_burst bufs p).
Proof.
  unfold input_burst, eth_input_cb, net_frame_alloc, net_stack_post_rx, net_frame_free, bump_alloc_fail.
  only_auto.
Qed.

(** Code that neither reaches a device nor blocks ends. *)
Lemma devfree_wp {A} (p : cprog A) g e :
  only devfree p -> rx_keeps p -> wp ext p g e (fun _ _ e' => picked ev_dev e' = picked ev_dev e).
Proof.
  intros Hd Hk. eapply wp_mono; [exact (wp_no_events ev_dev p g e _ Hd (Hk g e))|].
  by intros a g' e' [_ ?].
Qed.

(** One run of the core is one poll. *)
Lemma wp_poll_core i g e :
  wp ext (ip_up_now ← run_core i;
          p ← gets (fun g => s_progress_evt (net g));
          rtos (XEventGroupSetBits p PROGRESS_BIT);;
          surface_ip i ip_up_now) g e (fun _ g' e' =>
    picked ev_dev e' = picked ev_dev e ++ [DevPoll (smoltcp_handle (iface_at i g))]).
Proof.
  rewrite wp_bind. unfold run_core, SMOLTCP_LOCK. rewrite wp_rtos, wp_gets, wp_core.
  set (e2 := (ext _ (Core (Smoltcp_iface_poll _)) _).2).
  assert (Hp2 : picked ev_dev e2 = picked ev_dev e ++ [DevPoll (smoltcp_handle (iface_at i g))]).
  { unfold e2. rewrite !picked_step. cbn. by rewrite app_nil_r. }
  rewrite <- Hp2. clear Hp2. clearbody e2.
  assert (Htx : forall i frame, only devfree (smoltcp_glue_tx_cb i frame))
    by (intros; unfold smoltcp_glue_tx_cb, call_tx, eth_tx; only_auto).
  eapply wp_mono; [apply devfree_wp; [only_auto|rx_keeps_auto]|].
  cbn beta. intros ip_up g3 e3 <-. apply devfree_wp; [|rx_keeps_auto].
  unfold surface_ip, emit_event. only_auto.
Qed.
End drained.

(** ** Properties *)

(** C27. The transmit pool never leaks a buffer and never hands one out twice.
    Whatever sequence of frames coming in, link changes, token requests, sends
    of frames that fit and drops of unused tokens the device goes through, it
    does not panic; the tokens held are distinct buffers of the pool; the next
    request gets the lowest buffer that no token holds; and it is refused only
    when all [TX_POOL_N] buffers are held by tokens. *)
Theorem tx_pool_conserved ops :
  Forall op_ok ops ->
  exists st, dev_run dev_start ops = Some st /\
    NoDup (ds_tokens st) /\ Forall (fun i => (i < TX_POOL_N)%nat) (ds_tokens st) /\
    match tx_pool_alloc (ds_pool st) with
    | Some (idx, _) => (idx < TX_POOL_N)%nat /\ (idx ∉ ds_tokens st) /\
        forall i, (i < idx)%nat -> i ∈ ds_tokens st
    | None => length (ds_tokens st) = TX_POOL_N
    end.
Proof.
  intros Hops. destruct (dev_run_ok dev_start ops pool_ok_start Hops) as (st & Hrun & Hok).
  exists st. split; [done|]. destruct (po_tokens _ _ Hok) as [Hnd Hall]. split_and!; [done..|].
  pose proof (alloc_spec _ _ Hok) as Ha. destruct (tx_pool_alloc (ds_pool st)) as [[idx p']|]; [|done].
  destruct Ha as (? & ? & ? & _). by split_and!.
Qed.

Section burst.
Context `{cfg : Config} {E : Type} `{!Platform E, !QueueLaws E, !History E}.
Implicit Types (g : globals) (e : E).

(** C36. Of a burst only the first frame reaches smoltcp. When a burst of frames
    without a tap comes in and the interface is polled, what reaches the device is
    all the frames, in order, and after the last of them one poll of smoltcp, with
    no poll in between. The inbox of the device holds one frame: from an empty
    inbox, what smoltcp finds at that poll is the first frame of the burst, and
    the others are gone. *)
Theorem burst_keeps_first g e free qs b rest p up :
  rx_ok g e [] free qs -> qs !! NET_IFACE_ETH = Some [] ->
  enabled (iface_at NET_IFACE_ETH g) = true ->
  Forall (fun buf => Z.of_nat (length buf) <= NET_FRAME_BUF) (b :: rest) ->
  (S (length rest) <= RX_QUEUE_DEPTH)%nat -> (S (length rest) <= length free)%nat ->
  Forall (fun buf => tap_slot (NetFrame (Z.of_nat (length buf)) (-1) buf) g = None) (b :: rest) ->
  let h := smoltcp_handle (iface_at NET_IFACE_ETH g) in
  exists g' e' new,
    run ext (input_burst (b :: rest) p;; poll_iface (S RX_QUEUE_DEPTH) NET_IFACE_ETH) g e
      = Some (tt, g', e') /\
    picked ev_dev e' = picked ev_dev e ++ new /\
    new = (DevRx h <$> b :: rest) ++ [DevPoll h] /\
    polled_inboxes (EspDevice None up) new = [Some b].
Proof.
  intros Hok Hq Hen Hlen Hr Hf Htap h.
  enough (Hwp : wp ext (input_burst (b :: rest) p;; poll_iface (S RX_QUEUE_DEPTH) NET_IFACE_ETH) g e
    (fun _ _ e' => picked ev_dev e' = picked ev_dev e ++ (DevRx h <$> b :: rest) ++ [DevPoll h])).
  { apply wp_run in Hwp as ([] & g' & e' & Hrun & Hp). eexists g', e', _. split_and!; [done..|].
    cbn. by rewrite polled_inbox_full with (b := b). }
  unfold poll_iface. rewrite wp_bind.
  eapply wp_mono; [apply (wp_trace pollfree); [apply only_burst_pollfree|]|].
  { apply (wp_no_events ev_rx); [apply only_burst|by apply wp_burst]. }
  cbn beta. intros [] g1 e1 [[(free1 & fs & Hok1 & Hsame & Hholds & <-) Hp1] (evs1 & Hh1 & Hm1)].
  assert (Hlt : (NET_IFACE_ETH < length qs)%nat) by by eapply lookup_lt_Some.
  rewrite wp_bind. pose proof (Forall2_length _ _ _ Hholds) as Hlf. cbn [length] in Hlf.
  eapply wp_mono; [apply (wp_trace pollfree); [apply only_drain_pollfree|]|].
  { eapply wp_drain; [done|by apply list_lookup_insert_eq|lia]. }
  cbn beta. intros [] g2 e2 [(-> & _ & Hp2) (evs2 & Hh2 & Hm2)].
  assert (Hroute : route g1 NET_IFACE_ETH <$> fs = deliver g NET_IFACE_ETH <$> b :: rest).
  { apply list_eq_Forall2, Forall2_fmap, (Forall2_impl _ _ _ _ Hholds).
    intros f buf Hfb. cbn. rewrite (route_deliver _ _ _ _ Hfb). by apply deliver_same. }
  assert (Hd : picked ev_dev e2 = picked ev_dev e ++ (DevRx h <$> b :: rest)).
  { rewrite (picked_hist ev_dev e1 e2 _ Hh2), (picked_hist ev_dev e e1 _ Hh1).
    rewrite (dev_of_rx (E := E) _ Hm1), (dev_of_rx (E := E) _ Hm2).
    rewrite (omap_of_picked ev_rx e e1 evs1 [] Hh1) by (by rewrite app_nil_r).
    rewrite (omap_of_picked ev_rx e1 e2 evs2 _ Hh2 Hp2), Hroute, untapped_core by done.
    cbn [omap list_omap]. by rewrite app_nil_r. }
  wp_use wp_poll_core. intros [] g3 e3 Hp3. rewrite Hp3, Hd, <- app_assoc.
  destruct Hsame as (_ & _ & Hhandle & _). by rewrite Hhandle.
Qed.
End burst.

(** The [k]-th id an interface allocates. *)
Fixpoint nth_id (k : nat) (t : id_table) (h : nat) : Z :=
  match k with
  | O => (alloc_id h t).1
  | S k => nth_id k (alloc_id h t).2 h
  end.

Lemma nth_id_eq k t h :
  1 <= next_id t -> next_id t + Z.of_nat k < 4294967296 -> nth_id k t h = next_id t + Z.of_nat k.
Proof.
  revert t. induction k as [|k IH]; intros t Ht Hk; cbn [nth_id]; [cbn; lia|].
  assert (Hn : next_id (alloc_id h t).2 = next_id t + 1) by (cbn; rewrite u32_small; lia).
  rewrite IH; rewrite Hn; lia.
Qed.

(** C39. Socket ids are reused while in use. An interface's 32-bit ids are counted
    up from 1 and not zero for 2^32 - 1 opens, but a [net_sock_t] keeps 24 bits:
    the sockets opened [k]-th and [k + 2^24]-th on one interface get the same
    [net_sock_t] although their ids, and so their table entries, differ. *)
Theorem socket_ids_alias i k h :
  (i < NET_IFACE_MAX)%nat -> Z.of_nat k < 4278190079 ->
  let id := nth_id k (IdTable ∅ 1) h in
  let id' := nth_id (k + Z.to_nat 16777216) (IdTable ∅ 1) h in
  id <> 0 /\ id <> id' /\ pack_sock i id = pack_sock i id'.
Proof.
  intros Hi Hk id id'. unfold NET_IFACE_MAX in Hi.
  assert (Hid : id = 1 + Z.of_nat k) by (apply nth_id_eq; cbn; lia).
  assert (Hid' : id' = 1 + Z.of_nat k + 16777216).
  { assert (Z.of_nat (k + Z.to_nat 16777216) = Z.of_nat k + 16777216)
      by (rewrite Nat2Z.inj_add, Z2Nat.id; lia).
    unfold id'. rewrite nth_id_eq; cbn [next_id]; lia. }
  clearbody id id'. split_and!; [lia..|]. rewrite !pack_sock_add by lia. f_equal.
  rewrite Hid, Hid', <- (Z.mod_add (1 + Z.of_nat k) 1) by lia. f_equal.
Qed.

(** ** Witnesses *)

#[local] Existing Instance tiny.

Lemma tx_pool_conserved_witness :
  exists st, dev_run dev_start
    [OpLink true; OpTransmit; OpTransmit; OpDrop 0; OpRx [1; 2]; OpReceive; OpConsume 0 60 (fun b => b)]
    = Some st.
Proof.
  destruct (tx_pool_conserved
    [OpLink true; OpTransmit; OpTransmit; OpDrop 0; OpRx [1; 2]; OpReceive; OpConsume 0 60 (fun b => b)])
    as (st & Hrun & _).
  - repeat constructor.
  - exists st. exact Hrun.
Defined.

Lemma burst_keeps_first_witness :
  exists g' (e' : sim default_oracle) new,
    run ext (input_burst [[1; 2; 3]; [4; 5]] 0;; poll_iface 3 NET_IFACE_ETH) up_globals up_env
      = Some (tt, g', e') /\
    picked ev_dev e' = [] ++ new /\ polled_inboxes (EspDevice None true) new = [Some [1; 2; 3]].
Proof.
  destruct (burst_keeps_first (E := sim default_oracle) up_globals up_env [0; 1; 2] [[]; []]
    [1; 2; 3] [[4; 5]] 0 true) as (g' & e' & new & Hrun & Hp & _ & Hd).
  - apply up_rx_ok.
  - reflexivity.
  - reflexivity.
  - repeat constructor; done.
  - cbn. lia.
  - cbn. lia.
  - repeat constructor.
  - exists g', e', new. split; [exact Hrun|]. split; [exact Hp|exact Hd].
Defined.

Lemma socket_ids_alias_witness :
  pack_sock 0 (nth_id 0 (IdTable ∅ 1) 7)
  = pack_sock 0 (nth_id (0 + Z.to_nat 16777216) (IdTable ∅ 1) 7).
Proof.
  apply (socket_ids_alias 0 0 7); [unfold NET_IFACE_MAX; lia|lia].
Defined.
