(* ===== verification/Core.v ===== *)
(** * The core's interfaces and sockets

    [IfaceCtx] of [components/esp_smoltcp_glue/src/lib.rs] and the functions of
    its C surface: the table of socket ids over smoltcp's socket set, and the
    addresses an interface has and reports. The smoltcp crate is a parameter: the
    class [Smoltcp] has the types and functions the code uses, [SmoltcpLaws] the
    documented behaviour of its containers. The functions are given as the
    answers to [core_call], the type of calls the C code is modelled with. *)

From S2P Require Import Prelude Prog Ipv4 Types Platform Device.

(** ** The smoltcp crate *)

(** [IpCidr]: the octets and the prefix length. *)
Inductive cidr := CidrV4 (octets : list Z) (prefix : Z) | CidrV6 (octets : list Z) (prefix : Z).

Definition is_v4 (c : cidr) : bool := match c with CidrV4 _ _ => true | CidrV6 _ _ => false end.

(** [dhcpv4::Event]: an address with its prefix and the router, if any. *)
Inductive dhcp_event :=
  | Configured (address : list Z) (prefix : Z) (router : option (list Z))
  | Deconfigured.

(** The three socket types. *)
Class SocketTypes := {
  TcpSocket : Type;
  UdpSocket : Type;
  DhcpSocket : Type;
}.

Inductive any_socket `{SocketTypes} :=
  | AnyTcp (s : TcpSocket)
  | AnyUdp (s : UdpSocket)
  | AnyDhcp (s : DhcpSocket).

(** The types and functions used. A [bool] result is [is_ok()]; a function on
    [&mut self] gives the new value; a [SocketHandle] is a number; where the
    documentation says that a function panics, the result is [None]. *)
Class Smoltcp `{SocketTypes} := {
  SocketSet : Type;
  Interface : Type;
  (* SocketSet; [get_mut] panics without a socket *)
  set_new : SocketSet;
  set_add : any_socket -> SocketSet -> nat * SocketSet;
  set_get : nat -> SocketSet -> option any_socket;
  set_put : nat -> any_socket -> SocketSet -> SocketSet;
  set_remove : nat -> SocketSet -> SocketSet;
  (* tcp::Socket *)
  tcp_new : nat -> nat -> TcpSocket;
  tcp_connect : Interface -> list Z -> Z -> Z -> TcpSocket -> bool * TcpSocket * Interface;
  tcp_listen : Z -> TcpSocket -> bool * TcpSocket;
  tcp_send_slice : list Z -> TcpSocket -> option Z * TcpSocket;
  tcp_recv_slice : Z -> TcpSocket -> option (list Z) * TcpSocket;
  tcp_is_active : TcpSocket -> bool;
  tcp_may_recv : TcpSocket -> bool;
  tcp_may_send : TcpSocket -> bool;
  tcp_can_send : TcpSocket -> bool;
  tcp_recv_queue : TcpSocket -> Z;
  tcp_send_capacity : TcpSocket -> Z;
  tcp_send_queue : TcpSocket -> Z;
  tcp_close : TcpSocket -> TcpSocket;
  (* udp::Socket; the source of a datagram is an IPv4 address or something else *)
  udp_new : nat -> nat -> nat -> UdpSocket;
  udp_bind : Z -> UdpSocket -> bool * UdpSocket;
  udp_send_slice : list Z -> list Z -> Z -> UdpSocket -> bool * UdpSocket;
  udp_recv_slice : Z -> UdpSocket -> option (list Z * option (list Z) * Z) * UdpSocket;
  udp_close : UdpSocket -> UdpSocket;
  (* dhcpv4::Socket *)
  dhcp_new : DhcpSocket;
  dhcp_poll : DhcpSocket -> option dhcp_event * DhcpSocket;
  (* Interface; the last result of [iface_poll] is the frames transmitted *)
  iface_new : list Z -> Z -> esp_device -> Interface * esp_device;
  iface_poll : Z -> Interface -> esp_device -> SocketSet ->
    Interface * esp_device * SocketSet * list (list Z);
  poll_delay : Z -> Interface -> SocketSet -> option Z;
  ip_addrs : Interface -> list cidr;
  ipv4_addr : Interface -> option (list Z);
  (* [Ipv4Cidr::new] panics for a prefix over 32, [update_ip_addrs] for an address
     that is neither unicast nor unspecified *)
  ipv4_cidr_new : list Z -> Z -> option cidr;
  addr_unicast : cidr -> bool;
  update_ip_addrs : (list cidr -> list cidr) -> Interface -> option Interface;
  (* [let _ = addrs.push(c)], on a vector of bounded capacity *)
  push_addr : cidr -> list cidr -> list cidr;
  add_default_ipv4_route : list Z -> Interface -> Interface;
  remove_default_ipv4_route : Interface -> Interface;
  join_multicast_group : list Z -> Interface -> bool * Interface;
  leave_multicast_group : list Z -> Interface -> bool * Interface;
}.

(** ** [IfaceCtx] *)

Definition TCP_RX : nat := Z.to_nat 16384.

Definition TCP_TX : nat := Z.to_nat 49152.

Definition UDP_RX : nat := Z.to_nat 4096.

Definition UDP_TX : nat := Z.to_nat 4096.

Definition UDP_META : nat := 16.

(** [ids] holds [handles] and [next_id]. *)
Record iface_ctx `{Smoltcp} := IfaceCtx {
  iface_id : nat;
  dev : esp_device;
  iface : Interface;
  sockets : SocketSet;
  dhcp : option nat;
  has_ip : bool;
  netmask_be : Z;
  gateway_be : Z;
  ids : id_table;
}.

Section setters.
Context `{Smoltcp}.
Implicit Types (c : iface_ctx).

Definition set_dev (v : esp_device) c : iface_ctx :=
  IfaceCtx _ _ (iface_id c) v (iface c) (sockets c) (dhcp c) (has_ip c) (netmask_be c)
    (gateway_be c) (ids c).

Definition set_iface (v : Interface) c : iface_ctx :=
  IfaceCtx _ _ (iface_id c) (dev c) v (sockets c) (dhcp c) (has_ip c) (netmask_be c)
    (gateway_be c) (ids c).

Definition set_sockets (v : SocketSet) c : iface_ctx :=
  IfaceCtx _ _ (iface_id c) (dev c) (iface c) v (dhcp c) (has_ip c) (netmask_be c)
    (gateway_be c) (ids c).

Definition set_dhcp (v : option nat) c : iface_ctx :=
  IfaceCtx _ _ (iface_id c) (dev c) (iface c) (sockets c) v (has_ip c) (netmask_be c)
    (gateway_be c) (ids c).

Definition set_has_ip (v : bool) c : iface_ctx :=
  IfaceCtx _ _ (iface_id c) (dev c) (iface c) (sockets c) (dhcp c) v (netmask_be c)
    (gateway_be c) (ids c).

Definition set_netmask_be (v : Z) c : iface_ctx :=
  IfaceCtx _ _ (iface_id c) (dev c) (iface c) (sockets c) (dhcp c) (has_ip c) v
    (gateway_be c) (ids c).

Definition set_gateway_be (v : Z) c : iface_ctx :=
  IfaceCtx _ _ (iface_id c) (dev c) (iface c) (sockets c) (dhcp c) (has_ip c) (netmask_be c)
    v (ids c).

Definition set_ids (v : id_table) c : iface_ctx :=
  IfaceCtx _ _ (iface_id c) (dev c) (iface c) (sockets c) (dhcp c) (has_ip c) (netmask_be c)
    (gateway_be c) v.
End setters.

(** ** Its operations *)

Section operations.
Context `{Smoltcp}.
Implicit Types (c : iface_ctx).

(** The IPv6 link-local address made from the MAC: modified EUI-64. *)
Definition link_local (mac : list Z) : list Z :=
  [254; 128; 0; 0; 0; 0; 0; 0;
   Z.lxor (mac !!! 0%nat) 2; mac !!! 1%nat; mac !!! 2%nat; 255; 254;
   mac !!! 3%nat; mac !!! 4%nat; mac !!! 5%nat].

Definition iface_ctx_new (id : nat) (mac : list Z) (now : Z) : option iface_ctx :=
  let dev := EspDevice None false in
  let (iface, dev) := iface_new mac now dev in
  iface ← update_ip_addrs (push_addr (CidrV6 (link_local mac) 64)) iface;
  Some (IfaceCtx _ _ id dev iface set_new None false 0 0 (IdTable ∅ 1)).

(** [addrs.retain(|a| !matches!(a, IpCidr::Ipv4(_)))] *)
Definition drop_v4 (addrs : list cidr) : list cidr := List.filter (fun a => negb (is_v4 a)) addrs.

(** What is done with an event of the DHCP socket. *)
Definition dhcp_apply (ev : option dhcp_event) c : option iface_ctx :=
  match ev with
  | None => Some c
  | Some (Configured address prefix router) =>
      let c := set_netmask_be (to_be32 (cidr_to_mask prefix)) c in
      i ← update_ip_addrs (fun a => push_addr (CidrV4 address prefix) (drop_v4 a)) (iface c);
      let c := set_iface i c in
      let c := match router with
               | Some gw => set_gateway_be (ipv4_to_be gw)
                              (set_iface (add_default_ipv4_route gw (iface c)) c)
               | None => set_gateway_be 0 c
               end in
      Some (set_has_ip true c)
  | Some Deconfigured =>
      i ← update_ip_addrs drop_v4 (iface c);
      let c := set_iface (remove_default_ipv4_route i) c in
      Some (set_has_ip false (set_gateway_be 0 (set_netmask_be 0 c)))
  end.

(** [IfaceCtx::poll]; the frames the core transmits are answered too. *)
Definition ctx_poll (now : Z) c : option (list (nat * list Z) * iface_ctx) :=
  let '(iface', dev', sockets', frames) := iface_poll now (iface c) (dev c) (sockets c) in
  let c := set_sockets sockets' (set_dev dev' (set_iface iface' c)) in
  let out := (fun f => (iface_id c, f)) <$> frames in
  match dhcp c with
  | Some dh =>
      match set_get dh (sockets c) with
      | Some (AnyDhcp s) =>
          let (ev, s) := dhcp_poll s in
          c ← dhcp_apply ev (set_sockets (set_put dh (AnyDhcp s) (sockets c)) c);
          Some (out, c)
      | _ => None
      end
  | None => Some (out, set_has_ip (bool_decide (is_Some (ipv4_addr (iface c)))) c)
  end.

Definition ctx_set_static (ipv4_be prefix gw_be : Z) c : option iface_ctx :=
  let c := set_dhcp None c in
  let addr := ipv4_from_be ipv4_be in
  cidr ← ipv4_cidr_new addr (u8 prefix);
  i ← update_ip_addrs (fun a => push_addr cidr (drop_v4 a)) (iface c);
  let c := set_iface i c in
  let c := set_netmask_be (to_be32 (cidr_to_mask (u8 prefix))) c in
  let c := if gw_be =? 0 then c
           else set_gateway_be gw_be
                  (set_iface (add_default_ipv4_route (ipv4_from_be gw_be) (iface c)) c) in
  Some (set_has_ip true c).

Definition ctx_enable_dhcp c : iface_ctx :=
  match dhcp c with
  | Some _ => c
  | None =>
      let (dh, ss) := set_add (AnyDhcp dhcp_new) (sockets c) in
      set_dhcp (Some dh) (set_sockets ss c)
  end.

Definition ctx_get_ipv4 c : Z :=
  match ipv4_addr (iface c) with
  | Some a => ipv4_to_be a
  | None => 0
  end.

(** The first IPv6 address. *)
Definition ctx_get_ipv6 c : option (list Z) :=
  match List.find (fun a => negb (is_v4 a)) (ip_addrs (iface c)) with
  | Some (CidrV6 octets _) => Some octets
  | _ => None
  end.

(** Adding a socket and giving it an id. *)
Definition open_socket (s : any_socket) c : Z * iface_ctx :=
  let (sh, ss) := set_add s (sockets c) in
  let (id, t) := alloc_id sh (ids c) in
  (id, set_ids t (set_sockets ss c)).

(** [let Some(sh) = ctx.lookup(id) else { return none };
     let s = ctx.sockets.get_mut::<tcp::Socket>(sh); f(s)]: [None] is the panic
    of [get_mut] on another type of socket. *)
Definition with_tcp {R} (none : R) (id : Z) (f : TcpSocket -> R * TcpSocket) c
    : option (R * iface_ctx) :=
  match lookup_id id (ids c) with
  | None => Some (none, c)
  | Some sh =>
      match set_get sh (sockets c) with
      | Some (AnyTcp s) =>
          let (r, s) := f s in Some (r, set_sockets (set_put sh (AnyTcp s) (sockets c)) c)
      | _ => None
      end
  end.

Definition with_udp {R} (none : R) (id : Z) (f : UdpSocket -> R * UdpSocket) c
    : option (R * iface_ctx) :=
  match lookup_id id (ids c) with
  | None => Some (none, c)
  | Some sh =>
      match set_get sh (sockets c) with
      | Some (AnyUdp s) =>
          let (r, s) := f s in Some (r, set_sockets (set_put sh (AnyUdp s) (sockets c)) c)
      | _ => None
      end
  end.

(** [ctx.sockets.remove(sh); ctx.handles.remove(&id)] *)
Definition remove_socket (id : Z) c : iface_ctx :=
  match lookup_id id (ids c) with
  | None => c
  | Some sh => set_ids (IdTable (delete id (handles (ids c))) (next_id (ids c)))
                 (set_sockets (set_remove sh (sockets c)) c)
  end.

Definition ok_code (ok : bool) : Z := if ok then 0 else -1.

(** The connect call also changes the interface's context. *)
Definition ctx_tcp_connect (rand id dst_be dst_port local_port : Z) c : option (Z * iface_ctx) :=
  match lookup_id id (ids c) with
  | None => Some (-1, c)
  | Some sh =>
      let dst := ipv4_from_be dst_be in
      let local := if local_port =? 0 then u16 (49152 + u16 (Z.land rand 16383)) else local_port in
      match set_get sh (sockets c) with
      | Some (AnyTcp s) =>
          let '(ok, s, i) := tcp_connect (iface c) dst dst_port local s in
          Some (ok_code ok, set_iface i (set_sockets (set_put sh (AnyTcp s) (sockets c)) c))
      | _ => None
      end
  end.

Definition udp_rx_of (r : option (list Z * option (list Z) * Z)) : udp_rx :=
  match r with
  | Some (bs, src, p) =>
      UdpRx (i32 (Z.of_nat (length bs))) bs (ipv4_to_be <$> src) (Some p)
  | None => UdpRx (-1) [] None None
  end.
End operations.

(** ** The C surface *)

Section surface.
Context `{Smoltcp}.

(** What the C side answers while the call runs, and the DNS resolver:
    [Resolver.smoltcp_resolve], which [CoreResolve.resolve_on] runs on an
    interface. *)
Context (now rand : Z) (resolve : string -> Z -> Z -> iface_ctx -> option ((Z * Z) * iface_ctx)).

(** The interfaces that [Box::into_raw] has given out. *)
Abbreviation core_world := (gmap ptr iface_ctx).

Definition new_box (w : core_world) : ptr := fresh ({[NULL]} ∪ dom w).

(** [if h.is_null() { return none }; let ctx = &mut *h; f(ctx)]: a pointer that
    was not given out has no meaning ([None]). *)
Definition on_ctx {R} (h : ptr) (none : R) (f : iface_ctx -> option (R * iface_ctx)) (w : core_world)
    : option (R * core_world) :=
  if is_null h then Some (none, w)
  else
    c ← w !! h;
    '(r, c) ← f c;
    Some (r, <[h := c]> w).

(** The functions take buffers, never null, as lists. *)
Definition smoltcp_iface_new (id : nat) (mac : list Z) (w : core_world)
    : option (ptr * core_world) :=
  c ← iface_ctx_new id mac now;
  let h := new_box w in Some (h, <[h := c]> w).

Definition smoltcp_iface_destroy (h : ptr) (w : core_world) : option (() * core_world) :=
  Some (tt, if is_null h then w else delete h w).

Definition smoltcp_iface_rx (h : ptr) (frame : list Z) (w : core_world)
    : option (() * core_world) :=
  on_ctx h tt (fun c => Some (tt, set_dev (push_rx frame (dev c)) c)) w.

Definition smoltcp_iface_poll (h : ptr) (w : core_world)
    : option ((list (nat * list Z)) * core_world) :=
  on_ctx h [] (ctx_poll now) w.

Definition smoltcp_iface_poll_delay_us (h : ptr) (w : core_world) : option (Z * core_world) :=
  on_ctx h (-1) (fun c =>
    Some (match poll_delay now (iface c) (sockets c) with Some d => i64 d | None => -1 end, c)) w.

Definition smoltcp_iface_set_link_up (h : ptr) (up : bool) (w : core_world)
    : option (() * core_world) :=
  on_ctx h tt (fun c => Some (tt, set_dev (EspDevice (rx_inbox (dev c)) up) c)) w.

Definition smoltcp_iface_has_ip (h : ptr) (w : core_world) : option (bool * core_world) :=
  on_ctx h false (fun c => Some (has_ip c, c)) w.

Definition smoltcp_iface_get_ipv4 (h : ptr) (w : core_world) : option (Z * core_world) :=
  on_ctx h 0 (fun c => Some (ctx_get_ipv4 c, c)) w.

Definition smoltcp_iface_get_gw (h : ptr) (w : core_world) : option (Z * core_world) :=
  on_ctx h 0 (fun c => Some (gateway_be c, c)) w.

Definition smoltcp_iface_get_netmask (h : ptr) (w : core_world) : option (Z * core_world) :=
  on_ctx h 0 (fun c => Some (netmask_be c, c)) w.

Definition smoltcp_iface_get_ipv6 (h : ptr) (w : core_world)
    : option ((option (list Z)) * core_world) :=
  on_ctx h None (fun c => Some (ctx_get_ipv6 c, c)) w.

Definition smoltcp_iface_socket_count (h : ptr) (w : core_world) : option (Z * core_world) :=
  on_ctx h 0 (fun c => Some (u32 (Z.of_nat (size (handles (ids c)))), c)) w.

Definition smoltcp_iface_set_static (h : ptr) (ip prefix gw : Z) (w : core_world)
    : option (() * core_world) :=
  on_ctx h tt (fun c => c ← ctx_set_static ip prefix gw c; Some (tt, c)) w.

Definition smoltcp_iface_enable_dhcp (h : ptr) (w : core_world) : option (() * core_world) :=
  on_ctx h tt (fun c => Some (tt, ctx_enable_dhcp c)) w.

Definition smoltcp_iface_mcast_join (h : ptr) (group : Z) (w : core_world)
    : option (Z * core_world) :=
  on_ctx h (-1) (fun c =>
    let (ok, i) := join_multicast_group (ipv4_from_be group) (iface c) in
    Some (ok_code ok, set_iface i c)) w.

Definition smoltcp_iface_mcast_leave (h : ptr) (group : Z) (w : core_world)
    : option (Z * core_world) :=
  on_ctx h (-1) (fun c =>
    let (ok, i) := leave_multicast_group (ipv4_from_be group) (iface c) in
    Some (ok_code ok, set_iface i c)) w.

Definition smoltcp_tcp_open (h : ptr) (w : core_world) : option (Z * core_world) :=
  on_ctx h 0 (fun c => Some (open_socket (AnyTcp (tcp_new TCP_RX TCP_TX)) c)) w.

Definition smoltcp_tcp_connect (h : ptr) (id dst : Z) (port local : Z) (w : core_world)
    : option (Z * core_world) :=
  on_ctx h (-1) (ctx_tcp_connect rand id dst port local) w.

Definition smoltcp_tcp_listen (h : ptr) (id port : Z) (w : core_world) : option (Z * core_world) :=
  on_ctx h (-1) (with_tcp (-1) id (fun s => let (ok, s) := tcp_listen port s in (ok_code ok, s))) w.

Definition smoltcp_tcp_send (h : ptr) (id : Z) (buf : list Z) (w : core_world)
    : option (Z * core_world) :=
  on_ctx h (-1) (with_tcp (-1) id (fun s =>
    let (n, s) := tcp_send_slice buf s in (default (-1) (i32 <$> n), s))) w.

Definition smoltcp_tcp_recv (h : ptr) (id cap : Z) (w : core_world)
    : option ((Z * list Z) * core_world) :=
  on_ctx h (-1, []) (with_tcp (-1, []) id (fun s =>
    let (r, s) := tcp_recv_slice cap s in
    (match r with Some bs => (i32 (Z.of_nat (length bs)), bs) | None => (-1, []) end, s))) w.

Definition smoltcp_tcp_is_active (h : ptr) (id : Z) (w : core_world) : option (bool * core_world) :=
  on_ctx h false (with_tcp false id (fun s => (tcp_is_active s, s))) w.

Definition smoltcp_tcp_is_connected (h : ptr) (id : Z) (w : core_world)
    : option (bool * core_world) :=
  on_ctx h false (with_tcp false id (fun s => (tcp_may_recv s || tcp_may_send s, s))) w.

Definition smoltcp_tcp_recv_queue (h : ptr) (id : Z) (w : core_world) : option (Z * core_world) :=
  on_ctx h 0 (with_tcp 0 id (fun s => (tcp_recv_queue s, s))) w.

Definition smoltcp_tcp_send_capacity (h : ptr) (id : Z) (w : core_world)
    : option (Z * core_world) :=
  on_ctx h 0 (with_tcp 0 id (fun s =>
    (if tcp_can_send s then Z.max 0 (tcp_send_capacity s - tcp_send_queue s) else 0, s))) w.

Definition smoltcp_tcp_close (h : ptr) (id : Z) (w : core_world) : option (() * core_world) :=
  on_ctx h tt (fun c =>
    '(_, c) ← with_tcp tt id (fun s => (tt, tcp_close s)) c; Some (tt, remove_socket id c)) w.

Definition smoltcp_udp_open (h : ptr) (port : Z) (w : core_world) : option (Z * core_world) :=
  on_ctx h 0 (fun c =>
    let s := udp_new UDP_META UDP_RX UDP_TX in
    if port =? 0 then Some (open_socket (AnyUdp s) c)
    else
      let (ok, s) := udp_bind port s in
      if ok then Some (open_socket (AnyUdp s) c) else Some (0, c)) w.

Definition smoltcp_udp_sendto (h : ptr) (id : Z) (buf : list Z) (dst port : Z) (w : core_world)
    : option (Z * core_world) :=
  on_ctx h (-1) (with_udp (-1) id (fun s =>
    let (ok, s) := udp_send_slice buf (ipv4_from_be dst) port s in
    (if ok then i32 (Z.of_nat (length buf)) else -1, s))) w.

Definition smoltcp_udp_recvfrom (h : ptr) (id cap : Z) (w : core_world)
    : option (udp_rx * core_world) :=
  on_ctx h (UdpRx (-1) [] None None) (with_udp (UdpRx (-1) [] None None) id (fun s =>
    let (r, s) := udp_recv_slice cap s in (udp_rx_of r, s))) w.

Definition smoltcp_udp_close (h : ptr) (id : Z) (w : core_world) : option (() * core_world) :=
  on_ctx h tt (fun c =>
    '(_, c) ← with_udp tt id (fun s => (tt, udp_close s)) c; Some (tt, remove_socket id c)) w.

Definition core_resolve (h : ptr) (name : string) (server ms : Z) (w : core_world)
    : option ((Z * Z) * core_world) :=
  on_ctx h (-1, 0) (resolve name server ms) w.

(** The calls of the C code. *)
Definition core_answer {X} (call : core_call X) (w : core_world) : option (X * core_world) :=
  match call in core_call X return option (X * core_world) with
  | Smoltcp_core_init => Some (tt, w)
  | Smoltcp_iface_new id mac => smoltcp_iface_new id mac w
  | Smoltcp_iface_destroy h => smoltcp_iface_destroy h w
  | Smoltcp_iface_rx h frame => smoltcp_iface_rx h frame w
  | Smoltcp_iface_poll h => smoltcp_iface_poll h w
  | Smoltcp_iface_poll_delay_us h => smoltcp_iface_poll_delay_us h w
  | Smoltcp_iface_set_link_up h up => smoltcp_iface_set_link_up h up w
  | Smoltcp_iface_has_ip h => smoltcp_iface_has_ip h w
  | Smoltcp_iface_get_ipv4 h => smoltcp_iface_get_ipv4 h w
  | Smoltcp_iface_get_gw h => smoltcp_iface_get_gw h w
  | Smoltcp_iface_get_netmask h => smoltcp_iface_get_netmask h w
  | Smoltcp_iface_get_ipv6 h => smoltcp_iface_get_ipv6 h w
  | Smoltcp_iface_socket_count h => smoltcp_iface_socket_count h w
  | Smoltcp_iface_set_static h ip prefix gw => smoltcp_iface_set_static h ip prefix gw w
  | Smoltcp_iface_enable_dhcp h => smoltcp_iface_enable_dhcp h w
  | Smoltcp_iface_mcast_join h group => smoltcp_iface_mcast_join h group w
  | Smoltcp_iface_mcast_leave h group => smoltcp_iface_mcast_leave h group w
  | Smoltcp_tcp_open h => smoltcp_tcp_open h w
  | Smoltcp_tcp_connect h id dst port local => smoltcp_tcp_connect h id dst port local w
  | Smoltcp_tcp_listen h id port => smoltcp_tcp_listen h id port w
  | Smoltcp_tcp_send h id buf => smoltcp_tcp_send h id buf w
  | Smoltcp_tcp_recv h id cap => smoltcp_tcp_recv h id cap w
  | Smoltcp_tcp_is_active h id => smoltcp_tcp_is_active h id w
  | Smoltcp_tcp_is_connected h id => smoltcp_tcp_is_connected h id w
  | Smoltcp_tcp_recv_queue h id => smoltcp_tcp_recv_queue h id w
  | Smoltcp_tcp_send_capacity h id => smoltcp_tcp_send_capacity h id w
  | Smoltcp_tcp_close h id => smoltcp_tcp_close h id w
  | Smoltcp_udp_open h port => smoltcp_udp_open h port w
  | Smoltcp_udp_sendto h id buf dst port => smoltcp_udp_sendto h id buf dst port w
  | Smoltcp_udp_recvfrom h id cap => smoltcp_udp_recvfrom h id cap w
  | Smoltcp_udp_close h id => smoltcp_udp_close h id w
  | Smoltcp_resolve h name server ms => core_resolve h name server ms w
  end.
End surface.

Create HintDb core_functions.

#[export] Hint Unfold smoltcp_iface_new smoltcp_iface_destroy smoltcp_iface_rx smoltcp_iface_poll
  smoltcp_iface_poll_delay_us smoltcp_iface_set_link_up smoltcp_iface_has_ip
  smoltcp_iface_get_ipv4 smoltcp_iface_get_gw smoltcp_iface_get_netmask smoltcp_iface_get_ipv6
  smoltcp_iface_socket_count smoltcp_iface_set_static smoltcp_iface_enable_dhcp
  smoltcp_iface_mcast_join smoltcp_iface_mcast_leave smoltcp_tcp_open smoltcp_tcp_connect
  smoltcp_tcp_listen smoltcp_tcp_send smoltcp_tcp_recv smoltcp_tcp_is_active
  smoltcp_tcp_is_connected smoltcp_tcp_recv_queue smoltcp_tcp_send_capacity smoltcp_tcp_close
  smoltcp_udp_open smoltcp_udp_sendto smoltcp_udp_recvfrom smoltcp_udp_close core_resolve :
  core_functions.
