(* ===== verification/CoreSpec.v ===== *)
(** * What the core promises

    The contract of the C surface of [Core]: an interface is a finite map from
    ids to sockets together with the addresses it reports, every call changes
    them as [socket_spec] and [view_spec] say, and the calls that panic are known.
    It is proved for every implementation of smoltcp's types with the documented
    laws [SmoltcpLaws]; the last section has one. *)

From S2P Require Import Prelude Prog Ipv4 Types Platform Device Core.

(** ** The documented behaviour of smoltcp's containers *)

Inductive socket_kind := KTcp | KUdp | KDhcp.

#[export] Instance socket_kind_eq_dec : EqDecision socket_kind.
Proof. solve_decision. Defined.

Definition kind_of `{SocketTypes} (s : any_socket) : socket_kind :=
  match s with AnyTcp _ => KTcp | AnyUdp _ => KUdp | AnyDhcp _ => KDhcp end.

(** A socket set is a finite map whose keys are chosen by [add]; polling the
    interface changes the sockets, not which there are; only [update_ip_addrs]
    changes the addresses, of which there is room for two. *)
Class SmoltcpLaws `{Smoltcp} := {
  set_get_new h : set_get h set_new = None;
  set_get_fresh s ss : set_get (set_add s ss).1 ss = None;
  set_get_add s ss h :
    set_get h (set_add s ss).2 = if decide (h = (set_add s ss).1) then Some s else set_get h ss;
  set_get_put sh s ss h :
    is_Some (set_get sh ss) ->
    set_get h (set_put sh s ss) = if decide (h = sh) then Some s else set_get h ss;
  set_get_remove sh ss h :
    set_get h (set_remove sh ss) = if decide (h = sh) then None else set_get h ss;
  poll_kinds now i d ss h :
    kind_of <$> set_get h (iface_poll now i d ss).1.2 = kind_of <$> set_get h ss;
  new_addrs mac now d : ip_addrs (iface_new mac now d).1 = [];
  update_addrs f i :
    (ip_addrs <$> update_ip_addrs f i) =
    if forallb addr_unicast (f (ip_addrs i)) then Some (f (ip_addrs i)) else None;
  link_local_unicast rest : addr_unicast (CidrV6 (254 :: 128 :: rest) 64) = true;
  cidr_new octets p :
    ipv4_cidr_new octets p = if p <=? 32 then Some (CidrV4 octets p) else None;
  dhcp_unicast s address p router :
    (dhcp_poll s).1 = Some (Configured address p router) ->
    addr_unicast (CidrV4 address p) = true /\ 0 <= p <= 32;
  poll_addrs now i d ss : ip_addrs (iface_poll now i d ss).1.1.1 = ip_addrs i;
  connect_addrs i dst p l s : ip_addrs (tcp_connect i dst p l s).2 = ip_addrs i;
  add_route_addrs gw i : ip_addrs (add_default_ipv4_route gw i) = ip_addrs i;
  remove_route_addrs i : ip_addrs (remove_default_ipv4_route i) = ip_addrs i;
  join_addrs g i : ip_addrs (join_multicast_group g i).2 = ip_addrs i;
  leave_addrs g i : ip_addrs (leave_multicast_group g i).2 = ip_addrs i;
  ipv4_addr_first i :
    ipv4_addr i = match List.find is_v4 (ip_addrs i) with
                  | Some (CidrV4 octets _) => Some octets
                  | _ => None
                  end;
  push_room a l : (length l < 2)%nat -> push_addr a l = l ++ [a];
}.

(** ** The sockets as a finite map *)

Section refinement.
Context `{SmoltcpLaws}.
Implicit Types (c : iface_ctx).

(** What an interface promises the C code: a map from ids to sockets. *)
Definition live c : gmap Z any_socket := omap (fun sh => set_get sh (sockets c)) (handles (ids c)).

(** The IPv6 address comes first, and at most one IPv4 address after it. *)
Definition addrs_ok (addrs : list cidr) : Prop :=
  exists ll v4, addrs = CidrV6 ll 64 :: option_list v4 /\
    Forall (fun a => is_v4 a = true) (option_list v4) /\ forallb addr_unicast addrs = true.

Record ctx_ok c : Prop := {
  co_live id sh : handles (ids c) !! id = Some sh ->
    exists s, set_get sh (sockets c) = Some s /\ kind_of s <> KDhcp;
  co_inj id id' sh : handles (ids c) !! id = Some sh -> handles (ids c) !! id' = Some sh -> id = id';
  co_dhcp dh : dhcp c = Some dh -> exists s, set_get dh (sockets c) = Some (AnyDhcp s);
  co_next : 1 <= next_id (ids c) < 4294967296;
  co_addrs : addrs_ok (ip_addrs (iface c));
}.

(** What the C code can learn of an interface's addresses, by [has_ip],
    [get_ipv4], [get_netmask], [get_gw] and [get_ipv6]. *)
Record addr_view := AddrView {
  v_up : bool;
  v_ip : Z;
  v_mask : Z;
  v_gw : Z;
  v_ip6 : option (list Z);
}.

Definition view c : addr_view :=
  AddrView (has_ip c) (ctx_get_ipv4 c) (netmask_be c) (gateway_be c) (ctx_get_ipv6 c).

Lemma live_lookup c id :
  live c !! id = sh ← lookup_id id (ids c); set_get sh (sockets c).
Proof. unfold live. by rewrite lookup_omap. Qed.

(** Changing a socket in place. *)
Lemma live_put c id sh s0 s :
  ctx_ok c -> lookup_id id (ids c) = Some sh -> set_get sh (sockets c) = Some s0 ->
  kind_of s <> KDhcp ->
  let c' := set_sockets (set_put sh s (sockets c)) c in
  live c' = <[id := s]> (live c) /\ ctx_ok c' /\ view c' = view c.
Proof.
  intros [Hlive Hinj Hdh Hn Ha] Hid Hs0 Hk c'.
  assert (Hget : forall h, set_get h (sockets c') = if decide (h = sh) then Some s
            else set_get h (sockets c)) by (intros h; apply set_get_put; eauto).
  split.
  - apply map_eq. intros id'. rewrite live_lookup. change (ids c') with (ids c).
    destruct (decide (id' = id)) as [->|Hne].
    + rewrite lookup_insert_eq, Hid. cbn. by rewrite Hget, decide_True.
    + rewrite lookup_insert_ne, live_lookup by done. unfold lookup_id in *.
      destruct (handles (ids c) !! id') as [sh'|] eqn:Hid'; [|done]. cbn. rewrite Hget, decide_False; [done|].
      intros ->. by apply Hne, (Hinj id' id sh).
  - split; [|done]. split; cbn; try done.
    + intros id' sh' Hid'. rewrite Hget. case_decide; [by eexists|]. by eapply Hlive.
    + intros dh Hd. rewrite Hget. destruct (Hdh dh Hd) as (s' & Hs'). case_decide; [|by eexists].
      subst. destruct (Hlive id sh Hid) as (s1 & Hs1 & Hk1). rewrite Hs' in Hs1. by simplify_eq.
Qed.

Lemma live_open c s :
  ctx_ok c -> kind_of s <> KDhcp ->
  let (id, c') := open_socket s c in
  id = next_id (ids c) /\ live c' = <[id := s]> (live c) /\ ctx_ok c' /\ view c' = view c.
Proof.
  intros [Hlive Hinj Hdh Hn Ha] Hk. unfold open_socket.
  pose proof (set_get_fresh s (sockets c)) as Hfresh. pose proof (set_get_add s (sockets c)) as Hget.
  destruct (set_add s (sockets c)) as [sh ss]. cbn [fst snd] in *. cbn [alloc_id].
  assert (Hother : forall id sh', handles (ids c) !! id = Some sh' -> sh' <> sh).
  { intros id sh' Hid ->. destruct (Hlive id sh Hid) as (s' & Hs' & _). by rewrite Hfresh in Hs'. }
  split_and!; [done| |split; cbn; try done|done].
  - apply map_eq. intros id'. rewrite live_lookup. unfold lookup_id. cbn.
    destruct (decide (id' = next_id (ids c))) as [->|Hne].
    + rewrite !lookup_insert_eq. cbn. by rewrite Hget, decide_True.
    + rewrite !lookup_insert_ne, live_lookup by done. unfold lookup_id.
      destruct (handles (ids c) !! id') as [sh'|] eqn:Hid'; [|done]. cbn.
      rewrite Hget, decide_False; [done|]. by eapply Hother.
  - intros id' sh'. destruct (decide (id' = next_id (ids c))) as [->|Hne].
    + rewrite lookup_insert_eq. intros [= <-]. rewrite Hget, decide_True by done. by eexists.
    + rewrite lookup_insert_ne by done. intros Hid'. rewrite Hget, decide_False; [by eapply Hlive|].
      by eapply Hother.
  - intros id1 id2 sh'. destruct (decide (id1 = next_id (ids c))) as [->|Hne1],
      (decide (id2 = next_id (ids c))) as [->|Hne2]; rewrite ?lookup_insert_eq, ?lookup_insert_ne by done.
    + done.
    + intros [= <-] Hid2. by destruct (Hother _ _ Hid2).
    + intros Hid1 [= <-]. by destruct (Hother _ _ Hid1).
    + apply Hinj.
  - intros dh Hd. destruct (Hdh dh Hd) as (s' & Hs'). rewrite Hget. case_decide; [|by eexists].
    subst. by rewrite Hfresh in Hs'.
  - pose proof (u32_range (next_id (ids c) + 1)). lia.
Qed.

Lemma live_remove c id :
  ctx_ok c -> live (remove_socket id c) = delete id (live c) /\ ctx_ok (remove_socket id c) /\
    view (remove_socket id c) = view c.
Proof.
  intros Hc. pose proof Hc as [Hlive Hinj Hdh Hn Ha]. unfold remove_socket.
  destruct (lookup_id id (ids c)) as [sh|] eqn:Hid.
  2:{ split; [|done]. symmetry. apply delete_id. by rewrite live_lookup, Hid. }
  assert (Hother : forall id' sh', handles (ids c) !! id' = Some sh' -> id' <> id -> sh' <> sh).
  { intros id' sh' Hid' Hne ->. by apply Hne, (Hinj id' id sh). }
  split_and!; [|split; cbn; try done|done].
  - apply map_eq. intros id'. rewrite live_lookup. unfold lookup_id. cbn.
    destruct (decide (id' = id)) as [->|Hne]; [by rewrite !lookup_delete_eq|].
    rewrite !lookup_delete_ne, live_lookup by done. unfold lookup_id.
    destruct (handles (ids c) !! id') as [sh'|] eqn:Hid'; [|done]. cbn.
    rewrite set_get_remove, decide_False; [done|]. by eapply Hother.
  - intros id' sh' [Hne Hid']%lookup_delete_Some. rewrite set_get_remove, decide_False;
      [by eapply Hlive|]. by eapply Hother.
  - intros id1 id2 sh' [_ ?]%lookup_delete_Some [_ ?]%lookup_delete_Some. eauto.
  - intros dh Hd. destruct (Hdh dh Hd) as (s' & Hs'). rewrite set_get_remove, decide_False; [by eexists|].
    intros ->. destruct (Hlive id sh Hid) as (s1 & Hs1 & Hk1). rewrite Hs' in Hs1. by simplify_eq.
Qed.

Lemma with_tcp_spec {R} (none : R) id f c :
  ctx_ok c ->
  match live c !! id with
  | None => with_tcp none id f c = Some (none, c)
  | Some (AnyTcp s) => exists c', with_tcp none id f c = Some ((f s).1, c') /\
      live c' = <[id := AnyTcp (f s).2]> (live c) /\ ctx_ok c' /\ view c' = view c
  | Some _ => with_tcp none id f c = None
  end.
Proof.
  intros Hc. rewrite live_lookup. unfold with_tcp.
  destruct (lookup_id id (ids c)) as [sh|] eqn:Hid; [|done]. cbn [mbind option_bind].
  destruct (co_live _ Hc id sh Hid) as (s0 & Hs0 & Hk). rewrite Hs0.
  destruct s0 as [s|s|s]; [|done..]. destruct (f s) as [r s'] eqn:Hf. cbn [fst snd].
  eexists. split; [done|]. by apply (live_put c id sh (AnyTcp s)).
Qed.

Lemma with_udp_spec {R} (none : R) id f c :
  ctx_ok c ->
  match live c !! id with
  | None => with_udp none id f c = Some (none, c)
  | Some (AnyUdp s) => exists c', with_udp none id f c = Some ((f s).1, c') /\
      live c' = <[id := AnyUdp (f s).2]> (live c) /\ ctx_ok c' /\ view c' = view c
  | Some _ => with_udp none id f c = None
  end.
Proof.
  intros Hc. rewrite live_lookup. unfold with_udp.
  destruct (lookup_id id (ids c)) as [sh|] eqn:Hid; [|done]. cbn [mbind option_bind].
  destruct (co_live _ Hc id sh Hid) as (s0 & Hs0 & Hk). rewrite Hs0.
  destruct s0 as [s|s|s]; [done| |done]. destruct (f s) as [r s'] eqn:Hf. cbn [fst snd].
  eexists. split; [done|]. by apply (live_put c id sh (AnyUdp s)).
Qed.

(** Changes to the interface that keep sockets and addresses. *)
Lemma ctx_ok_iface i c :
  ctx_ok c -> ip_addrs i = ip_addrs (iface c) -> ctx_ok (set_iface i c).
Proof. intros [] Hi. split; cbn; try done. by rewrite Hi. Qed.

Lemma ctx_ok_dev d c : ctx_ok c -> ctx_ok (set_dev d c).
Proof. by intros []. Qed.

(** Polling: the sockets change, not which there are. *)
Definition same_kinds (m m' : gmap Z any_socket) : Prop :=
  forall id, kind_of <$> m' !! id = kind_of <$> m !! id.

Lemma kinds_some ss ss' h s :
  kind_of <$> set_get h ss' = kind_of <$> set_get h ss -> set_get h ss = Some s ->
  exists s', set_get h ss' = Some s' /\ kind_of s' = kind_of s.
Proof. intros Hk Hs. rewrite Hs in Hk. destruct (set_get h ss') as [s'|]; [|done]. cbn in Hk. simplify_eq. eauto. Qed.

Lemma ctx_ok_kinds c c' :
  ctx_ok c -> ids c' = ids c -> dhcp c' = dhcp c -> addrs_ok (ip_addrs (iface c')) ->
  (forall h, kind_of <$> set_get h (sockets c') = kind_of <$> set_get h (sockets c)) ->
  ctx_ok c' /\ same_kinds (live c) (live c').
Proof.
  intros [Hlive Hinj Hdh Hn Ha] Hids Hd Haddr Hk. split; [split; rewrite ?Hids, ?Hd; try done|].
  - intros id sh Hid. destruct (Hlive id sh Hid) as (s & Hs & Hks).
    destruct (kinds_some _ _ _ _ (Hk sh) Hs) as (s' & Hs' & Hk'). exists s'. by rewrite Hk'.
  - intros dh Hdh'. destruct (Hdh dh Hdh') as (s & Hs).
    destruct (kinds_some _ _ _ _ (Hk dh) Hs) as ([?|?|s'] & Hs' & Hk'); try done. eauto.
  - intros id. rewrite !live_lookup, Hids. by destruct (lookup_id id (ids c)) as [sh|]; cbn.
Qed.

(** Dropping the IPv4 address, and having a new one. *)
Lemma drop_v4_ok addrs :
  addrs_ok addrs -> exists ll, List.find (fun a => negb (is_v4 a)) addrs = Some (CidrV6 ll 64) /\
    drop_v4 addrs = [CidrV6 ll 64] /\ addrs_ok [CidrV6 ll 64].
Proof.
  intros (ll & v4 & -> & Hv & Hu). exists ll. cbn [forallb] in Hu. apply andb_true_iff in Hu as [Hll _].
  split; [done|]. split.
  - unfold drop_v4. cbn. f_equal. destruct v4 as [a|]; [|done]. cbn in *. apply Forall_cons in Hv as [Hv _]. by rewrite Hv.
  - exists ll, None. cbn. by rewrite Hll.
Qed.

Lemma new_v4_ok octets prefix addrs :
  addrs_ok addrs -> addr_unicast (CidrV4 octets prefix) = true ->
  exists ll, List.find (fun a => negb (is_v4 a)) addrs = Some (CidrV6 ll 64) /\
    push_addr (CidrV4 octets prefix) (drop_v4 addrs) = [CidrV6 ll 64; CidrV4 octets prefix] /\
    addrs_ok [CidrV6 ll 64; CidrV4 octets prefix].
Proof.
  intros Ha Hu. destruct (drop_v4_ok addrs Ha) as (ll & Hf & -> & Hok). exists ll. split; [done|].
  split; [rewrite push_room; [done|cbn; lia]|]. exists ll, (Some (CidrV4 octets prefix)).
  split_and!; [done|by repeat constructor|]. destruct Hok as (? & ? & _ & _ & Hll). cbn in *.
  by rewrite Hu, andb_true_r in *.
Qed.

Lemma update_ok f i :
  addrs_ok (f (ip_addrs i)) ->
  exists i', update_ip_addrs f i = Some i' /\ ip_addrs i' = f (ip_addrs i).
Proof.
  intros (? & ? & _ & _ & Hu). pose proof (update_addrs f i) as Hf. rewrite Hu in Hf.
  destruct (update_ip_addrs f i) as [i'|]; [|done]. cbn in Hf. simplify_eq. eauto.
Qed.

(** A prefix as a mask in network order: the first [p] bits of its octets. *)
Definition prefix_mask (p : Z) : Z := le_combine (rev (le_split 4 (4294967296 - 2 ^ (32 - p)))).

Lemma mask_of_prefix p : 0 <= p <= 32 -> to_be32 (cidr_to_mask p) = prefix_mask p.
Proof.
  intros Hp. assert (Hall : forallb (fun p => to_be32 (cidr_to_mask p) =? prefix_mask p)
    (Z.of_nat <$> seq 0 33) = true) by reflexivity.
  rewrite forallb_forall in Hall. apply Z.eqb_eq, Hall. apply list_elem_of_In, list_elem_of_fmap.
  exists (Z.to_nat p). rewrite elem_of_seq. lia.
Qed.

(** What a DHCP event makes of it. *)
Definition lease_view (ev : option dhcp_event) (v : addr_view) : addr_view :=
  match ev with
  | None => v
  | Some (Configured address prefix router) =>
      AddrView true (ipv4_to_be address) (prefix_mask prefix)
        (match router with Some gw => ipv4_to_be gw | None => 0 end) (v_ip6 v)
  | Some Deconfigured => AddrView false 0 0 0 (v_ip6 v)
  end.

Definition event_ok (ev : option dhcp_event) : Prop :=
  match ev with
  | Some (Configured address prefix _) => addr_unicast (CidrV4 address prefix) = true /\ 0 <= prefix <= 32
  | _ => True
  end.

(** Changes of the interface's addresses and of what is reported of them. *)
Lemma ctx_ok_addrs i m gw up dh c :
  ctx_ok c -> addrs_ok (ip_addrs i) -> (dh = None \/ dh = dhcp c) ->
  let c' := IfaceCtx _ _ (iface_id c) (dev c) i (sockets c) dh up m gw (ids c) in
  ctx_ok c' /\ live c' = live c.
Proof. intros [] Hi Hdh c'. split; [|done]. split; cbn; try done. by destruct Hdh as [->| ->]. Qed.

Lemma dhcp_apply_ok ev c :
  ctx_ok c -> event_ok ev ->
  exists c', dhcp_apply ev c = Some c' /\ (ctx_ok c' /\ live c' = live c) /\
    view c' = lease_view ev (view c).
Proof.
  intros Hc Hev. pose proof (co_addrs _ Hc) as Ha.
  destruct ev as [[address prefix router|]|]; cbn [dhcp_apply]; [| |by eauto 6].
  - destruct Hev as [Hu Hp]. destruct (new_v4_ok _ _ _ Ha Hu) as (ll & Hf & Hnew & Hok).
    destruct (update_ok (fun a => push_addr (CidrV4 address prefix) (drop_v4 a)) (iface c))
      as (i & Hi & Haddr); [by rewrite Hnew|].
    cbn [iface set_netmask_be]. rewrite Hi. cbn [mbind option_bind].
    eexists. split; [done|]. rewrite Hnew in Haddr.
    destruct router as [gw|]; (split;
      [apply (ctx_ok_addrs _ _ _ _ _ _ Hc); [cbn; by rewrite ?add_route_addrs, Haddr|by right]|]);
      unfold view, ctx_get_ipv4, ctx_get_ipv6; cbn;
      by rewrite ipv4_addr_first, ?add_route_addrs, Haddr, Hf, mask_of_prefix.
  - destruct (drop_v4_ok _ Ha) as (ll & Hf & Hdrop & Hok).
    destruct (update_ok drop_v4 (iface c)) as (i & Hi & Haddr); [by rewrite Hdrop|].
    rewrite Hi. cbn [mbind option_bind]. eexists. split; [done|]. rewrite Hdrop in Haddr.
    split;
      [apply (ctx_ok_addrs _ _ _ _ _ _ Hc); [cbn; by rewrite remove_route_addrs, Haddr|by right]|].
    unfold view, ctx_get_ipv4, ctx_get_ipv6. cbn.
    by rewrite ipv4_addr_first, remove_route_addrs, Haddr, Hf.
Qed.

Lemma dhcp_event_ok s : event_ok (dhcp_poll s).1.
Proof.
  destruct (dhcp_poll s).1 as [[address prefix router|]|] eqn:Hs; try done. by eapply dhcp_unicast.
Qed.

Lemma view_same c c' :
  has_ip c' = has_ip c -> netmask_be c' = netmask_be c -> gateway_be c' = gateway_be c ->
  ip_addrs (iface c') = ip_addrs (iface c) -> view c' = view c.
Proof.
  intros H1' H2' H3' Ha. unfold view, ctx_get_ipv4, ctx_get_ipv6. by rewrite H1', H2', H3', !ipv4_addr_first, Ha.
Qed.

(** The event of the DHCP socket once the interface has been polled, and what
    polling makes of the addresses reported. *)
Definition poll_event (now : Z) c : option dhcp_event :=
  dh ← dhcp c;
  match set_get dh (iface_poll now (iface c) (dev c) (sockets c)).1.2 with
  | Some (AnyDhcp s) => (dhcp_poll s).1
  | _ => None
  end.

Definition poll_view (now : Z) c : addr_view :=
  match dhcp c with
  | Some _ => lease_view (poll_event now c) (view c)
  | None => let v := view c in
            AddrView (existsb is_v4 (ip_addrs (iface c))) (v_ip v) (v_mask v) (v_gw v) (v_ip6 v)
  end.

Lemma find_existsb {A} (f : A -> bool) l : existsb f l = bool_decide (is_Some (List.find f l)).
Proof. induction l as [|a l IH]; [done|]. cbn. by destruct (f a). Qed.

Lemma has_v4 i : bool_decide (is_Some (ipv4_addr i)) = existsb is_v4 (ip_addrs i).
Proof.
  rewrite find_existsb, ipv4_addr_first.
  destruct (List.find is_v4 (ip_addrs i)) as [[o p|o p]|] eqn:Hf; [done| |done].
  by apply find_some in Hf as [_ Hf].
Qed.

(** The core's own poll, before the DHCP socket is asked. *)
Lemma polled_ok now c i' d' ss' frames :
  ctx_ok c -> iface_poll now (iface c) (dev c) (sockets c) = (i', d', ss', frames) ->
  let c1 := set_sockets ss' (set_dev d' (set_iface i' c)) in
  (ctx_ok c1 /\ same_kinds (live c) (live c1)) /\ ip_addrs i' = ip_addrs (iface c).
Proof.
  intros Hc Hp. pose proof (poll_kinds now (iface c) (dev c) (sockets c)) as Hk.
  pose proof (poll_addrs now (iface c) (dev c) (sockets c)) as Ha.
  rewrite Hp in Hk, Ha. cbn in Hk, Ha. split; [|done].
  apply ctx_ok_kinds; try done. cbn. rewrite Ha. apply co_addrs, Hc.
Qed.

Lemma ctx_poll_ok now c :
  ctx_ok c ->
  exists out c', ctx_poll now c = Some (out, c') /\ ctx_ok c' /\ same_kinds (live c) (live c') /\
    view c' = poll_view now c.
Proof.
  intros Hc. unfold ctx_poll, poll_view, poll_event.
  destruct (iface_poll now (iface c) (dev c) (sockets c)) as [[[i' d'] ss'] frames] eqn:Hp.
  destruct (polled_ok _ _ _ _ _ _ Hc Hp) as [[Hc1 Hk1] Ha]. cbn [fst snd].
  set (c1 := set_sockets ss' (set_dev d' (set_iface i' c))) in *.
  change (dhcp c1) with (dhcp c). change (sockets c1) with ss'.
  destruct (dhcp c) as [dh|] eqn:Hdh.
  - destruct (co_dhcp _ Hc1 dh Hdh) as (s & Hs). change (sockets c1) with ss' in Hs. cbn [mbind option_bind].
    rewrite Hs. pose proof (dhcp_event_ok s) as Hev. destruct (dhcp_poll s) as [ev s']. cbn [fst] in *.
    set (c2 := set_sockets (set_put dh (AnyDhcp s') ss') c1).
    assert (Hc2 : ctx_ok c2 /\ same_kinds (live c1) (live c2)).
    { apply ctx_ok_kinds; try done; [cbn; rewrite Ha; apply co_addrs, Hc|].
      intros h. cbn. rewrite set_get_put by eauto. case_decide; [|done]. subst. by rewrite Hs. }
    destruct (dhcp_apply_ok ev c2 (proj1 Hc2) Hev) as (c3 & -> & [Hc3 Hlive] & Hv).
    eexists _, _. split; [done|]. split; [done|]. rewrite Hlive, Hv. split.
    + intros id. by rewrite (proj2 Hc2), Hk1.
    + f_equal. by apply view_same.
  - eexists _, _. split; [done|]. split; [by destruct Hc1; split|]. split; [done|].
    rewrite has_v4. unfold view, ctx_get_ipv4, ctx_get_ipv6. cbn. by rewrite !ipv4_addr_first, Ha.
Qed.

(** Polling does not turn DHCP off. *)
Lemma ctx_poll_dhcp now c out c' : ctx_poll now c = Some (out, c') -> dhcp c' = dhcp c.
Proof.
  unfold ctx_poll. destruct (iface_poll now (iface c) (dev c) (sockets c)) as [[[i' d'] ss'] frames].
  cbn [dhcp sockets set_sockets set_dev set_iface].
  destruct (dhcp c) as [dh|] eqn:Hdh; [|by intros [= _ <-]].
  destruct (set_get dh ss') as [[s|s|s]|]; try done. destruct (dhcp_poll s) as [ev s'].
  destruct (dhcp_apply ev _) as [c3|] eqn:Ha; [|done]. intros [= _ <-]. revert Ha.
  destruct ev as [[address prefix [gw|]|]|]; cbn; [..|by intros [= <-]];
    (destruct (update_ip_addrs _ i'); [|done]); by intros [= <-].
Qed.

Lemma ctx_poll_addrs now c out c' :
  dhcp c = None -> ctx_poll now c = Some (out, c') -> ip_addrs (iface c') = ip_addrs (iface c).
Proof.
  intros Hd. unfold ctx_poll. pose proof (poll_addrs now (iface c) (dev c) (sockets c)) as Ha.
  destruct (iface_poll now (iface c) (dev c) (sockets c)) as [[[i' d'] ss'] frames].
  cbn [dhcp set_sockets set_dev set_iface]. rewrite Hd. by intros [= _ <-].
Qed.

(** A static configuration; the gateway reported stays when none is given. *)
Definition static_ok (ipv4_be prefix : Z) : Prop :=
  u8 prefix <= 32 /\ addr_unicast (CidrV4 (ipv4_from_be ipv4_be) (u8 prefix)) = true.

Definition static_view (ipv4_be prefix gw_be : Z) (v : addr_view) : addr_view :=
  AddrView true ipv4_be (prefix_mask (u8 prefix)) (if gw_be =? 0 then v_gw v else gw_be) (v_ip6 v).

Lemma set_static_ok ip prefix gw c :
  ctx_ok c -> static_ok ip prefix -> 0 <= ip < 4294967296 ->
  exists c', ctx_set_static ip prefix gw c = Some c' /\ (ctx_ok c' /\ live c' = live c) /\
    (dhcp c' = None /\ existsb is_v4 (ip_addrs (iface c')) = true) /\
    view c' = static_view ip prefix gw (view c).
Proof.
  intros Hc [Hp Hu] Hip. destruct (new_v4_ok _ _ _ (co_addrs _ Hc) Hu) as (ll & Hf & Hnew & Hok).
  unfold ctx_set_static. rewrite cidr_new. destruct (Z.leb_spec (u8 prefix) 32); [|lia].
  cbn [mbind option_bind].
  destruct (update_ok (fun a => push_addr (CidrV4 (ipv4_from_be ip) (u8 prefix)) (drop_v4 a)) (iface c))
    as (i & Hi & Haddr); [by rewrite Hnew|].
  cbn [iface set_dhcp]. rewrite Hi. cbn [mbind option_bind]. rewrite Hnew in Haddr.
  eexists. split; [done|]. unfold static_view.
  assert (Hr : 0 <= u8 prefix <= 32) by (split; [apply wrap_range; lia|done]).
  destruct (gw =? 0); (split;
    [apply (ctx_ok_addrs _ _ _ _ _ _ Hc); [cbn; by rewrite ?add_route_addrs, Haddr|by left]|split; [split; [done|cbn; by rewrite ?add_route_addrs, Haddr]|]]);
    unfold view, ctx_get_ipv4, ctx_get_ipv6; cbn -[ipv4_from_be ipv4_to_be prefix_mask];
    rewrite ipv4_addr_first, ?add_route_addrs, Haddr, Hf, mask_of_prefix by done;
    cbn -[ipv4_from_be ipv4_to_be prefix_mask]; by rewrite ipv4_to_from_be.
Qed.

Lemma set_static_panics ip prefix gw c :
  ctx_ok c -> ~ static_ok ip prefix -> ctx_set_static ip prefix gw c = None.
Proof.
  intros Hc Hs. unfold ctx_set_static. rewrite cidr_new. destruct (Z.leb_spec (u8 prefix) 32); [|done].
  cbn [mbind option_bind iface set_dhcp].
  pose proof (update_addrs (fun a => push_addr (CidrV4 (ipv4_from_be ip) (u8 prefix)) (drop_v4 a)) (iface c)) as Hu.
  destruct (drop_v4_ok _ (co_addrs _ Hc)) as (ll & _ & Hdrop & _).
  cbv beta in Hu. rewrite Hdrop, push_room in Hu by (cbn; lia).
  cbn -[ipv4_from_be] in Hu.
  destruct (addr_unicast (CidrV4 (ipv4_from_be ip) (u8 prefix))) eqn:Ha; [by destruct Hs|].
  rewrite andb_false_r in Hu. by destruct (update_ip_addrs _ _).
Qed.

Lemma enable_dhcp_ok c :
  ctx_ok c -> ctx_ok (ctx_enable_dhcp c) /\ live (ctx_enable_dhcp c) = live c /\
    is_Some (dhcp (ctx_enable_dhcp c)) /\ view (ctx_enable_dhcp c) = view c.
Proof.
  intros Hc. unfold ctx_enable_dhcp. destruct (dhcp c) as [dh|] eqn:Hdh; [by rewrite Hdh|].
  pose proof (set_get_fresh (AnyDhcp dhcp_new) (sockets c)) as Hfresh.
  pose proof (set_get_add (AnyDhcp dhcp_new) (sockets c)) as Hget.
  destruct (set_add (AnyDhcp dhcp_new) (sockets c)) as [dh ss]. cbn [fst snd] in *.
  assert (Hsame : forall id sh, handles (ids c) !! id = Some sh -> set_get sh ss = set_get sh (sockets c)).
  { intros id sh Hid. rewrite Hget, decide_False; [done|]. intros ->.
    destruct (co_live _ Hc id dh Hid) as (s & Hs & _). by rewrite Hfresh in Hs. }
  split; [|split; [|split; [by eexists|done]]].
  - pose proof Hc as []. split; cbn; try done.
    + intros id sh Hid. rewrite (Hsame id) by done. eauto.
    + intros ? [= <-]. rewrite Hget, decide_True by done. eauto.
  - apply map_eq. intros id. rewrite !live_lookup. cbn. unfold lookup_id.
    destruct (handles (ids c) !! id) as [sh|] eqn:Hid; [|done]. cbn. eauto.
Qed.

(** The counter of open sockets counts the map. *)
Lemma live_size c : ctx_ok c -> size (live c) = size (handles (ids c)).
Proof.
  intros Hc. rewrite <- !size_dom. f_equal. apply set_eq. intros id.
  rewrite !elem_of_dom, live_lookup. unfold lookup_id. split.
  - intros [s Hs]. by destruct (handles (ids c) !! id).
  - intros [sh Hid]. rewrite Hid. destruct (co_live _ Hc id sh Hid) as (s & Hs & _). cbn. by rewrite Hs.
Qed.

Lemma iface_ctx_new_ok id mac now :
  exists c, iface_ctx_new id mac now = Some c /\ ctx_ok c /\ live c = ∅ /\
    view c = AddrView false 0 0 0 (Some (link_local mac)).
Proof.
  unfold iface_ctx_new. pose proof (new_addrs mac now (EspDevice None false)) as Hn.
  destruct (iface_new mac now (EspDevice None false)) as [i d]. cbn in Hn.
  assert (Hpush : push_addr (CidrV6 (link_local mac) 64) (ip_addrs i) = [CidrV6 (link_local mac) 64])
    by (rewrite Hn, push_room; [done|cbn; lia]).
  assert (Hok : addrs_ok [CidrV6 (link_local mac) 64]).
  { eexists _, None. split_and!; [done|constructor|]. cbn. unfold link_local. by rewrite link_local_unicast. }
  destruct (update_ok (push_addr (CidrV6 (link_local mac) 64)) i) as (i' & Hi' & Ha); [by rewrite Hpush|].
  rewrite Hi'. cbn [mbind option_bind]. rewrite Hpush in Ha. eexists. split; [done|]. split; [|split].
  - split; cbn; try done. by rewrite Ha.
  - unfold live. cbn. apply omap_empty.
  - unfold view, ctx_get_ipv4, ctx_get_ipv6. cbn. by rewrite ipv4_addr_first, Ha.
Qed.
End refinement.

(** ** The contract of the C surface *)

Section contract.
Context `{SmoltcpLaws}.
Implicit Types (c : iface_ctx) (m : gmap Z any_socket).

(** The interface a call is about. *)
Definition call_iface {X} (call : core_call X) : option ptr :=
  match call with
  | Smoltcp_core_init | Smoltcp_iface_new _ _ | Smoltcp_iface_destroy _ => None
  | Smoltcp_iface_rx h _ | Smoltcp_iface_poll h | Smoltcp_iface_poll_delay_us h
  | Smoltcp_iface_set_link_up h _ | Smoltcp_iface_has_ip h | Smoltcp_iface_get_ipv4 h
  | Smoltcp_iface_get_gw h | Smoltcp_iface_get_netmask h | Smoltcp_iface_get_ipv6 h
  | Smoltcp_iface_socket_count h | Smoltcp_iface_set_static h _ _ _ | Smoltcp_iface_enable_dhcp h
  | Smoltcp_iface_mcast_join h _ | Smoltcp_iface_mcast_leave h _ | Smoltcp_tcp_open h
  | Smoltcp_tcp_connect h _ _ _ _ | Smoltcp_tcp_listen h _ _ | Smoltcp_tcp_send h _ _
  | Smoltcp_tcp_recv h _ _ | Smoltcp_tcp_is_active h _ | Smoltcp_tcp_is_connected h _
  | Smoltcp_tcp_recv_queue h _ | Smoltcp_tcp_send_capacity h _ | Smoltcp_tcp_close h _
  | Smoltcp_udp_open h _ | Smoltcp_udp_sendto h _ _ _ _ | Smoltcp_udp_recvfrom h _ _
  | Smoltcp_udp_close h _ | Smoltcp_resolve h _ _ _ => Some h
  end.

(** The socket a call is about: its id and whether it is to be a TCP socket. *)
Definition call_socket {X} (call : core_call X) : option (Z * socket_kind) :=
  match call with
  | Smoltcp_tcp_connect _ id _ _ _ | Smoltcp_tcp_listen _ id _ | Smoltcp_tcp_send _ id _
  | Smoltcp_tcp_recv _ id _ | Smoltcp_tcp_is_active _ id | Smoltcp_tcp_is_connected _ id
  | Smoltcp_tcp_recv_queue _ id | Smoltcp_tcp_send_capacity _ id | Smoltcp_tcp_close _ id =>
      Some (id, KTcp)
  | Smoltcp_udp_sendto _ id _ _ _ | Smoltcp_udp_recvfrom _ id _ | Smoltcp_udp_close _ id =>
      Some (id, KUdp)
  | _ => None
  end.

(** The calls that end in a panic of the core: those on a socket of the other
    type, and a static configuration smoltcp refuses. *)
Definition panics {X} (call : core_call X) m : Prop :=
  match call with
  | Smoltcp_iface_set_static _ ip prefix _ => ~ static_ok ip prefix
  | _ => match call_socket call with
         | Some (id, k) => exists s, m !! id = Some s /\ kind_of s <> k
         | None => False
         end
  end.

(** An address is a 32-bit word. *)
Definition call_ok {X} (call : core_call X) : Prop :=
  match call with
  | Smoltcp_iface_set_static _ ip _ _ => 0 <= ip < 4294967296
  | _ => True
  end.

(** One socket changes as [f] says, or nothing when there is none. *)
Definition at_tcp {R} (none : R) (id : Z) (f : TcpSocket -> R * TcpSocket) m (r : R) m' : Prop :=
  match m !! id with
  | Some (AnyTcp s) => r = (f s).1 /\ m' = <[id := AnyTcp (f s).2]> m
  | _ => r = none /\ m' = m
  end.

Definition at_udp {R} (none : R) (id : Z) (f : UdpSocket -> R * UdpSocket) m (r : R) m' : Prop :=
  match m !! id with
  | Some (AnyUdp s) => r = (f s).1 /\ m' = <[id := AnyUdp (f s).2]> m
  | _ => r = none /\ m' = m
  end.

(** What a call does to the map of an interface's sockets, and what it answers;
    [next] is the id counter. Calls not named leave the sockets alone. *)
Definition socket_spec {X} (call : core_call X) (next : Z) m : X -> gmap Z any_socket -> Prop :=
  match call in core_call X return X -> gmap Z any_socket -> Prop with
  | Smoltcp_tcp_open _ => fun r m' => r = next /\ m' = <[next := AnyTcp (tcp_new TCP_RX TCP_TX)]> m
  | Smoltcp_tcp_connect _ id dst port local => fun r m' =>
      exists i local', (if local =? 0 then 49152 <= local' < 65536 else local' = local) /\
        at_tcp (-1) id (fun s =>
          let '(ok, s, _) := tcp_connect i (ipv4_from_be dst) port local' s in (ok_code ok, s)) m r m'
  | Smoltcp_tcp_listen _ id port =>
      at_tcp (-1) id (fun s => let (ok, s) := tcp_listen port s in (ok_code ok, s)) m
  | Smoltcp_tcp_send _ id buf =>
      at_tcp (-1) id (fun s => let (n, s) := tcp_send_slice buf s in (default (-1) (i32 <$> n), s)) m
  | Smoltcp_tcp_recv _ id cap =>
      at_tcp (-1, []) id (fun s =>
        let (r, s) := tcp_recv_slice cap s in
        (match r with Some bs => (i32 (Z.of_nat (length bs)), bs) | None => (-1, []) end, s)) m
  | Smoltcp_tcp_is_active _ id => at_tcp false id (fun s => (tcp_is_active s, s)) m
  | Smoltcp_tcp_is_connected _ id =>
      at_tcp false id (fun s => (tcp_may_recv s || tcp_may_send s, s)) m
  | Smoltcp_tcp_recv_queue _ id => at_tcp 0 id (fun s => (tcp_recv_queue s, s)) m
  | Smoltcp_tcp_send_capacity _ id =>
      at_tcp 0 id (fun s =>
        (if tcp_can_send s then Z.max 0 (tcp_send_capacity s - tcp_send_queue s) else 0, s)) m
  | Smoltcp_tcp_close _ id | Smoltcp_udp_close _ id => fun _ m' => m' = delete id m
  | Smoltcp_udp_open _ port => fun r m' =>
      let (ok, s) := if port =? 0 then (true, udp_new UDP_META UDP_RX UDP_TX)
                     else udp_bind port (udp_new UDP_META UDP_RX UDP_TX) in
      if ok then r = next /\ m' = <[next := AnyUdp s]> m else r = 0 /\ m' = m
  | Smoltcp_udp_sendto _ id buf dst port =>
      at_udp (-1) id (fun s =>
        let (ok, s) := udp_send_slice buf (ipv4_from_be dst) port s in
        (if ok then i32 (Z.of_nat (length buf)) else -1, s)) m
  | Smoltcp_udp_recvfrom _ id cap =>
      at_udp (UdpRx (-1) [] None None) id (fun s =>
        let (r, s) := udp_recv_slice cap s in (udp_rx_of r, s)) m
  | Smoltcp_iface_socket_count _ => fun r m' => r = u32 (Z.of_nat (size m)) /\ m' = m
  | Smoltcp_iface_poll _ | Smoltcp_resolve _ _ _ _ => fun _ m' => same_kinds m m'
  | _ => fun _ m' => m' = m
  end.

(** What a call makes of the addresses reported, and what it answers of them;
    [polled] is what polling makes of them. Resolving a name polls too. *)
Definition view_spec {X} (call : core_call X) (polled v : addr_view) : X -> addr_view -> Prop :=
  match call in core_call X return X -> addr_view -> Prop with
  | Smoltcp_iface_poll _ => fun _ v' => v' = polled
  | Smoltcp_iface_set_static _ ip prefix gw => fun _ v' => v' = static_view ip prefix gw v
  | Smoltcp_iface_has_ip _ => fun r v' => r = v_up v /\ v' = v
  | Smoltcp_iface_get_ipv4 _ => fun r v' => r = v_ip v /\ v' = v
  | Smoltcp_iface_get_netmask _ => fun r v' => r = v_mask v /\ v' = v
  | Smoltcp_iface_get_gw _ => fun r v' => r = v_gw v /\ v' = v
  | Smoltcp_iface_get_ipv6 _ => fun r v' => r = v_ip6 v /\ v' = v
  | Smoltcp_resolve _ _ _ _ => fun _ _ => True
  | _ => fun _ v' => v' = v
  end.

(** The result [res] meets the contract of [call]. *)
Definition meets {X} (now : Z) (call : core_call X) h w c (res : option (X * gmap ptr iface_ctx)) : Prop :=
  match res with
  | Some (r, w') => ~ panics call (live c) /\
      exists c', w' = <[h := c']> w /\ ctx_ok c' /\
        socket_spec call (next_id (ids c)) (live c) r (live c') /\
        view_spec call (poll_view now c) (view c) r (view c')
  | None => panics call (live c)
  end.

(** Answering a call on an interface is running its function there. *)
Lemma on_ctx_some {R} h (none : R) f w c :
  is_null h = false -> w !! h = Some c ->
  on_ctx h none f w = '(r, c) ← f c; Some (r, <[h := c]> w).
Proof. intros Hh Hc. unfold on_ctx. by rewrite Hh, Hc. Qed.

(** Calls that leave the sockets alone. *)
Lemma meets_same {X} now (call : core_call X) h w c r c' :
  ctx_ok c' -> live c' = live c -> ~ panics call (live c) ->
  socket_spec call (next_id (ids c)) (live c) r (live c) ->
  view_spec call (poll_view now c) (view c) r (view c') ->
  meets now call h w c (Some (r, <[h := c']> w)).
Proof. intros Hok Hl Hp Hs Hv. split; [done|]. exists c'. by rewrite Hl. Qed.

Lemma meets_next {X} now (call : core_call X) h w c r c' :
  ctx_ok c' -> ~ panics call (live c) ->
  socket_spec call (next_id (ids c)) (live c) r (live c') ->
  view_spec call (poll_view now c) (view c) r (view c') ->
  meets now call h w c (Some (r, <[h := c']> w)).
Proof. intros Hok Hp Hs Hv. split; [done|]. by exists c'. Qed.

(** Calls on one socket. *)
Definition wrong_kind id (k : socket_kind) m : Prop := exists s, m !! id = Some s /\ kind_of s <> k.

Lemma meets_tcp {X} now (call : core_call X) h w c (none : X) id f :
  ctx_ok c -> (panics call (live c) <-> wrong_kind id KTcp (live c)) ->
  (forall r m', at_tcp none id f (live c) r m' -> socket_spec call (next_id (ids c)) (live c) r m') ->
  (forall r, view_spec call (poll_view now c) (view c) r (view c)) ->
  meets now call h w c ('(r, c') ← with_tcp none id f c; Some (r, <[h := c']> w)).
Proof.
  intros Hc [Hp1 Hp2] Hspec Hview. pose proof (with_tcp_spec none id f c Hc) as Hw. unfold meets.
  unfold at_tcp in Hspec. unfold wrong_kind in *. destruct (live c !! id) as [[s|s|s]|].
  - destruct Hw as (c' & -> & Hl & Hok & Hv). cbn. split; [by intros (? & [= <-] & ?)%Hp1|].
    exists c'. rewrite Hl, Hv. auto 6.
  - rewrite Hw. apply Hp2. by eexists.
  - rewrite Hw. apply Hp2. by eexists.
  - rewrite Hw. cbn. split; [by intros (? & ? & _)%Hp1|]. exists c. auto 6.
Qed.

Lemma meets_udp {X} now (call : core_call X) h w c (none : X) id f :
  ctx_ok c -> (panics call (live c) <-> wrong_kind id KUdp (live c)) ->
  (forall r m', at_udp none id f (live c) r m' -> socket_spec call (next_id (ids c)) (live c) r m') ->
  (forall r, view_spec call (poll_view now c) (view c) r (view c)) ->
  meets now call h w c ('(r, c') ← with_udp none id f c; Some (r, <[h := c']> w)).
Proof.
  intros Hc [Hp1 Hp2] Hspec Hview. pose proof (with_udp_spec none id f c Hc) as Hw. unfold meets.
  unfold at_udp in Hspec. unfold wrong_kind in *. destruct (live c !! id) as [[s|s|s]|].
  - rewrite Hw. apply Hp2. by eexists.
  - destruct Hw as (c' & -> & Hl & Hok & Hv). cbn. split; [by intros (? & [= <-] & ?)%Hp1|].
    exists c'. rewrite Hl, Hv. auto 6.
  - rewrite Hw. apply Hp2. by eexists.
  - rewrite Hw. cbn. split; [by intros (? & ? & _)%Hp1|]. exists c. auto 6.
Qed.

(** Opening: the new id is the counter. *)
Lemma meets_open now (call : core_call Z) h w c s :
  ctx_ok c -> ~ panics call (live c) -> kind_of s <> KDhcp ->
  (forall m', m' = <[next_id (ids c) := s]> (live c) ->
     socket_spec call (next_id (ids c)) (live c) (next_id (ids c)) m') ->
  (forall r, view_spec call (poll_view now c) (view c) r (view c)) ->
  meets now call h w c ('(r, c') ← Some (open_socket s c); Some (r, <[h := c']> w)).
Proof.
  intros Hc Hp Hk Hspec Hview. pose proof (live_open c s Hc Hk) as Ho.
  destruct (open_socket s c) as [id c']. destruct Ho as (-> & Hl & Hok & Hv). cbn.
  split; [done|]. exists c'. rewrite Hv. auto 6.
Qed.

(** Closing, after the socket was told to. *)
Lemma meets_removed now (call : core_call ()) h w c c1 id :
  ~ panics call (live c) -> ctx_ok c1 -> delete id (live c1) = delete id (live c) ->
  view c1 = view c ->
  (forall m', m' = delete id (live c) -> socket_spec call (next_id (ids c)) (live c) tt m') ->
  view_spec call (poll_view now c) (view c) tt (view c) ->
  meets now call h w c (Some (tt, <[h := remove_socket id c1]> w)).
Proof.
  intros Hp Hok Hl Hv Hspec Hview. destruct (live_remove c1 id Hok) as (Hr & Hok' & Hv').
  split; [done|]. eexists. split; [done|]. split; [done|]. rewrite Hv', Hv. split; [|done].
  apply Hspec. by rewrite Hr.
Qed.

Lemma meets_tcp_close now h h' w c id f :
  ctx_ok c ->
  meets now (Smoltcp_tcp_close h' id) h w c
    ('(r, c') ← '(_, c') ← with_tcp tt id f c; Some (tt, remove_socket id c'); Some (r, <[h := c']> w)).
Proof.
  intros Hc. pose proof (with_tcp_spec tt id f c Hc) as Hw.
  destruct (live c !! id) as [[s|s|s]|] eqn:Hid; [|rewrite Hw; by eexists..|].
  - destruct Hw as (c' & -> & Hl & Hok & Hv). apply meets_removed; try done;
      [cbn; rewrite Hid; by intros (? & [= <-] & ?)|by rewrite Hl, delete_insert_eq].
  - rewrite Hw. apply meets_removed; try done. cbn. rewrite Hid. by intros (? & ? & _).
Qed.

Lemma meets_udp_close now h h' w c id f :
  ctx_ok c ->
  meets now (Smoltcp_udp_close h' id) h w c
    ('(r, c') ← '(_, c') ← with_udp tt id f c; Some (tt, remove_socket id c'); Some (r, <[h := c']> w)).
Proof.
  intros Hc. pose proof (with_udp_spec tt id f c Hc) as Hw.
  destruct (live c !! id) as [[s|s|s]|] eqn:Hid; [rewrite Hw; by eexists| |rewrite Hw; by eexists|].
  - destruct Hw as (c' & -> & Hl & Hok & Hv). apply meets_removed; try done;
      [cbn; rewrite Hid; by intros (? & [= <-] & ?)|by rewrite Hl, delete_insert_eq].
  - rewrite Hw. apply meets_removed; try done. cbn. rewrite Hid. by intros (? & ? & _).
Qed.

Lemma random_port rand : 49152 <= u16 (49152 + u16 (Z.land rand 16383)) < 65536.
Proof.
  change 16383 with (Z.ones 14). rewrite Z.land_ones by done.
  pose proof (Z.mod_pos_bound rand (2 ^ 14)). rewrite (u16_small (rand mod _)) by lia.
  rewrite u16_small; lia.
Qed.

(** Connecting also lets smoltcp change the interface. *)
Lemma meets_connect now rand h h' w c id dst port local :
  ctx_ok c ->
  meets now (Smoltcp_tcp_connect h' id dst port local) h w c
    ('(r, c') ← ctx_tcp_connect rand id dst port local c; Some (r, <[h := c']> w)).
Proof.
  intros Hc. unfold ctx_tcp_connect.
  destruct (lookup_id id (ids c)) as [sh|] eqn:Hid.
  2:{ apply meets_same; try done; cbn; rewrite ?live_lookup, ?Hid; [by intros (? & ? & _)|].
      exists (iface c), (if local =? 0 then 49152 else local). unfold at_tcp.
      rewrite live_lookup, Hid. split; [|done]. case_match; [lia|done]. }
  destruct (co_live _ Hc id sh Hid) as (s0 & Hs0 & Hk). rewrite Hs0.
  assert (Hm : live c !! id = Some s0) by (by rewrite live_lookup, Hid).
  destruct s0 as [s|s|s]; [|cbn; rewrite Hm; eexists; by split..].
  set (local' := if local =? 0 then u16 (49152 + u16 (Z.land rand 16383)) else local).
  pose proof (connect_addrs (iface c) (ipv4_from_be dst) port local' s) as Ha.
  destruct (tcp_connect (iface c) (ipv4_from_be dst) port local' s) as [[ok s'] i] eqn:Hcon.
  destruct (live_put c id sh (AnyTcp s) (AnyTcp s') Hc Hid Hs0 ltac:(done)) as (Hl & Hok & Hv).
  cbn [mbind option_bind]. split; [cbn; rewrite Hm; by intros (? & [= <-] & ?)|].
  eexists. split; [done|]. split; [by apply ctx_ok_iface|]. split; [|by apply view_same].
  exists (iface c), local'. unfold at_tcp. rewrite Hm, Hcon. split; [|by split].
  unfold local'. case_match; [|done]. apply random_port.
Qed.

(** Opening a UDP socket binds it first, and fails without adding it. *)
Lemma meets_udp_open now h h' w c port :
  ctx_ok c ->
  meets now (Smoltcp_udp_open h' port) h w c
    ('(r, c') ← (let s := udp_new UDP_META UDP_RX UDP_TX in
                 if port =? 0 then Some (open_socket (AnyUdp s) c)
                 else let (ok, s) := udp_bind port s in
                      if ok then Some (open_socket (AnyUdp s) c) else Some (0, c));
     Some (r, <[h := c']> w)).
Proof.
  intros Hc. cbn zeta. destruct (port =? 0) eqn:Hp.
  - apply meets_open; try done; [by intros []|]. cbn. rewrite Hp. by intros m' ->.
  - destruct (udp_bind port (udp_new UDP_META UDP_RX UDP_TX)) as [[] s] eqn:Hb.
    + apply meets_open; try done; [by intros []|]. cbn. rewrite Hp, Hb. by intros m' ->.
    + apply meets_same; try done; [by intros []|]. cbn. by rewrite Hp, Hb.
Qed.

Lemma meets_set_static now h h' w c ip prefix gw :
  ctx_ok c -> 0 <= ip < 4294967296 ->
  meets now (Smoltcp_iface_set_static h' ip prefix gw) h w c
    ('(r, c') ← c ← ctx_set_static ip prefix gw c; Some (tt, c); Some (r, <[h := c']> w)).
Proof.
  intros Hc Hip. destruct (decide (static_ok ip prefix)) as [Hs|Hs].
  - destruct (set_static_ok ip prefix gw c Hc Hs Hip) as (c' & -> & [Hok Hl] & _ & Hv).
    apply meets_same; try done. by intros [].
  - by rewrite set_static_panics.
Qed.

(** Joining and leaving a group. *)
Lemma meets_mcast now (call : core_call Z) h w c (r : bool * Interface) :
  ctx_ok c -> ~ panics call (live c) -> ip_addrs r.2 = ip_addrs (iface c) ->
  socket_spec call (next_id (ids c)) (live c) (ok_code r.1) (live c) ->
  view_spec call (poll_view now c) (view c) (ok_code r.1) (view c) ->
  meets now call h w c
    ('(r, c') ← (let (ok, i) := r in Some (ok_code ok, set_iface i c)); Some (r, <[h := c']> w)).
Proof.
  intros Hc Hp Ha Hs Hv. destruct r as [ok i]. apply meets_same; try done; [by apply ctx_ok_iface|].
  by rewrite (view_same c (set_iface i c)).
Qed.

Ltac same_ctx := apply meets_same; try done; try (by intros []).

(** The resolver returns, and keeps which sockets there are. *)
Definition resolver_ok (resolve : string -> Z -> Z -> iface_ctx -> option ((Z * Z) * iface_ctx)) : Prop :=
  forall name server ms c, ctx_ok c ->
    exists r c', resolve name server ms c = Some (r, c') /\ ctx_ok c' /\ same_kinds (live c) (live c').

(** The resolver also leaves the counter of ids. *)
Definition resolver_keeps (resolve : string -> Z -> Z -> iface_ctx -> option ((Z * Z) * iface_ctx)) : Prop :=
  resolver_ok resolve /\ forall name server ms c r c', ctx_ok c -> resolve name server ms c = Some (r, c') ->
    next_id (ids c') = next_id (ids c).

(** Every branch of [core_answer] meets the contract. *)
Lemma core_meets now rand resolve {X} (call : core_call X) h w c :
  resolver_ok resolve ->
  call_iface call = Some h -> h <> NULL -> w !! h = Some c -> ctx_ok c -> call_ok call ->
  meets now call h w c (core_answer now rand resolve call w).
Proof.
  intros Hres Hh Hnull Hw Hc Hcall. pose proof (is_null_ne _ Hnull) as Hn.
  destruct call; cbn in Hh; simplify_eq; cbn [core_answer]; autounfold with core_functions;
    rewrite (on_ctx_some _ _ _ _ _ Hn Hw); cbn [mbind option_bind];
    try (by same_ctx);
    try (by apply meets_tcp; cbn; eauto); try (by apply meets_udp; cbn; eauto).
  - same_ctx. by apply ctx_ok_dev.
  - destruct (ctx_poll_ok now c Hc) as (out & c' & -> & Hok & Hk & Hv). by apply meets_next; [|intros []| |].
  - same_ctx. by apply ctx_ok_dev.
  - same_ctx. cbn. by rewrite live_size.
  - by apply meets_set_static.
  - destruct (enable_dhcp_ok c Hc) as (Hok & Hl & _ & Hv). by same_ctx.
  - apply meets_mcast; try done; [by intros []|apply join_addrs].
  - apply meets_mcast; try done; [by intros []|apply leave_addrs].
  - apply (meets_open _ (Smoltcp_tcp_open h)); try done. by intros [].
  - by apply meets_connect.
  - by apply meets_tcp_close.
  - by apply (meets_udp_open _ h).
  - by apply meets_udp_close.
  - destruct (Hres name server_be timeout_ms c Hc) as (r & c' & -> & Hok & Hk).
    by apply meets_next; [|intros []| |].
Qed.

(** C5. Every call of the C surface on an interface does to it what the contract
    says: it panics exactly when it is on an id whose socket is of the other
    type, or is a static configuration with a prefix over 32 or an address that
    is no unicast one; otherwise the map from ids to sockets, the addresses
    reported and the answer are those of [socket_spec] and [view_spec], an id
    that is not open answers the error value and changes nothing, no other
    interface changes, and the invariant of ids and handles holds again. Of the
    resolver it is assumed that it keeps the sockets; [CoreResolve] shows that of
    [smoltcp_resolve]. *)
Theorem core_refines_map now rand resolve {X} (call : core_call X) h w c :
  resolver_ok resolve ->
  call_iface call = Some h -> h <> NULL -> w !! h = Some c -> ctx_ok c -> call_ok call ->
  meets now call h w c (core_answer now rand resolve call w).
Proof. apply core_meets. Qed.
End contract.

(** ** Polling over time *)

Section polling.
Context `{SmoltcpLaws}.
Implicit Types (c : iface_ctx).

(** Polls at the times [nows]: the DHCP events met on the way. *)
Fixpoint poll_run (nows : list Z) c : option (list (option dhcp_event) * iface_ctx) :=
  match nows with
  | [] => Some ([], c)
  | now :: nows =>
      '(_, c') ← ctx_poll now c;
      '(evs, c'') ← poll_run nows c';
      Some (poll_event now c :: evs, c'')
  end.

(** The last event decides what is reported. *)
Lemma last_event evs v :
  fold_left (fun v ev => lease_view ev v) evs v = lease_view (last (omap id evs)) v.
Proof.
  revert v. induction evs as [|ev evs IH]; intros v; [done|]. cbn [fold_left]. rewrite IH.
  destruct ev as [ev|]; [|done]. cbn. destruct (omap id evs) as [|e es] eqn:He; [done|].
  change (last (ev :: e :: es)) with (last (e :: es)).
  destruct (last (e :: es)) as [e'|] eqn:Hl; [|by apply last_None in Hl]. by destruct e', ev.
Qed.

(** C32. An interface that gets its address by DHCP reports, after any number of
    polls, what the last event of its DHCP socket said: the address, the mask
    of the prefix and the router of a lease, all zero and not up once the lease
    is lost; its IPv6 address stays, and no poll panics. *)
Theorem lease_history nows c :
  ctx_ok c -> is_Some (dhcp c) ->
  exists evs c', poll_run nows c = Some (evs, c') /\ length evs = length nows /\ ctx_ok c' /\
    view c' = lease_view (last (omap id evs)) (view c).
Proof.
  revert c. induction nows as [|now nows IH]; intros c Hc [dh Hdh]; [by eexists _, _|].
  destruct (ctx_poll_ok now c Hc) as (out & c1 & Hp & Hok & _ & Hv).
  pose proof (ctx_poll_dhcp _ _ _ _ Hp) as Hd.
  destruct (IH c1 Hok) as (evs & c' & Hr & Hlen & Hok' & Hv'); [by rewrite Hd, Hdh|].
  exists (poll_event now c :: evs), c'. cbn [poll_run]. rewrite Hp. cbn [mbind option_bind]. rewrite Hr.
  split; [done|]. split; [cbn; by rewrite Hlen|]. split; [done|].
  rewrite <- last_event. cbn [fold_left]. rewrite last_event, Hv', Hv. unfold poll_view. by rewrite Hdh.
Qed.

Lemma poll_run_static nows c :
  ctx_ok c -> dhcp c = None -> existsb is_v4 (ip_addrs (iface c)) = true -> v_up (view c) = true ->
  exists evs c', poll_run nows c = Some (evs, c') /\ view c' = view c.
Proof.
  revert c. induction nows as [|now nows IH]; intros c Hc Hd Hv4 Hup; [by eexists _, _|].
  destruct (ctx_poll_ok now c Hc) as (out & c1 & Hp & Hok & _ & Hv).
  pose proof (ctx_poll_addrs _ _ _ _ Hd Hp) as Ha. pose proof (ctx_poll_dhcp _ _ _ _ Hp) as Hd1.
  assert (Hsame : view c1 = view c).
  { rewrite Hv. unfold poll_view. rewrite Hd, Hv4. destruct (view c). cbn in *. by subst. }
  destruct (IH c1) as (evs & c' & Hr & Hv'); [done|by rewrite Hd1|by rewrite Ha|by rewrite Hsame|].
  eexists _, c'. cbn [poll_run]. rewrite Hp. cbn [mbind option_bind]. rewrite Hr.
  split; [done|]. by rewrite Hv'.
Qed.

(** C33. A static configuration is what the interface reports from then on: the
    address, the mask and the gateway given (the gateway there was before, when
    none is given), whatever leases are offered: polling changes none of it. *)
Theorem static_survives ip prefix gw nows c :
  ctx_ok c -> static_ok ip prefix -> 0 <= ip < 4294967296 ->
  exists c1 evs c', ctx_set_static ip prefix gw c = Some c1 /\ poll_run nows c1 = Some (evs, c') /\
    live c1 = live c /\ view c1 = static_view ip prefix gw (view c) /\ view c' = view c1.
Proof.
  intros Hc Hs Hip.
  destruct (set_static_ok ip prefix gw c Hc Hs Hip) as (c1 & Hset & [Hok Hl] & [Hd Hv4] & Hv).
  destruct (poll_run_static nows c1) as (evs & c' & Hr & Hv'); try done; [by rewrite Hv|].
  by exists c1, evs, c'.
Qed.
End polling.

(** ** An implementation of the interface to smoltcp

    Sockets that hold what was sent, a DHCP socket that gets a lease at its second
    poll and loses it at its fourth, an interface of addresses. It shows that the
    laws are consistent, and is what the witnesses run. *)

Module Small.

Record sock := Sock { queue : list Z; is_open : bool }.

#[export] Instance types : SocketTypes := { TcpSocket := sock; UdpSocket := sock; DhcpSocket := nat }.

Record small_iface := SmallIface { addrs : list cidr; route : option (list Z) }.

Definition unicast (c : cidr) : bool :=
  match c with
  | CidrV4 octets _ => octets !!! 0%nat <? 224
  | CidrV6 octets _ => octets !!! 0%nat <? 255
  end.

Definition update (f : list cidr -> list cidr) (i : small_iface) : option small_iface :=
  if forallb unicast (f (addrs i)) then Some (SmallIface (f (addrs i)) (route i)) else None.

Definition lease_steps (stage : nat) : option dhcp_event :=
  match stage with
  | 1%nat => Some (Configured [192; 168; 1; 50] 24 (Some [192; 168; 1; 1]))
  | 3%nat => Some Deconfigured
  | _ => None
  end.

#[export] Instance impl : Smoltcp := {
  SocketSet := gmap nat any_socket;
  Interface := small_iface;
  set_new := ∅;
  set_add s ss := (fresh (dom ss), <[fresh (dom ss) := s]> ss);
  set_get h ss := ss !! h;
  set_put h s ss := <[h := s]> ss;
  set_remove h ss := delete h ss;
  tcp_new _ _ := Sock [] false;
  tcp_connect i _ _ _ s := (true, Sock (queue s) true, i);
  tcp_listen _ s := (negb (is_open s), Sock (queue s) true);
  tcp_send_slice bs s := if is_open s then (Some (Z.of_nat (length bs)), Sock (queue s ++ bs) true) else (None, s);
  tcp_recv_slice n s := (Some (take (Z.to_nat n) (queue s)), Sock (drop (Z.to_nat n) (queue s)) (is_open s));
  tcp_is_active s := is_open s;
  tcp_may_recv s := is_open s;
  tcp_may_send s := is_open s;
  tcp_can_send s := is_open s;
  tcp_recv_queue s := Z.of_nat (length (queue s));
  tcp_send_capacity _ := 49152;
  tcp_send_queue s := Z.of_nat (length (queue s));
  tcp_close s := Sock (queue s) false;
  udp_new _ _ _ := Sock [] false;
  udp_bind port s := (negb (port =? 0), Sock (queue s) true);
  udp_send_slice bs _ _ s := (is_open s, Sock (queue s ++ bs) (is_open s));
  udp_recv_slice _ s := (None, s);
  udp_close s := Sock [] false;
  dhcp_new := 0%nat;
  dhcp_poll s := (lease_steps s, S s);
  iface_new _ _ d := (SmallIface [] None, d);
  iface_poll _ i d ss := (i, EspDevice None (dev_link_up d), ss, []);
  poll_delay _ _ _ := Some 10000;
  ip_addrs := addrs;
  ipv4_addr i := match List.find is_v4 (addrs i) with Some (CidrV4 octets _) => Some octets | _ => None end;
  ipv4_cidr_new octets p := if p <=? 32 then Some (CidrV4 octets p) else None;
  addr_unicast := unicast;
  update_ip_addrs := update;
  push_addr c l := if (length l <? 2)%nat then l ++ [c] else l;
  add_default_ipv4_route gw i := SmallIface (addrs i) (Some gw);
  remove_default_ipv4_route i := SmallIface (addrs i) None;
  join_multicast_group _ i := (true, i);
  leave_multicast_group _ i := (true, i);
}.

#[export] Instance laws : SmoltcpLaws.
Proof.
  split; try done; cbn.
  - intros s ss. apply not_elem_of_dom, is_fresh.
  - intros s ss h. case_decide; subst; [apply lookup_insert_eq|by apply lookup_insert_ne].
  - intros sh s ss h _. case_decide; subst; [apply lookup_insert_eq|by apply lookup_insert_ne].
  - intros sh ss h. case_decide; subst; [apply lookup_delete_eq|by apply lookup_delete_ne].
  - intros f i. unfold update. by case_match.
  - intros s address p router Hs. destruct s as [|[|[|[|s]]]]; inv Hs. split; [done|lia].
  - intros a l Hl. by destruct (Nat.leb_spec (length l) 1); [|lia].
Qed.

(** No name resolves. *)
Definition resolve (name : string) (server ms : Z) (c : iface_ctx) : option ((Z * Z) * iface_ctx) :=
  Some ((-1, 0), c).

Definition answer {X} (call : core_call X) (w : gmap ptr iface_ctx) : option (X * gmap ptr iface_ctx) :=
  core_answer 0 7 resolve call w.

(** An interface with DHCP enabled and one TCP socket. *)
Definition started : option iface_ctx :=
  c ← iface_ctx_new 0 [2; 0; 0; 1; 2; 3] 0;
  Some (open_socket (AnyTcp (tcp_new TCP_RX TCP_TX)) (ctx_enable_dhcp c)).2.

Lemma started_ok : exists c, started = Some c /\ ctx_ok c.
Proof.
  destruct (iface_ctx_new_ok 0 [2; 0; 0; 1; 2; 3] 0) as (c0 & Hnew & Hok & _).
  destruct (enable_dhcp_ok c0 Hok) as (Hok1 & _).
  pose proof (live_open _ (AnyTcp (tcp_new TCP_RX TCP_TX)) Hok1 ltac:(done)) as Ho.
  unfold started. rewrite Hnew. cbn [mbind option_bind].
  destruct (open_socket _ (ctx_enable_dhcp c0)) as [id c]. exists c. split; [done|apply Ho].
Qed.

(** What is seen of [started] after [f]. *)
Definition see {A} (f : iface_ctx -> option A) : option A := c ← started; f c.

End Small.
Import Small.

(** A first send on a socket that is not connected. *)
Lemma core_refines_map_witness :
  match Small.started with
  | Some c => let call := Smoltcp_tcp_send 5 1 [104; 105] in
      meets 0 call 5 {[5 := c]} c (core_answer 0 7 Small.resolve call {[5 := c]})
  | None => False
  end /\
  Small.see (fun c => fst <$> core_answer 0 7 Small.resolve (Smoltcp_tcp_open 5) {[5 := c]}) = Some 2 /\
  Small.see (fun c => fst <$> core_answer 0 7 Small.resolve (Smoltcp_udp_close 5 1) {[5 := c]}) = None.
Proof.
  split; [|by vm_compute]. destruct Small.started_ok as (c & -> & Hc).
  apply core_refines_map; try done.
  intros name server ms c' Hc'. by exists (-1, 0), c'.
Defined.

Lemma lease_history_witness :
  match Small.started with
  | Some c => exists evs c', poll_run [1; 2; 3] c = Some (evs, c') /\ length evs = 3%nat /\ ctx_ok c' /\
      view c' = lease_view (last (omap id evs)) (view c)
  | None => False
  end /\
  Small.see (fun c => (fun r => view r.2) <$> poll_run [1; 2; 3] c) =
    Some (AddrView true (ipv4_to_be [192; 168; 1; 50]) (ipv4_to_be [255; 255; 255; 0])
            (ipv4_to_be [192; 168; 1; 1]) (Some [254; 128; 0; 0; 0; 0; 0; 0; 0; 0; 0; 255; 254; 1; 2; 3])).
Proof.
  split; [|by vm_compute].
  assert (Hd : exists c, Small.started = Some c /\ ctx_ok c /\ is_Some (dhcp c)).
  { destruct Small.started_ok as (c & Hs & Hc). exists c. split_and!; [done..|].
    assert (Small.see dhcp = Some 0%nat) as Hd by (by vm_compute). unfold Small.see in Hd.
    rewrite Hs in Hd. cbn in Hd. by rewrite Hd. }
  destruct Hd as (c & -> & Hc & Hd). by apply lease_history.
Defined.

Lemma static_survives_witness :
  match Small.started with
  | Some c => exists c1 evs c',
      ctx_set_static (ipv4_to_be [10; 0; 0; 2]) 8 0 c = Some c1 /\ poll_run [1; 2; 3] c1 = Some (evs, c') /\
      live c1 = live c /\
      view c1 = static_view (ipv4_to_be [10; 0; 0; 2]) 8 0 (view c) /\ view c' = view c1
  | None => False
  end /\
  Small.see (fun c => ctx_set_static (ipv4_to_be [10; 0; 0; 2]) 33 0 c) = None.
Proof.
  split; [|by vm_compute]. destruct Small.started_ok as (c & -> & Hc).
  apply static_survives; [done|by split|done].
Defined.
