(* ===== verification/CoreResolve.v ===== *)
(** * The resolver inside the core

    [Resolver] has [smoltcp_resolve] of [dns.rs] over calls; here those calls are
    answered by an interface of [Core], as the Rust code makes them: on the
    socket set, the interface and the device of its [IfaceCtx]. So run, the
    resolver is one that [core_refines_map] asks for. *)

From S2P Require Import Prelude Prog Ipv4 Dns Resolver Types Platform Device Core CoreSpec.

Section resolve.
Context `{SmoltcpLaws}.

(** The readings of the clock during a call, the random number, and how many
    turns of the loop to run for a timeout. *)
Context (ticks : nat -> Z) (rand32 : Z) (turns : Z -> nat).
Implicit Types (c : iface_ctx).

(** What [smoltcp_resolve] works on: the interface, its own socket until that is
    put into the set, and the clock; [get_mut] on no or another socket panics. *)
Record resolving := Resolving {
  rv_ctx : iface_ctx;
  rv_sock : UdpSocket;
  rv_reads : nat;
  rv_panic : bool;
}.

Definition glue_answer (X : Type) (g : glue_call X) (e : resolving) : X * resolving :=
  let '(Resolving c s n p) := e in
  match g in glue_call X return X * resolving with
  | Glue_rand32 => (rand32, e)
  | Now => (ticks n, Resolving c s (S n) p)
  | Udp_bind port => let (ok, s) := udp_bind port s in (negb ok, Resolving c s n p)
  | Udp_send_slice data addr port =>
      let (ok, s) := udp_send_slice data addr port s in (negb ok, Resolving c s n p)
  | Sockets_add =>
      let (h, ss) := set_add (AnyUdp s) (sockets c) in (Z.of_nat h, Resolving (set_sockets ss c) s n p)
  | Iface_poll now =>
      let '(i, d, ss, _) := iface_poll now (iface c) (dev c) (sockets c) in
      (tt, Resolving (set_sockets ss (set_dev d (set_iface i c))) s n p)
  | Udp_recv_slice h =>
      match set_get (Z.to_nat h) (sockets c) with
      | Some (AnyUdp u) =>
          let (r, u) := udp_recv_slice 512 u in
          ((fun d => d.1.1) <$> r,
           Resolving (set_sockets (set_put (Z.to_nat h) (AnyUdp u) (sockets c)) c) s n p)
      | _ => (None, Resolving c s n true)
      end
  | Sockets_remove h => (tt, Resolving (set_sockets (set_remove (Z.to_nat h) (sockets c)) c) s n p)
  end.

(** [udp::Socket::new] with 2 packets and 512 bytes each way. *)
Definition resolver_socket : UdpSocket := udp_new 2 512 512.

(** A call on an interface: neither pointer is null, and [*out_be] starts at 0. *)
Definition resolve_on (name : string) (server ms : Z) c : option ((Z * Z) * iface_ctx) :=
  '(r, out, e) ← run glue_answer (Resolver.smoltcp_resolve (turns ms) 1 (Some name) server ms 1) 0
                   (Resolving c resolver_socket 0 false);
  if rv_panic e then None else Some ((r, out), rv_ctx e).

(** What is relied on: a datagram is bytes, no more than there is room for; and
    the clock has passed the deadline at the end of some turn. *)
Hypothesis recv_bytes : forall u data src port,
  (udp_recv_slice 512 u).1 = Some (data, src, port) -> Forall byte_ok data /\ Z.of_nat (length data) <= 512.

Hypothesis ticks_late : forall ms, exists n, (n < turns ms)%nat /\ ticks 0 + ms * 1000 <= ticks (2 * n + 2).

(** Of an interface: nothing but the sockets' state and the device have changed,
    and the socket [h] is the resolver's. *)
Record along (h : nat) c c' : Prop := {
  al_ids : ids c' = ids c;
  al_dhcp : dhcp c' = dhcp c;
  al_addrs : ip_addrs (iface c') = ip_addrs (iface c);
  al_own : kind_of <$> set_get h (sockets c') = Some KUdp;
  al_kinds k : k <> h -> kind_of <$> set_get k (sockets c') = kind_of <$> set_get k (sockets c);
}.

Lemma along_add s c :
  let (h, ss) := set_add (AnyUdp s) (sockets c) in
  set_get h (sockets c) = None /\ along h c (set_sockets ss c).
Proof.
  pose proof (set_get_fresh (AnyUdp s) (sockets c)) as Hf. pose proof (set_get_add (AnyUdp s) (sockets c)) as Ha.
  destruct (set_add (AnyUdp s) (sockets c)) as [h ss]. cbn in *. split; [done|]. split; try done; cbn.
  - by rewrite Ha, decide_True.
  - intros k Hk. by rewrite Ha, decide_False.
Qed.

Lemma along_poll h c c' now :
  along h c c' ->
  let '(i, d, ss, _) := iface_poll now (iface c') (dev c') (sockets c') in
  along h c (set_sockets ss (set_dev d (set_iface i c'))).
Proof.
  intros [Hi Hd Ha Ho Hk].
  pose proof (poll_kinds now (iface c') (dev c') (sockets c')) as Hp.
  pose proof (poll_addrs now (iface c') (dev c') (sockets c')) as Hpa.
  destruct (iface_poll _ _ _ _) as [[[i d] ss] out]. cbn in *.
  split; cbn; [done|done|congruence|by rewrite Hp|]. intros k Hne. rewrite Hp. by apply Hk.
Qed.

Lemma along_put h c c' u u' :
  along h c c' -> set_get h (sockets c') = Some (AnyUdp u) ->
  along h c (set_sockets (set_put h (AnyUdp u') (sockets c')) c').
Proof.
  intros [Hi Hd Ha Ho Hk] Hu.
  split; try done; cbn; [|intros k Hne]; rewrite set_get_put by eauto; case_decide; auto; congruence.
Qed.

Lemma along_own h c c' : along h c c' -> exists u, set_get h (sockets c') = Some (AnyUdp u).
Proof.
  intros [_ _ _ Ho _]. destruct (set_get h (sockets c')) as [[s|s|s]|]; try done. eauto.
Qed.

(** Once it is removed every socket is there as before. *)
Lemma along_remove h c c' :
  ctx_ok c -> set_get h (sockets c) = None -> along h c c' ->
  let c'' := set_sockets (set_remove h (sockets c')) c' in ctx_ok c'' /\ same_kinds (live c) (live c'').
Proof.
  intros Hok Hf [Hi Hd Ha Ho Hk] c''. apply ctx_ok_kinds; try done.
  - cbn. rewrite Ha. apply Hok.
  - intros k. cbn. rewrite set_get_remove. case_decide; [by subst; rewrite Hf|by apply Hk].
Qed.

(** A turn of the loop. *)
Lemma wp_poll_recv h c c' s n (k : option (list Z) -> prog Z glue_call (option (list Z))) out Q :
  along h c c' ->
  (forall r c' , along h c c' -> (forall pkt, r = Some pkt -> Forall byte_ok pkt /\ Z.of_nat (length pkt) <= 512) ->
     wp glue_answer (k r) out (Resolving c' s (S n) false) Q) ->
  wp glue_answer (now ← call Now; call (Iface_poll now);; r ← call (Udp_recv_slice (Z.of_nat h)); k r)
    out (Resolving c' s n false) Q.
Proof.
  intros Hal Hk. rewrite !wp_call. cbn [glue_answer fst snd].
  pose proof (along_poll h c c' (ticks n) Hal) as Hp.
  destruct (iface_poll _ _ _ _) as [[[i d] ss] fr]. cbn [fst snd glue_answer].
  set (c1 := set_sockets ss _) in *. rewrite Nat2Z.id. destruct (along_own _ _ _ Hp) as [u Hu].
  rewrite Hu. pose proof (recv_bytes u) as Hb. destruct (udp_recv_slice 512 u) as [r u'] eqn:Hr. cbn [fst snd] in *.
  apply Hk; [by eapply along_put|]. intros pkt Hpkt. destruct r as [[[data src] port]|]; [|done].
  cbn in Hpkt. injection Hpkt as <-. by eapply Hb.
Qed.

Lemma wp_await_core fuel N h id deadline c c' s n out :
  along h c c' -> (N < fuel)%nat -> deadline <= ticks (S (2 * N + n)) ->
  wp glue_answer (await_answer fuel (Z.of_nat h) id deadline) out (Resolving c' s n false)
    (fun _ _ e => exists c', along h c c' /\ rv_ctx e = c' /\ rv_panic e = false).
Proof.
  revert N n c'. induction fuel as [|fuel IH]; intros N n c' Hal HN Hlate; [lia|]. cbn [await_answer].
  apply (wp_poll_recv h c); [done|]. intros r c1 Hal1 Hr.
  assert (Hcheck : wp glue_answer
    (now ← call Now; if deadline <=? now then mret None else await_answer fuel (Z.of_nat h) id deadline)
    out (Resolving c1 s (S n) false)
    (fun _ _ e => exists c', along h c c' /\ rv_ctx e = c' /\ rv_panic e = false)).
  { rewrite wp_call. cbn [glue_answer fst snd]. case_test; [by exists c1|].
    destruct N as [|N]; [cbn in Hlate; lia|]. apply (IH N); [done|lia|].
    by replace (2 * N + S (S n))%nat with (2 * S N + n)%nat by lia. }
  destruct r as [pkt|]; [|done]. destruct (Hr pkt eq_refl) as [Hb Hl].
  destruct (parse_returns pkt id Hb ltac:(unfold Dns.len; lia)) as ([addr|] & -> & _); [|done]. by exists c1.
Qed.

(** The resolver keeps which sockets there are, and the counter of ids. *)
Lemma resolve_on_keeps name server ms c :
  ctx_ok c -> exists r c', resolve_on name server ms c = Some (r, c') /\ ctx_ok c' /\
    same_kinds (live c) (live c') /\ ids c' = ids c.
Proof.
  intros Hok. unfold resolve_on.
  assert (Hwp : wp glue_answer (Resolver.smoltcp_resolve (turns ms) 1 (Some name) server ms 1) 0
    (Resolving c resolver_socket 0 false) (fun _ _ e => rv_panic e = false /\
      ctx_ok (rv_ctx e) /\ same_kinds (live c) (live (rv_ctx e)) /\ ids (rv_ctx e) = ids c)).
  2:{ apply wp_run in Hwp as (r & out & e & -> & Hp & ?). cbn [mbind option_bind]. rewrite Hp. eauto. }
  assert (Hsame : same_kinds (live c) (live c)) by done.
  unfold Resolver.smoltcp_resolve. change (is_null 1) with false. cbn [orb].
  destruct (negb _); [done|]. destruct (parse_ipv4_addr name); [done|]. rewrite wp_call.
  destruct (build_query _ name) as [query|]; [|done]. rewrite !wp_call. cbn [glue_answer fst snd].
  destruct (udp_bind _ resolver_socket) as [[] s]; cbn [negb fst snd]; [|done]. rewrite wp_call. cbn [glue_answer].
  destruct (udp_send_slice _ _ _ s) as [[] s']; cbn [negb fst snd]; [|done]. rewrite !wp_call. cbn [glue_answer].
  pose proof (along_add s' c) as Ha. destruct (set_add (AnyUdp s') (sockets c)) as [h ss]. destruct Ha as [Hf Hal].
  cbn [fst snd]. rewrite wp_bind. destruct (ticks_late ms) as (N & HN & Hlate).
  wp_use (wp_await_core _ N h); [exact Hal|done|by replace (S (2 * N + 1)) with (2 * N + 2)%nat by lia|].
  intros r out [c' s1 n p] (? & Hal' & <- & Hp). cbn [rv_ctx rv_panic] in *. subst p.
  rewrite wp_call. cbn [glue_answer fst snd]. rewrite Nat2Z.id.
  destruct (along_remove h c c' Hok Hf Hal'). destruct r; cbn; (split_and!; [done..|apply Hal']).
Qed.

Lemma resolve_on_resolver : resolver_keeps resolve_on.
Proof.
  split.
  - intros name server ms c Hok. destruct (resolve_on_keeps name server ms c Hok) as (r & c' & ? & ? & ? & _). eauto.
  - intros name server ms c r c' Hok Hr.
    destruct (resolve_on_keeps name server ms c Hok) as (r1 & c1 & Hr1 & _ & _ & Hids).
    rewrite Hr1 in Hr. injection Hr as <- <-. by rewrite Hids.
Qed.
End resolve.
