(* ===== verification/Loopback.v ===== *)
(** * In-process UDP loopback

    [components/esp_smoltcp_lwip_compat/src/loopback.c]: datagrams to 127.0.0.0/8
    go from the sender to the queue of the socket bound to the port. A
    [fd_entry_t *] is an index into [s_table]; a [lo_msg_t *] is an address of
    [lo_heap], which [malloc] and [free] extend and shrink. *)

From S2P Require Import Prelude Prog Types Platform Sim.

(** [(ip_be & 0xFF) == 127]: the first octet in memory. *)
Definition is_loopback_ip (ip_be : Z) : bool := Z.land ip_be 255 =? 127.

Definition UINT16_MAX : Z := 65535.

(** [sizeof(lo_msg_t)], without the flexible array. *)
Definition lo_msg_size : Z := 8.

(** The loops over [s_slots] that stop at the first slot satisfying their test. *)
Definition find_slot (P : lo_slot -> Prop) `{!∀ s, Decision (P s)} (g : globals) : option nat :=
  fst <$> list_find P (s_slots (lo g)).

Definition upd_slot (i : nat) (s : lo_slot) : globals -> globals :=
  upd_lo (fun l => set_s_slots (<[i := s]> (s_slots l)) l).

Section code.
Context {E : Type} `{!Platform E}.

Definition lock_init_once : cprog unit :=
  inited ← gets (fun g => lo_inited (lo g));
  if inited : bool then mret tt
  else
    m ← rtos (XSemaphoreCreateMutex M_lo);
    modify (upd_lo (set_lo_s_lock m));;
    modify (upd_lo (set_lo_inited true)).

(** The queue of the entry, created on first use; the answer is whether there
    is one. *)
Definition ensure_lo_rx (e : nat) : cprog bool :=
  q ← gets (fun g => lo_rx (entry_at e g));
  if is_null q then
    q ← rtos (XQueueCreate LO_QUEUE_DEPTH);
    modify (upd_entry e (set_lo_rx q));;
    mret (negb (is_null q))
  else mret true.

Definition lo_bind (p : Z) (e : option nat) : cprog esp_err :=
  match e with
  | None => mret ESP_ERR_INVALID_ARG
  | Some e =>
      if p =? 0 then mret ESP_ERR_INVALID_ARG
      else
        lock_init_once;;
        ok ← ensure_lo_rx e;
        if negb ok then mret ESP_ERR_NO_MEM
        else
          modify (upd_entry e (set_loopback true));;
          rtos (XSemaphoreTake M_lo);;
          (* the loop returns at the slot of the port, and otherwise has
             remembered the first free slot *)
          bound ← gets (find_slot (fun s => slot_port s = p));
          match bound with
          | Some i =>
              modify (upd_slot i (LoSlot p (Some e)));;
              rtos (XSemaphoreGive M_lo);;
              mret ESP_OK
          | None =>
              free_slot ← gets (find_slot (fun s => slot_port s = 0));
              match free_slot with
              | None =>
                  rtos (XSemaphoreGive M_lo);;
                  mret ESP_ERR_NO_MEM
              | Some i =>
                  modify (upd_slot i (LoSlot p (Some e)));;
                  rtos (XSemaphoreGive M_lo);;
                  mret ESP_OK
              end
          end
  end.

(** [free(m)] *)
Definition free_msg (m : ptr) : cprog unit :=
  modify (upd_lo (fun l => set_lo_heap (delete m (lo_heap l)) l));;
  idf (Free m).

(** [while (xQueueReceive(q, &m, 0) == pdTRUE) free(m);] *)
Fixpoint drain_lo (fuel : nat) (q : ptr) : cprog unit :=
  match fuel with
  | O => Spin
  | S fuel =>
      r ← rtos (XQueueReceive q 0);
      match r with
      | None => mret tt
      | Some m =>
          free_msg m;;
          drain_lo fuel q
      end
  end.

Definition lo_unbind (fuel : nat) (p : Z) (e : option nat) : cprog unit :=
  lock_init_once;;
  rtos (XSemaphoreTake M_lo);;
  for_each (seq 0 LO_PORT_SLOTS) (fun i =>
    s ← gets (fun g => s_slots (lo g) !!! i);
    if bool_decide (slot_port s = p /\ slot_fd s = e)
    then modify (upd_slot i lo_slot_zero) else mret tt);;
  rtos (XSemaphoreGive M_lo);;
  match e with
  | None => mret tt
  | Some e =>
      q ← gets (fun g => lo_rx (entry_at e g));
      if is_null q then mret tt else drain_lo fuel q
  end.

(** [buf] is not [NULL]. *)
Definition lo_deliver (dst_port src_be src_port : Z) (buf : list Z) : cprog Z :=
  let n := Z.of_nat (length buf) in
  if UINT16_MAX <? n then mret (-1)
  else
    lock_init_once;;
    rtos (XSemaphoreTake M_lo);;
    slot ← gets (find_slot (fun s => slot_port s = dst_port));
    target ← gets (fun g =>
      match slot with Some i => slot_fd (s_slots (lo g) !!! i) | None => None end);
    rtos (XSemaphoreGive M_lo);;
    match target with
    | None => mret (-1)
    | Some t =>
        q ← gets (fun g => lo_rx (entry_at t g));
        if is_null q then mret (-1)
        else
          m ← idf (Malloc (lo_msg_size + n));
          if is_null m then mret (-1)
          else
            modify (upd_lo (fun l =>
              set_lo_heap (<[m := LoMsg src_be src_port (u16 n) buf]> (lo_heap l)) l));;
            q ← gets (fun g => lo_rx (entry_at t g));
            sent ← rtos (XQueueSend q m 0);
            if negb sent then
              free_msg m;;
              mret (-1)
            else mret n
    end.
End code.

(** ** The slots as a finite map *)

Definition slots (g : globals) : list lo_slot := s_slots (lo g).

(** The receiver registered on port [p], for [p <> 0]. *)
Definition slot_lookup (ss : list lo_slot) (p : Z) : option nat :=
  '(_, s) ← list_find (fun s => slot_port s = p) ss; slot_fd s.

(** Well-formed tables: a free slot holds nothing, a used one an entry, and no
    port is used twice. *)
Record slots_wf (ss : list lo_slot) : Prop := {
  slots_unique i j s t :
    ss !! i = Some s -> ss !! j = Some t -> slot_port s = slot_port t -> slot_port s <> 0 -> i = j;
  slots_free i s : ss !! i = Some s -> slot_port s = 0 -> slot_fd s = None;
  slots_used i s : ss !! i = Some s -> slot_port s <> 0 -> is_Some (slot_fd s);
}.

Section table.
Implicit Types (ss : list lo_slot) (s t : lo_slot).

Lemma slot_lookup_at ss i s :
  slots_wf ss -> ss !! i = Some s -> slot_port s <> 0 ->
  slot_lookup ss (slot_port s) = slot_fd s.
Proof.
  intros Hwf Hi Hp. unfold slot_lookup.
  destruct (list_find_elem_of (fun t => slot_port t = slot_port s) ss s) as [[j t] Hf];
    [by eapply list_elem_of_lookup_2|done|].
  rewrite Hf. cbn. apply list_find_first in Hf as [Hj Ht].
  assert (j = i) as -> by (eapply (slots_unique _ Hwf); eauto; congruence). by simplify_eq.
Qed.

Lemma slot_lookup_none ss p :
  (forall i s, ss !! i = Some s -> slot_port s <> p) -> slot_lookup ss p = None.
Proof.
  intros H. unfold slot_lookup.
  destruct (list_find _ ss) as [[i s]|] eqn:Hf; [|done].
  apply list_find_first in Hf as [Hi Hs]. by destruct (H i s).
Qed.

(** Lookups and updates of other ports do not meet. *)
Lemma slot_lookup_insert_ne ss i s' p :
  (forall s, ss !! i = Some s -> slot_port s <> p) -> slot_port s' <> p ->
  slot_lookup (<[i := s']> ss) p = slot_lookup ss p.
Proof.
  intros Hold Hnew. unfold slot_lookup. revert i Hold.
  induction ss as [|s ss IH]; intros i Hold; [done|]. destruct i as [|i]; cbn.
  - specialize (Hold s eq_refl). by rewrite !decide_False.
  - case_decide; [done|]. specialize (IH i Hold).
    destruct (list_find _ (<[i:=s']> ss)) as [[??]|],
      (list_find _ ss) as [[??]|]; cbn in *; congruence.
Qed.

Lemma slots_wf_insert ss i s' :
  slots_wf ss -> (slot_port s' = 0 <-> slot_fd s' = None) ->
  (forall j t, j <> i -> ss !! j = Some t -> slot_port s' <> 0 -> slot_port t <> slot_port s') ->
  slots_wf (<[i := s']> ss).
Proof.
  intros [Hu Hf Hs] Hz Hne.
  destruct (decide (i < length ss)%nat) as [Hi|Hi];
    [|rewrite list_insert_ge by lia; by split].
  assert (Hlk : forall j t, <[i := s']> ss !! j = Some t ->
            j = i /\ t = s' \/ j <> i /\ ss !! j = Some t).
  { intros j t. destruct (decide (j = i)) as [->|Hj].
    - rewrite list_lookup_insert_eq by done. intros [= <-]. auto.
    - rewrite list_lookup_insert_ne by done. auto. }
  split.
  - intros j k t u Hj Hk Heq Hnz.
    apply Hlk in Hj as [[-> ->]|[??]]; apply Hlk in Hk as [[-> ->]|[??]]; eauto.
    + destruct (Hne k u); auto.
    + destruct (Hne j t); auto; congruence.
  - intros j t [[-> ->]|[? Hj]]%Hlk; [by apply Hz|eauto].
  - intros j t [[-> ->]|[? Hj]]%Hlk; [|eauto]. intros Hnz.
    destruct (slot_fd s'); [eauto|]. by destruct Hnz; apply Hz.
Qed.

Lemma slots_wf_zero : slots_wf (replicate LO_PORT_SLOTS lo_slot_zero).
Proof.
  split.
  - intros i j s t [-> _]%lookup_replicate. done.
  - by intros i s [-> _]%lookup_replicate.
  - by intros i s [-> _]%lookup_replicate.
Qed.
End table.

(** Registering [e] on [p], in the slot of [p] or, when there is none, in a free
    one, is insertion in the map. *)
Lemma slot_set_refines ss i s p e :
  slots_wf ss -> p <> 0 -> ss !! i = Some s ->
  slot_port s = p \/ (slot_port s = 0 /\ forall j t, ss !! j = Some t -> slot_port t <> p) ->
  let ss' := <[i := LoSlot p (Some e)]> ss in
  slots_wf ss' /\
  forall p', p' <> 0 -> slot_lookup ss' p' = if decide (p' = p) then Some e else slot_lookup ss p'.
Proof.
  intros Hwf Hp Hi Hs ss'. pose proof (lookup_lt_Some _ _ _ Hi) as Hlt.
  assert (Hother : forall j t, j <> i -> ss !! j = Some t -> slot_port t <> p).
  { intros j t Hj Ht Heq. destruct Hs as [<-|[_ Hno]]; [|by eapply Hno].
    apply Hj. by eapply (slots_unique _ Hwf); [eauto..|]; congruence. }
  assert (Hwf' : slots_wf ss').
  { apply slots_wf_insert; [done| |]; cbn.
    - split; [done|by intros [=]].
    - intros j t Hj Ht _. eauto. }
  split; [done|]. intros p' Hp'. case_decide as Heq; [subst p'|].
  - apply (slot_lookup_at ss' i (LoSlot p (Some e))); [done| |done].
    by apply list_lookup_insert_eq.
  - apply slot_lookup_insert_ne.
    + intros t Ht. simplify_eq. destruct Hs as [?|[? _]]; congruence.
    + cbn. congruence.
Qed.

(** Freeing the messages [ms] of a heap. *)
Lemma lookup_foldl_delete (h : gmap ptr lo_msg) (ms : list Z) m :
  foldl (fun h m => delete m h) h ms !! m = if decide (m ∈ ms) then None else h !! m.
Proof.
  revert h. induction ms as [|m' ms IH]; intros h; cbn [foldl].
  - by rewrite decide_False by apply not_elem_of_nil.
  - rewrite IH. destruct (decide (m = m')) as [->|Hne].
    + rewrite (decide_True (P := m' ∈ m' :: ms)) by apply list_elem_of_here.
      case_decide; [done|]. apply lookup_delete_eq.
    + rewrite lookup_delete_ne by done. repeat case_decide; set_solver.
Qed.

(** ** The operations *)

Section proofs.
Context {E : Type} `{!Platform E, !QueueLaws E}.
Implicit Types (g : globals) (e : E).

Definition heap (g : globals) : gmap ptr lo_msg := lo_heap (lo g).

(** The slots, the messages and the rest of the state are unchanged. *)
Definition lo_same g g' : Prop :=
  slots g' = slots g /\ heap g' = heap g /\ fdt g' = fdt g /\ net g' = net g.

Lemma wp_lock_init g e :
  wp ext lock_init_once g e (fun _ g' e' => lo_same g g' /\ qview e' = qview e).
Proof.
  unfold lock_init_once. prog_steps. case_test; prog_steps; [done|].
  rewrite wp_rtos. prog_steps. split; [done|by apply q_frame].
Qed.

Lemma find_slot_lookup g p :
  match find_slot (fun s => slot_port s = p) g with
  | Some i => slot_fd (s_slots (lo g) !!! i)
  | None => None
  end = slot_lookup (slots g) p.
Proof.
  unfold find_slot, slot_lookup, slots.
  destruct (list_find _ (s_slots (lo g))) as [[i s]|] eqn:Hf; [|done]. cbn.
  apply list_find_first in Hf as [Hi _]. by rewrite (list_lookup_total_correct _ _ _ Hi).
Qed.

(** Entry [t] receives on its queue [q], which holds the messages [msgs]. *)
Definition receives g e (t : nat) (q : ptr) (ptrs : list Z) (msgs : list lo_msg) : Prop :=
  lo_rx (entry_at t g) = q /\ q <> NULL /\
  qview e !! q = Some (LO_QUEUE_DEPTH, ptrs) /\
  NoDup ptrs /\ Forall2 (fun m msg => heap g !! m = Some msg) ptrs msgs.

Lemma receives_same g g' e e' t q ptrs msgs :
  lo_same g g' -> qview e' = qview e -> receives g e t q ptrs msgs ->
  receives g' e' t q ptrs msgs.
Proof.
  intros (_ & Hh & Hf & _) Hq (Hrx & Hn & Hv & Hnd & Hm). unfold receives, entry_at.
  by rewrite Hf, Hq, Hh.
Qed.

(** A message the queue does not hold makes no difference. *)
Lemma Forall2_heap_insert (h : gmap ptr lo_msg) m msg ptrs msgs :
  h !! m = None -> Forall2 (fun m msg => h !! m = Some msg) ptrs msgs ->
  Forall2 (fun m' msg' => <[m := msg]> h !! m' = Some msg') ptrs msgs.
Proof.
  intros Hm Hall. eapply Forall2_impl; [exact Hall|]. intros m' msg' Hm'. cbn in *.
  rewrite lookup_insert_ne; [done|]. by intros ->; rewrite Hm in Hm'.
Qed.

(** The message a datagram becomes. *)
Definition datagram (src sp : Z) (buf : list Z) : lo_msg :=
  LoMsg src sp (u16 (Z.of_nat (length buf))) buf.

(** A receiver does not notice calls on no queue. *)
Lemma receives_frame g e t q ptrs msgs X (c : ccall X) :
  queue_op c = false -> runs_others c = false -> receives g e t q ptrs msgs ->
  receives g (ext _ c e).2 t q ptrs msgs.
Proof. intros Hc Ho Hr. eapply receives_same; [done| |exact Hr]. by apply q_frame. Qed.

(** The end of [lo_deliver]: the message is queued, or freed again. *)
Lemma wp_enqueue g e t q m msg n ptrs msgs :
  receives g e t q ptrs msgs -> heap g !! m = None ->
  wp ext (modify (upd_lo (fun l => set_lo_heap (<[m := msg]> (lo_heap l)) l));;
    q ← gets (fun g => lo_rx (entry_at t g));
    sent ← rtos (XQueueSend q m 0);
    if negb sent then free_msg m;; mret (-1) else mret n) g e (fun r g' e' =>
    (slots g' = slots g /\ fdt g' = fdt g /\ net g' = net g) /\
    ((length ptrs < LO_QUEUE_DEPTH)%nat /\ r = n /\ heap g' = <[m := msg]> (heap g) /\
       receives g' e' t q (ptrs ++ [m]) (msgs ++ [msg]) \/
     (LO_QUEUE_DEPTH <= length ptrs)%nat /\ r = -1 /\ heap g' = heap g /\
       receives g' e' t q ptrs msgs)).
Proof.
  intros (Hrx & Hqn & Hv & Hnd & Hall) Hm. rewrite wp_modify. set (g2 := upd_lo _ g).
  rewrite wp_gets. change (lo_rx (entry_at t g2)) with (lo_rx (entry_at t g)). rewrite Hrx.
  destruct (decide (length ptrs < LO_QUEUE_DEPTH)%nat) as [Hroom|Hfull].
  - destruct (q_send e q m 0 _ _ Hv Hroom) as (e4 & He4 & Hq4). call_step He4. cbn [negb].
    rewrite wp_ret. split; [done|]. left. split_and!; [done..|]. split_and!; [done|done| | |].
    + by rewrite Hq4, lookup_insert_eq.
    + apply NoDup_app. split_and!; [done| |apply NoDup_singleton].
      intros x Hx ->%list_elem_of_singleton. apply list_elem_of_lookup in Hx as [j Hj].
      destruct (Forall2_lookup_l _ _ _ _ _ Hall Hj) as (msg' & _ & Hmsg). by rewrite Hm in Hmsg.
    + apply Forall2_app; [by apply Forall2_heap_insert|].
      repeat constructor. unfold g2, heap. cbn. apply lookup_insert_eq.
  - destruct (q_send_full e q m _ _ Hv ltac:(lia)) as (e4 & He4 & Hq4). call_step He4. cbn [negb].
    unfold free_msg. rewrite wp_bind. prog_steps. rewrite wp_idf_last, wp_ret.
    split; [done|]. right.
    assert (Hh : heap (upd_lo (fun l => set_lo_heap (delete m (lo_heap l)) l) g2) = heap g)
      by (unfold heap, g2; cbn; by apply delete_insert_id).
    split_and!; [lia|done|by rewrite Hh|]. split_and!; [done|done| |done|by rewrite Hh].
    by rewrite q_frame, Hq4.
Qed.

(** Delivery to a receiver with room, given memory. *)
Lemma wp_lo_deliver g e dst src sp buf t q ptrs msgs :
  Z.of_nat (length buf) <= UINT16_MAX ->
  slot_lookup (slots g) dst = Some t -> receives g e t q ptrs msgs ->
  (forall n e1, (ext _ (Idf (Malloc n)) e1).1 = NULL \/
     heap g !! (ext _ (Idf (Malloc n)) e1).1 = None) ->
  wp ext (lo_deliver dst src sp buf) g e (fun r g' e' =>
    slots g' = slots g /\ fdt g' = fdt g /\ net g' = net g /\
    (if decide (r = -1) then heap g' = heap g /\ receives g' e' t q ptrs msgs
     else r = Z.of_nat (length buf) /\ exists m, heap g !! m = None /\
       heap g' = <[m := datagram src sp buf]> (heap g) /\
       receives g' e' t q (ptrs ++ [m]) (msgs ++ [datagram src sp buf])) /\
    (r = -1 -> (LO_QUEUE_DEPTH <= length ptrs)%nat \/
       exists n e1, (ext _ (Idf (Malloc n)) e1).1 = NULL)).
Proof.
  intros Hlen Hslot Hrecv Hmalloc. unfold lo_deliver. case_test; [lia|].
  rewrite wp_bind. wp_use wp_lock_init. intros [] g1 e1 [Hs1 Hq1].
  rewrite wp_rtos, wp_gets, wp_gets. cbn beta. rewrite find_slot_lookup.
  pose proof Hs1 as (Hsl & Hhp & Hft & Hnt). rewrite Hsl, Hslot. rewrite wp_rtos.
  set (e2 := (ext _ (Rtos (XSemaphoreGive M_lo)) _).2).
  assert (Hr2 : receives g1 e2 t q ptrs msgs)
    by (eapply receives_same; [done| |exact Hrecv]; subst e2; by rewrite !q_frame).
  clearbody e2. pose proof Hr2 as (Hrx & Hqn & _). rewrite wp_gets, Hrx, (is_null_ne _ Hqn), wp_idf.
  set (n := lo_msg_size + Z.of_nat (length buf)). set (m := (ext _ (Idf (Malloc n)) e2).1).
  assert (Hr3 : receives g1 (ext _ (Idf (Malloc n)) e2).2 t q ptrs msgs) by by apply receives_frame.
  destruct (is_null m) eqn:Hm.
  - rewrite wp_ret. split_and!; [done..| |].
    + rewrite decide_True by done. done.
    + intros _. right. exists n, e2. by apply Z.eqb_eq.
  - wp_use (wp_enqueue g1 _ t q m (datagram src sp buf)); [exact Hr3| |].
    { rewrite Hhp. destruct (Hmalloc n e2) as [Hnull|?]; [|done]. unfold m in Hm. by rewrite Hnull in Hm. }
    intros r g' e' [(Hs' & Hf' & Hn') Hcase]. split_and!; [congruence..| |].
    + destruct Hcase as [(_ & -> & Hh & Hr)|(_ & -> & Hh & Hr)].
      * rewrite decide_False by lia. split; [done|]. exists m. rewrite Hh, Hhp. split_and!; [|done|done].
        rewrite <- Hhp. destruct (Hmalloc n e2) as [Hnull|?]; [|by rewrite Hhp].
        unfold m in Hm. by rewrite Hnull in Hm.
      * rewrite decide_True by done. split; [congruence|done].
    + intros ->. destruct Hcase as [(_ & Hbad & _)|(Hfull & _)]; [lia|by left].
Qed.
End proofs.

(** ** Registration *)

Section registration.
Context `{cfg : Config} {E : Type} `{!Platform E, !QueueLaws E}.
Implicit Types (g : globals) (e : E).

Lemma find_slot_some g P `{!∀ s, Decision (P s)} i :
  find_slot P g = Some i -> exists s, slots g !! i = Some s /\ P s.
Proof.
  unfold find_slot. destruct (list_find _ _) as [[j s]|] eqn:Hf; intros [= <-]; cbn.
  apply list_find_first in Hf as [? ?]. eauto.
Qed.

Lemma find_slot_none g P `{!∀ s, Decision (P s)} :
  find_slot P g = None -> forall i s, slots g !! i = Some s -> ~ P s.
Proof.
  unfold find_slot. destruct (list_find _ _) as [[j s]|] eqn:Hf; [done|]. intros _.
  apply list_find_None in Hf. by rewrite Forall_lookup in Hf.
Qed.

(** Entry [i] is as before but for its queue, which is kept if there was one. *)
Definition queue_made (i : nat) g g' : Prop :=
  exists q, entry_at i g' = set_lo_rx q (entry_at i g) /\
    (lo_rx (entry_at i g) <> NULL -> q = lo_rx (entry_at i g)).

(** The receive queue of an entry, made on demand. *)
Lemma wp_ensure_lo_rx i g e :
  (i < length (s_table (fdt g)))%nat ->
  wp ext (ensure_lo_rx i) g e (fun ok g' _ =>
    ok = negb (is_null (lo_rx (entry_at i g'))) /\ queue_made i g g' /\
    slots g' = slots g /\ net g' = net g /\ length (s_table (fdt g')) = length (s_table (fdt g)) /\
    forall j, j <> i -> entry_at j g' = entry_at j g).
Proof.
  intros Hi. unfold ensure_lo_rx. prog_steps. case_test.
  - rewrite wp_rtos. prog_steps. rewrite entry_at_upd by done. split_and!; [done| |done..| |].
    + eexists. rewrite entry_at_upd by done. split; [done|]. intros Hq. by apply Z.eqb_eq in Heqb.
    + cbn. by rewrite length_alter.
    + intros j Hj. by rewrite entry_at_upd_ne.
  - rewrite wp_ret. split_and!; [by rewrite Heqb| |done..].
    exists (lo_rx (entry_at i g)). by destruct (entry_at i g).
Qed.

(** Entry [i] has a queue, its own if it had one, and is marked; all else of it is
    as before. *)
Definition receiver_made (i : nat) g g' : Prop :=
  exists q, q <> NULL /\ (lo_rx (entry_at i g) <> NULL -> q = lo_rx (entry_at i g)) /\
    entry_at i g' = set_loopback true (set_lo_rx q (entry_at i g)).

(** The slot stored by [lo_bind]. *)
Lemma slot_set_state p i k s g g3 :
  slots_wf (slots g) -> p <> 0 -> slots g3 = slots g -> slots g !! k = Some s ->
  slot_port s = p \/ (slot_port s = 0 /\ forall j t, slots g !! j = Some t -> slot_port t <> p) ->
  let g4 := upd_slot k (LoSlot p (Some i)) g3 in
  slots_wf (slots g4) /\
  (forall p', p' <> 0 ->
     slot_lookup (slots g4) p' = if decide (p' = p) then Some i else slot_lookup (slots g) p').
Proof.
  intros Hwf Hp Hs3 Hk Hs g4. destruct (slot_set_refines (slots g) k s p i) as [Hw Hlk]; [done..|].
  split; unfold g4, upd_slot, slots; cbn; change (s_slots (lo g3)) with (slots g3);
    by rewrite Hs3.
Qed.

Lemma wp_lo_bind p i g e :
  slots_wf (slots g) -> p <> 0 -> (i < length (s_table (fdt g)))%nat ->
  wp ext (lo_bind p (Some i)) g e (fun r g' _ =>
    (forall j, j <> i -> entry_at j g' = entry_at j g) /\ net g' = net g /\
    (r = ESP_OK /\ slots_wf (slots g') /\
     (forall p', p' <> 0 ->
        slot_lookup (slots g') p' = if decide (p' = p) then Some i else slot_lookup (slots g) p') /\
     receiver_made i g g' \/
     r = ESP_ERR_NO_MEM /\ slots g' = slots g /\
     (lo_rx (entry_at i g) = NULL /\ entry_at i g' = entry_at i g \/
      Forall (fun s => slot_port s <> 0 /\ slot_port s <> p) (slots g) /\ receiver_made i g g'))).
Proof.
  intros Hwf Hp Hi. unfold lo_bind. rewrite (proj2 (Z.eqb_neq _ _) Hp), wp_bind.
  wp_use wp_lock_init. intros [] g1 e1 [(Hsl & _ & Hft & Hnt) _].
  assert (Hi1 : (i < length (s_table (fdt g1)))%nat) by by rewrite Hft.
  assert (Hat1 : forall j, entry_at j g1 = entry_at j g) by (intros; unfold entry_at; by rewrite Hft).
  rewrite wp_bind. wp_use wp_ensure_lo_rx; [done|].
  intros ok g2 e2 (-> & (q & Hi2 & Hold) & Hsl2 & Hnt2 & Hl2 & Hat2). rewrite Hat1 in *.
  assert (Hat : forall j, j <> i -> entry_at j g2 = entry_at j g) by (intros; by rewrite Hat2, Hat1).
  rewrite Hi2. cbn [lo_rx set_lo_rx].
  destruct (is_null q) eqn:Hq; cbn [negb].
  { rewrite wp_ret. apply Z.eqb_eq in Hq as ->. split_and!; [auto|congruence|]. right.
    split_and!; [done|congruence|]. left.
    assert (Hnull : lo_rx (entry_at i g) = NULL).
    { destruct (decide (lo_rx (entry_at i g) = NULL)) as [?|Hne]; [done|]. by rewrite <- Hold. }
    split; [done|]. rewrite Hi2, <- Hnull. by destruct (entry_at i g). }
  apply Z.eqb_neq in Hq. rewrite wp_modify, wp_rtos, wp_gets.
  set (g3 := upd_entry i _ g2).
  assert (Hat3 : forall j, j <> i -> entry_at j g3 = entry_at j g).
  { intros j Hj. unfold g3. rewrite entry_at_upd_ne by done. auto. }
  assert (Hs3 : slots g3 = slots g) by (unfold g3; change (slots g2 = slots g); congruence).
  assert (Hn3 : net g3 = net g) by (unfold g3; change (net g2 = net g); congruence).
  assert (Hmade : receiver_made i g g3).
  { exists q. split_and!; [done..|]. unfold g3. rewrite entry_at_upd by lia. by rewrite Hi2. }
  clearbody g3.
  assert (Hset := fun k s => slot_set_state p i k s g g3 Hwf Hp Hs3).
  destruct (find_slot (fun s => slot_port s = p) g3) as [k|] eqn:Hf.
  - apply find_slot_some in Hf as (s & Hk & Hs). rewrite wp_modify, wp_rtos, wp_ret.
    rewrite Hs3 in Hk. destruct (Hset k s Hk); [by left|].
    split_and!; [by intros; apply Hat3|done|]. left. by split_and!.
  - pose proof (find_slot_none _ _ Hf) as Hno. rewrite Hs3 in Hno. rewrite wp_gets.
    destruct (find_slot (fun s => slot_port s = 0) g3) as [k|] eqn:Hf0.
    + apply find_slot_some in Hf0 as (s & Hk & Hs). rewrite wp_modify, wp_rtos, wp_ret.
      rewrite Hs3 in Hk. destruct (Hset k s Hk);
        [right; split; [done|intros j t Hj; by eapply Hno]|].
      split_and!; [by intros; apply Hat3|done|]. left. by split_and!.
    + pose proof (find_slot_none _ _ Hf0) as Hno0. rewrite Hs3 in Hno0. rewrite wp_rtos, wp_ret.
      split_and!; [by intros; apply Hat3|done|]. right. split_and!; [done|done|]. right.
      split; [|done]. apply Forall_lookup. intros k s Hk. split; [by eapply Hno0|by eapply Hno].
Qed.

(** ** Release *)

Lemma wp_drain_lo fuel q g e c ptrs :
  qview e !! q = Some (c, ptrs) -> (length ptrs < fuel)%nat ->
  wp ext (drain_lo fuel q) g e (fun _ g' e' =>
    g' = upd_lo (fun l => set_lo_heap (foldl (fun h m => delete m h) (lo_heap l) ptrs) l) g /\
    qview e' = <[q := (c, [])]> (qview e)).
Proof.
  revert g e ptrs. induction fuel as [|fuel IH]; intros g e ptrs Hq Hlt; [lia|].
  cbn [drain_lo]. rewrite wp_rtos. destruct ptrs as [|m ptrs].
  - destruct (q_recv_empty e q c Hq) as (e' & He & Hq'). rewrite He. cbn [fst snd].
    rewrite wp_ret. split; [by destruct g as [? ? [] ? ?]|]. by rewrite Hq', insert_id.
  - destruct (q_recv e q 0 c _ _ Hq) as (e' & He & Hq'). rewrite He. cbn [fst snd].
    unfold free_msg. rewrite wp_bind, wp_modify.
    rewrite wp_idf_last.
    cbn beta. cbn [length] in Hlt. wp_use (IH _ _ ptrs); [|lia|].
    + by rewrite q_frame, Hq', lookup_insert_eq.
    + intros [] g' e'' [-> Hq'']. split; [done|]. by rewrite Hq'', q_frame, Hq', insert_insert_eq.
Qed.

(** The loop of [lo_unbind] clears the slots in which [e] holds port [p]. *)
Definition cleared p (o : option nat) (s : lo_slot) : lo_slot :=
  if bool_decide (slot_port s = p /\ slot_fd s = o) then lo_slot_zero else s.

Definition slots_only g g' : Prop :=
  heap g' = heap g /\ fdt g' = fdt g /\ net g' = net g.

Lemma wp_unbind_loop p o g e :
  length (slots g) = LO_PORT_SLOTS ->
  wp ext (for_each (seq 0 LO_PORT_SLOTS) (fun i =>
    s ← gets (fun g => s_slots (lo g) !!! i);
    if bool_decide (slot_port s = p /\ slot_fd s = o)
    then modify (upd_slot i lo_slot_zero) else mret tt)) g e
  (fun _ g' e' => e' = e /\ slots_only g g' /\ slots g' = cleared p o <$> slots g).
Proof.
  intros Hl. wp_use (wp_for_each _ _ _ (fun seen g' e' => e' = e /\ slots_only g g' /\
    forall j, slots g' !! j = (if decide (j ∈ seen) then cleared p o else id) <$> slots g !! j)).
  - split_and!; [done..|]. intros j. rewrite decide_False by apply not_elem_of_nil.
    by rewrite option_fmap_id.
  - intros seen i g1 e1 Hin (-> & Hsame & Hj). prog_steps.
    assert (i < LO_PORT_SLOTS)%nat as Hi.
    { destruct Hin as [rest Heq]. cut (i ∈ seq 0 LO_PORT_SLOTS); [rewrite elem_of_seq; lia|].
      rewrite Heq. set_solver. }
    assert (i ∉ seen) as Hni.
    { destruct Hin as [rest Heq]. pose proof (NoDup_seq 0 LO_PORT_SLOTS) as Hnd.
      rewrite Heq in Hnd. apply NoDup_app in Hnd as (_ & Hdis & _). set_solver. }
    pose proof (Hj i) as Hii. rewrite decide_False in Hii by done.
    rewrite option_fmap_id in Hii. rewrite <- Hl in Hi. apply lookup_lt_is_Some in Hi as [s Hs].
    rewrite Hs in Hii. rewrite (list_lookup_total_correct _ _ _ Hii).
    assert (Hrest : forall j, j <> i -> (if decide (j ∈ seen ++ [i]) then cleared p o else id)
                <$> slots g !! j = slots g1 !! j).
    { intros j Hne. rewrite Hj. repeat case_decide; set_solver. }
    case_bool_decide as Hc; [prog_steps|rewrite wp_ret]; (split_and!; [done..|]); intros j;
      (destruct (decide (j = i)) as [->|Hne]; [|rewrite Hrest by done]);
      try rewrite decide_True by set_solver; try rewrite Hs; cbn; unfold cleared.
    + rewrite bool_decide_eq_true_2 by done. apply list_lookup_insert_eq. by eapply lookup_lt_Some.
    + by apply list_lookup_insert_ne.
    + by rewrite bool_decide_eq_false_2.
    + done.
  - intros _ g' e' (-> & Hsame & Hj). split_and!; [done..|]. apply list_eq. intros j.
    rewrite Hj, list_lookup_fmap. destruct (slots g !! j) as [s|] eqn:Hs; [|done].
    rewrite decide_True; [done|]. apply lookup_lt_Some in Hs. apply elem_of_seq. lia.
Qed.

Lemma cleared_wf p o ss : slots_wf ss -> slots_wf (cleared p o <$> ss).
Proof.
  intros [Hu Hf Hs].
  assert (Hc : forall s, cleared p o s = s \/ cleared p o s = lo_slot_zero).
  { intros s. unfold cleared. case_bool_decide; auto. }
  split.
  - intros i j s t (s0 & -> & Hi)%list_lookup_fmap_Some (t0 & -> & Hj)%list_lookup_fmap_Some.
    destruct (Hc s0) as [->| ->], (Hc t0) as [->| ->]; cbn; eauto; congruence.
  - intros i s (s0 & -> & Hi)%list_lookup_fmap_Some. destruct (Hc s0) as [->| ->]; cbn; eauto.
  - intros i s (s0 & -> & Hi)%list_lookup_fmap_Some. destruct (Hc s0) as [->| ->]; cbn; eauto; congruence.
Qed.

Lemma slot_lookup_some ss p i :
  slot_lookup ss p = Some i -> exists k, ss !! k = Some (LoSlot p (Some i)).
Proof.
  unfold slot_lookup. destruct (list_find _ ss) as [[k s]|] eqn:Hf; cbn; [|done].
  apply list_find_first in Hf as [Hk <-]. intros <-. exists k. by destruct s.
Qed.

Lemma lookup_cleared ss p i p' :
  slots_wf ss -> p' <> 0 ->
  slot_lookup (cleared p (Some i) <$> ss) p'
  = if decide (p' = p /\ slot_lookup ss p = Some i) then None else slot_lookup ss p'.
Proof.
  intros Hwf Hp. destruct (slot_lookup ss p') as [k|] eqn:Hl.
  - apply slot_lookup_some in Hl as Hk. destruct Hk as [j Hj]. case_decide as Hc.
    + destruct Hc as [-> Hc]. simplify_eq. apply slot_lookup_none.
      intros j' s (t & -> & Ht)%list_lookup_fmap_Some Heq. unfold cleared in Heq.
      case_bool_decide as Hb; cbn in Heq; [congruence|].
      assert (j' = j) as -> by (eapply (slots_unique _ Hwf); [eauto..|]; congruence). assert (t = LoSlot p (Some k)) as -> by congruence. by destruct Hb.
    + apply (slot_lookup_at _ j (LoSlot p' (Some k))); [by apply cleared_wf| |done].
      rewrite list_lookup_fmap, Hj. cbn. unfold cleared. rewrite bool_decide_eq_false_2; [done|].
      cbn. intros [-> [= ->]]. by destruct Hc.
  - assert (slot_lookup (cleared p (Some i) <$> ss) p' = None) as ->; [|by case_decide].
    apply slot_lookup_none. intros j s (t & -> & Ht)%list_lookup_fmap_Some Heq.
    unfold cleared in Heq. case_bool_decide; cbn in Heq; [congruence|].
    assert (slot_lookup ss p' = slot_fd t) as Hlt by (subst p'; by eapply slot_lookup_at).
    destruct (slots_used _ Hwf j t Ht) as [? Hfd]; congruence.
Qed.

(** The table without port [p], if the port is [i]'s. *)
Definition unbound (p : Z) (i : nat) g g' : Prop :=
  slots_wf (slots g') /\
  forall p', p' <> 0 -> slot_lookup (slots g') p' =
    if decide (p' = p /\ slot_lookup (slots g) p = Some i) then None else slot_lookup (slots g) p'.

(** The queue [q], if there is one, is empty, and its messages are freed. *)
Definition emptied (q : ptr) g e g' e' : Prop :=
  if is_null q then qview e' = qview e /\ heap g' = heap g
  else forall c ptrs, qview e !! q = Some (c, ptrs) ->
    qview e' = <[q := (c, [])]> (qview e) /\
    forall m, heap g' !! m = if decide (m ∈ ptrs) then None else heap g !! m.

(** Fuel for the messages waiting in [q]. *)
Definition drainable (fuel : nat) (q : ptr) e : Prop :=
  is_null q = true \/ exists c ptrs, qview e !! q = Some (c, ptrs) /\ (length ptrs < fuel)%nat.

Lemma wp_lo_unbind fuel p i g e :
  slots_wf (slots g) -> length (slots g) = LO_PORT_SLOTS ->
  drainable fuel (lo_rx (entry_at i g)) e ->
  wp ext (lo_unbind fuel p (Some i)) g e (fun _ g' e' =>
    unbound p i g g' /\ emptied (lo_rx (entry_at i g)) g e g' e' /\
    fdt g' = fdt g /\ net g' = net g).
Proof.
  intros Hwf Hl Hd. unfold lo_unbind. rewrite wp_bind. wp_use wp_lock_init.
  intros [] g1 e1 [(Hs1 & Hh1 & Hf1 & Hn1) Hq1].
  rewrite wp_rtos, wp_bind. wp_use wp_unbind_loop; [by rewrite Hs1|].
  intros [] g2 e2 (-> & (Hh2 & Hf2 & Hn2) & Hs2). rewrite wp_rtos, wp_gets.
  assert (lo_rx (entry_at i g2) = lo_rx (entry_at i g)) as -> by (unfold entry_at; by rewrite Hf2, Hf1).
  set (q := lo_rx (entry_at i g)) in *. rewrite Hs1 in Hs2.
  assert (Hun : unbound p i g g2) by (unfold unbound; rewrite Hs2; split; [by apply cleared_wf|];
    intros p' Hp'; by apply lookup_cleared).
  unfold emptied. destruct (is_null q) eqn:Hq.
  - rewrite wp_ret. split; [exact Hun|]. split; [|split; congruence].
    split; [by rewrite !q_frame|congruence].
  - destruct Hd as [Hd|(c & ptrs & Hv & Hfuel)]; [congruence|].
    wp_use wp_drain_lo; [by rewrite !q_frame, Hq1|done|].
    intros [] g' e' [-> Hq']. split; [exact Hun|].
    split; [|split; [change (fdt g2 = fdt g)|change (net g2 = net g)]; congruence].
    intros c' ptrs' Hv'. assert (c' = c /\ ptrs' = ptrs) as [-> ->] by (split; congruence).
    split; [by rewrite Hq', !q_frame, Hq1|]. intros m.
    change (foldl (fun h m => delete m h) (heap g2) ptrs !! m = if decide (m ∈ ptrs) then None else heap g !! m).
    rewrite Hh2, Hh1. apply lookup_foldl_delete.
Qed.
End registration.

(** ** Properties *)

Section properties.
Context `{cfg : Config} {E : Type} `{!Platform E, !QueueLaws E}.
Implicit Types (g : globals) (e : E).

(** C19. The registrations implement a finite map from ports to descriptors. On a
    well-formed table [lo_bind] of a non-zero port either succeeds, and then the
    table is the old map with the port sent to the descriptor, still well formed,
    and the descriptor is marked [loopback] and has a queue to receive on, its own
    if it had one; or it fails with no memory and the table is as it was. When the
    queue could not be made the descriptor is as it was too; when no slot is free
    it has been marked and given its queue already, and keeps both. No other
    descriptor and no other field of this one changes. *)
Theorem lo_bind_refines_map p i g e :
  slots_wf (slots g) -> p <> 0 -> (i < length (s_table (fdt g)))%nat ->
  exists r g' e', run ext (lo_bind p (Some i)) g e = Some (r, g', e') /\
    (forall j, j <> i -> entry_at j g' = entry_at j g) /\
    (r = ESP_OK /\ slots_wf (slots g') /\
     (forall p', p' <> 0 ->
        slot_lookup (slots g') p' = if decide (p' = p) then Some i else slot_lookup (slots g) p') /\
     receiver_made i g g' \/
     r = ESP_ERR_NO_MEM /\ slots g' = slots g /\
     (lo_rx (entry_at i g) = NULL /\ entry_at i g' = entry_at i g \/
      Forall (fun s => slot_port s <> 0 /\ slot_port s <> p) (slots g) /\ receiver_made i g g')).
Proof.
  intros Hwf Hp Hi. pose proof (wp_lo_bind p i g e Hwf Hp Hi) as H.
  apply wp_run in H as (r & g' & e' & Hr & Hat & _ & H). eauto 10.
Qed.

(** [lo_deliver] to a bound port appends the datagram to the receiver's queue,
    whole and behind those already waiting, and answers its length; the message
    it allocates is new and holds the payload with the source address and port.
    When it answers -1 instead, the queue is full or memory is exhausted, and
    the queue and the heap of messages are exactly as before: nothing leaks. *)
Theorem lo_deliver_appends g e dst src sp buf t q ptrs msgs :
  Z.of_nat (length buf) <= UINT16_MAX ->
  slot_lookup (slots g) dst = Some t -> receives g e t q ptrs msgs ->
  (forall n e1, (ext _ (Idf (Malloc n)) e1).1 = NULL \/
     heap g !! (ext _ (Idf (Malloc n)) e1).1 = None) ->
  exists r g' e', run ext (lo_deliver dst src sp buf) g e = Some (r, g', e') /\
    slots g' = slots g /\ fdt g' = fdt g /\
    (r = Z.of_nat (length buf) /\ (exists m, heap g !! m = None /\
       heap g' = <[m := LoMsg src sp r buf]> (heap g) /\
       receives g' e' t q (ptrs ++ [m]) (msgs ++ [LoMsg src sp r buf])) \/
     r = -1 /\ heap g' = heap g /\ receives g' e' t q ptrs msgs /\
     ((LO_QUEUE_DEPTH <= length ptrs)%nat \/
      exists n e1, (ext _ (Idf (Malloc n)) e1).1 = NULL)).
Proof.
  intros Hlen Hs Hr Hm. pose proof (wp_lo_deliver g e dst src sp buf t q ptrs msgs Hlen Hs Hr Hm) as H.
  apply wp_run in H as (r & g' & e' & Hrun & Hsl & Hf & _ & Hcase & Hwhy).
  exists r, g', e'. split_and!; [done..|]. unfold datagram in Hcase. unfold UINT16_MAX in *.
  case_decide as Hd; [right; naive_solver|left].
  destruct Hcase as (-> & Hcase). rewrite u16_small in Hcase by lia. eauto.
Qed.

(** C24. [lo_unbind] takes the descriptor off its port and loses nothing: the table
    is the old map without the port (if the port is the descriptor's; a port
    that has since been bound by another descriptor stays with it), every
    message still queued is freed and the queue ends empty, and the messages of
    other receivers are untouched. Fuel above the number of waiting messages is
    enough. *)
Theorem lo_unbind_releases fuel p i g e q c ptrs :
  slots_wf (slots g) -> length (slots g) = LO_PORT_SLOTS ->
  lo_rx (entry_at i g) = q -> q <> NULL -> qview e !! q = Some (c, ptrs) ->
  (length ptrs < fuel)%nat ->
  exists g' e', run ext (lo_unbind fuel p (Some i)) g e = Some (tt, g', e') /\
    slots_wf (slots g') /\ fdt g' = fdt g /\
    (forall p', p' <> 0 -> slot_lookup (slots g') p' =
       if decide (p' = p /\ slot_lookup (slots g) p = Some i) then None
       else slot_lookup (slots g) p') /\
    qview e' = <[q := (c, [])]> (qview e) /\
    (forall m, heap g' !! m = if decide (m ∈ ptrs) then None else heap g !! m).
Proof.
  intros Hwf Hl Hq Hn Hv Hfuel.
  rewrite <- Hq in Hv. pose proof (is_null_ne _ Hn) as Hnull. rewrite <- Hq in Hnull.
  pose proof (wp_lo_unbind fuel p i g e Hwf Hl (or_intror (ex_intro _ c (ex_intro _ ptrs (conj Hv Hfuel))))) as Hwp.
  apply wp_run in Hwp as ([] & g' & e' & Hrun & [Hwf' Hlk] & Hem & Hf & _).
  unfold emptied in Hem. rewrite Hnull in Hem. destruct (Hem _ _ Hv) as [? ?].
  rewrite Hq in *. exists g', e'. by split_and!.
Qed.
End properties.

(** ** Witnesses *)

#[local] Existing Instance tiny.

(** Entry 1 is bound to port 7000 and receives on queue 5, where one message of
    three bytes waits. *)
Definition lo_state : globals :=
  upd_lo (set_lo_heap {[ 900 := LoMsg 16777343 4000 3 [1; 2; 3] ]})
    (upd_slot 0 (LoSlot 7000 (Some 1%nat))
      (upd_entry 1 (fun en => set_lo_rx 5 (set_loopback true (set_kind FD_UDP en))) globals_zero)).

Definition lo_env : sim default_oracle := Sim {[ 5 := (LO_QUEUE_DEPTH, [900]) ]} [].

Lemma lo_state_wf : slots_wf (slots lo_state).
Proof.
  destruct (slot_set_refines (slots globals_zero) 0 lo_slot_zero 7000 1) as [H _];
    [exact slots_wf_zero|done|done| |exact H].
  right. split; [done|]. intros j t [-> _]%lookup_replicate. done.
Qed.

Lemma lo_state_receives :
  receives lo_state lo_env 1 5 [900] [LoMsg 16777343 4000 3 [1; 2; 3]].
Proof.
  split_and!; [reflexivity|done|reflexivity|apply NoDup_singleton|].
  constructor; [reflexivity|constructor].
Qed.

Lemma lo_bind_refines_map_witness :
  exists r g' (e' : sim default_oracle),
    run ext (lo_bind 7001 (Some 2%nat)) lo_state lo_env = Some (r, g', e').
Proof.
  destruct (lo_bind_refines_map (E := sim default_oracle) 7001 2 lo_state lo_env)
    as (r & g' & e' & H & _).
  - exact lo_state_wf.
  - lia.
  - vm_compute. lia.
  - exists r, g', e'. exact H.
Defined.

Lemma lo_deliver_appends_witness :
  exists r g' (e' : sim default_oracle),
    run ext (lo_deliver 7000 127 4001 [4; 5]) lo_state lo_env = Some (r, g', e').
Proof.
  destruct (lo_deliver_appends (E := sim default_oracle) lo_state lo_env 7000 127 4001 [4; 5] 1 5
    [900] [LoMsg 16777343 4000 3 [1; 2; 3]]) as (r & g' & e' & H & _).
  - vm_compute. discriminate.
  - reflexivity.
  - exact lo_state_receives.
  - intros n e1. right. unfold heap, lo_state. cbn. apply lookup_singleton_ne. lia.
  - exists r, g', e'. exact H.
Defined.

Lemma lo_unbind_releases_witness :
  exists g' (e' : sim default_oracle),
    run ext (lo_unbind 2 7000 (Some 1%nat)) lo_state lo_env = Some (tt, g', e').
Proof.
  destruct (lo_unbind_releases (E := sim default_oracle) 2 7000 1 lo_state lo_env 5 LO_QUEUE_DEPTH [900])
    as (g' & e' & H & _).
  - exact lo_state_wf.
  - reflexivity.
  - reflexivity.
  - done.
  - reflexivity.
  - cbn. lia.
  - exists g', e'. exact H.
Defined.
