(* ===== verification/FdTable.v ===== *)
(** * The file descriptor table

    [components/esp_smoltcp_lwip_compat/src/fd_table.c]: the BSD descriptors of
    the shim. A [fd_entry_t *] is an index into [s_table]; descriptor
    [fd_offset() + i] denotes entry [i]. *)

From S2P Require Import Prelude Prog Types Platform Sim NetStack NetSock Loopback.

Section code.
Context `{cfg : Config} {E : Type} `{!Platform E, !SocketConsts}.

Definition fd_table_init : cprog esp_err :=
  lock ← gets (fun g => fd_s_lock (fdt g));
  if lock : bool then mret ESP_OK
  else
    m ← rtos (XSemaphoreCreateMutex M_fd);
    modify (upd_fdt (set_fd_s_lock m));;
    if negb m then mret ESP_ERR_NO_MEM
    else
      for_each (seq 0 MAX_FDS) (fun i =>
        ev ← rtos XEventGroupCreate;
        modify (upd_entry i (set_evt ev)));;
      mret ESP_OK.

(** Run before [main], as a constructor. *)
Definition fd_table_auto_init : cprog unit := fd_table_init;; mret tt.

Definition fd_offset : Z := LWIP_SOCKET_OFFSET.

(** [i >= 0 && i < MAX_FDS], for [i = fd - fd_offset()]. *)
Definition fd_in_range (fd : Z) : bool :=
  (0 <=? fd - fd_offset) && (fd - fd_offset <? Z.of_nat MAX_FDS).

Definition fd_index (fd : Z) : nat := Z.to_nat (fd - fd_offset).

(** [fd_get(fd)] in a given state. *)
Definition fd_entry_of (fd : Z) (g : globals) : option nat :=
  if fd_in_range fd && negb (bool_decide (kind (entry_at (fd_index fd) g) = FD_FREE))
  then Some (fd_index fd) else None.

Definition fd_is_socket (fd : Z) : cprog bool :=
  gets (fun g => fd_in_range fd && negb (bool_decide (kind (entry_at (fd_index fd) g) = FD_FREE))).

Definition fd_get (fd : Z) : cprog (option nat) := gets (fd_entry_of fd).

Definition fd_default_iface : cprog nat :=
  let try_both (first second : nat) :=
    v ← net_stack_get_ipv4 first;
    if negb (v =? 0) then mret first
    else
      v ← net_stack_get_ipv4 second;
      if negb (v =? 0) then mret second else mret first in
  if DEFAULT_IFACE_ETH then try_both NET_IFACE_ETH NET_IFACE_WIFI
  else try_both NET_IFACE_WIFI NET_IFACE_ETH.

(** [memset(&s_table[i], 0, offsetof(fd_entry_t, evt))] *)
Definition clear_entry (en : fd_entry) : fd_entry := set_evt (evt en) fd_entry_zero.

Definition fd_alloc (k : fd_kind) : cprog Z :=
  lock ← gets (fun g => fd_s_lock (fdt g));
  (if lock : bool then mret tt else fd_table_init;; mret tt);;
  rtos (XSemaphoreTake M_fd);;
  found ← gets (fun g => fst <$> list_find (fun en => kind en = FD_FREE) (s_table (fdt g)));
  match found with
  | None =>
      rtos (XSemaphoreGive M_fd);;
      mret (-1)
  | Some i =>
      modify (upd_entry i clear_entry);;
      modify (upd_entry i (set_kind k));;
      modify (upd_entry i (set_sock NET_SOCK_INVALID));;
      id ← fd_default_iface;
      modify (upd_entry i (set_fd_iface id));;
      ev ← gets (fun g => evt (entry_at i g));
      rtos (XEventGroupClearBits ev 255);;
      rtos (XSemaphoreGive M_fd);;
      mret (fd_offset + Z.of_nat i)
  end.

(** The loopback part of [fd_free]. *)
Definition close_loopback (fuel : nat) (i : nat) : cprog unit :=
  en ← gets (entry_at i);
  when (loopback en) (
    lo_unbind fuel (local_port en) (Some i);;
    q ← gets (fun g => lo_rx (entry_at i g));
    (if is_null q then mret tt
     else
       rtos (VQueueDelete q);;
       modify (upd_entry i (set_lo_rx NULL)));;
    modify (upd_entry i (set_loopback false))).

(** The core sockets [fd_free] closes: the entry's own, and a listener's. *)
Definition close_sock (i : nat) : cprog unit :=
  en ← gets (entry_at i);
  if negb (net_sock_valid (sock en)) then mret tt
  else if bool_decide (kind en = FD_UDP)
  then net_udp_close (sock en);; mret tt
  else net_tcp_close (sock en);; mret tt.

Definition close_pool (i : nat) : cprog unit :=
  p ← gets (fun g => pool (entry_at i g));
  if is_null p then mret tt
  else
    n ← gets (fun g => pool_len (entry_at i g));
    for_each (seq 0 n) (fun j =>
      s ← gets (fun g => pool_socks (entry_at i g) !!! j);
      if net_sock_valid s then net_tcp_close s;; mret tt else mret tt);;
    idf (Free p).

Definition fd_free (fuel : nat) (fd : Z) : cprog unit :=
  e ← fd_get fd;
  match e with
  | None => mret tt
  | Some i =>
      rtos (XSemaphoreTake M_fd);;
      close_loopback fuel i;;
      close_sock i;;
      close_pool i;;
      modify (upd_entry i (set_kind FD_FREE));;
      rtos (XSemaphoreGive M_fd)
  end.
End code.

(** ** Allocation *)

Section alloc.
Context `{cfg : Config} {E : Type} `{!Platform E, !SocketConsts}.
Implicit Types (g : globals) (e : E).

Lemma wp_query i c g e :
  wp ext (query_iface i c) g e (fun _ g' _ => g' = g).
Proof.
  unfold query_iface, locked_at, SMOLTCP_LOCK, SMOLTCP_UNLOCK. prog_steps. case_test; [done|].
  rewrite wp_rtos. prog_steps. rewrite wp_core, wp_rtos. done.
Qed.

Lemma wp_default_iface g e :
  wp ext fd_default_iface g e (fun i g' _ => g' = g /\ (i < NET_IFACE_MAX)%nat).
Proof.
  assert (Htry : forall a b, (a < NET_IFACE_MAX)%nat -> (b < NET_IFACE_MAX)%nat ->
    wp ext (v ← net_stack_get_ipv4 a;
      if negb (v =? 0) then mret a
      else v ← net_stack_get_ipv4 b; if negb (v =? 0) then mret b else mret a) g e
      (fun i g' _ => g' = g /\ (i < NET_IFACE_MAX)%nat)).
  { intros a b Ha Hb. rewrite wp_bind. wp_use wp_query. intros v g' e' ->.
    case_test; [done|]. rewrite wp_bind. wp_use wp_query. intros v' g' e'' ->.
    by case_test. }
  unfold fd_default_iface, NET_IFACE_ETH, NET_IFACE_WIFI.
  destruct DEFAULT_IFACE_ETH; apply Htry; unfold NET_IFACE_MAX; lia.
Qed.

(** The entry a new descriptor gets. *)
Definition new_entry (k : fd_kind) (id : nat) (en : fd_entry) : fd_entry :=
  set_fd_iface id (set_sock NET_SOCK_INVALID (set_kind k (clear_entry en))).

Definition first_free g : option nat :=
  fst <$> list_find (fun en => kind en = FD_FREE) (s_table (fdt g)).

Lemma wp_fd_alloc k g e :
  fd_s_lock (fdt g) = true ->
  wp ext (fd_alloc k) g e (fun r g' _ =>
    match first_free g with
    | Some i => r = fd_offset + Z.of_nat i /\
        exists id, (id < NET_IFACE_MAX)%nat /\ g' = upd_entry i (new_entry k id) g
    | None => r = -1 /\ g' = g
    end).
Proof.
  intros Hlock. unfold fd_alloc. prog_steps. rewrite Hlock. prog_steps. rewrite wp_rtos.
  prog_steps. change (fst <$> list_find _ _) with (first_free g).
  destruct (first_free g) as [i|]; prog_steps.
  - rewrite wp_bind. wp_use wp_default_iface. intros id g' e' [-> Hid]. prog_steps.
    rewrite wp_rtos, wp_rtos, wp_ret, !upd_entry_upd. eauto.
  - rewrite wp_rtos. done.
Qed.

Lemma first_free_spec g i :
  first_free g = Some i ->
  kind (entry_at i g) = FD_FREE /\ (i < length (s_table (fdt g)))%nat /\
  forall j, (j < i)%nat -> kind (entry_at j g) <> FD_FREE.
Proof.
  unfold first_free. destruct (list_find _ _) as [[j en]|] eqn:Hf; intros [= <-]; cbn.
  apply list_find_Some in Hf as (Hj & Hk & Hmin). unfold entry_at.
  rewrite (list_lookup_total_correct _ _ _ Hj). split_and!; [done|by eapply lookup_lt_Some|].
  intros k Hk'. assert (k < length (s_table (fdt g)))%nat as [en' Hen']%lookup_lt_is_Some
    by (apply lookup_lt_Some in Hj; lia).
  rewrite (list_lookup_total_correct _ _ _ Hen'). eauto.
Qed.

Lemma first_free_none g i :
  first_free g = None -> (i < length (s_table (fdt g)))%nat -> kind (entry_at i g) <> FD_FREE.
Proof.
  unfold first_free. destruct (list_find _ _) as [[??]|] eqn:Hf; [done|]. intros _ Hi.
  apply list_find_None in Hf. rewrite Forall_lookup in Hf.
  apply lookup_lt_is_Some in Hi as [en Hen]. unfold entry_at.
  rewrite (list_lookup_total_correct _ _ _ Hen). eauto.
Qed.

Lemma fd_index_off i : fd_index (fd_offset + Z.of_nat i) = i.
Proof. unfold fd_index. lia. Qed.

Lemma fd_entry_of_off i g :
  (i < MAX_FDS)%nat -> kind (entry_at i g) <> FD_FREE ->
  fd_entry_of (fd_offset + Z.of_nat i) g = Some i.
Proof.
  intros Hi Hk. unfold fd_entry_of, fd_in_range. rewrite fd_index_off.
  rewrite (proj2 (Z.leb_le _ _)), (proj2 (Z.ltb_lt _ _)) by lia.
  by rewrite bool_decide_eq_false_2.
Qed.

Lemma fd_entry_of_some fd g i :
  fd_entry_of fd g = Some i ->
  fd = fd_offset + Z.of_nat i /\ (i < MAX_FDS)%nat /\ kind (entry_at i g) <> FD_FREE.
Proof.
  unfold fd_entry_of, fd_in_range.
  destruct (0 <=? fd - fd_offset) eqn:Hlo; [|done].
  destruct (fd - fd_offset <? Z.of_nat MAX_FDS) eqn:Hhi; [|done].
  case_bool_decide; [done|]. intros [= <-]. zify_bools. unfold fd_index in *. split_and!; [lia..|done].
Qed.
End alloc.

(** ** Release *)

(** The core sockets closed: UDP or not, the handle and the core's id. *)
Definition ev_core_close (ev : event) : option (bool * ptr * Z) :=
  match ev with
  | existT _ (c, _) =>
      match c with
      | Core (Smoltcp_tcp_close h s) => Some (false, h, s)
      | Core (Smoltcp_udp_close h s) => Some (true, h, s)
      | _ => None
      end
  end.

(** What closing the [net_sock_t] [s] asks of the core. *)
Definition close_events (g : globals) (udp : bool) (s : Z) : list (bool * ptr * Z) :=
  if net_sock_valid s && negb (is_null (handle_of (IFACE s) g))
  then [(udp, handle_of (IFACE s) g, LOCAL s)] else [].

(** The sockets of an entry: its own, then those of its pool. *)
Definition entry_closes (g : globals) (en : fd_entry) : list (bool * ptr * Z) :=
  close_events g (bool_decide (kind en = FD_UDP)) (sock en) ++
  (if is_null (pool en) then []
   else concat (close_events g false <$> ((fun j => pool_socks en !!! j) <$> seq 0 (pool_len en)))).

Section release.
Context `{cfg : Config} {E : Type} `{!Platform E, !SocketConsts, !History E}.
Implicit Types (g : globals) (e : E).

Lemma wp_close_tcp s g e :
  net_sock_valid s = true ->
  wp ext (net_tcp_close s) g e (fun _ g' e' =>
    g' = g /\ picked ev_core_close e' = picked ev_core_close e ++ close_events g false s).
Proof.
  intros Hs. unfold net_tcp_close, close_events. rewrite wp_bind, wp_handle_for, Hs.
  case_test; cbn [andb negb]; [by rewrite wp_ret, app_nil_r|].
  rewrite wp_bind. apply wp_locked. intros e1 e2 He1 He2. rewrite wp_ret. split; [done|].
  rewrite picked_step, He2, picked_step, He1, picked_step. cbn. by rewrite !app_nil_r.
Qed.

Lemma wp_close_udp s g e :
  net_sock_valid s = true ->
  wp ext (net_udp_close s) g e (fun _ g' e' =>
    g' = g /\ picked ev_core_close e' = picked ev_core_close e ++ close_events g true s).
Proof.
  intros Hs. unfold net_udp_close, close_events. rewrite wp_bind, wp_handle_for, Hs.
  case_test; cbn [andb negb]; [by rewrite wp_ret, app_nil_r|].
  rewrite wp_bind. apply wp_locked. intros e1 e2 He1 He2. rewrite wp_ret. split; [done|].
  rewrite picked_step, He2, picked_step, He1, picked_step. cbn. by rewrite !app_nil_r.
Qed.

Lemma close_events_invalid g udp s : net_sock_valid s = false -> close_events g udp s = [].
Proof. unfold close_events. by intros ->. Qed.

Lemma wp_close_sock i g e :
  wp ext (close_sock i) g e (fun _ g' e' =>
    g' = g /\ picked ev_core_close e' = picked ev_core_close e ++
      close_events g (bool_decide (kind (entry_at i g) = FD_UDP)) (sock (entry_at i g))).
Proof.
  unfold close_sock. prog_steps.
  destruct (net_sock_valid (sock (entry_at i g))) eqn:Hv; cbn [negb].
  - destruct (bool_decide _); rewrite wp_bind;
      [wp_use wp_close_udp|wp_use wp_close_tcp]; done.
  - by rewrite wp_ret, close_events_invalid, app_nil_r.
Qed.

Lemma wp_close_pool i g e :
  wp ext (close_pool i) g e (fun _ g' e' =>
    g' = g /\ picked ev_core_close e' = picked ev_core_close e ++
      (if is_null (pool (entry_at i g)) then []
       else concat (close_events g false <$>
         ((fun j => pool_socks (entry_at i g) !!! j) <$> seq 0 (pool_len (entry_at i g)))))).
Proof.
  unfold close_pool. prog_steps. case_test; [by rewrite wp_ret, app_nil_r|]. prog_steps.
  rewrite wp_bind.
  wp_use (wp_for_each _ _ _ (fun seen g' e' => g' = g /\
    picked ev_core_close e' = picked ev_core_close e ++
      concat (close_events g false <$> ((fun j => pool_socks (entry_at i g) !!! j) <$> seen)))).
  - split; [done|]. by rewrite app_nil_r.
  - intros seen j g1 e1 _ [-> Hp]. prog_steps.
    destruct (net_sock_valid (pool_socks (entry_at i g) !!! j)) eqn:Hv.
    + rewrite wp_bind. wp_use wp_close_tcp; [done|]. intros _ g' e' [-> Hp']. rewrite wp_ret.
      split; [done|]. rewrite Hp', Hp, !fmap_app, concat_app, app_assoc. cbn.
      by rewrite app_nil_r.
    + rewrite wp_ret. split; [done|]. rewrite Hp, !fmap_app, concat_app. cbn.
      by rewrite (close_events_invalid _ _ _ Hv), !app_nil_r.
  - intros [] g' e' [-> Hp]. split; [done|].
    rewrite (picked_step ev_core_close (Idf (Free (pool (entry_at i g))))). cbn. by rewrite app_nil_r.
Qed.

(** What [close_loopback] leaves alone. *)
Definition handles_kept (i : nat) g g' : Prop :=
  net g' = net g /\ (forall j, j <> i -> entry_at j g' = entry_at j g) /\
  length (s_table (fdt g')) = length (s_table (fdt g)).

(** The core sockets of an entry do not depend on its loopback fields. *)
Lemma entry_closes_loopback g g' q b en :
  net g' = net g -> entry_closes g' (set_loopback b (set_lo_rx q en)) = entry_closes g en.
Proof.
  intros Hn. unfold entry_closes, close_events, handle_of, iface_at. cbn. by rewrite !Hn.
Qed.

Lemma only_unbind fuel p o :
  only (fun X c => forall r, ev_core_close (existT X (c, r)) = None) (lo_unbind fuel p o).
Proof.
  assert (forall q, only (fun X c => forall r, ev_core_close (existT X (c, r)) = None) (drain_lo fuel q))
    by (induction fuel; intros; cbn [drain_lo]; unfold free_msg; only_auto).
  unfold lo_unbind, lock_init_once. only_auto.
Qed.

(** Closing core sockets leaves the queues alone. *)
Lemma only_close_sock i :
  only (fun X c => queue_op c = false /\ runs_others c = false) (close_sock i).
Proof.
  unfold close_sock, net_udp_close, net_tcp_close, handle_for, net_iface_get, locked. only_auto.
Qed.

Lemma only_close_pool i :
  only (fun X c => queue_op c = false /\ runs_others c = false) (close_pool i).
Proof. unfold close_pool, net_tcp_close, handle_for, net_iface_get, locked. only_auto. Qed.

Context `{!QueueLaws E}.

Lemma wp_closes {B} i (k : cprog B) g e Q :
  (forall e', picked ev_core_close e' = picked ev_core_close e ++ entry_closes g (entry_at i g) ->
     qview e' = qview e -> wp ext k g e' Q) ->
  wp ext (close_sock i;; close_pool i;; k) g e Q.
Proof.
  intros HQ.
  assert (Hf : forall X (c : ccall X) (e1 : E), queue_op c = false /\ runs_others c = false ->
            qview e1 = qview e -> qview (ext _ c e1).2 = qview e).
  { intros X c e1 [? ?] <-. by apply q_frame. }
  rewrite wp_bind. eapply wp_mono; [eapply (wp_only ext _ (fun e' => qview e' = qview e));
    [apply only_close_sock|exact Hf|done|apply wp_close_sock]|].
  intros [] g1 e1 [[-> Hp1] Hq1]. rewrite wp_bind.
  eapply wp_mono; [eapply (wp_only ext _ (fun e' => qview e' = qview e));
    [apply only_close_pool|exact Hf|done|apply wp_close_pool]|].
  intros [] g2 e2 [[-> Hp2] Hq2]. apply HQ; [|done].
  rewrite Hp2, Hp1. unfold entry_closes. by rewrite app_assoc.
Qed.

(** The loopback part of entry [i] is given back: its port, the messages waiting
    in its queue, and the queue itself. *)
Definition lo_given_back (i : nat) g e g' e' : Prop :=
  let q := lo_rx (entry_at i g) in
  unbound (local_port (entry_at i g)) i g g' /\
  (if is_null q then qview e' = qview e /\ heap g' = heap g
   else exists c ptrs, qview e !! q = Some (c, ptrs) /\ qview e' = delete q (qview e) /\
     forall m, heap g' !! m = if decide (m ∈ ptrs) then None else heap g !! m).

(** What [close_loopback] needs: a well-formed table, and fuel for the queue. *)
Definition lo_ready (fuel : nat) (i : nat) g e : Prop :=
  loopback (entry_at i g) = true -> slots_wf (slots g) /\ drainable fuel (lo_rx (entry_at i g)) e.

Lemma wp_close_loopback fuel i g e :
  sizes_ok g -> (i < MAX_FDS)%nat -> lo_ready fuel i g e ->
  wp ext (close_loopback fuel i) g e (fun _ g' e' =>
    handles_kept i g g' /\ picked ev_core_close e' = picked ev_core_close e /\
    if loopback (entry_at i g)
    then entry_at i g' = set_loopback false (set_lo_rx NULL (entry_at i g)) /\ lo_given_back i g e g' e'
    else g' = g /\ e' = e).
Proof.
  intros Hs Hi Hready. unfold close_loopback. rewrite wp_gets. destruct (loopback (entry_at i g)) eqn:Hlo;
    cbn [when]; [|by rewrite wp_ret_last].
  destruct (Hready Hlo) as [Hwf Hd]. rewrite <- (table_size _ Hs) in Hi.
  rewrite wp_bind. eapply wp_mono; [eapply (wp_no_events ev_core_close); [apply only_unbind|]|].
  { eapply wp_lo_unbind; [done|exact (slots_size _ Hs)|done]. }
  intros [] g1 e1 [(Hun & Hem & Hf & Hn) Hp]. rewrite wp_gets.
  assert (Hat : forall j, entry_at j g1 = entry_at j g) by (intros; unfold entry_at; by rewrite Hf).
  rewrite Hat. unfold lo_given_back, emptied in *. destruct (is_null (lo_rx (entry_at i g))) eqn:Hq.
  - rewrite wp_mret_bind, wp_modify_last. split; [|split; [done|]].
    + split; [done|]. split; [|cbn; rewrite length_alter; by rewrite Hf].
      intros j Hj. by rewrite entry_at_upd_ne, Hat.
    + split; [|by split]. rewrite entry_at_upd, Hat by (by rewrite Hf). apply Z.eqb_eq in Hq.
      destruct (entry_at i g); cbn in *. by subst.
  - rewrite wp_bind, wp_rtos, wp_modify_last, wp_modify_last.
    destruct Hd as [Hd|(c & ptrs & Hv & _)]; [congruence|]. destruct (Hem c ptrs Hv) as [Hq1 Hh].
    destruct (q_delete e1 (lo_rx (entry_at i g))) as (e2 & He2 & Hq2).
    split; [|split; [rewrite picked_step; cbn; by rewrite app_nil_r|]].
    + split; [done|]. split; [|cbn; rewrite !length_alter; by rewrite Hf].
      intros j Hj. by rewrite !entry_at_upd_ne, Hat.
    + split; [rewrite upd_entry_upd, entry_at_upd, Hat by (by rewrite Hf); done|].
      split; [done|]. exists c, ptrs. split; [done|]. split; [|done].
      rewrite He2. cbn [snd]. rewrite Hq2, Hq1. apply delete_insert_eq.
Qed.

Lemma wp_fd_free fuel fd i g e :
  sizes_ok g -> fd_entry_of fd g = Some i -> lo_ready fuel i g e ->
  wp ext (fd_free fuel fd) g e (fun _ g' e' =>
    handles_kept i g g' /\ kind (entry_at i g') = FD_FREE /\ loopback (entry_at i g') = false /\
    picked ev_core_close e' = picked ev_core_close e ++ entry_closes g (entry_at i g) /\
    if loopback (entry_at i g)
    then lo_rx (entry_at i g') = NULL /\ lo_given_back i g e g' e'
    else lo g' = lo g /\ qview e' = qview e).
Proof.
  intros Hs Hfd Hready. pose proof (fd_entry_of_some _ _ _ Hfd) as (_ & Hi & _).
  pose proof Hi as Hi'. rewrite <- (table_size _ Hs) in Hi'.
  unfold fd_free, fd_get. rewrite wp_gets, Hfd, wp_rtos, wp_bind.
  set (e0 := (ext _ (Rtos (XSemaphoreTake M_fd)) e).2).
  assert (Hq0 : qview e0 = qview e) by by apply q_frame.
  wp_use (wp_close_loopback fuel i g e0); [done|done| |].
  { unfold lo_ready, drainable in *. by rewrite Hq0. }
  intros [] g1 e1 ((Hn & Hat & Hl) & Hp1 & Hcase).
  apply wp_closes. intros e2 Hp2 Hq2. rewrite wp_modify, wp_rtos_last.
  assert (Hpe : picked ev_core_close (ext _ (Rtos (XSemaphoreGive M_fd)) e2).2
            = picked ev_core_close e ++ entry_closes g1 (entry_at i g1)).
  { rewrite picked_step, Hp2, Hp1. cbn. unfold e0. rewrite picked_step. by rewrite !app_nil_r. }
  assert (Hqe : qview (ext _ (Rtos (XSemaphoreGive M_fd)) e2).2 = qview e1) by (by rewrite q_frame).
  rewrite entry_at_upd by lia.
  assert (Hk : handles_kept i g (upd_entry i (set_kind FD_FREE) g1)).
  { split_and!; [done| |cbn; by rewrite length_alter]. intros j Hj. rewrite entry_at_upd_ne by done. auto. }
  destruct (loopback (entry_at i g)) eqn:Hlo.
  - destruct Hcase as [Hei Hgb]. split_and!; [done|done|by rewrite Hei| |by rewrite Hei|].
    + rewrite Hpe, Hei. by rewrite (entry_closes_loopback g g1).
    + unfold lo_given_back in *. rewrite Hqe, <- Hq0. exact Hgb.
  - destruct Hcase as [-> ->]. split_and!; [done|done|done|done|done|by rewrite Hqe].
Qed.
End release.

(** ** Properties *)

Section properties.
Context `{cfg : Config} {E : Type} `{!Platform E, !SocketConsts, !History E}.
Implicit Types (g : globals) (e : E).

(** C21. [fd_alloc] hands out the lowest free descriptor, cleared: the result is
    [fd_offset() + i] for the first free entry [i], which afterwards is of the
    requested kind, owns no socket and no pool, keeps only its event group, and
    is the entry [fd_get] finds; no other entry changes. With no free entry the
    result is -1 and nothing changes. *)
Theorem fd_alloc_lowest k g e :
  sizes_ok g -> fd_s_lock (fdt g) = true -> k <> FD_FREE ->
  exists r g' e', run ext (fd_alloc k) g e = Some (r, g', e') /\
  ((exists i, r = fd_offset + Z.of_nat i /\ kind (entry_at i g) = FD_FREE /\
      (forall j, (j < i)%nat -> kind (entry_at j g) <> FD_FREE) /\
      fd_entry_of r g' = Some i /\
      (exists id, (id < NET_IFACE_MAX)%nat /\ entry_at i g' =
         FdEntry k false false false NULL 0 0 NET_SOCK_INVALID NULL [] 0 0 0 0 0 id
           (evt (entry_at i g))) /\
      forall j, j <> i -> entry_at j g' = entry_at j g) \/
   (r = -1 /\ g' = g /\ forall i, (i < MAX_FDS)%nat -> kind (entry_at i g) <> FD_FREE)).
Proof.
  intros Hs Hlock Hk. pose proof (wp_fd_alloc k g e Hlock) as Hwp.
  apply wp_run in Hwp as (r & g' & e' & Hrun & Hcase). exists r, g', e'. split; [done|].
  destruct (first_free g) as [i|] eqn:Hf.
  - left. destruct Hcase as (-> & id & Hid & ->). apply first_free_spec in Hf as (Hki & Hi & Hmin).
    exists i. split_and!; [done..| | |].
    + apply fd_entry_of_off; [by rewrite <- (table_size _ Hs)|]. by rewrite entry_at_upd.
    + exists id. split; [done|]. by rewrite entry_at_upd.
    + intros j Hj. by apply entry_at_upd_ne.
  - right. destruct Hcase as [-> ->]. split_and!; [done..|]. intros i Hi.
    apply first_free_none; [done|]. by rewrite (table_size _ Hs).
Qed.

(** C20. [fd_free] gives back exactly what the descriptor owns. The core is told
    to close the descriptor's own socket (as UDP or TCP according to its kind)
    and then each valid socket of its listener pool, once each and on the
    interface each was opened on, and no other socket. If the descriptor receives
    on a loopback port, the port is free again (unless another descriptor has
    taken it since), the messages waiting in its queue are freed and the queue is
    deleted, and it has neither a queue nor the mark any more; if not, no port and
    no queue changes. Afterwards the descriptor is unknown and every other entry
    is as before. The fuel is for the waiting messages. *)
Theorem fd_free_closes_owned `{!QueueLaws E} fuel fd i g e :
  sizes_ok g -> fd_entry_of fd g = Some i -> lo_ready fuel i g e ->
  exists g' e', run ext (fd_free fuel fd) g e = Some (tt, g', e') /\
    picked ev_core_close e' = picked ev_core_close e ++ entry_closes g (entry_at i g) /\
    fd_entry_of fd g' = None /\ (forall j, j <> i -> entry_at j g' = entry_at j g) /\
    loopback (entry_at i g') = false /\
    if loopback (entry_at i g)
    then lo_rx (entry_at i g') = NULL /\ lo_given_back i g e g' e'
    else lo g' = lo g /\ qview e' = qview e.
Proof.
  intros Hs Hfd Hr. pose proof (wp_fd_free fuel fd i g e Hs Hfd Hr) as Hwp.
  apply wp_run in Hwp as ([] & g' & e' & Hrun & (_ & Hat & _) & Hk & Hl & Hp & Hcase).
  exists g', e'. split_and!; [done..| |done|done|done].
  apply fd_entry_of_some in Hfd as (-> & Hi & _). unfold fd_entry_of.
  rewrite fd_index_off, Hk. cbn. by rewrite andb_false_r.
Qed.
End properties.

(** ** Witnesses *)

#[local] Existing Instance tiny.
#[local] Existing Instance lwip_consts.

(** Ethernet up, the table's lock created, and a listener with two armed sockets
    on descriptor 48. *)
Definition listener_state : globals :=
  upd_entry 0 (fun en => set_kind FD_TCP_LISTEN (set_pool 900 (set_pool_len 2
    (set_pool_socks [pack_sock 0 5; pack_sock 0 6] en))))
    (upd_fdt (set_fd_s_lock true) eth_up).

Lemma listener_sizes : sizes_ok listener_state.
Proof. split; by vm_compute. Qed.

Lemma fd_alloc_lowest_witness :
  exists r g' (e' : sim default_oracle),
    run ext (fd_alloc FD_TCP) listener_state (@sim_start default_oracle) = Some (r, g', e').
Proof.
  destruct (fd_alloc_lowest (E := sim default_oracle) FD_TCP listener_state
    (@sim_start default_oracle)) as (r & g' & e' & Hrun & _).
  - exact listener_sizes.
  - reflexivity.
  - discriminate.
  - exists r, g', e'. exact Hrun.
Defined.

(** A UDP descriptor of the core that also receives on loopback port 7000, with
    one message waiting. *)
Definition lo_udp_state : globals :=
  upd_entry 1 (fun en => set_sock (pack_sock 0 9) (set_local_port 7000 en))
    (upd_fdt (set_fd_s_lock true) (upd_net (fun n => net eth_up) lo_state)).

Lemma lo_udp_sizes : sizes_ok lo_udp_state.
Proof. split; by vm_compute. Qed.

Lemma fd_free_closes_owned_witness :
  (exists g' (e' : sim default_oracle),
    run ext (fd_free 10 48) listener_state (@sim_start default_oracle) = Some (tt, g', e') /\
    picked ev_core_close e' = [(false, 512, 5); (false, 512, 6)]) /\
  exists g' (e' : sim default_oracle),
    run ext (fd_free 10 49) lo_udp_state lo_env = Some (tt, g', e') /\
    picked ev_core_close e' = [(true, 512, 9)] /\ qview e' = ∅.
Proof.
  split.
  - destruct (fd_free_closes_owned (E := sim default_oracle) 10 48 0 listener_state
      (@sim_start default_oracle)) as (g' & e' & Hrun & Hp & _).
    + exact listener_sizes.
    + reflexivity.
    + discriminate.
    + exists g', e'. split; [exact Hrun|exact Hp].
  - destruct (fd_free_closes_owned (E := sim default_oracle) 10 49 1 lo_udp_state lo_env)
      as (g' & e' & Hrun & Hp & _ & _ & _ & _ & _ & Hq).
    + exact lo_udp_sizes.
    + reflexivity.
    + intros _. split; [exact lo_state_wf|]. right. exists LO_QUEUE_DEPTH, [900].
      split; [reflexivity|cbn; lia].
    + exists g', e'. split; [exact Hrun|]. split; [exact Hp|].
      cbn [is_null] in Hq. destruct Hq as (c & ptrs & Hv & Hd & _).
      transitivity (delete 5 (qview lo_env)); [exact Hd|]. apply (bool_decide_unpack _). by vm_compute.
Defined.
