(* ===== verification/SockWrap.v ===== *)
(** * The BSD socket wrappers

    [components/esp_smoltcp_lwip_compat/src/sock_wrap.c]: the functions the linker
    puts in place of lwIP's. Names lose their [__wrap_lwip_] prefix and gain
    [wrap_]. A pointer argument is given as what it points to, an out-argument as
    part of the result; an [option] stands for a pointer the code tests. *)

From S2P Require Import Prelude Prog Types Platform Sim NetStack NetSock Loopback FdTable.

(** [struct sockaddr_in]: family, port and address in memory order. *)
Record sockaddr := SockAddr { sa_family : Z; sin_port : Z; sin_addr : Z }.

(** [sizeof(struct sockaddr_in)] *)
Definition sockaddr_in_size : Z := 16.

(** The buffer of [setsockopt], read as each type the code reads it as. *)
Record optval := OptVal { ov_timeval : Z * Z; ov_mreq : Z }.

(** [ms ? ms : default_ms] *)
Definition or_default (ms default_ms : Z) : Z := if ms =? 0 then default_ms else ms.

Section code.
Context `{cfg : Config} {E : Type} `{!Platform E, !SocketConsts}.

(** [SET_ERRNO(e); return -1;] *)
Definition fail_with (e : errno_code) : cprog Z :=
  modify (set_errno (Some e));;
  mret (-1).

Definition wrap_socket (fuel : nat) (domain type : Z) : cprog Z :=
  if negb (domain =? AF_INET) then fail_with EAFNOSUPPORT
  else
    let k := if Z.land type 255 =? SOCK_STREAM then Some FD_TCP
             else if Z.land type 255 =? SOCK_DGRAM then Some FD_UDP else None in
    match k with
    | None => fail_with EPROTONOSUPPORT
    | Some k =>
        fd ← fd_alloc k;
        if fd <? 0 then fail_with ENFILE
        else
          let i := fd_index fd in
          modify (upd_entry i (set_nonblocking false));;
          if bool_decide (k = FD_UDP) then
            id ← gets (fun g => fd_iface (entry_at i g));
            s ← net_udp_open id 0;
            modify (upd_entry i (set_sock s));;
            if negb (net_sock_valid s) then
              fd_free fuel fd;;
              fail_with ENOBUFS
            else mret fd
          else mret fd
    end.

Definition wrap_bind (fd : Z) (addr : sockaddr) (alen : Z) : cprog Z :=
  e ← fd_get fd;
  match e with
  | None => fail_with EINVAL
  | Some i =>
      if (alen <? sockaddr_in_size) || negb (sa_family addr =? AF_INET) then fail_with EINVAL
      else
        modify (upd_entry i (set_local_ipv4_be (sin_addr addr)));;
        modify (upd_entry i (set_local_port (ntohs (sin_port addr))));;
        en ← gets (entry_at i);
        if negb (bool_decide (kind en = FD_UDP)) then mret 0
        else if is_loopback_ip (local_ipv4_be en) then
          r ← lo_bind (local_port en) (Some i);
          mret (if bool_decide (r = ESP_OK) then 0 else -1)
        else
          (if net_sock_valid (sock en) then net_udp_close (sock en);; mret tt else mret tt);;
          en ← gets (entry_at i);
          s ← net_udp_open (fd_iface en) (local_port en);
          modify (upd_entry i (set_sock s));;
          if negb (net_sock_valid s) then fail_with EADDRINUSE else mret 0
  end.

(** [pool_size] of [listen] *)
Definition listen_pool_size (backlog : Z) : Z :=
  let pool_size := if 0 <? backlog then backlog else LISTENER_POOL in
  if LISTENER_POOL <? pool_size then LISTENER_POOL else pool_size.

(** [e->pool[j] = s] *)
Definition set_pool_at (i j : nat) (s : Z) : globals -> globals :=
  upd_entry i (fun en => set_pool_socks (<[j := s]> (pool_socks en)) en).

(** The loop of [listen] that arms the slots [js] of the pool. *)
Fixpoint arm_pool (i : nat) (js : list nat) : cprog Z :=
  match js with
  | [] => mret 0
  | j :: js =>
      id ← gets (fun g => fd_iface (entry_at i g));
      s ← net_tcp_open id;
      modify (set_pool_at i j s);;
      if negb (net_sock_valid s) then fail_with ENOBUFS
      else
        p ← gets (fun g => port (entry_at i g));
        r ← net_tcp_listen s p;
        if negb (bool_decide (r = ESP_OK)) then fail_with EADDRINUSE else arm_pool i js
  end.

Definition wrap_listen (fd backlog : Z) : cprog Z :=
  e ← fd_get fd;
  match e with
  | None => fail_with EBADF
  | Some i =>
      en ← gets (entry_at i);
      if negb (bool_decide (kind en = FD_TCP)) then fail_with EBADF
      else if local_port en =? 0 then fail_with EINVAL
      else
        let pool_size := listen_pool_size backlog in
        p ← idf (Malloc (pool_size * 4));
        modify (upd_entry i (set_pool p));;
        if is_null p then fail_with ENOMEM
        else
          modify (upd_entry i (set_pool_socks (replicate (Z.to_nat pool_size) 0)));;
          modify (upd_entry i (set_pool_len (Z.to_nat pool_size)));;
          modify (upd_entry i (set_pool_next 0));;
          modify (upd_entry i (set_port (local_port en)));;
          modify (upd_entry i (set_kind FD_TCP_LISTEN));;
          arm_pool i (seq 0 (Z.to_nat pool_size))
  end.

(** The body of the loop of [accept] for a connected candidate: the new
    descriptor and the address written, if any. *)
Definition accept_take (i idx : nat) (cand : Z) (alen : option Z) : cprog (Z * option sockaddr) :=
  newfd ← fd_alloc FD_TCP;
  if newfd <? 0 then
    r ← fail_with ENFILE;
    mret (r, None)
  else
    let ni := fd_index newfd in
    modify (upd_entry ni (set_sock cand));;
    modify (upd_entry ni (set_connected true));;
    id ← gets (fun g => fd_iface (entry_at i g));
    modify (upd_entry ni (set_fd_iface id));;
    modify (upd_entry ni (set_nonblocking false));;
    s ← net_tcp_open id;
    modify (set_pool_at i idx s);;
    (if net_sock_valid s then
       p ← gets (fun g => port (entry_at i g));
       net_tcp_listen s p;; mret tt
     else mret tt);;
    modify (upd_entry i (fun en => set_pool_next ((idx + 1) mod pool_len en)%nat en));;
    mret (newfd, match alen with
                 | Some n => if sockaddr_in_size <=? n then Some (SockAddr AF_INET 0 0) else None
                 | None => None
                 end).

(** One scan of the pool, at the offsets [js] from [pool_next]. *)
Fixpoint accept_scan (i : nat) (js : list nat) (alen : option Z)
    : cprog (option (Z * option sockaddr)) :=
  match js with
  | [] => mret None
  | j :: js =>
      idx ← gets (fun g => ((pool_next (entry_at i g) + j) mod pool_len (entry_at i g))%nat);
      cand ← gets (fun g => pool_socks (entry_at i g) !!! idx);
      c ← net_tcp_is_connected cand;
      if c : bool then
        r ← accept_take i idx cand alen;
        mret (Some r)
      else accept_scan i js alen
  end.

Fixpoint accept_loop (fuel : nat) (i : nat) (start : Z) (alen : option Z)
    : cprog (Z * option sockaddr) :=
  match fuel with
  | O => Spin
  | S fuel =>
      n ← gets (fun g => pool_len (entry_at i g));
      r ← accept_scan i (seq 0 n) alen;
      match r with
      | Some r => mret r
      | None =>
          nb ← gets (fun g => nonblocking (entry_at i g));
          if nb : bool then
            r ← fail_with EWOULDBLOCK;
            mret (r, None)
          else
            t ← xTaskGetTickCount;
            if pdMS_TO_TICKS 60000 <? u32 (t - start) then
              r ← fail_with ETIMEDOUT;
              mret (r, None)
            else
              rtos (VTaskDelay (pdMS_TO_TICKS 2));;
              accept_loop fuel i start alen
      end
  end.

(** [alen] is [*alen] when [addr] and [alen] are not [NULL]. *)
Definition wrap_accept (fuel : nat) (fd : Z) (alen : option Z) : cprog (Z * option sockaddr) :=
  let bad := r ← fail_with EBADF; mret (r, None) in
  e ← fd_get fd;
  match e with
  | None => bad
  | Some i =>
      en ← gets (entry_at i);
      if negb (bool_decide (kind en = FD_TCP_LISTEN)) then bad
      else
        start ← xTaskGetTickCount;
        accept_loop fuel i start alen
  end.

Definition wrap_connect (fuel : nat) (fd : Z) (addr : sockaddr) (alen : Z) : cprog Z :=
  e ← fd_get fd;
  match e with
  | None => fail_with EINVAL
  | Some i =>
      if alen <? sockaddr_in_size then fail_with EINVAL
      else
        en ← gets (entry_at i);
        match kind en with
        | FD_TCP =>
            s ← net_tcp_open (fd_iface en);
            modify (upd_entry i (set_sock s));;
            if negb (net_sock_valid s) then fail_with ENOBUFS
            else
              r ← net_tcp_connect fuel s (sin_addr addr) (ntohs (sin_port addr))
                    (or_default (snd_timeout_ms en) 30000);
              if negb (bool_decide (r = ESP_OK)) then fail_with ETIMEDOUT
              else
                modify (upd_entry i (set_connected true));;
                mret 0
        | FD_UDP =>
            modify (upd_entry i (set_local_ipv4_be (sin_addr addr)));;
            modify (upd_entry i (set_local_port (ntohs (sin_port addr))));;
            modify (upd_entry i (set_connected true));;
            mret 0
        | _ => fail_with EBADF
        end
  end.

Definition wrap_send (fuel : nat) (fd : Z) (buf : list Z) : cprog Z :=
  e ← fd_get fd;
  match e with
  | None => fail_with ENOTCONN
  | Some i =>
      en ← gets (entry_at i);
      if negb (connected en) then fail_with ENOTCONN
      else
        match kind en with
        | FD_TCP => net_tcp_send fuel (sock en) buf (or_default (snd_timeout_ms en) 5000)
        | FD_UDP => net_udp_sendto (sock en) buf (local_ipv4_be en) (local_port en)
        | _ => fail_with EBADF
        end
  end.

(** [to] of [recv] and [recvfrom] *)
Definition recv_timeout (en : fd_entry) : Z :=
  if nonblocking en then 0 else or_default (rcv_timeout_ms en) 30000.

(** The result, and the bytes written to the buffer of [len] bytes. *)
Definition wrap_recv (fuel : nat) (fd len : Z) : cprog (Z * list Z) :=
  let bad := r ← fail_with EBADF; mret (r, []) in
  e ← fd_get fd;
  match e with
  | None => bad
  | Some i =>
      en ← gets (entry_at i);
      let finish (n : Z) (bs : list Z) :=
        nb ← gets (fun g => nonblocking (entry_at i g));
        if (n =? 0) && nb then
          r ← fail_with EWOULDBLOCK;
          mret (r, bs)
        else mret (n, bs) in
      match kind en with
      | FD_TCP =>
          r ← net_tcp_recv fuel (sock en) len (recv_timeout en);
          finish r.1 r.2
      | FD_UDP =>
          r ← net_udp_recvfrom fuel (sock en) len (recv_timeout en);
          finish (ur_n r) (ur_data r)
      | _ => bad
      end
  end.

(** [to] is not [NULL]. *)
Definition wrap_sendto (fd : Z) (buf : list Z) (to : sockaddr) (tolen : Z) : cprog Z :=
  e ← fd_get fd;
  match e with
  | None => fail_with EBADF
  | Some i =>
      en ← gets (entry_at i);
      if negb (bool_decide (kind en = FD_UDP)) then fail_with EBADF
      else if tolen <? sockaddr_in_size then fail_with EINVAL
      else
        let dst_be := sin_addr to in
        let dst_port := ntohs (sin_port to) in
        if is_loopback_ip dst_be
        then lo_deliver dst_port (local_ipv4_be en) (local_port en) buf
        else net_udp_sendto (sock en) buf dst_be dst_port
  end.

(** The result, the bytes written and the address written. [fromlen] is
    [*fromlen] when [from] and [fromlen] are not [NULL]. *)
Definition wrap_recvfrom (fuel : nat) (fd len : Z) (fromlen : option Z)
    : cprog (Z * list Z * option sockaddr) :=
  let bad := r ← fail_with EBADF; mret (r, [], None) in
  let from_addr (n sp src : Z) :=
    match fromlen with
    | Some fl => if (0 <? n) && (sockaddr_in_size <=? fl)
                 then Some (SockAddr AF_INET (htons sp) src) else None
    | None => None
    end in
  e ← fd_get fd;
  match e with
  | None => bad
  | Some i =>
      en ← gets (entry_at i);
      if negb (bool_decide (kind en = FD_UDP)) then bad
      else
        let to := recv_timeout en in
        if loopback en && negb (is_null (lo_rx en)) then
          r ← rtos (XQueueReceive (lo_rx en) (pdMS_TO_TICKS to));
          match r with
          | None =>
              nb ← gets (fun g => nonblocking (entry_at i g));
              if nb : bool then
                r ← fail_with EWOULDBLOCK;
                mret (r, [], None)
              else mret (0, [], None)
          | Some m =>
              msg ← gets (fun g => lo_heap (lo g) !!! m);
              let copy := if lo_len msg <? len then lo_len msg else len in
              free_msg m;;
              mret (i32 copy, take (Z.to_nat copy) (lo_data msg),
                    from_addr (i32 copy) (src_port msg) (src_be msg))
          end
        else
          r ← net_udp_recvfrom fuel (sock en) len to;
          mret (ur_n r, ur_data r,
                from_addr (ur_n r) (default 0 (ur_src_port r)) (default 0 (ur_src_be r)))
  end.

Definition wrap_close (fuel : nat) (fd : Z) : cprog Z :=
  ours ← fd_is_socket fd;
  if negb ours then idf (RealLwip "close" fd 0 0)
  else
    fd_free fuel fd;;
    mret 0.

Definition wrap_shutdown (fd : Z) : cprog Z :=
  e ← fd_get fd;
  match e with
  | None => fail_with EBADF
  | Some i =>
      en ← gets (entry_at i);
      if bool_decide (kind en = FD_TCP) && net_sock_valid (sock en) then
        net_tcp_close (sock en);;
        modify (upd_entry i (set_sock NET_SOCK_INVALID));;
        modify (upd_entry i (set_connected false));;
        mret 0
      else mret 0
  end.

(** [tv->tv_sec * 1000 + tv->tv_usec / 1000], stored as a [uint32_t]. *)
Definition timeval_ms (tv : Z * Z) : Z := u32 (tv.1 * 1000 + Z.quot tv.2 1000).

(** The options not named here are accepted and ignored. *)
Definition wrap_setsockopt (fd level optname : Z) (v : optval) (optlen : Z) : cprog Z :=
  e ← fd_get fd;
  match e with
  | None => fail_with EBADF
  | Some i =>
      if (level =? SOL_SOCKET) && (optname =? SO_RCVTIMEO) then
        when (timeval_size <=? optlen)
          (modify (upd_entry i (set_rcv_timeout_ms (timeval_ms (ov_timeval v)))));;
        mret 0
      else if (level =? SOL_SOCKET) && (optname =? SO_SNDTIMEO) then
        when (timeval_size <=? optlen)
          (modify (upd_entry i (set_snd_timeout_ms (timeval_ms (ov_timeval v)))));;
        mret 0
      else if (level =? IPPROTO_IP) && (optname =? IP_ADD_MEMBERSHIP) && (ip_mreq_size <=? optlen)
      then
        id ← gets (fun g => fd_iface (entry_at i g));
        r ← net_mcast_join id (ov_mreq v);
        mret (if bool_decide (r = ESP_OK) then 0 else -1)
      else if (level =? IPPROTO_IP) && (optname =? IP_DROP_MEMBERSHIP) && (ip_mreq_size <=? optlen)
      then
        id ← gets (fun g => fd_iface (entry_at i g));
        r ← net_mcast_leave id (ov_mreq v);
        mret (if bool_decide (r = ESP_OK) then 0 else -1)
      else mret 0
  end.

(** [optlen] is [*optlen] when [optval] and [optlen] are not [NULL]; the second
    result is the [int] written. *)
Definition wrap_getsockopt (fd level optname : Z) (optlen : option Z) : cprog (Z * option Z) :=
  e ← fd_get fd;
  match e with
  | None => r ← fail_with EBADF; mret (r, None)
  | Some _ =>
      mret (0, if (level =? SOL_SOCKET) && (optname =? SO_ERROR)
               then match optlen with
                    | Some n => if 4 <=? n then Some 0 else None
                    | None => None
                    end
               else None)
  end.

(** [alen] is [*alen] when [addr] and [alen] are not [NULL]. *)
Definition wrap_getsockname (fd : Z) (alen : option Z) : cprog (Z * option sockaddr) :=
  let bad := r ← fail_with EINVAL; mret (r, None) in
  e ← fd_get fd;
  match e, alen with
  | Some i, Some n =>
      if n <? sockaddr_in_size then bad
      else
        en ← gets (entry_at i);
        ip ← net_stack_get_ipv4 (fd_iface en);
        mret (0, Some (SockAddr AF_INET (htons (local_port en)) ip))
  | _, _ => bad
  end.

Definition wrap_getpeername : cprog Z := fail_with EOPNOTSUPP.

Definition wrap_fcntl (fd cmd arg : Z) : cprog Z :=
  e ← fd_get fd;
  match e with
  | None => idf (RealLwip "fcntl" fd cmd arg)
  | Some i =>
      if cmd =? F_GETFL then
        nb ← gets (fun g => nonblocking (entry_at i g));
        mret (if nb : bool then O_NONBLOCK else 0)
      else if cmd =? F_SETFL then
        modify (upd_entry i (set_nonblocking (negb (Z.land arg O_NONBLOCK =? 0))));;
        mret 0
      else mret 0
  end.

(** [arg] is the [int] it points to, when it is not [NULL]. *)
Definition wrap_ioctl (fd cmd : Z) (arg : option Z) : cprog Z :=
  if cmd =? FIONBIO then
    e ← fd_get fd;
    match e with
    | None => fail_with EBADF
    | Some i =>
        modify (upd_entry i (set_nonblocking
          (match arg with Some v => negb (v =? 0) | None => false end)));;
        mret 0
    end
  else idf (RealLwip "ioctl" fd cmd (default 0 arg)).

Definition wrap_read (fuel : nat) (fd len : Z) : cprog (Z * list Z) :=
  ours ← fd_is_socket fd;
  if ours : bool then wrap_recv fuel fd len
  else
    r ← idf (RealLwip "read" fd len 0);
    mret (r, []).

Definition wrap_write (fuel : nat) (fd : Z) (buf : list Z) : cprog Z :=
  ours ← fd_is_socket fd;
  if ours : bool then wrap_send fuel fd buf
  else idf (RealLwip "write" fd (Z.of_nat (length buf)) 0).
End code.

(** ** Datagrams over the loopback *)

Section loopback.
Context `{cfg : Config} {E : Type} `{!Platform E, !SocketConsts, !QueueLaws E}.
Implicit Types (g : globals) (e : E).

(** The descriptor [fd] is the UDP descriptor of entry [i]. *)
Definition udp_fd (fd : Z) (i : nat) g : Prop :=
  fd_entry_of fd g = Some i /\ kind (entry_at i g) = FD_UDP.

(** The address [recvfrom] reports when given room for one. *)
Definition reported (fromlen : option Z) (n sp src : Z) : option sockaddr :=
  match fromlen with
  | Some fl => if (0 <? n) && (sockaddr_in_size <=? fl)
               then Some (SockAddr AF_INET (htons sp) src) else None
  | None => None
  end.

Lemma wp_recvfrom_lo fuel fd len fl i g e q m ptrs msg msgs :
  udp_fd fd i g -> loopback (entry_at i g) = true -> 0 <= len ->
  receives g e i q (m :: ptrs) (msg :: msgs) -> 0 <= lo_len msg < 65536 ->
  wp ext (wrap_recvfrom fuel fd len fl) g e (fun r g' e' =>
    r = (Z.min (lo_len msg) len, take (Z.to_nat (Z.min (lo_len msg) len)) (lo_data msg),
         reported fl (Z.min (lo_len msg) len) (src_port msg) (src_be msg)) /\
    heap g' = delete m (heap g) /\ slots g' = slots g /\ fdt g' = fdt g /\
    receives g' e' i q ptrs msgs).
Proof.
  intros [Hfd Hk] Hlo Hlen Hr Hm. unfold wrap_recvfrom, fd_get. rewrite wp_gets, Hfd, wp_gets.
  rewrite Hk. cbn [bool_decide decide decide_rel negb]. destruct Hr as (Hrx & Hqn & Hv & Hnd & Hall).
  rewrite bool_decide_eq_true_2 by done. cbn [negb].
  rewrite Hlo, Hrx. rewrite (is_null_ne _ Hqn). cbn [negb andb].
  rewrite wp_rtos. destruct (q_recv e q (pdMS_TO_TICKS (recv_timeout (entry_at i g))) _ _ _ Hv)
    as (e1 & He1 & Hq1). rewrite He1. cbn [fst snd]. rewrite wp_gets.
  apply Forall2_cons_1 in Hall as [Hmsg Hall].
  rewrite (lookup_total_correct (lo_heap (lo g)) m msg Hmsg).
  replace (if lo_len msg <? len then lo_len msg else len) with (Z.min (lo_len msg) len)
    by (case_test; lia).
  rewrite i32_small by lia. unfold free_msg. rewrite wp_bind, wp_modify.
  rewrite wp_idf_last.
  cbn beta. rewrite wp_ret. split_and!; [done..|]. apply NoDup_cons in Hnd as [Hni Hnd].
  split_and!; [done|done| |done|].
  - rewrite q_frame, Hq1 by done. apply lookup_insert_eq.
  - apply Forall2_same_length_lookup. split; [by eapply Forall2_length|].
    intros j x y Hx Hy. unfold heap. cbn. rewrite lookup_delete_ne.
    + exact (Forall2_lookup_lr _ _ _ _ _ _ Hall Hx Hy).
    + intros ->. apply Hni. by eapply list_elem_of_lookup_2.
Qed.
(** A datagram to a loopback address goes to [lo_deliver]. *)
Lemma wrap_sendto_lo fd buf to tolen i g :
  udp_fd fd i g -> is_loopback_ip (sin_addr to) = true -> sockaddr_in_size <= tolen ->
  forall e Q, wp ext (wrap_sendto fd buf to tolen) g e Q <->
    wp ext (lo_deliver (ntohs (sin_port to)) (local_ipv4_be (entry_at i g))
              (local_port (entry_at i g)) buf) g e Q.
Proof.
  intros [Hfd Hk] Hlo Hlen e Q. unfold wrap_sendto, fd_get. rewrite wp_gets, Hfd, wp_gets, Hk.
  rewrite bool_decide_eq_true_2 by done. cbn [negb]. case_test; [lia|]. by rewrite Hlo.
Qed.
End loopback.

(** ** Properties *)

Section properties.
Context `{cfg : Config} {E : Type} `{!Platform E, !SocketConsts, !QueueLaws E}.
Implicit Types (g : globals) (e : E).

(** C14. Datagrams round-trip over the loopback. A [sendto] of a non-empty
    datagram to a 127.0.0.0/8 address and the port [p] of a bound UDP descriptor
    whose queue is empty, given memory, answers the datagram's length; a
    [recvfrom] there, with a buffer at least as large, then returns exactly the
    bytes sent, with the local address and port of the sender's entry, the port in
    network byte order; and afterwards the queue is empty and no message is left on the
    heap. *)
Theorem loopback_roundtrip fuel fds fdr si ri p addr buf len g e q :
  0 < Z.of_nat (length buf) <= UINT16_MAX -> Z.of_nat (length buf) <= len -> 0 <= p < 65536 ->
  is_loopback_ip addr = true -> udp_fd fds si g -> udp_fd fdr ri g ->
  loopback (entry_at ri g) = true -> slot_lookup (slots g) p = Some ri ->
  receives g e ri q [] [] ->
  (forall n e1, (ext _ (Idf (Malloc n)) e1).1 <> NULL /\
     heap g !! (ext _ (Idf (Malloc n)) e1).1 = None) ->
  let n := Z.of_nat (length buf) in
  let sender := entry_at si g in
  exists g1 e1 g2 e2,
    run ext (wrap_sendto fds buf (SockAddr AF_INET (htons p) addr) sockaddr_in_size) g e
      = Some (n, g1, e1) /\
    run ext (wrap_recvfrom fuel fdr len (Some sockaddr_in_size)) g1 e1
      = Some ((n, buf, Some (SockAddr AF_INET (htons (local_port sender)) (local_ipv4_be sender))),
              g2, e2) /\
    heap g2 = heap g /\ slots g2 = slots g /\ fdt g2 = fdt g /\ receives g2 e2 ri q [] [].
Proof.
  intros Hn Hlen Hp Haddr Hs Hr Hlo Hslot Hrecv Hmal n sender.
  assert (Hsend : wp ext (wrap_sendto fds buf (SockAddr AF_INET (htons p) addr) sockaddr_in_size) g e
    (fun r g1 e1 => r = n /\ slots g1 = slots g /\ fdt g1 = fdt g /\ exists m, heap g !! m = None /\
       heap g1 = <[m := LoMsg (local_ipv4_be sender) (local_port sender) n buf]> (heap g) /\
       receives g1 e1 ri q [m] [LoMsg (local_ipv4_be sender) (local_port sender) n buf])).
  { rewrite wrap_sendto_lo by done. cbn [sin_port]. rewrite ntohs_htons by done.
    wp_use (wp_lo_deliver g e p _ _ buf ri q [] []); [lia|done|done| |].
    - intros k e1. right. apply Hmal.
    - intros r g1 e1 (Hsl & Hf & _ & Hcase & Hwhy). unfold datagram, UINT16_MAX in *.
      rewrite u16_small in Hcase by lia. case_decide as Hd.
      + destruct (Hwhy Hd) as [Hfull|(k & e' & Hnull)]; [cbn in Hfull; unfold LO_QUEUE_DEPTH in *; lia|].
        by destruct (Hmal k e').
      + destruct Hcase as (-> & Hcase). eauto. }
  apply wp_run in Hsend as (r & g1 & e1 & Hrun1 & -> & Hsl & Hf & m & Hm & Hh & Hr1).
  pose proof (wp_recvfrom_lo fuel fdr len (Some sockaddr_in_size) ri g1 e1 q m []
    (LoMsg (local_ipv4_be sender) (local_port sender) n buf) []) as Hwp.
  apply wp_run in Hwp as (r & g2 & e2 & Hrun2 & -> & Hh2 & Hsl2 & Hf2 & Hr2).
  - exists g1, e1, g2, e2. unfold reported in Hrun2. cbn in Hrun2. fold n in Hrun2.
    rewrite Z.min_l in Hrun2 by lia. rewrite (proj2 (Z.ltb_lt 0 n)) in Hrun2 by lia. cbn in Hrun2.
    unfold n in Hrun2 at 2. rewrite Nat2Z.id, firstn_all in Hrun2.
    split_and!; [done|done| |congruence|congruence|done].
    rewrite Hh2, Hh. by apply delete_insert_id.
  - unfold udp_fd, fd_entry_of, entry_at in *. by rewrite Hf.
  - unfold entry_at in *. by rewrite Hf.
  - lia.
  - done.
  - unfold UINT16_MAX in *. cbn. lia.
Qed.
End properties.

(** ** Witnesses *)

#[local] Existing Instance tiny.
#[local] Existing Instance lwip_consts.

(** Descriptor 48 sends from port 4000; descriptor 49 is bound to port 7000 of the
    loopback and receives on queue 5. *)
Definition pair_state : globals :=
  upd_slot 0 (LoSlot 7000 (Some 1%nat))
    (upd_entry 0 (fun en => set_local_ipv4_be 16777343 (set_local_port 4000 (set_kind FD_UDP en)))
      (upd_entry 1 (fun en => set_lo_rx 5 (set_loopback true (set_kind FD_UDP en))) globals_zero)).

Definition pair_env : sim default_oracle := Sim {[ 5 := (LO_QUEUE_DEPTH, []) ]} [].

Lemma loopback_roundtrip_witness :
  exists g1 (e1 : sim default_oracle) g2 (e2 : sim default_oracle),
    run ext (wrap_sendto 48 [104; 105] (SockAddr AF_INET (htons 7000) 16777343) 16)
      pair_state pair_env = Some (2, g1, e1) /\
    run ext (wrap_recvfrom (E := sim default_oracle) 1 49 64 (Some 16)) g1 e1
      = Some ((2, [104; 105], Some (SockAddr AF_INET (htons 4000) 16777343)), g2, e2).
Proof.
  destruct (loopback_roundtrip (E := sim default_oracle) 1 48 49 0 1 7000 16777343 [104; 105] 64
    pair_state pair_env 5) as (g1 & e1 & g2 & e2 & H1 & H2 & _).
  - unfold UINT16_MAX. cbn. lia.
  - cbn. lia.
  - lia.
  - reflexivity.
  - split; reflexivity.
  - split; reflexivity.
  - reflexivity.
  - reflexivity.
  - split_and!; [reflexivity|done|reflexivity|constructor|constructor].
  - intros n e. split; [|apply lookup_empty]. cbn. unfold NULL. lia.
  - exists g1, e1, g2, e2. split; [exact H1|exact H2].
Defined.
