(* ===== verification/Listener.v ===== *)
(** * Listening and accepting

    Theorems on [listen] and [accept] of [sock_wrap.c] ([SockWrap.v]): the pool of
    listening sockets of a descriptor, armed by [listen] and scanned round robin
    by [accept]. *)

From S2P Require Import Prelude Prog Types Platform Sim NetStack NetSock FdTable SockWrap.

(** The sockets put into the listening state: handle, core id and port. *)
Definition ev_listen (ev : event) : option (ptr * Z * Z) :=
  let (X, cr) := ev in
  match cr.1 in ccall X return X -> option (ptr * Z * Z) with
  | Core c =>
      match c in core_call X return X -> option (ptr * Z * Z) with
      | Smoltcp_tcp_listen h s p => fun r => if r =? 0 then Some (h, s, p) else None
      | _ => fun _ => None
      end
  | _ => fun _ => None
  end cr.2.

(** What [accept] asks of the core: whether a socket is connected, with the
    answer; a new socket, with its id; and to listen on one, with the result. *)
Inductive pool_event :=
  | Asked (h : ptr) (s : Z) (connected : bool)
  | Opened (h : ptr) (id : Z)
  | Listened (h : ptr) (s port rc : Z).

Definition ev_pool (ev : event) : option pool_event :=
  let (X, cr) := ev in
  match cr.1 in ccall X return X -> option pool_event with
  | Core c =>
      match c in core_call X return X -> option pool_event with
      | Smoltcp_tcp_is_connected h s => fun r => Some (Asked h s r)
      | Smoltcp_tcp_open h => fun id => Some (Opened h id)
      | Smoltcp_tcp_listen h s p => fun r => Some (Listened h s p r)
      | _ => fun _ => None
      end
  | _ => fun _ => None
  end cr.2.

(** Nothing but entry [i] and [errno] changes. *)
Record only_entry (i : nat) (g g' : globals) : Prop := {
  oe_net : net g' = net g;
  oe_lo : lo g' = lo g;
  oe_len : length (s_table (fdt g')) = length (s_table (fdt g));
  oe_other j : j <> i -> entry_at j g' = entry_at j g;
}.

#[export] Instance only_entry_preorder i : PreOrder (only_entry i).
Proof.
  split; [by split|]. intros g1 g2 g3 [] []. split; try congruence.
  intros j Hj. rewrite oe_other1; auto.
Qed.

Lemma only_entry_upd i f g : only_entry i g (upd_entry i f g).
Proof.
  split; [done|done| |]; [apply length_alter|]. intros j Hj. by apply entry_at_upd_ne.
Qed.

Lemma only_entry_errno i e g : only_entry i g (set_errno e g).
Proof. by split. Qed.

#[export] Hint Resolve only_entry_upd only_entry_errno : smoltcp.

Lemma handle_of_net k g g' : net g' = net g -> handle_of k g' = handle_of k g.
Proof. unfold handle_of, iface_at. by intros ->. Qed.

Section arming.
Context `{cfg : Config} {E : Type} `{!Platform E, !SocketConsts, !History E}.
Implicit Types (g : globals) (e : E).

Lemma wp_tcp_open {A} (f : event -> option A) i g e :
  only (fun X c => forall r, f (existT X (c, r)) = None) (net_tcp_open i) ->
  wp ext (net_tcp_open i) g e (fun s g' e' => g' = g /\
    (net_sock_valid s = true -> handle_of i g <> NULL /\ IFACE s = i) /\
    picked f e' = picked f e).
Proof.
  intros Hf.
  enough (Hwp : wp ext (net_tcp_open i) g e (fun s g' _ => g' = g /\
    (net_sock_valid s = true -> handle_of i g <> NULL /\ IFACE s = i))).
  { eapply wp_mono; [exact (wp_no_events f _ g e _ Hf Hwp)|]. by intros s g' e' [[? ?] ?]. }
  unfold net_tcp_open. rewrite wp_bind, wp_handle_for.
  destruct (is_null (handle_of i g)) eqn:Hn; [by rewrite wp_ret|].
  apply Z.eqb_neq in Hn. rewrite wp_bind. apply wp_locked. intros e1 e2 _ _. rewrite wp_ret.
  split; [done|]. case_test; [done|]. intros _. split; [done|]. apply IFACE_pack.
  unfold handle_of in Hn. destruct (NET_IFACE_MAX <=? i)%nat eqn:Hi; [by destruct Hn|].
  apply Nat.leb_gt in Hi. unfold NET_IFACE_MAX in Hi. lia.
Qed.

Lemma wp_tcp_listen s p g e :
  wp ext (net_tcp_listen s p) g e (fun r g' e' => g' = g /\
    picked ev_listen e' = picked ev_listen e ++
      (if bool_decide (r = ESP_OK) then [(handle_of (IFACE s) g, LOCAL s, p)] else [])).
Proof.
  unfold net_tcp_listen. rewrite wp_bind, wp_handle_for.
  destruct (is_null _); [by rewrite wp_ret, app_nil_r|].
  rewrite wp_bind. apply wp_locked. intros e1 e2 He1 He2. rewrite wp_ret. split; [done|].
  rewrite picked_step, He2, picked_step, He1, picked_step. cbn. rewrite !app_nil_r.
  by case_test.
Qed.

(** The pool of [i] after [arm_pool] wrote the slots [js]. *)
Definition armed (i : nat) (js : list nat) (p : Z) g e g' e' : Prop :=
  exists socks, entry_at i g' = set_pool_socks socks (entry_at i g) /\
    length socks = length (pool_socks (entry_at i g)) /\
    (forall j, j ∉ js -> socks !!! j = pool_socks (entry_at i g) !!! j) /\
    (forall j, j ∈ js -> net_sock_valid (socks !!! j) = true /\
       IFACE (socks !!! j) = fd_iface (entry_at i g)) /\
    picked ev_listen e' = picked ev_listen e ++
      ((fun j => (handle_of (fd_iface (entry_at i g)) g, LOCAL (socks !!! j), p)) <$> js).

Lemma wp_arm_pool i js g e :
  (i < length (s_table (fdt g)))%nat -> NoDup js ->
  (forall j, j ∈ js -> (j < length (pool_socks (entry_at i g)))%nat) ->
  wp ext (arm_pool i js) g e (fun r g' e' => only_entry i g g' /\
    (r = 0 /\ armed i js (port (entry_at i g)) g e g' e' \/
     r = -1 /\ (errno g' = Some ENOBUFS \/ errno g' = Some EADDRINUSE))).
Proof.
  revert g e. induction js as [|j js IH]; intros g e Hi Hnd Hjs; cbn [arm_pool].
  { rewrite wp_ret. split; [done|]. left. split; [done|]. exists (pool_socks (entry_at i g)).
    rewrite app_nil_r. split_and!; [by destruct (entry_at i g)|done|done| |done].
    intros k Hk. by apply elem_of_nil in Hk. }
  apply NoDup_cons in Hnd as [Hj Hnd]. rewrite wp_gets, wp_bind.
  wp_use (wp_tcp_open ev_listen); [unfold net_tcp_open, locked, handle_for, net_iface_get; only_auto|].
  intros s g0 e0 (-> & Hs & Hp0). rewrite wp_modify. unfold set_pool_at.
  set (g1 := upd_entry i _ g). assert (H1 : only_entry i g g1) by apply only_entry_upd.
  assert (Hat : entry_at i g1 = set_pool_socks (<[j := s]> (pool_socks (entry_at i g))) (entry_at i g))
    by (unfold g1; by rewrite entry_at_upd).
  destruct (net_sock_valid s) eqn:Hv; cbn [negb].
  2:{ unfold fail_with. rewrite wp_modify, wp_ret. split; [|by right; auto].
      etrans; [done|apply only_entry_errno]. }
  destruct (Hs eq_refl) as [Hh Hif]. rewrite wp_gets, wp_bind. wp_use wp_tcp_listen.
  intros r g2 e2 (-> & Hp2). destruct (bool_decide (r = ESP_OK)) eqn:Hr; cbn [negb].
  2:{ unfold fail_with. rewrite wp_modify, wp_ret. split; [|by right; auto].
      etrans; [done|apply only_entry_errno]. }
  wp_use IH; [by rewrite (oe_len _ _ _ H1)|done| |].
  { intros k Hk. rewrite Hat. cbn. rewrite length_insert. apply Hjs. by right. }
  intros r' g3 e3 [H3 Hcase]. split; [by etrans|].
  destruct Hcase as [[-> (socks & He & Hl & Hout & Hin & Hp3)]|?]; [left|by right].
  split; [done|]. exists socks. rewrite Hat in *. cbn in *.
  assert (Hsj : socks !!! j = s).
  { rewrite Hout by done. apply list_lookup_total_insert_eq. apply Hjs. by left. }
  rewrite (handle_of_net _ g g1) in * by apply H1.
  split_and!; [done|by rewrite Hl, length_insert| | |].
  - intros k [Hne Hk]%not_elem_of_cons. rewrite Hout by done. by apply list_lookup_total_insert_ne.
  - intros k [->|Hk]%elem_of_cons; [by rewrite Hsj|by apply Hin].
  - rewrite Hp3, Hp2, Hp0, Hif, Hsj, <- app_assoc. done.
Qed.

Lemma listen_pool_size_min backlog :
  listen_pool_size backlog = if 0 <? backlog then Z.min backlog LISTENER_POOL else LISTENER_POOL.
Proof. unfold listen_pool_size. repeat case_test; lia. Qed.

Lemma listen_pool_size_range backlog :
  0 < LISTENER_POOL -> 0 < listen_pool_size backlog <= LISTENER_POOL.
Proof. intros. unfold listen_pool_size. repeat case_test; lia. Qed.

(** A listener whose pool is armed: [n] valid sockets of its interface. *)
Record listener (en : fd_entry) (n : nat) : Prop := {
  li_kind : kind en = FD_TCP_LISTEN;
  li_len : pool_len en = n;
  li_socks : length (pool_socks en) = n;
  li_next : (pool_next en < n)%nat;
  li_valid : Forall (fun s => net_sock_valid s = true /\ IFACE s = fd_iface en) (pool_socks en);
}.

Lemma wp_wrap_listen fd backlog i g e :
  fd_entry_of fd g = Some i -> (i < length (s_table (fdt g)))%nat ->
  kind (entry_at i g) = FD_TCP -> local_port (entry_at i g) <> 0 -> 0 < LISTENER_POOL ->
  wp ext (wrap_listen fd backlog) g e (fun r g' e' => only_entry i g g' /\
    (r = 0 /\ listener (entry_at i g') (Z.to_nat (listen_pool_size backlog)) /\
     port (entry_at i g') = local_port (entry_at i g) /\
     fd_iface (entry_at i g') = fd_iface (entry_at i g) /\
     picked ev_listen e' = picked ev_listen e ++
       ((fun s => (handle_of (fd_iface (entry_at i g)) g, LOCAL s, local_port (entry_at i g)))
        <$> pool_socks (entry_at i g')) \/
     r = -1 /\ (errno g' = Some ENOMEM \/ errno g' = Some ENOBUFS \/ errno g' = Some EADDRINUSE))).
Proof.
  intros Hfd Hi Hk Hport HL. unfold wrap_listen, fd_get. rewrite wp_gets, Hfd, wp_gets, Hk.
  rewrite bool_decide_eq_true_2 by done. cbn [negb]. rewrite (proj2 (Z.eqb_neq _ _) Hport).
  set (n := listen_pool_size backlog). pose proof (listen_pool_size_range backlog HL) as Hn. fold n in Hn.
  rewrite wp_idf, wp_modify. set (q := (ext _ (Idf (Malloc _)) e).1).
  destruct (is_null q).
  { unfold fail_with. rewrite wp_modify, wp_ret. split; [|by right; auto].
    etrans; [apply only_entry_upd|apply only_entry_errno]. }
  rewrite !wp_modify, !upd_entry_upd. set (g1 := upd_entry i _ g).
  assert (H1 : only_entry i g g1) by apply only_entry_upd.
  assert (Hat : entry_at i g1 = set_kind FD_TCP_LISTEN (set_port (local_port (entry_at i g))
     (set_pool_next 0 (set_pool_len (Z.to_nat n) (set_pool_socks (replicate (Z.to_nat n) 0)
       (set_pool q (entry_at i g))))))) by (unfold g1; by rewrite entry_at_upd).
  wp_use wp_arm_pool; [by rewrite (oe_len _ _ _ H1)|apply NoDup_seq| |].
  { intros j [_ Hj]%elem_of_seq. rewrite Hat. cbn. by rewrite length_replicate. }
  intros r g2 e2 [H2 Hcase]. split; [by etrans|].
  destruct Hcase as [[-> (socks & He & Hl & _ & Hin & Hp)]|[-> ?]]; [left|right; by auto].
  rewrite Hat in *. cbn in Hl, Hin, Hp. rewrite length_replicate in Hl.
  split_and!; [done| |by rewrite He..|].
  - rewrite He. split; cbn; [done|done|done|lia|]. apply Forall_lookup. intros j s Hj.
    rewrite <- (list_lookup_total_correct _ _ _ Hj). apply Hin, elem_of_seq.
    apply lookup_lt_Some in Hj. lia.
  - rewrite Hp, picked_step. cbn. rewrite app_nil_r, (handle_of_net _ g g1) by apply H1. f_equal.
    rewrite He. cbn. apply list_eq. intros j. rewrite !list_lookup_fmap.
    destruct (decide (j < Z.to_nat n)%nat) as [Hj|Hj].
    + rewrite lookup_seq_lt by done. cbn.
      rewrite <- Hl in Hj. apply lookup_lt_is_Some in Hj as [s Hs].
      by rewrite Hs, (list_lookup_total_correct _ _ _ Hs).
    + rewrite lookup_seq_ge, (lookup_ge_None_2 socks) by lia. done.
Qed.
End arming.

(** ** Accepting *)

(** The entry of an accepted connection. *)
Definition accepted_entry (s : Z) (iface : nat) (ev : ptr) : fd_entry :=
  set_fd_iface iface (set_connected true (set_sock s (set_kind FD_TCP (set_evt ev fd_entry_zero)))).

Section accepting.
Context `{cfg : Config} {E : Type} `{!Platform E, !SocketConsts, !History E}.
Implicit Types (g : globals) (e : E).

(** A slot of the pool is armed again by the calls [evs]: the core is asked for a
    new socket on the interface [iface], the slot is given the one it answers (or
    [NET_SOCK_INVALID] when there is none), and that socket is told to listen on
    the port [p]. Without a core handle there is nothing to ask. *)
Definition rearmed (h : ptr) (iface : nat) (p : Z) (s' : Z) (evs : list pool_event) : Prop :=
  if is_null h then s' = NET_SOCK_INVALID /\ evs = []
  else exists id, s' = (if id =? 0 then NET_SOCK_INVALID else pack_sock iface id) /\
    if net_sock_valid s' then exists rc, evs = [Opened h id; Listened h (LOCAL s') p rc]
    else evs = [Opened h id].

(** [newfd] took the socket at [idx] of the pool of [i]: it is the lowest free
    descriptor and owns that socket; a new socket listening on the port of [i]
    takes its place in the pool, whose next scan starts behind it; nothing else
    changes. *)
Record handed (i idx : nat) (newfd : Z) (evs : list pool_event) (g g' : globals) : Prop := {
  hd_new : exists ni, first_free g = Some ni /\ newfd = fd_offset + Z.of_nat ni /\
    entry_at ni g' = accepted_entry (pool_socks (entry_at i g) !!! idx) (fd_iface (entry_at i g))
                       (evt (entry_at ni g)) /\
    forall j, j <> i -> j <> ni -> entry_at j g' = entry_at j g;
  hd_pool : exists s',
    rearmed (handle_of (fd_iface (entry_at i g)) g) (fd_iface (entry_at i g)) (port (entry_at i g)) s' evs /\
    entry_at i g' = set_pool_next ((idx + 1) mod pool_len (entry_at i g))%nat
      (set_pool_socks (<[idx := s']> (pool_socks (entry_at i g))) (entry_at i g));
  hd_net : net g' = net g;
}.

(** The address written for a buffer of [alen] bytes. *)
Definition accept_addr (alen : option Z) : option sockaddr :=
  match alen with
  | Some n => if sockaddr_in_size <=? n then Some (SockAddr AF_INET 0 0) else None
  | None => None
  end.

Lemma only_fd_alloc_pool k :
  only (fun X c => forall r, ev_pool (existT X (c, r)) = None) (fd_alloc k).
Proof.
  unfold fd_alloc, fd_table_init, fd_default_iface, net_stack_get_ipv4, query_iface, locked_at. only_auto.
Qed.

Lemma picked_pool_rtos {X} (c : rtos_call X) e :
  picked ev_pool (ext _ (Rtos c) e).2 = picked ev_pool e.
Proof. rewrite picked_step. apply app_nil_r. Qed.

(** A core call under the lock is one event. *)
Lemma wp_locked_pool {X} (c : core_call X) (ev : X -> pool_event) g e Q :
  (forall r, ev_pool (existT X (Core c, r)) = Some (ev r)) ->
  (forall r e', picked ev_pool e' = picked ev_pool e ++ [ev r] -> Q r g e') ->
  wp ext (locked c) g e Q.
Proof.
  intros Hev HQ. apply wp_locked. intros e1 e2 -> ->. apply HQ.
  by rewrite picked_pool_rtos, picked_step, Hev, picked_pool_rtos.
Qed.

Lemma wp_tcp_open_pool i g e :
  wp ext (net_tcp_open i) g e (fun s g' e' => g' = g /\
    if is_null (handle_of i g) then s = NET_SOCK_INVALID /\ picked ev_pool e' = picked ev_pool e
    else exists id, s = (if id =? 0 then NET_SOCK_INVALID else pack_sock i id) /\
      picked ev_pool e' = picked ev_pool e ++ [Opened (handle_of i g) id]).
Proof.
  unfold net_tcp_open. rewrite wp_bind, wp_handle_for.
  destruct (is_null (handle_of i g)); [by rewrite wp_ret|]. rewrite wp_bind.
  apply (wp_locked_pool _ (Opened (handle_of i g))); [done|]. intros id e' Hp. rewrite wp_ret. eauto.
Qed.

Lemma wp_tcp_listen_pool s p g e :
  handle_of (IFACE s) g <> NULL ->
  wp ext (net_tcp_listen s p) g e (fun _ g' e' => g' = g /\
    exists rc, picked ev_pool e' = picked ev_pool e ++ [Listened (handle_of (IFACE s) g) (LOCAL s) p rc]).
Proof.
  intros Hh. unfold net_tcp_listen. rewrite wp_bind, wp_handle_for, (is_null_ne _ Hh), wp_bind.
  apply (wp_locked_pool _ (Listened (handle_of (IFACE s) g) (LOCAL s) p)); [done|].
  intros rc e' Hp. rewrite wp_ret. eauto.
Qed.

Lemma wp_is_connected s g e :
  handle_of (IFACE s) g <> NULL ->
  wp ext (net_tcp_is_connected s) g e (fun b g' e' => g' = g /\
    picked ev_pool e' = picked ev_pool e ++ [Asked (handle_of (IFACE s) g) (LOCAL s) b]).
Proof.
  intros Hh. unfold net_tcp_is_connected, query_sock. rewrite wp_bind, wp_handle_for.
  rewrite (is_null_ne _ Hh).
  by apply (wp_locked_pool _ (Asked (handle_of (IFACE s) g) (LOCAL s))).
Qed.

(** An interface with a core handle is in range. *)
Lemma handle_of_lt k g : handle_of k g <> NULL -> (k < NET_IFACE_MAX)%nat.
Proof.
  unfold handle_of. destruct (NET_IFACE_MAX <=? k)%nat eqn:Hk; [done|]. intros _. by apply Nat.leb_gt in Hk.
Qed.

(** The slot of the accepted socket is armed again, and the rest [k] goes on. *)
Lemma wp_rearm {B} i idx iface (k : cprog B) g e Q :
  (i < length (s_table (fdt g)))%nat ->
  (forall s' evs e', rearmed (handle_of iface g) iface (port (entry_at i g)) s' evs ->
     picked ev_pool e' = picked ev_pool e ++ evs -> wp ext k (set_pool_at i idx s' g) e' Q) ->
  wp ext (s ← net_tcp_open iface;
          modify (set_pool_at i idx s);;
          (if net_sock_valid s then
             p ← gets (fun g => port (entry_at i g));
             net_tcp_listen s p;; mret tt
           else mret tt);;
          k) g e Q.
Proof.
  intros Hi HQ. rewrite wp_bind. wp_use wp_tcp_open_pool. intros s g1 e1 [-> Hs].
  rewrite wp_modify, wp_bind. unfold rearmed in HQ. destruct (is_null (handle_of iface g)) eqn:Hn.
  { destruct Hs as [-> Hp]. cbn [net_sock_valid NET_SOCK_INVALID Z.eqb negb]. rewrite wp_ret.
    apply (HQ _ []); [done|by rewrite app_nil_r]. }
  destruct Hs as (id & Hs & Hp). destruct (net_sock_valid s) eqn:Hv.
  2:{ rewrite wp_ret. apply (HQ _ [Opened (handle_of iface g) id]); [|done].
      exists id. by rewrite Hv. }
  apply Z.eqb_neq in Hn.
  assert (Hif : IFACE s = iface).
  { rewrite Hs in *. case_test; [done|]. apply IFACE_pack. pose proof (handle_of_lt _ _ Hn) as Hlt.
    unfold NET_IFACE_MAX in Hlt. lia. }
  assert (Hh : handle_of (IFACE s) (set_pool_at i idx s g) = handle_of iface g)
    by (rewrite Hif; by apply handle_of_net).
  rewrite wp_gets, wp_bind. wp_use wp_tcp_listen_pool; [by rewrite Hh|].
  intros rc g2 e2 (-> & rc' & Hp2). rewrite wp_ret. rewrite Hh in Hp2.
  eapply HQ; [exists id; rewrite Hv; eauto|].
  rewrite Hp2, Hp, <- app_assoc. unfold set_pool_at. by rewrite entry_at_upd.
Qed.

(** What a connected socket in the slot [idx] leads to: a new descriptor, or the
    table is full and the connection stays in the pool. *)
Definition accept_took (i idx : nat) (alen : option Z) (r : Z * option sockaddr)
    (evs : list pool_event) (g g' : globals) : Prop :=
  0 <= r.1 /\ handed i idx r.1 evs g g' /\ r.2 = accept_addr alen \/
  r = (-1, None) /\ evs = [] /\ first_free g = None /\ g' = set_errno (Some ENFILE) g.

Lemma wp_accept_take i idx alen g e :
  0 <= LWIP_SOCKET_OFFSET -> fd_s_lock (fdt g) = true ->
  (i < length (s_table (fdt g)))%nat -> kind (entry_at i g) <> FD_FREE ->
  wp ext (accept_take i idx (pool_socks (entry_at i g) !!! idx) alen) g e (fun r g' e' =>
    exists evs, accept_took i idx alen r evs g g' /\ picked ev_pool e' = picked ev_pool e ++ evs).
Proof.
  intros Hoff Hlock Hi Hk. unfold accept_take. rewrite wp_bind.
  eapply wp_mono; [eapply (wp_no_events ev_pool); [apply only_fd_alloc_pool|by apply wp_fd_alloc]|].
  intros newfd g1 e1 [Hcase Hp1]. destruct (first_free g) as [ni|] eqn:Hff.
  2:{ destruct Hcase as [-> ->]. cbn [Z.ltb Z.compare]. unfold fail_with.
      rewrite wp_bind, wp_modify, !wp_ret. exists []. rewrite app_nil_r. split; [by right|done]. }
  destruct Hcase as (-> & id & _ & ->). unfold fd_offset.
  case_test; [lia|]. fold fd_offset. rewrite fd_index_off.
  pose proof (first_free_spec _ _ Hff) as (Hkn & Hni & _).
  assert (Hne : ni <> i) by congruence.
  rewrite !wp_modify, !upd_entry_upd, wp_gets, !wp_modify, !upd_entry_upd.
  rewrite entry_at_upd_ne by done. set (g2 := upd_entry ni _ g).
  assert (Hat2 : entry_at ni g2 = accepted_entry (pool_socks (entry_at i g) !!! idx)
            (fd_iface (entry_at i g)) (evt (entry_at ni g))).
  { unfold g2. by rewrite entry_at_upd. }
  assert (H2 : only_entry ni g g2) by apply only_entry_upd.
  assert (Hat : entry_at i g2 = entry_at i g) by by apply H2.
  apply wp_rearm; [by rewrite (oe_len _ _ _ H2)|]. intros s' evs e3 Hr Hp3.
  rewrite Hat, (handle_of_net _ g g2) in Hr by apply H2.
  rewrite wp_modify, wp_ret. set (g4 := upd_entry i _ _). exists evs.
  split; [left; split_and!; [cbn; unfold fd_offset; lia| |done]|by rewrite Hp3, Hp1].
  assert (H4 : only_entry i g2 g4) by (etrans; apply only_entry_upd). split.
  - exists ni. rewrite (oe_other _ _ _ H4) by done. split_and!; [done..|].
    intros j Hj Hjn. rewrite (oe_other _ _ _ H4), (oe_other _ _ _ H2); done.
  - exists s'. split; [done|]. unfold g4, set_pool_at.
    rewrite upd_entry_upd, entry_at_upd by (by rewrite (oe_len _ _ _ H2)). by rewrite Hat.
  - by rewrite (oe_net _ _ _ H4), (oe_net _ _ _ H2).
Qed.

(** The [j]-th candidate of a scan: its place in the pool, and the socket. *)
Definition cand_at (i j : nat) g : nat :=
  ((pool_next (entry_at i g) + j) mod pool_len (entry_at i g))%nat.

Definition cand (i j : nat) g : Z := pool_socks (entry_at i g) !!! cand_at i j g.

(** The core's answer [b] about the [j]-th candidate. *)
Definition asked (i : nat) g (b : bool) (j : nat) : pool_event :=
  Asked (handle_of (IFACE (cand i j g)) g) (LOCAL (cand i j g)) b.

Section scanning.
Context (i : nat) (alen : option Z) (g : globals).
Hypothesis (Hoff : 0 <= LWIP_SOCKET_OFFSET).
Hypothesis (Hlock : fd_s_lock (fdt g) = true).
Hypothesis (Hi : (i < length (s_table (fdt g)))%nat).
Hypothesis (Hkind : kind (entry_at i g) = FD_TCP_LISTEN).
Hypothesis (Hserved : forall j, handle_of (IFACE (cand i j g)) g <> NULL).

Lemma wp_accept_scan js e :
  wp ext (accept_scan i js alen) g e (fun o g' e' =>
    match o with
    | None => g' = g /\ picked ev_pool e' = picked ev_pool e ++ (asked i g false <$> js)
    | Some r => exists pre j post evs, js = pre ++ j :: post /\
        accept_took i (cand_at i j g) alen r evs g g' /\
        picked ev_pool e' = picked ev_pool e ++ (asked i g false <$> pre) ++ [asked i g true j] ++ evs
    end).
Proof.
  revert e. induction js as [|j js IH]; intros e; cbn [accept_scan].
  { rewrite wp_ret. by rewrite app_nil_r. }
  rewrite wp_gets, wp_gets, wp_bind. wp_use wp_is_connected; [exact (Hserved j)|].
  intros b g1 e1 [-> Hp1]. destruct b.
  - rewrite wp_bind. wp_use wp_accept_take; [done..|by rewrite Hkind|].
    intros r g2 e2 (evs & Ht & Hp2). rewrite wp_ret. exists [], j, js, evs.
    split_and!; [done|exact Ht|]. by rewrite Hp2, Hp1, <- app_assoc.
  - wp_use IH. intros [r|] g2 e2.
    + intros (pre & k & post & evs & -> & Ht & Hp). exists (j :: pre), k, post, evs.
      split_and!; [done..|]. by rewrite Hp, Hp1, <- app_assoc.
    + intros [-> Hp]. split; [done|]. by rewrite Hp, Hp1, <- app_assoc.
Qed.

(** Readings of the clock within a minute of [start] are finitely many. *)
Definition minute_passes (start : Z) (rank : E -> nat) : Prop :=
  (forall X (c : ccall X) e, (rank (ext _ c e).2 <= rank e)%nat) /\
  (forall e, u32 ((ext _ (Rtos XTaskGetTickCount) e).1 - start) <= pdMS_TO_TICKS 60000 ->
     (rank (ext _ (Rtos XTaskGetTickCount) e).2 < rank e)%nat).

(** The answers of [k] scans that found nothing. *)
Definition misses (k : nat) : list pool_event :=
  concat (replicate k (asked i g false <$> seq 0 (pool_len (entry_at i g)))).

(** The answers of a scan that found the [j]-th candidate connected. *)
Definition found_at (j : nat) : list pool_event :=
  (asked i g false <$> seq 0 j) ++ [asked i g true j].

(** How [accept] ends, after [k] scans that found nothing. *)
Definition accept_ends (start : Z) (r : Z * option sockaddr) g' e e' : Prop :=
  exists k,
  (exists j evs, (j < pool_len (entry_at i g))%nat /\
     accept_took i (cand_at i j g) alen r evs g g' /\
     picked ev_pool e' = picked ev_pool e ++ misses k ++ found_at j ++ evs) \/
  (r = (-1, None) /\ picked ev_pool e' = picked ev_pool e ++ misses k /\
   (nonblocking (entry_at i g) = true /\ k = 1%nat /\ g' = set_errno (Some EWOULDBLOCK) g \/
    nonblocking (entry_at i g) = false /\ g' = set_errno (Some ETIMEDOUT) g /\
    exists t, pdMS_TO_TICKS 60000 < u32 (t - start) /\
      existT _ (Rtos XTaskGetTickCount, t) ∈ hist e')).

Lemma seq_split pre j post n : seq 0 n = pre ++ j :: post -> pre = seq 0 j /\ (j < n)%nat.
Proof.
  intros Hs. assert (Hj : seq 0 n !! length pre = Some j) by by rewrite Hs, list_lookup_middle.
  apply lookup_seq in Hj as [Hj Hlt]. cbn in Hj. subst j. split; [|done].
  trans (take (length pre) (seq 0 n)); [by rewrite Hs, take_app_length|].
  rewrite take_seq. f_equal. lia.
Qed.

Lemma wp_accept_loop fuel start rank e :
  minute_passes start rank -> (rank e < fuel)%nat ->
  wp ext (accept_loop fuel i start alen) g e (fun r g' e' => accept_ends start r g' e e').
Proof.
  intros Hclock. revert e. induction fuel as [|fuel IH]; intros e Hfuel; [lia|].
  cbn [accept_loop]. rewrite wp_gets, wp_bind.
  eapply wp_mono; [eapply wp_rank; [apply Hclock|apply wp_accept_scan]|]. cbn beta.
  intros [r|] g1 e1 [Hscan Hr1].
  { destruct Hscan as (pre & j & post & evs & [-> Hj]%seq_split & Ht & Hp). rewrite wp_ret.
    exists 0%nat. left. exists j, evs. split_and!; [done..|]. unfold found_at.
    by rewrite Hp, <- app_assoc. }
  destruct Hscan as [-> Hp]. rewrite wp_gets. unfold xTaskGetTickCount, fail_with.
  assert (Hm : misses 1 = asked i g false <$> seq 0 (pool_len (entry_at i g))) by apply app_nil_r.
  destruct (nonblocking (entry_at i g)) eqn:Hnb.
  { rewrite wp_bind, wp_modify, !wp_ret. exists 1%nat. right. rewrite Hm. split_and!; [done..|].
    by left. }
  rewrite wp_rtos. set (t := (ext _ (Rtos XTaskGetTickCount) e1).1).
  set (e2 := (ext _ (Rtos XTaskGetTickCount) e1).2).
  assert (Hp2 : picked ev_pool e2 = picked ev_pool e1)
    by (subst e2; rewrite picked_step; apply app_nil_r).
  case_test.
  - rewrite wp_bind, wp_modify, !wp_ret. exists 1%nat. right. rewrite Hm. split_and!; [done|congruence|].
    right. split_and!; [done..|]. exists t. split; [done|]. subst e2. rewrite hist_step.
    apply elem_of_app. right. by left.
  - assert (Hr2 : (rank e2 < rank e1)%nat) by (apply Hclock; fold t; lia).
    rewrite wp_rtos. set (e3 := (ext _ (Rtos (VTaskDelay _)) e2).2).
    assert (Hr3 : (rank e3 <= rank e2)%nat) by apply Hclock.
    assert (Hp3 : picked ev_pool e3 = picked ev_pool e ++ misses 1).
    { rewrite Hm, <- Hp, <- Hp2. subst e3. rewrite picked_step. apply app_nil_r. }
    wp_use IH; [lia|]. intros r g' e' (k & Hend). exists (S k).
    change (misses (S k)) with ((asked i g false <$> seq 0 (pool_len (entry_at i g))) ++ misses k).
    rewrite Hp3, Hm in Hend.
    destruct Hend as [Hend|(-> & Hend & [(? & -> & ?)|Hto])]; [left| |right].
    + destruct Hend as (j & evs & Hj & Ht & Hend). exists j, evs. split_and!; [done|done|].
      by rewrite Hend, <- !app_assoc.
    + congruence.
    + split_and!; [done|by rewrite Hend, <- !app_assoc|by right].
Qed.
End scanning.
End accepting.

(** ** Properties *)

Section properties.
Context `{cfg : Config} {E : Type} `{!Platform E, !SocketConsts, !History E}.
Implicit Types (g : globals) (e : E).

(** C22. [listen] arms the whole pool or fails. On a TCP descriptor bound to a
    port it either returns 0, and then the descriptor is a listener with a pool
    of as many sockets as the backlog asks for, at most [LISTENER_POOL], and of
    [LISTENER_POOL] for a backlog that is not positive, each valid, of the descriptor's interface and put into the
    listening state on the bound port at the core, in order and exactly once;
    or it returns -1 with [errno] saying why. No other descriptor changes. *)
Theorem listen_arms_pool fd backlog i g e :
  fd_entry_of fd g = Some i -> (i < length (s_table (fdt g)))%nat ->
  kind (entry_at i g) = FD_TCP -> local_port (entry_at i g) <> 0 -> 0 < LISTENER_POOL ->
  exists r g' e', run ext (wrap_listen fd backlog) g e = Some (r, g', e') /\ only_entry i g g' /\
    (r = 0 /\
     listener (entry_at i g') (Z.to_nat (if 0 <? backlog then Z.min backlog LISTENER_POOL else LISTENER_POOL)) /\
     port (entry_at i g') = local_port (entry_at i g) /\
     picked ev_listen e' = picked ev_listen e ++
       ((fun s => (handle_of (fd_iface (entry_at i g)) g, LOCAL s, local_port (entry_at i g)))
        <$> pool_socks (entry_at i g')) \/
     r = -1 /\ (errno g' = Some ENOMEM \/ errno g' = Some ENOBUFS \/ errno g' = Some EADDRINUSE)).
Proof.
  intros Hfd Hi Hk Hp HL. pose proof (wp_wrap_listen fd backlog i g e Hfd Hi Hk Hp HL) as Hwp.
  apply wp_run in Hwp as (r & g' & e' & Hrun & Ho & Hcase). exists r, g', e'. split_and!; [done..|].
  destruct Hcase as [(? & ? & ? & _ & ?)|?]; [left|by right].
  rewrite <- listen_pool_size_min. by split_and!.
Qed.

End properties.

(** ** Witnesses *)

#[local] Existing Instance tiny.
#[local] Existing Instance lwip_consts.

(** Socket 6 of the pool is connected; the clock stops at its last tick. *)
Definition accept_oracle : oracle := fun X c h =>
  match c in ccall X return X with
  | Rtos c0 =>
      match c0 in rtos_call X return X with
      | XTaskGetTickCount => Z.min (Z.of_nat (length h)) MAX_DELAY
      | c0 => default_rtos c0 (length h)
      end
  | Idf c0 => default_idf c0 (length h)
  | Core c0 =>
      match c0 in core_call X return X with
      | Smoltcp_tcp_is_connected _ s => s =? 6
      | c0 => default_core c0 (length h)
      end
  end.

Lemma accept_clock :
  minute_passes (E := sim accept_oracle) 0 (fun e => Z.to_nat (60001 - Z.of_nat (length (sim_hist e)))).
Proof.
  assert (Hstep : forall X (c : ccall X) (e : sim accept_oracle),
    length (sim_hist (ext _ c e).2) = S (length (sim_hist e))).
  { intros X c e. pose proof (hist_step X c e) as Hh. cbn [hist sim_history] in Hh.
    rewrite Hh, length_app. cbn. lia. }
  split; [intros X c e; rewrite Hstep; lia|].
  intros e. rewrite Hstep. cbn -[Z.min]. unfold MAX_DELAY. rewrite (u32_small 60000) by lia.
  rewrite Z.sub_0_r, u32_small by lia. lia.
Qed.

Definition bound_state : globals :=
  upd_entry 0 (fun en => set_kind FD_TCP (set_local_port 80 en)) (upd_fdt (set_fd_s_lock true) eth_up).

Lemma listen_arms_pool_witness :
  exists r g' (e' : sim default_oracle),
    run ext (wrap_listen 48 5) bound_state (@sim_start default_oracle) = Some (r, g', e').
Proof.
  destruct (listen_arms_pool (E := sim default_oracle) 48 5 0 bound_state (@sim_start default_oracle))
    as (r & g' & e' & Hrun & _).
  - reflexivity.
  - vm_compute. lia.
  - reflexivity.
  - discriminate.
  - reflexivity.
  - exists r, g', e'. exact Hrun.
Defined.

