(* ===== verification/SelectWrap.v ===== *)
(** * select() and poll()

    [components/esp_smoltcp_lwip_compat/src/select_wrap.c]. An [fd_set] is the
    finite set of its descriptors. *)

From S2P Require Import Prelude Prog Types Platform Sim NetStack NetSock Loopback FdTable.

Section code.
Context `{cfg : Config} {E : Type} `{!Platform E, !SocketConsts}.

(** The scan of a listener's pool in [fd_readable]. *)
Fixpoint any_connected (i : nat) (js : list nat) : cprog bool :=
  match js with
  | [] => mret false
  | j :: js =>
      s ← gets (fun g => pool_socks (entry_at i g) !!! j);
      c ← net_tcp_is_connected s;
      if c : bool then mret true else any_connected i js
  end.

Definition fd_readable (fuel : nat) (i : nat) : cprog bool :=
  en ← gets (entry_at i);
  if bool_decide (kind en = FD_TCP_LISTEN) then any_connected i (seq 0 (pool_len en))
  else if loopback en && negb (is_null (lo_rx en)) then
    n ← rtos (UxQueueMessagesWaiting (lo_rx en));
    mret (0 <? n)
  else if bool_decide (kind en = FD_TCP) then
    n ← net_tcp_recv_queue (sock en);
    if 0 <? n then mret true
    else
      c ← net_tcp_is_connected (sock en);
      mret (negb c && connected en)
  else if bool_decide (kind en = FD_UDP) then
    r ← net_udp_recvfrom fuel (sock en) 0 0;
    mret (0 <? ur_n r)
  else mret false.

Definition fd_writable (i : nat) : cprog bool :=
  en ← gets (entry_at i);
  if bool_decide (kind en = FD_TCP) then
    if connected en then
      n ← net_tcp_send_capacity (sock en);
      mret (0 <? n)
    else mret false
  else if bool_decide (kind en = FD_UDP) then mret (net_sock_valid (sock en) || loopback en)
  else mret false.

(** The two sets written and the count. *)
Record ready_sets := Ready { rd_ready : gset Z; wr_ready : gset Z; n_ready : Z }.

Definition no_ready : ready_sets := Ready ∅ ∅ 0.

(** [FD_ISSET(fd, &in) && test(e)] *)
Definition when_set (fd : Z) (fds : gset Z) (test : cprog bool) : cprog bool :=
  if bool_decide (fd ∈ fds) then test else mret false.

Definition add_read (fd : Z) (b : bool) (r : ready_sets) : ready_sets :=
  if b then Ready ({[fd]} ∪ rd_ready r) (wr_ready r) (n_ready r + 1) else r.

Definition add_write (fd : Z) (b : bool) (r : ready_sets) : ready_sets :=
  if b then Ready (rd_ready r) ({[fd]} ∪ wr_ready r) (n_ready r + 1) else r.

(** One scan over the descriptors [fds]. *)
Fixpoint select_scan (fuel : nat) (fds : list Z) (rd_in wr_in : gset Z) (acc : ready_sets)
    : cprog ready_sets :=
  match fds with
  | [] => mret acc
  | fd :: fds =>
      ours ← fd_is_socket fd;
      if negb ours then select_scan fuel fds rd_in wr_in acc
      else
        e ← fd_get fd;
        match e with
        | None => select_scan fuel fds rd_in wr_in acc
        | Some i =>
            r ← when_set fd rd_in (fd_readable fuel i);
            w ← when_set fd wr_in (fd_writable i);
            select_scan fuel fds rd_in wr_in (add_write fd w (add_read fd r acc))
        end
  end.

(** [0, 1, .., nfds - 1] *)
Definition fds_below (nfds : Z) : list Z := Z.of_nat <$> seq 0 (Z.to_nat nfds).

Fixpoint select_loop (fuel : nat) (nfds : Z) (rd_in wr_in : gset Z) (deadline : Z)
    : cprog ready_sets :=
  match fuel with
  | O => Spin
  | S fuel' =>
      r ← select_scan fuel (fds_below nfds) rd_in wr_in no_ready;
      if negb (n_ready r =? 0) then mret r
      else
        timed_out ← (if deadline =? portMAX_DELAY then mret false
                     else t ← xTaskGetTickCount; mret (deadline <=? t));
        if timed_out : bool then mret no_ready
        else
          rtos (VTaskDelay 1);;
          select_loop fuel' nfds rd_in wr_in deadline
  end.

(** [tv_sec * 1000u + tv_usec / 1000u], stored as a [uint32_t]. *)
Definition select_ms (tv : Z * Z) : Z := u32 (tv.1 * 1000 + u32 tv.2 / 1000).

(** A [NULL] set is an empty one: nothing is ever set in it. *)
Definition wrap_select (fuel : nat) (nfds : Z) (rd wr : option (gset Z)) (to : option (Z * Z))
    : cprog ready_sets :=
  deadline ← (match to with
              | Some tv => t ← xTaskGetTickCount; mret (u32 (t + pdMS_TO_TICKS (select_ms tv)))
              | None => mret portMAX_DELAY
              end);
  select_loop fuel nfds (default ∅ rd) (default ∅ wr) deadline.

(** [struct pollfd]: the descriptor and whether [events] has [POLLIN] and
    [POLLOUT]; the result has the [revents]. *)
Record pollfd := PollFd { pf_fd : Z; pf_in : bool; pf_out : bool }.

(** [max(fd, ..)], from -1. *)
Definition max_fd (fds : list pollfd) : Z := foldl (fun m p => if m <? pf_fd p then pf_fd p else m) (-1) fds.

Definition poll_set (f : pollfd -> bool) (fds : list pollfd) : gset Z :=
  list_to_set (pf_fd <$> filter (fun p => f p = true) fds).

(** The descriptors are not negative (they index an [fd_set]). *)
Definition wrap_poll (fuel : nat) (fds : list pollfd) (timeout_ms : Z)
    : cprog (Z * list (bool * bool)) :=
  let tv := (Z.quot timeout_ms 1000, Z.rem timeout_ms 1000 * 1000) in
  r ← wrap_select fuel (max_fd fds + 1) (Some (poll_set pf_in fds)) (Some (poll_set pf_out fds))
        (if timeout_ms <? 0 then None else Some tv);
  if n_ready r <=? 0 then mret (n_ready r, (fun _ => (false, false)) <$> fds)
  else
    let revents := (fun p => (bool_decide (pf_fd p ∈ rd_ready r),
                              bool_decide (pf_fd p ∈ wr_ready r))) <$> fds in
    mret (foldr (fun (b : bool * bool) n => Z.b2z b.1 + Z.b2z b.2 + n) 0 revents, revents).
End code.

(** ** Readiness *)

Section readiness.
Context `{cfg : Config} {E : Type} `{!Platform E, !SocketConsts, !QueueLaws E}.
Implicit Types (g : globals) (e : E).

(** What the core would answer about a socket at [e]. *)
Definition connected_now e (h : ptr) (s : Z) : bool := (ext _ (Core (Smoltcp_tcp_is_connected h s)) e).1.

Definition queued_now e (h : ptr) (s : Z) : Z := (ext _ (Core (Smoltcp_tcp_recv_queue h s)) e).1.

Definition capacity_now e (h : ptr) (s : Z) : Z := (ext _ (Core (Smoltcp_tcp_send_capacity h s)) e).1.

(** What a query of the [net_sock_t] [s] finds. *)
Definition of_sock {A} (none : A) (f : ptr -> Z -> A) (s : Z) g : A :=
  if is_null (handle_of (IFACE s) g) then none else f (handle_of (IFACE s) g) (LOCAL s).

(** The messages waiting on a queue. *)
Definition waiting (q : ptr) e : nat := match qview e !! q with Some (_, l) => length l | None => 0 end.

(** When an entry is readable at [e]: a listener with a connected socket in its
    pool, a loopback socket with a message, a TCP socket with data or past its
    connection; an entry is writable when there is room to send. *)
Definition readable (i : nat) g e : bool :=
  let en := entry_at i g in
  if bool_decide (kind en = FD_TCP_LISTEN)
  then existsb (fun j => of_sock false (connected_now e) (pool_socks en !!! j) g) (seq 0 (pool_len en))
  else if loopback en && negb (is_null (lo_rx en)) then (0 <? waiting (lo_rx en) e)%nat
  else if bool_decide (kind en = FD_TCP)
  then (0 <? of_sock 0 (queued_now e) (sock en) g) ||
       (negb (of_sock false (connected_now e) (sock en) g) && connected en)
  else false.

Definition writable (i : nat) g e : bool :=
  let en := entry_at i g in
  match kind en with
  | FD_TCP => connected en && (0 <? of_sock 0 (capacity_now e) (sock en) g)
  | FD_UDP => net_sock_valid (sock en) || loopback en
  | _ => false
  end.

(** Readiness of a descriptor. *)
Definition rd_ok (fd : Z) g e : bool :=
  match fd_entry_of fd g with Some i => readable i g e | None => false end.

Definition wr_ok (fd : Z) g e : bool :=
  match fd_entry_of fd g with Some i => writable i g e | None => false end.

(** The descriptors of a list that are asked for and ready. *)
Definition rd_of (fds : list Z) (rd : gset Z) g e : list Z :=
  filter (fun fd => fd ∈ rd /\ rd_ok fd g e = true) fds.

Definition wr_of (fds : list Z) (wr : gset Z) g e : list Z :=
  filter (fun fd => fd ∈ wr /\ wr_ok fd g e = true) fds.

(** The sets with the descriptors [rs] and [ws] added. *)
Definition with_ready (rs ws : list Z) (acc : ready_sets) : ready_sets :=
  Ready (list_to_set rs ∪ rd_ready acc) (list_to_set ws ∪ wr_ready acc)
    (n_ready acc + Z.of_nat (length rs) + Z.of_nat (length ws)).

(** What [select] is to find at [e]: the descriptors below [nfds] that are asked
    for and ready, and their number. *)
Definition ready_at (nfds : Z) (rd wr : gset Z) g e : ready_sets :=
  with_ready (rd_of (fds_below nfds) rd g e) (wr_of (fds_below nfds) wr g e) no_ready.

Lemma no_ready_none rs ws : n_ready (with_ready rs ws no_ready) = 0 -> with_ready rs ws no_ready = no_ready.
Proof.
  unfold with_ready. cbn [n_ready no_ready]. intros Hn.
  assert (length rs = 0 /\ length ws = 0)%nat as [Hr Hw] by lia.
  apply nil_length_inv in Hr as ->. apply nil_length_inv in Hw as ->. unfold no_ready. cbn.
  by rewrite !(union_empty_r_L (C := gset Z)).
Qed.

Lemma with_ready_add fd br bw rs ws acc :
  with_ready (if br : bool then fd :: rs else rs) (if bw : bool then fd :: ws else ws) acc
  = with_ready rs ws (add_write fd bw (add_read fd br acc)).
Proof.
  assert (Hset : forall (fds : list Z) (X : gset Z),
    list_to_set (fd :: fds) ∪ X = list_to_set fds ∪ ({[fd]} ∪ X)).
  { intros fds X. rewrite list_to_set_cons, (assoc_L (∪)). by rewrite (comm_L (∪) {[fd]}). }
  unfold with_ready, add_read, add_write.
  destruct br, bw; cbn [rd_ready wr_ready n_ready]; rewrite ?Hset; f_equal; cbn [length]; lia.
Qed.

(** The queue of a loopback entry exists; no entry is a UDP socket of the core,
    whose probe is another matter. *)
Definition probes_ok (i : nat) g e : Prop :=
  let en := entry_at i g in
  (kind en = FD_UDP -> loopback en = true /\ lo_rx en <> NULL) /\
  (loopback en = true -> lo_rx en <> NULL -> is_Some (qview e !! lo_rx en)).

(** The queues that the probes of the descriptors in [rd] look at exist. *)
Definition rd_probes_ok (rd : gset Z) g e : Prop :=
  forall fd i, fd ∈ rd -> fd_entry_of fd g = Some i -> probes_ok i g e.

(** Other tasks that run during a delay delete no queue. *)
Definition queues_stay : Prop := forall e t q,
  is_Some (qview e !! q) -> is_Some (qview (ext _ (Rtos (VTaskDelay t)) e).2 !! q).

Lemma probes_ok_qview i g e e' : qview e' = qview e -> probes_ok i g e -> probes_ok i g e'.
Proof. unfold probes_ok. by intros ->. Qed.

(** The sockets of the core a probe of an entry asks about. *)
Definition probe_socks (en : fd_entry) : list Z :=
  match kind en with
  | FD_TCP => [sock en]
  | FD_TCP_LISTEN => (fun j => pool_socks en !!! j) <$> seq 0 (pool_len en)
  | _ => []
  end.

Definition asked_by g (fds : gset Z) (s : Z) : Prop :=
  exists fd i, fd ∈ fds /\ fd_entry_of fd g = Some i /\ s ∈ probe_socks (entry_at i g).
End readiness.

(** ** Waiting for something *)

(** The shape of a wait with a deadline: look; with something found, answer it;
    with nothing found and the clock at the deadline, answer [none]; with nothing
    found before it, sleep one tick and look again. Between the look and what
    follows only [scans] happens. *)
Section waits.
Context {E : Type} `{!Platform E} {R : Type}.
Context (look : E -> R) (found : R -> bool) (none : R) (scans : E -> E -> Prop) (deadline : Z).

Inductive waits : E -> R -> E -> Prop :=
  | waits_found e e' : found (look e) = true -> scans e e' -> waits e (look e) e'
  | waits_timeout e e1 t e' :
      found (look e) = false -> scans e e1 ->
      ext _ (Rtos XTaskGetTickCount) e1 = (t, e') -> deadline <= t -> waits e none e'
  | waits_again e e1 t e2 r e' :
      found (look e) = false -> scans e e1 ->
      ext _ (Rtos XTaskGetTickCount) e1 = (t, e2) -> t < deadline ->
      waits (ext _ (Rtos (VTaskDelay 1)) e2).2 r e' -> waits e r e'.
End waits.

(** Reading the answers through a function. *)
Lemma waits_fmap {E} `{!Platform E} {R R'} (f : R -> R') look found none look' found' none' scans d e r e' :
  (forall e : E, look' e = f (look e)) -> (forall e : E, found' (look' e) = found (look e)) -> none' = f none ->
  waits look found none scans d e r e' -> waits look' found' none' scans d e (f r) e'.
Proof.
  intros Hl Hf -> Hw. induction Hw as [e e' H|e e1 t e' H ? ? ?|e e1 t e2 r e' H ? ? ? ? IH].
  - rewrite <- Hl. apply waits_found; [by rewrite Hf|done].
  - eapply waits_timeout; [by rewrite Hf|done..].
  - eapply waits_again; [by rewrite Hf|done..].
Qed.

(** ** Exactness of a scan *)

Section scan.
Context `{cfg : Config} {E : Type} `{!Platform E, !SocketConsts, !QueueLaws E}.
Context (asks : Z -> Prop) (g : globals).
Implicit Types (e : E).

(** The calls of a scan: about the sockets [asks], and of the real-time system. *)
Inductive scan_call : forall X, ccall X -> Prop :=
  | sc_take : scan_call unit (Rtos (XSemaphoreTake M_smoltcp))
  | sc_give : scan_call unit (Rtos (XSemaphoreGive M_smoltcp))
  | sc_tick : scan_call Z (Rtos XTaskGetTickCount)
  | sc_waiting q : scan_call Z (Rtos (UxQueueMessagesWaiting q))
  | sc_connected s : asks s -> handle_of (IFACE s) g <> NULL ->
      scan_call bool (Core (Smoltcp_tcp_is_connected (handle_of (IFACE s) g) (LOCAL s)))
  | sc_queued s : asks s -> handle_of (IFACE s) g <> NULL ->
      scan_call Z (Core (Smoltcp_tcp_recv_queue (handle_of (IFACE s) g) (LOCAL s)))
  | sc_capacity s : asks s -> handle_of (IFACE s) g <> NULL ->
      scan_call Z (Core (Smoltcp_tcp_send_capacity (handle_of (IFACE s) g) (LOCAL s))).

Definition scan_step e e' : Prop := exists X (c : ccall X), scan_call X c /\ e' = (ext X c e).2.

Definition scans : E -> E -> Prop := rtc scan_step.

(** The answers about the sockets [asks] are the same. *)
Definition same_answers e e' : Prop := forall s, asks s -> handle_of (IFACE s) g <> NULL ->
  let h := handle_of (IFACE s) g in
  connected_now e' h (LOCAL s) = connected_now e h (LOCAL s) /\
  queued_now e' h (LOCAL s) = queued_now e h (LOCAL s) /\
  capacity_now e' h (LOCAL s) = capacity_now e h (LOCAL s).

(** Asking changes no answer, on environments [P]; sleeping may change them, and
    keeps [P]. *)
Record asking_keeps (P : E -> Prop) : Prop := {
  sd_scan X (c : ccall X) e : scan_call X c -> P e -> P (ext X c e).2 /\ same_answers e (ext X c e).2;
  sd_delay e : P e -> P (ext _ (Rtos (VTaskDelay 1)) e).2;
}.

Context (P : E -> Prop) (Hsd : asking_keeps P).

Lemma scan_once X (c : ccall X) e : scan_call X c -> scans e (ext X c e).2.
Proof. intros Hc. apply rtc_once. by exists X, c. Qed.

(** A scan leaves everything a scan looks at. *)
Lemma scans_same e e' : scans e e' -> P e -> P e' /\ same_answers e e' /\ qview e' = qview e.
Proof.
  induction 1 as [e|e e1 e' (X & c & Hc & ->) _ IH]; intros HP; [done|].
  destruct (sd_scan _ Hsd X c e Hc HP) as [HP1 Ha1]. destruct (IH HP1) as (HP' & Ha & Hq).
  split_and!; [done| |].
  - intros s Hs Hh. cbn zeta. destruct (Ha s Hs Hh) as (-> & -> & ->). by apply Ha1.
  - rewrite Hq. apply q_frame; by destruct Hc.
Qed.

(** A query of a socket of [asks]. *)
Lemma wp_query_sock {A} (s : Z) (none : A) (c : ptr -> Z -> core_call A) e :
  (handle_of (IFACE s) g <> NULL -> scan_call A (Core (c (handle_of (IFACE s) g) (LOCAL s)))) ->
  (forall e', scans e e' -> P e -> handle_of (IFACE s) g <> NULL ->
     (ext _ (Core (c (handle_of (IFACE s) g) (LOCAL s))) e').1
     = (ext _ (Core (c (handle_of (IFACE s) g) (LOCAL s))) e).1) ->
  P e ->
  wp ext (query_sock s none c) g e (fun r g' e' =>
    r = of_sock none (fun h s => (ext _ (Core (c h s)) e).1) s g /\ g' = g /\ scans e e').
Proof.
  intros Hc Hsame HP. unfold query_sock, of_sock. rewrite wp_bind, wp_handle_for.
  destruct (is_null (handle_of (IFACE s) g)) eqn:Hn; [by rewrite wp_ret|].
  apply Z.eqb_neq in Hn. specialize (Hc Hn).
  assert (Ht : scans e (ext _ (Rtos (XSemaphoreTake M_smoltcp)) e).2) by apply scan_once, sc_take.
  unfold locked, SMOLTCP_LOCK, SMOLTCP_UNLOCK. rewrite wp_rtos, wp_core, wp_rtos, wp_ret.
  split_and!; [by apply Hsame|done|].
  etrans; [exact Ht|]. etrans; [by apply scan_once|]. apply scan_once, sc_give.
Qed.

(** The three queries of a probe. *)
Definition finds {A} (q : Z -> cprog A) (none : A) (now : E -> ptr -> Z -> A) : Prop := forall s e,
  asks s -> P e ->
  wp ext (q s) g e (fun r g' e' => r = of_sock none (now e) s g /\ g' = g /\ scans e e').

Ltac same_at s := let Hs := fresh in let HP := fresh in
  intros e' Hs HP ?; destruct (scans_same _ _ Hs HP) as (_ & Hs' & _);
  destruct (Hs' s) as (? & ? & ?); done.

Lemma finds_connected : finds net_tcp_is_connected false connected_now.
Proof.
  intros s e Hs HP. apply (wp_query_sock s false Smoltcp_tcp_is_connected); [by constructor| |done].
  same_at s.
Qed.

Lemma finds_queued : finds net_tcp_recv_queue 0 queued_now.
Proof.
  intros s e Hs HP. apply (wp_query_sock s 0 Smoltcp_tcp_recv_queue); [by constructor| |done].
  same_at s.
Qed.

Lemma finds_capacity : finds net_tcp_send_capacity 0 capacity_now.
Proof.
  intros s e Hs HP. apply (wp_query_sock s 0 Smoltcp_tcp_send_capacity); [by constructor| |done].
  same_at s.
Qed.

(** What is found of a socket of [asks] is the same after a scan. *)
Lemma of_sock_same s e e' : asks s -> P e -> scans e e' ->
  of_sock false (connected_now e') s g = of_sock false (connected_now e) s g /\
  of_sock 0 (queued_now e') s g = of_sock 0 (queued_now e) s g /\
  of_sock 0 (capacity_now e') s g = of_sock 0 (capacity_now e) s g.
Proof.
  intros Hs HP Hsc. destruct (scans_same _ _ Hsc HP) as (_ & Ha & _). unfold of_sock.
  destruct (is_null (handle_of (IFACE s) g)) eqn:Hn; [done|]. apply Ha; [done|by apply Z.eqb_neq].
Qed.

Lemma wp_any_connected i js e :
  (forall j, j ∈ js -> asks (pool_socks (entry_at i g) !!! j)) -> P e ->
  wp ext (any_connected i js) g e (fun r g' e' =>
    r = existsb (fun j => of_sock false (connected_now e) (pool_socks (entry_at i g) !!! j) g) js /\
    g' = g /\ scans e e').
Proof.
  revert e. induction js as [|j js IH]; intros e HS HP; cbn [any_connected existsb]; [by rewrite wp_ret|].
  rewrite wp_gets, wp_bind. wp_use finds_connected; [apply HS; by left|done|]. intros b g' e1 (-> & -> & Hs1).
  destruct (of_sock _ _ _ _); [by rewrite wp_ret|].
  destruct (scans_same _ _ Hs1 HP) as (HP1 & _). wp_use IH; [intros k Hk; apply HS; by right|done|].
  intros r g' e2 (-> & -> & Hs2). split_and!; [|done|by etrans]. cbn [orb].
  assert (Heq : forall k, k ∈ js -> of_sock false (connected_now e1) (pool_socks (entry_at i g) !!! k) g
            = of_sock false (connected_now e) (pool_socks (entry_at i g) !!! k) g)
    by (intros k Hk; apply of_sock_same; [apply HS; by right|done|done]).
  clear -Heq. induction js as [|k js IH]; [done|]. cbn [existsb]. rewrite Heq by by left.
  f_equal. apply IH. intros k' Hk'. apply Heq. by right.
Qed.

Lemma wp_fd_readable fuel i e :
  (forall s, s ∈ probe_socks (entry_at i g) -> asks s) -> probes_ok i g e -> P e ->
  wp ext (fd_readable fuel i) g e (fun r g' e' => r = readable i g e /\ g' = g /\ scans e e').
Proof.
  intros HS [Hudp Hq] HP. unfold fd_readable, readable. rewrite wp_gets.
  destruct (bool_decide (kind _ = FD_TCP_LISTEN)) eqn:Hkl.
  { apply bool_decide_eq_true in Hkl. apply wp_any_connected; [|done]. intros j Hj. apply HS.
    unfold probe_socks. rewrite Hkl. apply list_elem_of_fmap. eauto. }
  destruct (loopback (entry_at i g) && negb (is_null (lo_rx (entry_at i g)))) eqn:Hlo.
  - zify_bools. apply Z.eqb_neq in H1. destruct (Hq H0 H1) as [[c l] Hv].
    rewrite wp_rtos, wp_ret. rewrite (q_waiting _ _ _ _ Hv). unfold waiting. rewrite Hv.
    split_and!; [|done|apply scan_once, sc_waiting]. by destruct l.
  - destruct (bool_decide (kind _ = FD_TCP)) eqn:Hkt.
    + apply bool_decide_eq_true in Hkt.
      assert (Hs : asks (sock (entry_at i g))) by (apply HS; unfold probe_socks; rewrite Hkt; by left).
      rewrite wp_bind. wp_use finds_queued; [done|done|]. intros n g1 e1 (-> & -> & Hs1).
      destruct (0 <? of_sock _ _ _ _); [by rewrite wp_ret|]. rewrite wp_bind.
      destruct (scans_same _ _ Hs1 HP) as (HP1 & _). wp_use finds_connected; [done|done|].
      intros b g2 e2 (-> & -> & Hs2). rewrite wp_ret. split_and!; [|done|by etrans].
      by rewrite (proj1 (of_sock_same _ _ _ Hs HP Hs1)).
    + clear Hkl Hkt. case_bool_decide as Hk; [|by rewrite wp_ret]. destruct (Hudp Hk) as [Hl Hn].
      rewrite Hl, (is_null_ne _ Hn) in Hlo. discriminate Hlo.
Qed.

Lemma wp_fd_writable i e :
  (forall s, s ∈ probe_socks (entry_at i g) -> asks s) -> P e ->
  wp ext (fd_writable i) g e (fun r g' e' => r = writable i g e /\ g' = g /\ scans e e').
Proof.
  intros HS HP. unfold fd_writable, writable, probe_socks in *. rewrite wp_gets.
  repeat case_bool_decide; destruct (kind (entry_at i g)) eqn:Hk; try congruence;
    try by rewrite wp_ret.
  destruct (connected (entry_at i g)); [|by rewrite wp_ret]. rewrite wp_bind.
  wp_use finds_capacity; [apply HS; by left|done|].
  intros n g' e' (-> & -> & Hs). by rewrite wp_ret.
Qed.

(** Readiness is the same after a scan. *)
Lemma rd_ok_same fd i e e' :
  fd_entry_of fd g = Some i -> (forall s, s ∈ probe_socks (entry_at i g) -> asks s) -> P e -> scans e e' ->
  rd_ok fd g e' = rd_ok fd g e /\ wr_ok fd g e' = wr_ok fd g e.
Proof.
  intros Hfd HS HP Hs. destruct (scans_same _ _ Hs HP) as (_ & _ & Hq).
  unfold rd_ok, wr_ok, readable, writable, waiting, probe_socks in *. rewrite Hfd, Hq.
  destruct (kind (entry_at i g)) eqn:Hk; try done;
    repeat (rewrite bool_decide_eq_true_2 by done || rewrite bool_decide_eq_false_2 by done).
  - destruct (of_sock_same (sock (entry_at i g)) e e') as (-> & -> & ->); [apply HS; by left|done..].
  - split; [|done].
    assert (Heq : forall j, j ∈ seq 0 (pool_len (entry_at i g)) ->
      of_sock false (connected_now e') (pool_socks (entry_at i g) !!! j) g
      = of_sock false (connected_now e) (pool_socks (entry_at i g) !!! j) g).
    { intros j Hj. apply of_sock_same; [|done|done]. apply HS, list_elem_of_fmap. eauto. }
    revert Heq. generalize (seq 0 (pool_len (entry_at i g))) as js. clear.
    induction js as [|k js IH]; intros Heq; [done|]. cbn [existsb]. rewrite Heq by by left.
    f_equal. apply IH. intros k' Hk'. apply Heq. by right.
Qed.

Context (rd wr : gset Z) (HS : forall s, asked_by g (rd ∪ wr) s -> asks s).

Lemma asked_socks fd i s :
  fd ∈ rd \/ fd ∈ wr -> fd_entry_of fd g = Some i -> s ∈ probe_socks (entry_at i g) -> asks s.
Proof. intros Hin Hfd Hs. apply HS. exists fd, i. split_and!; [set_solver|done|done]. Qed.

Lemma ready_same fds e e' : P e -> scans e e' ->
  rd_of fds rd g e' = rd_of fds rd g e /\ wr_of fds wr g e' = wr_of fds wr g e.
Proof.
  intros HP Hs.
  assert (Hok : forall fd, fd ∈ rd \/ fd ∈ wr ->
    rd_ok fd g e' = rd_ok fd g e /\ wr_ok fd g e' = wr_ok fd g e).
  { intros fd Hin. destruct (fd_entry_of fd g) as [i|] eqn:Hfd.
    - eapply rd_ok_same; [done| |done|done]. intros s. by eapply asked_socks.
    - unfold rd_ok, wr_ok. by rewrite Hfd. }
  split; apply list_filter_iff; intros fd; (split; intros [Hin Hx]; split; [done| |done|]);
    destruct (Hok fd) as [Hr Hw]; auto; congruence.
Qed.

(** A descriptor is probed only when it is in the set. *)
Lemma wp_when_set fd (fds : gset Z) (ok : bool) (p : cprog bool) e :
  (fd ∈ fds -> wp ext p g e (fun r g' e' => r = ok /\ g' = g /\ scans e e')) ->
  wp ext (when_set fd fds p) g e (fun r g' e' =>
    r = bool_decide (fd ∈ fds /\ ok = true) /\ g' = g /\ scans e e').
Proof.
  intros Hp. unfold when_set. destruct (decide (fd ∈ fds)) as [Hin|Hin].
  - rewrite bool_decide_eq_true_2 by done. wp_use Hp; [done|]. intros r g' e' (-> & -> & Hq).
    split_and!; [|done|done]. destruct ok; [by rewrite bool_decide_eq_true_2|].
    by rewrite bool_decide_eq_false_2 by naive_solver.
  - rewrite bool_decide_eq_false_2, wp_ret by done.
    by rewrite bool_decide_eq_false_2 by naive_solver.
Qed.

Lemma wp_select_scan fuel fds acc e :
  rd_probes_ok rd g e -> P e ->
  wp ext (select_scan fuel fds rd wr acc) g e (fun r g' e' =>
    r = with_ready (rd_of fds rd g e) (wr_of fds wr g e) acc /\ g' = g /\ scans e e').
Proof.
  revert acc e. induction fds as [|fd fds IH]; intros acc e Hok HP; cbn [select_scan].
  { rewrite wp_ret. split_and!; [|done|done]. unfold with_ready. cbn. destruct acc; cbn.
    f_equal; [set_solver..|lia]. }
  unfold fd_is_socket, fd_get. rewrite wp_gets.
  assert (Hskip : fd_entry_of fd g = None ->
    rd_of (fd :: fds) rd g e = rd_of fds rd g e /\ wr_of (fd :: fds) wr g e = wr_of fds wr g e).
  { intros Hn. unfold rd_of, wr_of. rewrite !filter_cons_False; [done|..];
      unfold wr_ok, rd_ok; rewrite Hn; by intros []. }
  unfold fd_entry_of in Hskip at 1.
  destruct (fd_in_range fd && negb (bool_decide (kind (entry_at (fd_index fd) g) = FD_FREE))) eqn:Hs;
    cbn [negb].
  2:{ destruct Hskip as [-> ->]; [done|]. by apply IH. }
  assert (Hfd : fd_entry_of fd g = Some (fd_index fd)) by (unfold fd_entry_of; by rewrite Hs).
  rewrite wp_gets, Hfd, wp_bind.
  wp_use (wp_when_set _ _ (rd_ok fd g e)).
  { intros Hin. unfold rd_ok. rewrite Hfd. apply wp_fd_readable; [|by eapply Hok|done].
    intros s. apply (asked_socks fd); [by left|done]. }
  intros r g1 e1 (-> & -> & Hs1). destruct (scans_same _ _ Hs1 HP) as (HP1 & _ & Hq1).
  rewrite wp_bind. wp_use (wp_when_set _ _ (wr_ok fd g e1)).
  { intros Hin. unfold wr_ok. rewrite Hfd. apply wp_fd_writable; [|done].
    intros s. apply (asked_socks fd); [by right|done]. }
  intros w g2 e2 (-> & -> & Hs2). assert (Hs12 : scans e e2) by (by etrans).
  destruct (scans_same _ _ Hs12 HP) as (HP2 & _ & Hq2).
  wp_use IH; [|done|]. { intros fd' i' Hin Hfd'. eapply probes_ok_qview; [done|by eapply Hok]. }
  intros r g3 e3 (-> & -> & Hs3). split_and!; [|done|by etrans].
  destruct (ready_same fds _ _ HP Hs12) as [-> ->].
  destruct (ready_same [fd] _ _ HP Hs1) as [_ Hw]. unfold rd_of, wr_of in *.
  rewrite !filter_cons, filter_nil, <- with_ready_add in *.
  repeat case_decide; repeat case_bool_decide; first [done|tauto|discriminate Hw].
Qed.

Lemma wp_select_loop fuel nfds deadline rank e :
  queues_stay -> rd_probes_ok rd g e -> P e -> deadline <> portMAX_DELAY ->
  clock_reaches deadline rank -> (rank e < fuel)%nat ->
  wp ext (select_loop fuel nfds rd wr deadline) g e (fun r g' e' => g' = g /\
    waits (ready_at nfds rd wr g) (fun r => negb (n_ready r =? 0)) no_ready scans deadline e r e').
Proof.
  intros Hstay Hok HP Hd Hc. revert e Hok HP. induction fuel as [|fuel IH]; intros e Hok HP Hfuel; [lia|].
  cbn [select_loop]. rewrite wp_bind.
  eapply wp_mono; [eapply wp_rank; [apply Hc|by apply wp_select_scan]|]. cbn beta.
  intros r g1 e1 [(-> & -> & Hs1) Hr1]. fold (ready_at nfds rd wr g e).
  destruct (scans_same _ _ Hs1 HP) as (HP1 & _ & Hq1).
  destruct (negb (n_ready (ready_at nfds rd wr g e) =? 0)) eqn:Hn.
  { rewrite wp_ret. split; [done|]. by apply (waits_found (ready_at nfds rd wr g)). }
  rewrite (proj2 (Z.eqb_neq _ _) Hd). unfold xTaskGetTickCount. rewrite wp_bind, wp_rtos.
  destruct (ext _ (Rtos XTaskGetTickCount) e1) as [t e2] eqn:Ht. cbn [fst snd].
  rewrite wp_ret. case_test.
  - rewrite wp_ret. split; [done|]. eapply waits_timeout; [cbn beta; by rewrite Hn|done..].
  - rewrite wp_rtos. set (e3 := (ext _ (Rtos (VTaskDelay 1)) e2).2).
    assert (Hsc : scan_call Z (Rtos XTaskGetTickCount)) by constructor.
    destruct (sd_scan _ Hsd _ _ _ Hsc HP1) as [HP2 _]. rewrite Ht in HP2. cbn [snd] in HP2.
    assert (Hq2 : qview e2 = qview e) by (pose proof (q_frame _ (Rtos XTaskGetTickCount) e1 eq_refl eq_refl) as Hf;
      rewrite Ht in Hf; cbn in Hf; congruence).
    pose proof (proj2 Hc e1) as Hr2. rewrite Ht in Hr2. cbn in Hr2. specialize (Hr2 ltac:(lia)).
    assert (Hr3 : (rank e3 <= rank e2)%nat) by apply Hc.
    assert (Hok3 : rd_probes_ok rd g e3).
    { intros fd i Hin Hfd. destruct (Hok fd i Hin Hfd) as [Hudp Hqueue]. split; [done|].
      intros Hl Hx. apply Hstay. rewrite Hq2. auto. }
    wp_use IH; [done|by apply (sd_delay _ Hsd)|lia|]. intros r g' e' [-> Hend]. split; [done|].
    eapply waits_again; [cbn beta; by rewrite Hn|done|exact Ht|lia|exact Hend].
Qed.
End scan.

(** ** Readiness of UDP descriptors *)

Section properties.
Context `{cfg : Config} {E : Type} `{!Platform E, !SocketConsts, !History E}.
Implicit Types (g : globals) (e : E).

(** The core writes at most the bytes it is given room for. *)
Definition recv_law : Prop := forall h s cap e,
  ur_n (ext _ (Core (Smoltcp_udp_recvfrom h s cap)) e).1 <= cap.

(** A probe with no room never succeeds. *)
Lemma probe_law h s d rank :
  recv_law -> clock_reaches d rank ->
  attempt_law (ev_udp_recv h (LOCAL s)) (fun _ => false) rank (udp_recv_attempt h s 0).
Proof.
  intros Hlaw Hc g e. unfold udp_recv_attempt. rewrite wp_bind.
  eapply (wp_locked_event (ev_udp_recv h (LOCAL s))); [done|done|].
  intros r e0 e1 Hr Hp Hk. cbn in Hp. rewrite !Z.eqb_refl in Hp. cbn [andb] in Hp.
  rewrite wp_ret. split_and!; [done|lia|]. exists r. split; [done|].
  pose proof (Hlaw h (LOCAL s) 0 e0) as Hle. rewrite <- Hr in Hle. by case_test; [lia|].
Qed.

(** The deadline of a call with the timeout [tv]. *)
Definition select_deadline (tv : Z * Z) e : Z :=
  u32 ((ext _ (Rtos XTaskGetTickCount) e).1 + pdMS_TO_TICKS (select_ms tv)).

Lemma wp_wrap_select `{!QueueLaws E} P fuel nfds rd wr tv rank g e :
  asking_keeps (asked_by g (rd ∪ wr)) g P -> P e -> queues_stay -> rd_probes_ok rd g e ->
  select_deadline tv e <> portMAX_DELAY ->
  clock_reaches (select_deadline tv e) rank -> (rank e < fuel)%nat ->
  wp ext (wrap_select fuel nfds (Some rd) (Some wr) (Some tv)) g e (fun r g' e' => g' = g /\
    waits (ready_at nfds rd wr g) (fun r => negb (n_ready r =? 0)) no_ready
      (scans (asked_by g (rd ∪ wr)) g) (select_deadline tv e)
      (ext _ (Rtos XTaskGetTickCount) e).2 r e').
Proof.
  intros Hsd HP Hstay Hok Hd Hc Hfuel. unfold wrap_select, xTaskGetTickCount.
  rewrite wp_bind, wp_rtos, wp_ret. fold (select_deadline tv e). cbn [default].
  set (e1 := (ext _ (Rtos XTaskGetTickCount) e).2). assert (Hq : qview e1 = qview e) by by apply q_frame.
  assert (Hr1 : (rank e1 <= rank e)%nat) by apply Hc.
  destruct (sd_scan _ _ _ Hsd _ _ e (sc_tick _ _) HP) as [HP1 _].
  eapply (wp_select_loop _ _ P Hsd); [done|done| |done|done|exact Hc|lia].
  intros fd i Hin Hfd. eapply probes_ok_qview; [done|by eapply Hok].
Qed.


(** [select] never finds a UDP descriptor readable. Given that the core writes
    at most the bytes it has room for, the probe of [fd_readable], a receive into
    a buffer of no bytes, returns [false] whatever the core answers: the receive
    calls it makes before its deadline all count as failures. *)
Theorem udp_never_readable fuel i rank g e :
  kind (entry_at i g) = FD_UDP -> loopback (entry_at i g) = false -> recv_law ->
  handle_of (IFACE (sock (entry_at i g))) g <> NULL ->
  clock_reaches (deadline_from e 0 + 1) rank -> (rank e < fuel)%nat ->
  let f := ev_udp_recv (handle_of (IFACE (sock (entry_at i g))) g) (LOCAL (sock (entry_at i g))) in
  exists e' taken, run ext (fd_readable fuel i) g e = Some (false, g, e') /\
    picked f e' = picked f e ++ taken /\
    exists t, deadline_from e 0 < t /\ existT _ (Rtos XTaskGetTickCount, t) ∈ hist e'.
Proof.
  intros Hk Hlo Hlaw Hh Hc Hfuel. set (s := sock (entry_at i g)) in *. set (h := handle_of (IFACE s) g) in *.
  intros f. enough (Hwp : wp ext (fd_readable fuel i) g e (fun b g' e' => b = false /\ g' = g /\
    exists taken, picked f e' = picked f e ++ taken /\
    exists t, deadline_from e 0 < t /\ existT _ (Rtos XTaskGetTickCount, t) ∈ hist e')).
  { apply wp_run in Hwp as (b & g' & e' & Hrun & -> & -> & taken & ? & ?). eauto. }
  unfold fd_readable. rewrite wp_gets, Hk, Hlo.
  rewrite bool_decide_eq_false_2, bool_decide_eq_false_2, bool_decide_eq_true_2 by done. cbn [andb].
  fold s. unfold net_udp_recvfrom. rewrite !wp_bind, wp_handle_for.
  fold h.
  rewrite (is_null_ne _ Hh), wp_bind.
  eapply (wp_deadline f); [done|exact Hc|]. intros e1 [Hp1 Hr1]. rewrite wp_bind.
  wp_use (wp_recv_until f); [done|exact Hc|by eapply probe_law|lia|].
  intros o g' e' (-> & fails & _ & Ho). rewrite !wp_ret. destruct o as [r|]; [by destruct Ho|].
  destruct Ho as [Hp Hend]. split_and!; [done..|]. exists fails. by rewrite Hp, Hp1.
Qed.
End properties.

(** ** Witnesses *)

#[local] Existing Instance tiny.
#[local] Existing Instance lwip_consts.

(** Descriptor 48 is a UDP socket on Ethernet, and one datagram always waits. *)
Definition udp_state : globals :=
  upd_entry 0 (fun en => set_sock socket7 (set_kind FD_UDP en)) eth_up.

Definition datagram_oracle : oracle := fun X c h =>
  match c in ccall X return X with
  | Core c0 =>
      match c0 in core_call X return X with
      | Smoltcp_udp_recvfrom _ _ cap => UdpRx (Z.min cap 3) (take (Z.to_nat cap) [1; 2; 3]) None None
      | c0 => default_core c0 (length h)
      end
  | Rtos c0 => default_rtos c0 (length h)
  | Idf c0 => default_idf c0 (length h)
  end.

Lemma udp_never_readable_witness :
  exists e' : sim datagram_oracle,
    run ext (fd_readable (E := sim datagram_oracle) 100 0) udp_state (@sim_start datagram_oracle)
      = Some (false, udp_state, e').
Proof.
  destruct (udp_never_readable (E := sim datagram_oracle) 100 0
    (fun e => Z.to_nat (1 - Z.of_nat (length (sim_hist e)))) udp_state (@sim_start datagram_oracle))
    as (e' & taken & Hrun & _).
  - reflexivity.
  - reflexivity.
  - intros h s cap e. cbn. lia.
  - vm_compute. discriminate.
  - replace (deadline_from _ 0 + 1) with 1 by reflexivity. split.
    + intros X c e. pose proof (hist_step X c e) as Hs. cbn [hist sim_history] in Hs.
      rewrite Hs, length_app. lia.
    + intros e Hlt. pose proof (hist_step Z (Rtos XTaskGetTickCount) e) as Hs.
      cbn [hist sim_history] in Hs. rewrite Hs, length_app. cbn in *. lia.
  - vm_compute. lia.
  - exists e'. exact Hrun.
Defined.

(** Descriptor 48 is a TCP socket whose peer has closed. *)
Definition closing_state : globals :=
  upd_entry 0 (fun en => set_connected true (set_sock socket7 (set_kind FD_TCP en))) eth_up.
