(* ===== verification/Poll.v ===== *)
(** * poll() is exact

    [poll] of [select_wrap.c] is written over [select]. [SelectWrap] says what
    [select] returns; here the answer is read back through the two sets [poll]
    builds, and counted. *)

From S2P Require Import Prelude Prog Types Platform Sim NetStack NetSock FdTable SelectWrap.

(** ** The timeout and the sets *)

(** Milliseconds go to a [struct timeval] and back unchanged. *)
Lemma select_ms_poll ms :
  0 <= ms < 2 ^ 31 -> select_ms (Z.quot ms 1000, Z.rem ms 1000 * 1000) = ms.
Proof.
  intros Hms. unfold select_ms, u32, wrap. cbn [fst snd].
  rewrite Z.quot_div_nonneg, Z.rem_mod_nonneg by lia.
  pose proof (Z.mod_pos_bound ms 1000 ltac:(lia)). pose proof (Z.div_mod ms 1000 ltac:(lia)).
  rewrite (Z.mod_small (_ * _)), Z.div_mul by lia. rewrite Z.mod_small; lia.
Qed.

Lemma max_fd_ge p fds : p ∈ fds -> pf_fd p <= max_fd fds.
Proof.
  assert (Hmono : forall l m, m <= foldl (fun m p => if m <? pf_fd p then pf_fd p else m) m l).
  { intros l. induction l as [|q l IH]; intros m; cbn [foldl]; [lia|].
    case_test; (etrans; [|apply IH]); lia. }
  unfold max_fd. generalize (-1). induction fds as [|q fds IH]; intros m; [by intros ?%not_elem_of_nil|].
  intros [->|Hin]%elem_of_cons; cbn [foldl]; [|by apply IH].
  etrans; [|apply Hmono]. case_test; lia.
Qed.

Lemma elem_of_fds_below fd n : fd ∈ fds_below n <-> 0 <= fd < n.
Proof.
  unfold fds_below. rewrite list_elem_of_fmap. setoid_rewrite elem_of_seq. split.
  - intros (k & -> & Hk). lia.
  - intros Hfd. exists (Z.to_nat fd). lia.
Qed.

(** The entries of a call: descriptors to an [fd_set], each once. *)
Record pollable (fds : list pollfd) : Prop := {
  pl_nodup : NoDup (pf_fd <$> fds);
  pl_nonneg p : p ∈ fds -> 0 <= pf_fd p;
}.

Lemma elem_of_poll_set f p fds :
  pollable fds -> p ∈ fds -> pf_fd p ∈ poll_set f fds <-> f p = true.
Proof.
  intros [Hnd _] Hp. unfold poll_set. rewrite elem_of_list_to_set, list_elem_of_fmap. split.
  - intros (q & Heq & [Hf Hq]%list_elem_of_filter).
    apply list_elem_of_lookup_1 in Hp as [i Hi], Hq as [j Hj].
    assert (i = j) as -> by (eapply NoDup_lookup; [done|by apply list_lookup_fmap_Some; eauto..]).
    by simplify_eq.
  - intros Hf. exists p. split; [done|]. by apply list_elem_of_filter.
Qed.

(** ** What the entries are answered *)

Section poll.
Context `{cfg : Config} {E : Type} `{!Platform E, !SocketConsts, !QueueLaws E, !History E}.
Implicit Types (g : globals) (e : E).

(** [POLLIN] and [POLLOUT] of [revents]: asked for, and so. *)
Definition revents g e (p : pollfd) : bool * bool :=
  (pf_in p && rd_ok (pf_fd p) g e, pf_out p && wr_ok (pf_fd p) g e).

(** [poll] counts flags, not entries. *)
Definition flags (bs : list (bool * bool)) : Z :=
  foldr (fun (b : bool * bool) n => Z.b2z b.1 + Z.b2z b.2 + n) 0 bs.

Lemma flags_cons b bs : flags (b :: bs) = Z.b2z b.1 + Z.b2z b.2 + flags bs.
Proof. done. Qed.

Lemma flags_nonneg bs : 0 <= flags bs.
Proof.
  induction bs as [|[x y] bs IH]; [done|]. rewrite flags_cons. destruct x, y; cbn [fst snd Z.b2z]; lia.
Qed.

Lemma flags_zero bs : flags bs = 0 <-> Forall (fun b => b = (false, false)) bs.
Proof.
  induction bs as [|[x y] bs IH]; [done|]. pose proof (flags_nonneg bs).
  rewrite flags_cons, Forall_cons, <- IH. destruct x, y; cbn [fst snd Z.b2z]; intuition (congruence || lia).
Qed.

(** What [select] finds now for the sets of [poll]. *)
Definition poll_now fds g e : ready_sets :=
  ready_at (max_fd fds + 1) (poll_set pf_in fds) (poll_set pf_out fds) g e.

Lemma rd_ready_now fds g e p : pollable fds -> p ∈ fds ->
  pf_fd p ∈ rd_ready (poll_now fds g e) <-> (revents g e p).1 = true.
Proof.
  intros Hpl Hp. pose proof (pl_nonneg _ Hpl _ Hp). pose proof (max_fd_ge _ _ Hp).
  unfold poll_now, ready_at, with_ready, rd_of, revents. cbn.
  rewrite (right_id_L ∅ (∪)), elem_of_list_to_set, list_elem_of_filter, elem_of_poll_set by done.
  rewrite elem_of_fds_below, andb_true_iff. intuition lia.
Qed.

Lemma wr_ready_now fds g e p : pollable fds -> p ∈ fds ->
  pf_fd p ∈ wr_ready (poll_now fds g e) <-> (revents g e p).2 = true.
Proof.
  intros Hpl Hp. pose proof (pl_nonneg _ Hpl _ Hp). pose proof (max_fd_ge _ _ Hp).
  unfold poll_now, ready_at, with_ready, wr_of, revents. cbn.
  rewrite (right_id_L ∅ (∪)), elem_of_list_to_set, list_elem_of_filter, elem_of_poll_set by done.
  rewrite elem_of_fds_below, andb_true_iff. intuition lia.
Qed.

Lemma revents_now fds g e : pollable fds ->
  (fun p => (bool_decide (pf_fd p ∈ rd_ready (poll_now fds g e)),
             bool_decide (pf_fd p ∈ wr_ready (poll_now fds g e)))) <$> fds
  = revents g e <$> fds.
Proof.
  intros Hpl. apply list_fmap_ext. intros i p Hp%list_elem_of_lookup_2.
  rewrite (bool_decide_ext _ _ (rd_ready_now fds g e p Hpl Hp)).
  rewrite (bool_decide_ext _ _ (wr_ready_now fds g e p Hpl Hp)).
  by destruct (revents g e p) as [[] []].
Qed.

Lemma poll_set_inv f fds fd : fd ∈ poll_set f fds -> exists p, p ∈ fds /\ pf_fd p = fd /\ f p = true.
Proof.
  unfold poll_set. rewrite elem_of_list_to_set, list_elem_of_fmap.
  intros (p & -> & [Hf Hp]%list_elem_of_filter). eauto.
Qed.

(** [select] counts nothing exactly when no entry has a flag. *)
Lemma n_ready_now fds g e : pollable fds ->
  n_ready (poll_now fds g e) = 0 <-> flags (revents g e <$> fds) = 0.
Proof.
  intros Hpl. rewrite flags_zero, Forall_fmap, Forall_forall. unfold poll_now, ready_at. split.
  - intros Hz%no_ready_none p Hp.
    pose proof (rd_ready_now fds g e p Hpl Hp) as Hr. pose proof (wr_ready_now fds g e p Hpl Hp) as Hw.
    unfold poll_now, ready_at in Hr, Hw. rewrite Hz in Hr, Hw. cbn [rd_ready wr_ready no_ready] in Hr, Hw.
    rewrite elem_of_empty in Hr, Hw. change (revents g e p = (false, false)).
    destruct (revents g e p) as [[] []]; cbn [fst snd] in *; naive_solver.
  - intros Hall. unfold with_ready. cbn [n_ready no_ready].
    rewrite (elem_of_nil_inv (rd_of _ _ _ _)), (elem_of_nil_inv (wr_of _ _ _ _)); [done|..];
      intros fd [[(p & Hp & <- & Hf)%poll_set_inv Hok] _]%list_elem_of_filter;
      pose proof (Hall p Hp : revents g e p = (false, false)) as Hp0; unfold revents in Hp0; by rewrite Hf, Hok in Hp0.
Qed.

Lemma poll_nothing fds g e : pollable fds -> n_ready (poll_now fds g e) <= 0 ->
  (n_ready (poll_now fds g e), (fun _ => (false, false)) <$> fds)
  = (flags (revents g e <$> fds), revents g e <$> fds).
Proof.
  intros Hpl Hle. assert (Hz : n_ready (poll_now fds g e) = 0) by (cbn in *; lia).
  rewrite Hz. apply (n_ready_now fds g e Hpl) in Hz. f_equal; [done|].
  apply flags_zero in Hz. rewrite Forall_fmap, Forall_forall in Hz. apply list_fmap_ext.
  intros i p Hp%list_elem_of_lookup_2. symmetry. by apply Hz.
Qed.

(** What [wrap_poll] makes of the answer of [select]. *)
Definition answered fds (r : ready_sets) : Z * list (bool * bool) :=
  if n_ready r <=? 0 then (n_ready r, (fun _ => (false, false)) <$> fds)
  else
    let revents := (fun p => (bool_decide (pf_fd p ∈ rd_ready r),
                              bool_decide (pf_fd p ∈ wr_ready r))) <$> fds in
    (flags revents, revents).

(** The answer of [poll] at [e]: the flags that hold and their number. *)
Definition flags_at fds g e : Z * list (bool * bool) := (flags (revents g e <$> fds), revents g e <$> fds).

Lemma answered_now fds g e : pollable fds -> answered fds (poll_now fds g e) = flags_at fds g e.
Proof.
  intros Hpl. unfold answered. case_test; [by apply poll_nothing|].
  unfold flags_at. by rewrite revents_now.
Qed.

(** C26. [poll] with a timeout is exact, under the conditions of [select_exact]
    and for distinct descriptors that are not negative: it takes the turns of
    [waits]. It looks; if any entry asks for [POLLIN] or [POLLOUT] and its
    descriptor is ready in that way now, each entry is answered the flags it asks
    for that hold now, and the result is their number; else, with the clock at the
    deadline [timeout_ms] from the call, there are no flags and the result is 0;
    else it sleeps one tick and looks again. No entry polled for [POLLIN] is a UDP
    socket of the core, which is never found readable
    ([SelectWrap.udp_never_readable]). *)
Theorem poll_exact P fuel fds ms rank g e :
  let d := u32 ((ext _ (Rtos XTaskGetTickCount) e).1 + pdMS_TO_TICKS ms) in
  let asked := asked_by g (poll_set pf_in fds ∪ poll_set pf_out fds) in
  pollable fds -> 0 <= ms < 2 ^ 31 -> d <> portMAX_DELAY ->
  asking_keeps asked g P -> P e -> queues_stay -> rd_probes_ok (poll_set pf_in fds) g e ->
  clock_reaches d rank -> (rank e < fuel)%nat ->
  exists r e', run ext (wrap_poll fuel fds ms) g e = Some (r, g, e') /\
    waits (flags_at fds g) (fun r => negb (r.1 =? 0)) (0, (fun _ => (false, false)) <$> fds)
      (scans asked g) d (ext _ (Rtos XTaskGetTickCount) e).2 r e'.
Proof.
  intros d asked Hpl Hms. set (tv := (Z.quot ms 1000, Z.rem ms 1000 * 1000)).
  assert (d = select_deadline tv e) as -> by (unfold d, select_deadline, tv; by rewrite select_ms_poll).
  intros Hd Hst HP Hstay Hok Hc Hfuel.
  enough (Hwp : wp ext (wrap_poll fuel fds ms) g e (fun r g' e' => g' = g /\ exists r0, r = answered fds r0 /\
    waits (poll_now fds g) (fun r => negb (n_ready r =? 0)) no_ready (scans asked g)
      (select_deadline tv e) (ext _ (Rtos XTaskGetTickCount) e).2 r0 e')).
  { apply wp_run in Hwp as (r & g' & e' & Hrun & -> & r0 & -> & Hw).
    exists (answered fds r0), e'. split; [done|].
    eapply (waits_fmap (answered fds)); [| | |exact Hw]; [intros e1|intros e1|done].
    - symmetry. by apply answered_now.
    - cbn beta. apply (f_equal negb), Bool.eq_iff_eq_true. cbn beta. rewrite (Z.eqb_eq _ 0), (Z.eqb_eq (n_ready _)). symmetry. by apply n_ready_now. }
  unfold wrap_poll. rewrite (proj2 (Z.ltb_ge _ _)) by lia. rewrite wp_bind.
  wp_use (wp_wrap_select P); [done..|exact Hc|done|].
  intros r g' e' [-> Hw]. unfold answered.
  destruct (n_ready r <=? 0) eqn:Hn; rewrite wp_ret; (split; [done|]); exists r; (split; [|exact Hw]);
    by rewrite Hn.
Qed.

End poll.

(** ** An example *)

#[local] Existing Instance tiny.
#[local] Existing Instance lwip_consts.

(** The condition on the entries is needed: with two entries of one descriptor an
    entry is told [POLLIN] although it asks for [POLLOUT] only. *)
Example poll_shares_flags :
  fst <$> (run ext (wrap_poll (E := sim default_oracle) 2000
      [PollFd 48 true false; PollFd 48 false true] 1000) closing_state (@sim_start default_oracle))
    = Some ((2, [(true, false); (true, false)]), closing_state).
Proof. by vm_compute. Qed.
