(* ===== verification/Stream.v ===== *)
(** * recv() on the BSD layer

    [recv] of [sock_wrap.c] down to the calls to the core: its timeout is the
    descriptor's, its result the first data the core has. *)

From S2P Require Import Prelude Prog Types Platform Sim NetStack NetSock Loopback FdTable SockWrap.

Section recv.
Context `{cfg : Config} {E : Type} `{!Platform E, !SocketConsts, !History E}.
Implicit Types (g : globals) (e : E).

(** The answers of the core to receive calls on a socket: count and bytes. *)
Definition ev_recv (k : fd_kind) (h : ptr) (s : Z) (ev : event) : option (Z * list Z) :=
  match k with
  | FD_UDP => (fun r => (ur_n r, ur_data r)) <$> ev_udp_recv h s ev
  | _ => ev_tcp_recv h s ev
  end.

Lemma picked_udp h s e :
  picked (ev_recv FD_UDP h s) e = (fun r => (ur_n r, ur_data r)) <$> picked (ev_udp_recv h s) e.
Proof. unfold picked. by rewrite list_fmap_omap. Qed.

(** What [recv] has done when it returns, for a deadline [d]: after answers without
    data the core had data, and that is the result; or the clock passed the
    deadline. *)
Definition recv_ends (k : fd_kind) (h : ptr) (s : Z) (nb : bool) (d : Z) g e (r : Z * list Z) g' e' : Prop :=
  let f := ev_recv k h s in
  exists fails, Forall (fun a => a.1 <= 0) fails /\
  (0 < r.1 /\ g' = g /\ picked f e' = picked f e ++ fails ++ [r] \/
   r.2 = [] /\ (if nb then r.1 = -1 /\ g' = set_errno (Some EWOULDBLOCK) g else r.1 = 0 /\ g' = g) /\
   picked f e' = picked f e ++ fails /\
   exists t, d < t /\ existT _ (Rtos XTaskGetTickCount, t) ∈ hist e').

(** The end of [recv]. *)
Lemma wp_recv_finish k h s i d fails g e e1 n bs nb :
  nonblocking (entry_at i g) = nb -> Forall (fun a => a.1 <= 0) fails ->
  (0 < n /\ picked (ev_recv k h s) e1 = picked (ev_recv k h s) e ++ fails ++ [(n, bs)] \/
   (n, bs) = (0, []) /\ picked (ev_recv k h s) e1 = picked (ev_recv k h s) e ++ fails /\
   exists t, d < t /\ existT _ (Rtos XTaskGetTickCount, t) ∈ hist e1) ->
  wp ext (b ← gets (fun g => nonblocking (entry_at i g));
    if (n =? 0) && b then r ← fail_with EWOULDBLOCK; mret (r, bs) else mret (n, bs)) g e1
    (recv_ends k h s nb d g e).
Proof.
  intros Hnb Hf Hr. rewrite wp_gets, Hnb. destruct Hr as [[Hn Hp]|([= -> ->] & Hp & Ht)].
  - rewrite (proj2 (Z.eqb_neq n 0)) by lia. cbn [andb]. rewrite wp_ret. exists fails. split; [done|]. by left.
  - destruct nb; cbn [Z.eqb andb]; [unfold fail_with; rewrite wp_bind, wp_modify, !wp_ret|rewrite wp_ret];
      exists fails; (split; [done|]); right; by split_and!.
Qed.

(** C12. [recv] on an open TCP or UDP descriptor returns. On a clock that passes the
    deadline, which is now for a non-blocking descriptor and otherwise the
    descriptor's receive timeout (30 seconds when none is set) from now, the result
    is the first answer of the core with data, count and bytes, and nothing else
    has changed; or, only past the deadline and with no bytes, it is 0, and -1 with
    [EWOULDBLOCK] on a non-blocking descriptor. *)
Theorem recv_first fuel fd len i rank g e :
  let en := entry_at i g in
  let h := handle_of (IFACE (sock en)) g in
  let ms := if nonblocking en then 0 else if rcv_timeout_ms en =? 0 then 30000 else rcv_timeout_ms en in
  fd_entry_of fd g = Some i -> kind en = FD_TCP \/ kind en = FD_UDP -> h <> NULL ->
  clock_reaches (deadline_from e ms + 1) rank -> (rank e < fuel)%nat ->
  exists r g' e', run ext (wrap_recv fuel fd len) g e = Some (r, g', e') /\
    recv_ends (kind en) h (LOCAL (sock en)) (nonblocking en) (deadline_from e ms) g e r g' e'.
Proof.
  intros en h ms Hfd Hk Hh Hc Hfuel. assert (Hms : ms = recv_timeout en) by done.
  rewrite Hms in *. clear ms Hms. apply wp_run. unfold wrap_recv, fd_get. rewrite wp_gets, Hfd, wp_gets.
  fold en. destruct Hk as [Hk|Hk]; rewrite Hk, wp_bind.
  - wp_use wp_tcp_recv; [exact Hc|done|done|]. fold h. intros [n bs] g' e' (-> & fails & Hf & Hr).
    by apply wp_recv_finish with (fails := fails).
  - wp_use wp_udp_recv; [exact Hc|done|done|]. fold h. intros u g' e' (-> & fails & Hf & Hr).
    apply wp_recv_finish with (fails := (fun r => (ur_n r, ur_data r)) <$> fails);
      rewrite ?picked_udp; [done|by apply Forall_fmap|].
    destruct Hr as [[Hn ->]|(-> & -> & Ht)]; [left|right]; by rewrite !fmap_app.
Qed.
End recv.

(** ** Witnesses *)

#[local] Existing Instance tiny.
#[local] Existing Instance lwip_consts.

(** Descriptor 48 is a connected TCP socket; the core always has three bytes. *)
Definition stream_state : globals :=
  upd_entry 0 (fun en => set_rcv_timeout_ms 100 (set_connected true (set_sock socket7 (set_kind FD_TCP en)))) eth_up.

Definition data_oracle : oracle := fun X c h =>
  match c in ccall X return X with
  | Core c0 =>
      match c0 in core_call X return X with
      | Smoltcp_tcp_recv _ _ _ => (3, [1; 2; 3])
      | c0 => default_core c0 (length h)
      end
  | Rtos c0 => default_rtos c0 (length h)
  | Idf c0 => default_idf c0 (length h)
  end.

Lemma data_clock d : clock_reaches (E := sim data_oracle) d (fun e => Z.to_nat (d - Z.of_nat (length (sim_hist e)))).
Proof.
  split.
  - intros X c e. pose proof (hist_step X c e) as Hs. cbn [hist sim_history] in Hs.
    rewrite Hs, length_app. lia.
  - intros e Hlt. pose proof (hist_step Z (Rtos XTaskGetTickCount) e) as Hs.
    cbn [hist sim_history] in Hs. rewrite Hs, length_app. cbn in *. lia.
Qed.

Lemma recv_first_witness :
  exists r g' (e' : sim data_oracle),
    run ext (wrap_recv (E := sim data_oracle) 200 48 64) stream_state (@sim_start data_oracle) = Some (r, g', e') /\
    recv_ends FD_TCP (handle_of 0 stream_state) 7 false 100 stream_state (@sim_start data_oracle) r g' e'.
Proof.
  destruct (recv_first (E := sim data_oracle) 200 48 64 0
    (fun e => Z.to_nat (101 - Z.of_nat (length (sim_hist e)))) stream_state (@sim_start data_oracle))
    as (r & g' & e' & Hrun & Hend).
  - vm_compute. reflexivity.
  - left. reflexivity.
  - vm_compute. discriminate.
  - exact (data_clock 101).
  - vm_compute. lia.
  - exists r, g', e'. split; [exact Hrun|exact Hend].
Defined.

(** A non-blocking [recv] can report [EWOULDBLOCK] without having asked the core: its
    deadline is the tick at which it is computed, and here the next tick has come
    when the loop looks. A blocking one takes the bytes. *)
Example nonblocking_recv_blind :
  (fun r => (r.1.1, option_map (fun _ => tt) (errno r.1.2), picked (ev_recv FD_TCP (handle_of 0 stream_state) 7) r.2))
    <$> run ext (wrap_recv (E := sim data_oracle) 200 48 64)
      (upd_entry 0 (set_nonblocking true) stream_state) (@sim_start data_oracle)
    = Some ((-1, []), Some tt, []) /\
  (fun r => r.1.1) <$> run ext (wrap_recv (E := sim data_oracle) 200 48 64) stream_state (@sim_start data_oracle)
    = Some (3, [1; 2; 3]).
Proof. split; by vm_compute. Qed.
