(* ===== verification/NetdbWrap.v ===== *)
(** * Name resolution and address text

    [components/esp_smoltcp_lwip_compat/src/netdb_wrap.c]: [getaddrinfo],
    [freeaddrinfo], [gethostbyname], [inet_pton] and [inet_ntop]. Strings are
    given as what they hold; an [option] stands for a pointer the code tests. *)

From S2P Require Import Prelude Prog Ipv4 Types Platform Sim NetStack NetSock FdTable SockWrap.

(** The results of [getaddrinfo]. *)
Inductive eai := EAI_OK | EAI_FAIL | EAI_AGAIN | EAI_NONAME | EAI_MEMORY.

#[export] Instance eai_eq_dec : EqDecision eai.
Proof. solve_decision. Defined.

(** [struct addrinfo], with the addresses of its two heap blocks. *)
Record addrinfo := AddrInfo {
  ai_self : ptr;
  ai_addr_ptr : ptr;
  ai_family : Z;
  ai_socktype : Z;
  ai_protocol : Z;
  ai_addrlen : Z;
  ai_addr : sockaddr;
}.

(** [atoi] of the C library: white space, a sign, digits. *)
Definition is_space (c : ascii) : bool :=
  let n := Z.of_N (N_of_ascii c) in (n =? 32) || ((9 <=? n) && (n <=? 13)).

Fixpoint skip_space (s : string) : string :=
  match s with
  | String c s' => if is_space c then skip_space s' else s
  | EmptyString => EmptyString
  end.

Fixpoint atoi_digits (s : string) (acc : Z) : Z :=
  match s with
  | EmptyString => acc
  | String c s' =>
      match digit_of c with Some d => atoi_digits s' (10 * acc + d) | None => acc end
  end.

Definition atoi (s : string) : Z :=
  match skip_space s with
  | EmptyString => 0
  | String c s' =>
      if Ascii.eqb c "-"%char then - atoi_digits s' 0
      else if Ascii.eqb c "+"%char then atoi_digits s' 0
      else atoi_digits (String c s') 0
  end.

(** The bytes of a string. *)
Fixpoint bytes_of (s : string) : list Z :=
  match s with
  | EmptyString => []
  | String c s' => Z.of_N (N_of_ascii c) :: bytes_of s'
  end.

(** [strncpy(dst, s, n)]: at most [n] bytes, padded with zeros up to [n]. *)
Definition strncpy (dst : list Z) (s : string) (n : nat) : list Z :=
  let bs := take n (bytes_of s) in
  bs ++ replicate (n - length bs) 0 ++ drop n dst.

Section code.
Context `{cfg : Config} {E : Type} `{!Platform E, !SocketConsts}.

Definition pick_iface : cprog ptr :=
  id ← fd_default_iface;
  net_stack_smoltcp_handle id.

Definition dns_server_be : Z := default 0 (smoltcp_parse_ipv4 DNS_PRIMARY).

(** [sizeof(struct addrinfo)] and [sizeof(struct sockaddr_in)] size the two
    blocks; [want] says that [res] is not [NULL]. *)
Definition wrap_getaddrinfo (node service : option string) (hints : option Z) (want : bool)
    : cprog (eai * option addrinfo) :=
  match node with
  | None => mret (EAI_FAIL, None)
  | Some node =>
      if negb want then mret (EAI_FAIL, None)
      else
        h ← pick_iface;
        if is_null h then mret (EAI_AGAIN, None)
        else
          r ← core (Smoltcp_resolve h node dns_server_be DNS_TIMEOUT_MS);
          if negb (r.1 =? 0) then mret (EAI_NONAME, None)
          else
            let p := match service with Some s => u16 (atoi s) | None => 0 end in
            ai ← idf (Malloc 32);
            sin ← idf (Malloc sockaddr_in_size);
            if is_null ai || is_null sin then
              idf (Free ai);;
              idf (Free sin);;
              mret (EAI_MEMORY, None)
            else
              mret (EAI_OK, Some (AddrInfo ai sin AF_INET (default SOCK_STREAM hints) 0
                sockaddr_in_size (SockAddr AF_INET (htons p) r.2)))
  end.

(** The list [res] links through [ai_next]. *)
Definition wrap_freeaddrinfo (res : list addrinfo) : cprog unit :=
  for_each res (fun ai =>
    idf (Free (ai_addr_ptr ai));;
    idf (Free (ai_self ai))).

(** The [h_name] and the address of the static [hostent]. *)
Definition wrap_gethostbyname (name : string) : cprog (option (list Z * Z)) :=
  h ← pick_iface;
  if is_null h then mret None
  else
    r ← core (Smoltcp_resolve h name dns_server_be DNS_TIMEOUT_MS);
    if negb (r.1 =? 0) then mret None
    else
      modify (fun g => set_netdb (set_nd_addr_be r.2 (netdb g)) g);;
      modify (fun g => set_netdb (set_name_copy (strncpy (name_copy (netdb g)) name 63) (netdb g)) g);;
      nd ← gets netdb;
      mret (Some (name_copy nd, nd_addr_be nd)).

(** The result and the 32-bit value written to [dst]. *)
Definition wrap_inet_pton (af : Z) (src : string) : Z * option Z :=
  if negb (af =? AF_INET) then (-1, None)
  else
    match smoltcp_parse_ipv4 src with
    | None => (0, None)
    | Some be => (1, Some be)
    end.

(** [b] holds the four bytes at [src]. *)
Definition wrap_inet_ntop (af : Z) (b : list Z) (size : Z) : option string :=
  if negb (af =? AF_INET) || (size <? 16) then None
  else Some (dotted_quad b).
End code.

(** ** Address text *)

Lemma length_string_app (s t : string) :
  String.length (s +:+ t) = (String.length s + String.length t)%nat.
Proof. induction s as [|c s IH]; [done|]. cbn. by rewrite <- IH. Qed.

(** The length of the decimal notation of four bytes. *)
Lemma dotted_quad_length a b c d :
  byte_ok a -> byte_ok b -> byte_ok c -> byte_ok d ->
  (String.length (dotted_quad [a; b; c; d]) <= 15)%nat.
Proof.
  intros (_&_&?)%byte_decimal (_&_&?)%byte_decimal (_&_&?)%byte_decimal (_&_&?)%byte_decimal.
  unfold dotted_quad. cbn [fmap list_fmap String.concat].
  rewrite !length_string_app. cbn [String.length]. lia.
Qed.

(** ** The heap blocks of a lookup *)

(** Blocks allocated ([true]) and freed ([false]), [NULL] aside, in order. *)
Definition ev_heap (ev : event) : option (bool * ptr) :=
  let (X, cr) := ev in
  match cr.1 in ccall X return X -> option (bool * ptr) with
  | Idf c =>
      match c in idf_call X return X -> option (bool * ptr) with
      | Malloc _ => fun p => if is_null p then None else Some (true, p)
      | Free p => fun _ => if is_null p then None else Some (false, p)
      | _ => fun _ => None
      end
  | _ => fun _ => None
  end cr.2.

Section lookup.
Context `{cfg : Config} {E : Type} `{!Platform E, !SocketConsts, !History E}.
Implicit Types (g : globals) (e : E).

Lemma wp_pick_iface g e :
  wp ext pick_iface g e (fun _ g' e' => g' = g /\ picked ev_heap e' = picked ev_heap e).
Proof.
  apply (wp_no_events ev_heap).
  - unfold pick_iface, net_stack_smoltcp_handle, fd_default_iface, net_stack_get_ipv4, query_iface,
      locked_at. only_auto.
  - unfold pick_iface. rewrite wp_bind. wp_use wp_default_iface. intros id g' e' [-> _].
    unfold net_stack_smoltcp_handle. prog_steps. by repeat case_test.
Qed.

(** What [getaddrinfo] leaves behind. *)
Definition looked_up (node service : option string) (r : eai * option addrinfo) e e' : Prop :=
  match r.2 with
  | Some ai => r.1 = EAI_OK /\
      picked ev_heap e' = picked ev_heap e ++ [(true, ai_self ai); (true, ai_addr_ptr ai)] /\
      ai_self ai <> NULL /\ ai_addr_ptr ai <> NULL /\
      ai_family ai = AF_INET /\ ai_addrlen ai = sockaddr_in_size /\
      exists h name addr e1, node = Some name /\
        (ext _ (Core (Smoltcp_resolve h name dns_server_be DNS_TIMEOUT_MS)) e1).1 = (0, addr) /\
        ai_addr ai = SockAddr AF_INET
          (htons (match service with Some s => u16 (atoi s) | None => 0 end)) addr
  | None => r.1 <> EAI_OK /\
      (picked ev_heap e' = picked ev_heap e \/
       exists p, picked ev_heap e' = picked ev_heap e ++ [(true, p); (false, p)])
  end.

Lemma looked_up_fail node service c e e' :
  c <> EAI_OK -> picked ev_heap e' = picked ev_heap e -> looked_up node service (c, None) e e'.
Proof. by split; [|left]. Qed.

Lemma wp_getaddrinfo node service hints want g e :
  wp ext (wrap_getaddrinfo node service hints want) g e (fun r g' e' =>
    g' = g /\ looked_up node service r e e').
Proof.
  unfold wrap_getaddrinfo. destruct node as [node|]; [|rewrite wp_ret; by auto using looked_up_fail].
  destruct want; cbn [negb]; [|rewrite wp_ret; by auto using looked_up_fail].
  rewrite wp_bind. wp_use wp_pick_iface. intros h g1 e1 [-> Hp1].
  destruct (is_null h); [rewrite wp_ret; by auto using looked_up_fail|]. rewrite wp_core.
  destruct (ext _ (Core (Smoltcp_resolve h node dns_server_be DNS_TIMEOUT_MS)) e1) as [[rc addr] e2] eqn:He2.
  cbn [fst snd].
  assert (Hp2 : picked ev_heap e2 = picked ev_heap e).
  { rewrite (picked_call ev_heap _ _ _ _ He2). cbn. by rewrite app_nil_r. }
  case_test; [rewrite wp_ret; by auto using looked_up_fail|].
  rewrite !wp_idf. set (ai := (ext _ (Idf (Malloc 32)) e2).1). set (e3 := (ext _ (Idf (Malloc 32)) e2).2).
  set (sin := (ext _ (Idf (Malloc sockaddr_in_size)) e3).1).
  set (e4 := (ext _ (Idf (Malloc sockaddr_in_size)) e3).2).
  assert (Hp4 : picked ev_heap e4 = picked ev_heap e ++
    (if is_null ai then [] else [(true, ai)]) ++ (if is_null sin then [] else [(true, sin)])).
  { subst e4. rewrite picked_step. fold sin. subst e3. rewrite picked_step. fold ai. cbn.
    rewrite Hp2, <- app_assoc. by destruct (is_null ai), (is_null sin). }
  case_test.
  - rewrite !wp_idf, wp_ret. split; [done|]. split; [done|]. rewrite !picked_step, Hp4. cbn.
    destruct (is_null ai), (is_null sin); try done; cbn; rewrite ?app_nil_r; [by left|right..];
      [exists sin|exists ai]; by rewrite <- app_assoc.
  - rewrite wp_ret. split; [done|]. unfold looked_up. cbn. split_and!; [done| | | |done|done|].
    + rewrite Hp4. by destruct (is_null ai), (is_null sin).
    + intros Hn%Z.eqb_eq. unfold is_null in *. congruence.
    + intros Hn%Z.eqb_eq. unfold is_null in *. congruence.
    + exists h, node, addr, e1. rewrite He2. cbn. split_and!; [done| |done]. f_equal. lia.
Qed.
End lookup.

Section properties.
Context `{cfg : Config} {E : Type} `{!Platform E, !SocketConsts, !History E}.
Implicit Types (g : globals) (e : E).

(** C37. [inet_ntop] and [inet_pton] are not inverse to each other. The text of any
    IPv4 address, which fits the 16 bytes [inet_ntop] insists on, parses; but
    the value [inet_pton] stores holds the octets in reverse memory order: it is
    what the core takes for the reversed address, and printing it gives the
    reversed text. *)
Theorem pton_reverses a b c d :
  byte_ok a -> byte_ok b -> byte_ok c -> byte_ok d ->
  exists text v, wrap_inet_ntop AF_INET [a; b; c; d] 16 = Some text /\
    (String.length text < 16)%nat /\
    wrap_inet_pton AF_INET text = (1, Some v) /\
    ipv4_from_be v = [d; c; b; a] /\
    wrap_inet_ntop AF_INET (le_split 4 v) 16 = Some (dotted_quad [d; c; b; a]).
Proof.
  intros Ha Hb Hc Hd. exists (dotted_quad [a; b; c; d]), (be_combine [a; b; c; d]).
  unfold wrap_inet_ntop, wrap_inet_pton. rewrite Z.eqb_refl, parse_dotted_quad by done. cbn [negb orb Z.ltb Z.compare Pos.compare Pos.compare_cont].
  assert (Hrev : ipv4_from_be (be_combine [a; b; c; d]) = [d; c; b; a])
    by (apply (ipv4_from_be_parsed [a; b; c; d]); [done|by rewrite !Forall_cons]).
  split_and!; [done| |done|done|by rewrite <- Hrev].
  pose proof (dotted_quad_length a b c d Ha Hb Hc Hd). lia.
Qed.

(** C29. [getaddrinfo] is exact and leaks nothing. It always returns. On success
    the result carries the address the resolver answered for the name, and the
    service as a port in network byte order, in two blocks just allocated, which
    [freeaddrinfo] frees, once each; on failure it has freed what it allocated. *)
Theorem getaddrinfo_balanced node service hints want g e :
  exists r e', run ext (wrap_getaddrinfo node service hints want) g e = Some (r, g, e') /\
    looked_up node service r e e' /\
    forall ai, r.2 = Some ai -> forall g1 e1,
      exists e2, run ext (wrap_freeaddrinfo [ai]) g1 e1 = Some (tt, g1, e2) /\
        picked ev_heap e2 = picked ev_heap e1 ++ [(false, ai_addr_ptr ai); (false, ai_self ai)].
Proof.
  pose proof (wp_getaddrinfo node service hints want g e) as Hwp.
  apply wp_run in Hwp as (r & g' & e' & Hrun & -> & Hr). exists r, e'. split_and!; [done..|].
  intros ai Hai g1 e1. unfold looked_up in Hr. rewrite Hai in Hr.
  destruct Hr as (_ & _ & Hs%Z.eqb_neq & Ha%Z.eqb_neq & _). eexists. split; [reflexivity|].
  rewrite !picked_step. cbn. unfold is_null. by rewrite Hs, Ha, <- app_assoc.
Qed.
End properties.

(** ** Witnesses *)

#[local] Existing Instance lwip_consts.

Lemma pton_reverses_witness :
  wrap_inet_pton AF_INET "162.159.200.1" = (1, Some 2728380417) /\
  exists text v, wrap_inet_ntop AF_INET [162; 159; 200; 1] 16 = Some text /\
    wrap_inet_pton AF_INET text = (1, Some v) /\ ipv4_from_be v = [1; 200; 159; 162].
Proof.
  split; [reflexivity|].
  destruct (pton_reverses 162 159 200 1) as (text & v & Ht & _ & Hv & Hr & _);
    [unfold byte_ok; lia..|].
  exists text, v. split; [exact Ht|]. split; [exact Hv|exact Hr].
Defined.
