(* ===== verification/NetifShim.v ===== *)
(** * The esp_netif shim

    [components/esp_smoltcp_lwip_compat/src/esp_netif_shim.c]. A handle is a
    pointer to one of the two static objects, or [NULL] ([None]). *)

From S2P Require Import Prelude Prog Types Platform Sim NetStack.

(** [struct shim_netif] *)
Record shim_netif := ShimNetif { shim_iface : nat; shim_key : string }.

Definition s_netif_eth : shim_netif := ShimNetif NET_IFACE_ETH "ETH_DEF".

Definition s_netif_wifi : shim_netif := ShimNetif NET_IFACE_WIFI "WIFI_STA_DEF".

#[export] Instance shim_netif_eq_dec : EqDecision shim_netif.
Proof. solve_decision. Defined.

(** [esp_netif_ip_info_t] *)
Record ip_info := IpInfo { ii_ip : Z; ii_gw : Z; ii_netmask : Z }.

Section code.
Context `{cfg : Config} {E : Type} `{!Platform E}.

Definition netif_get_handle_from_ifkey (ifkey : option string) : option shim_netif :=
  match ifkey with
  | None => None
  | Some k =>
      if String.eqb k "ETH_DEF" then Some s_netif_eth
      else if String.eqb k "WIFI_STA_DEF" then Some s_netif_wifi
      else None
  end.

Definition netif_next_unsafe (prev : option shim_netif) : option shim_netif :=
  match NETIF_MODE with
  | MODE_DUAL =>
      match prev with
      | None => Some s_netif_eth
      | Some p => if decide (p = s_netif_eth) then Some s_netif_wifi else None
      end
  | MODE_ETH => match prev with None => Some s_netif_eth | Some _ => None end
  | MODE_WIFI => match prev with None => Some s_netif_wifi | Some _ => None end
  | MODE_NONE => None
  end.

(** [want] says that [info] is not [NULL]. *)
Definition netif_get_ip_info (netif : option shim_netif) (want : bool)
    : cprog (esp_err * option ip_info) :=
  match netif with
  | None => mret (ESP_ERR_INVALID_ARG, None)
  | Some o =>
      if negb want then mret (ESP_ERR_INVALID_ARG, None)
      else
        ip ← net_stack_get_ipv4 (shim_iface o);
        gw ← net_stack_get_gateway (shim_iface o);
        nm ← net_stack_get_netmask (shim_iface o);
        mret (ESP_OK, Some (IpInfo ip gw nm))
  end.

Definition netif_get_mac (netif : option shim_netif) (want : bool) : cprog (esp_err * list Z) :=
  match netif with
  | None => mret (ESP_ERR_INVALID_ARG, [])
  | Some o =>
      if negb want then mret (ESP_ERR_INVALID_ARG, [])
      else idf (EspReadMac (shim_iface o =? NET_IFACE_ETH)%nat)
  end.

Definition netif_get_ifkey (netif : option shim_netif) : string :=
  match netif with None => "" | Some o => shim_key o end.

Definition netif_get_hostname (want : bool) : esp_err * option string :=
  if negb want then (ESP_ERR_INVALID_ARG, None) else (ESP_OK, Some APP_HOSTNAME).

Definition netif_set_hostname : esp_err := ESP_OK.

Definition netif_is_netif_up (netif : option shim_netif) : cprog bool :=
  match netif with
  | None => mret false
  | Some o =>
      ip ← net_stack_get_ipv4 (shim_iface o);
      mret (negb (ip =? 0))
  end.
End code.
