(* ===== verification/Ntp.v ===== *)
(** * The NTP client and the PTP stub

    [components/esp_smoltcp/src/ntp.c] and [components/esp_smoltcp/src/ptp.c]. *)

From S2P Require Import Prelude Prog Ipv4 Types Platform Sim FramePool L2Tap NetStack NetSock.

(** [sizeof(sntp_pkt_t)] *)
Definition sntp_pkt_size : Z := 48.

(** The request: zero but for LI = 0, VN = 4, mode = client. *)
Definition sntp_req : list Z :=
  Z.lor (Z.lor (Z.shiftl 0 6) (Z.shiftl 4 3)) 3 :: replicate 47 0.

Definition NTP_UNIX_OFFSET : Z := 2208988800.

(** [rsp.tx_ts]: the last eight bytes, read as a little-endian [uint64_t]. *)
Definition tx_ts (rsp : list Z) : Z := le_combine (take 8 (drop 40 rsp)).

(** The seconds since 1970, a [uint64_t]. *)
Definition ntp_unix_secs (rsp : list Z) : Z :=
  u64 (bswap32 (u32 (Z.land (tx_ts rsp) 4294967295)) - NTP_UNIX_OFFSET).

(** [ETHERTYPE_PTP] *)
Definition ETHERTYPE_PTP : Z := 35063.

Section code.
Context `{cfg : Config} {E : Type} `{!Platform E}.

(** One turn of the loop of [ntp_task] on the socket [s]. *)
Definition ntp_round (fuel : nat) (s server_be : Z) : cprog unit :=
  net_udp_sendto s sntp_req server_be 123;;
  r ← net_udp_recvfrom fuel s sntp_pkt_size 5000;
  (if sntp_pkt_size <=? ur_n r
   then idf (SetTimeOfDay (i64 (ntp_unix_secs (ur_data r)))) else mret tt);;
  rtos (VTaskDelay (pdMS_TO_TICKS (NTP_POLL_SECONDS * 1000))).

Fixpoint ntp_rounds (turns fuel : nat) (s server_be : Z) : cprog unit :=
  match turns with
  | O => Spin
  | S turns => ntp_round fuel s server_be;; ntp_rounds turns fuel s server_be
  end.

(** [ntp_task], for as many turns as there is fuel. *)
Definition ntp_task (turns fuel : nat) (iface : nat) : cprog unit :=
  match smoltcp_parse_ipv4 NTP_SERVER with
  | None => rtos VTaskDelete
  | Some server_be =>
      s ← net_udp_open iface 0;
      if negb (net_sock_valid s) then rtos VTaskDelete
      else ntp_rounds turns fuel s server_be
  end.

Definition ntp_start (iface : nat) : cprog esp_err :=
  t ← rtos (XTaskCreate "ntp" (Z.of_nat iface));
  mret (match t with Some _ => ESP_OK | None => ESP_ERR_NO_MEM end).

(** The tap of the PTP stub: it only logs. *)
Definition ptp_rx (frame : list Z) (hw_ts_ns : Z) : cprog unit :=
  let n := Z.of_nat (length frame) in
  if n <? 14 + 34 then mret tt
  else
    let msg_type := Z.land (frame !!! 14%nat) 15 in
    idf (EspLog LOG_DEBUG "ptp"
      ("PTP msg type=" +:+ pretty msg_type +:+ " len=" +:+ pretty n +:+
       " hw_ts=" +:+ pretty hw_ts_ns)).

(** [ptp_rx] is here the address of the callback. *)
Definition ptp_start (ptp_rx : ptr) (iface : nat) : cprog esp_err :=
  net_stack_l2_tap ETHERTYPE_PTP ptp_rx NULL.

End code.

(** ** Decoding the time *)

Lemma bswap32_le a b c d :
  byte_ok a -> byte_ok b -> byte_ok c -> byte_ok d ->
  bswap32 (le_combine [a; b; c; d]) = be_combine [a; b; c; d].
Proof.
  unfold byte_ok. intros Ha Hb Hc Hd. unfold bswap32, be_combine. cbn [le_combine rev app].
  set (v := a + 256 * (b + 256 * (c + 256 * (d + 256 * 0)))).
  assert (H0 : Z.land v 255 = a).
  { rewrite land_255. unfold v. rewrite Z.mul_comm, Z.mod_add, Z.mod_small; lia. }
  assert (H1 : Z.shiftr v 8 = b + 256 * (c + 256 * d)).
  { rewrite Z.shiftr_div_pow2 by lia. change (2 ^ 8) with 256. unfold v.
    rewrite Z.mul_comm, Z.div_add, Z.div_small; lia. }
  assert (H2 : Z.shiftr v 16 = c + 256 * d).
  { change 16 with (8 + 8). rewrite <- Z.shiftr_shiftr, H1, Z.shiftr_div_pow2 by lia.
    change (2 ^ 8) with 256. rewrite Z.mul_comm, Z.div_add, Z.div_small; lia. }
  assert (H3 : Z.shiftr v 24 = d).
  { change 24 with (16 + 8). rewrite <- Z.shiftr_shiftr, H2, Z.shiftr_div_pow2 by lia.
    change (2 ^ 8) with 256. rewrite Z.mul_comm, Z.div_add, Z.div_small; lia. }
  rewrite H0, H1, H2, H3, !land_255.
  rewrite (Z.mod_small d) by lia.
  rewrite (Z.mul_comm 256 (c + 256 * d)), Z.mod_add, (Z.mod_small b) by lia.
  rewrite (Z.mul_comm 256 d), Z.mod_add, (Z.mod_small c) by lia.
  rewrite (lor_shiftl_add c d 8), (lor_shiftl_add b _ 16), (lor_shiftl_add a _ 24) by lia. lia.
Qed.

(** The seconds of the transmit timestamp, as the protocol has them: the 32-bit
    big-endian integer at offset 40. *)
Definition tx_seconds (rsp : list Z) : Z := be_combine (take 4 (drop 40 rsp)).

Lemma ntp_unix_secs_eq rsp :
  length rsp = 48%nat -> Forall byte_ok rsp ->
  i64 (ntp_unix_secs rsp) = tx_seconds rsp - NTP_UNIX_OFFSET /\ 0 <= tx_seconds rsp < 4294967296.
Proof.
  intros Hl Hb. set (rest := drop 40 rsp).
  assert (Hrest : length rest = 8%nat) by (unfold rest; rewrite length_drop; lia).
  assert (Hbr : Forall byte_ok rest) by by apply Forall_drop.
  destruct rest as [|a [|b [|c [|d [|x [|y [|z [|w [|]]]]]]]]] eqn:Heq; try done.
  rewrite !Forall_cons in Hbr. destruct Hbr as (Ha & Hb' & Hc & Hd & Hx & Hy & Hz & Hw & _).
  assert (Hlow : u32 (Z.land (tx_ts rsp) 4294967295) = le_combine [a; b; c; d]).
  { unfold tx_ts. fold rest. rewrite Heq. cbn [take]. change 4294967295 with (Z.ones 32).
    rewrite Z.land_ones by lia. unfold u32, wrap. rewrite Z.mod_mod by lia.
    change [a; b; c; d; x; y; z; w] with ([a; b; c; d] ++ [x; y; z; w]).
    rewrite le_combine_app. change (256 ^ Z.of_nat (length [a; b; c; d])) with (2 ^ 32).
    rewrite Z.mul_comm, Z.mod_add by lia. apply Z.mod_small.
    change (2 ^ 32) with (256 ^ Z.of_nat (length [a; b; c; d])). apply le_combine_range.
    by rewrite !Forall_cons. }
  assert (Hs : tx_seconds rsp = be_combine [a; b; c; d]) by (unfold tx_seconds; fold rest; by rewrite Heq).
  assert (Hr : 0 <= tx_seconds rsp < 4294967296).
  { rewrite Hs. apply (le_combine_range [d; c; b; a]). by rewrite !Forall_cons. }
  split; [|done]. unfold ntp_unix_secs. rewrite Hlow, bswap32_le, <- Hs by done.
  unfold i64, swrap, u64, wrap, NTP_UNIX_OFFSET. change (2 ^ (64 - 1)) with 9223372036854775808.
  change (2 ^ 64) with 18446744073709551616. rewrite Zplus_mod_idemp_l, Z.mod_small; lia.
Qed.

(** ** Properties *)

(** The clock the NTP task sets is right until 2036 and 136 years behind in
    the next era. For a reply whose transmit timestamp is the 32-bit number of
    seconds since 1900 of the Unix time [t], the value given to [settimeofday]
    is [t] itself up to 2036-02-07 06:28:15 UTC, and [t - 2^32] from then to the end of the
    following era. *)
Theorem ntp_time_until_2036 rsp t :
  length rsp = 48%nat -> Forall byte_ok rsp ->
  tx_seconds rsp = (t + NTP_UNIX_OFFSET) mod 2 ^ 32 -> 0 <= t + NTP_UNIX_OFFSET < 2 ^ 33 ->
  i64 (ntp_unix_secs rsp) = if t <? 2085978496 then t else t - 2 ^ 32.
Proof.
  intros Hl Hb Ht Hr. destruct (ntp_unix_secs_eq rsp Hl Hb) as [-> _]. rewrite Ht.
  unfold NTP_UNIX_OFFSET in *. change (2 ^ 32) with 4294967296 in *.
  change (2 ^ 33) with 8589934592 in *. case_test.
  - rewrite Z.mod_small; lia.
  - rewrite <- (Z.mod_add _ (-1)), Z.mod_small; lia.
Qed.

(** The calls that set the clock. *)
Definition ev_settime (ev : event) : option Z :=
  match ev with existT _ (c, _) => match c with Idf (SetTimeOfDay s) => Some s | _ => None end end.

(** The datagrams the core is given: handle, socket, bytes and destination. *)
Definition ev_udp_sent (ev : event) : option (ptr * Z * list Z * Z * Z) :=
  match ev with
  | existT _ (c, _) =>
      match c with
      | Core (Smoltcp_udp_sendto h s buf dst port) => Some (h, s, buf, dst, port)
      | _ => None
      end
  end.

(** The calls of a receive: the real-time system's, and the core's for it. *)
Definition receive_call (cap : Z) X (c : ccall X) : Prop :=
  match c with Rtos _ => True | Core (Smoltcp_udp_recvfrom _ _ n) => n = cap | _ => False end.

Section calls.
Context `{cfg : Config} {E : Type} `{!Platform E, !History E}.
Implicit Types (g : globals) (e : E).

(** The socket calls of a round make no events but the core's. *)
Lemma only_sendto ok s buf dst port :
  (forall X (c : rtos_call X), ok X (Rtos c)) ->
  (forall h s, ok Z (Core (Smoltcp_udp_sendto h s buf dst port))) ->
  only ok (net_udp_sendto s buf dst port).
Proof.
  intros Hr Hs.
  unfold net_udp_sendto, handle_for, net_iface_get, locked, SMOLTCP_LOCK, SMOLTCP_UNLOCK,
    net_stack_kick_poll. only_auto.
Qed.

Lemma only_recv_until {A} ok fuel d (attempt : cprog (option A)) :
  (forall X (c : rtos_call X), ok X (Rtos c)) -> only ok attempt -> only ok (recv_until fuel d attempt).
Proof.
  intros Hr Ha. induction fuel; cbn [recv_until]; unfold xTaskGetTickCount, net_stack_wait_progress;
    only_auto.
Qed.

Lemma only_recvfrom ok fuel s cap ms :
  (forall X (c : rtos_call X), ok X (Rtos c)) ->
  (forall h s, ok udp_rx (Core (Smoltcp_udp_recvfrom h s cap))) ->
  only ok (net_udp_recvfrom fuel s cap ms).
Proof.
  intros Hr Hs. assert (Ha : forall h, only ok (udp_recv_attempt h s cap))
    by (intros h; unfold udp_recv_attempt, locked, SMOLTCP_LOCK, SMOLTCP_UNLOCK; only_auto).
  unfold net_udp_recvfrom, handle_for, net_iface_get, deadline_in, xTaskGetTickCount.
  pose proof (only_recv_until (A := udp_rx) ok). only_auto.
Qed.

(** A datagram is given to the core once. *)
Lemma wp_sendto_event s buf dst port g e :
  handle_of (IFACE s) g <> NULL ->
  wp ext (net_udp_sendto s buf dst port) g e (fun _ g' e' => g' = g /\
    picked ev_udp_sent e' = picked ev_udp_sent e ++ [(handle_of (IFACE s) g, LOCAL s, buf, dst, port)]).
Proof.
  intros Hh. unfold net_udp_sendto. rewrite wp_bind, wp_handle_for, (is_null_ne _ Hh).
  rewrite wp_bind. apply wp_locked. intros e1 e2 -> ->. rewrite wp_bind.
  set (e3 := (ext _ (Rtos (XSemaphoreGive M_smoltcp)) _).2).
  assert (Hp : picked ev_udp_sent e3
            = picked ev_udp_sent e ++ [(handle_of (IFACE s) g, LOCAL s, buf, dst, port)]).
  { unfold e3. rewrite !picked_step. cbn. by rewrite !app_nil_r. }
  unfold net_stack_kick_poll. destruct (0 <? _); [prog_steps|by prog_steps].
  destruct (is_null _); [by prog_steps|]. rewrite wp_rtos_last. prog_steps.
  split; [done|]. rewrite picked_step, Hp. cbn. by rewrite app_nil_r.
Qed.
End calls.

Section properties.
Context `{cfg : Config} {E : Type} `{!Platform E, !History E}.
Implicit Types (g : globals) (e : E).

(** What the core answers to a receive: the bytes of one datagram, no more than
    the buffer has room for. *)
Definition datagrams_whole : Prop := forall h s cap e,
  let r := (ext _ (Core (Smoltcp_udp_recvfrom h s cap)) e).1 in
  0 < ur_n r -> Z.of_nat (length (ur_data r)) = ur_n r /\ Forall byte_ok (ur_data r) /\ ur_n r <= cap.

(** The clock's new value for the answer [r], by RFC 4330: the big-endian seconds
    since 1900 at offset 40 of a packet of 48 bytes, less those of 1900 to 1970. *)
Definition clock_from (r : udp_rx) : list Z :=
  if decide (length (ur_data r) = 48%nat) then [tx_seconds (ur_data r) - 2208988800] else [].

(** What the task does with an answer. *)
Lemma clock_from_eq r :
  Z.of_nat (length (ur_data r)) = ur_n r /\ Forall byte_ok (ur_data r) /\ ur_n r <= sntp_pkt_size ->
  (if sntp_pkt_size <=? ur_n r then [i64 (ntp_unix_secs (ur_data r))] else []) = clock_from r.
Proof.
  unfold sntp_pkt_size, clock_from. intros (Hl & Hb & Hcap). case_test.
  - rewrite decide_True by lia. f_equal. apply ntp_unix_secs_eq; [lia|done].
  - by rewrite decide_False by lia.
Qed.

(** An answer among the events of a receive is one the core gave. *)
Lemma received_whole h s cap r evs :
  datagrams_whole -> 0 < ur_n r -> made (E := E) (receive_call cap) evs ->
  r ∈ omap (ev_udp_recv h s) evs ->
  Z.of_nat (length (ur_data r)) = ur_n r /\ Forall byte_ok (ur_data r) /\ ur_n r <= cap.
Proof.
  intros Hw Hr Hm (ev & Hin & Hev)%list_elem_of_omap. unfold made in Hm. rewrite Forall_forall in Hm.
  specialize (Hm ev Hin). destruct ev as [X [c x]]. cbn [projT1 projT2 fst snd] in Hm.
  destruct Hm as [Hc [e0 ->]]. destruct c as [X c|X c|X c]; [done..|]. destruct c; try done.
  cbn in Hc, Hev. subst. case_match; [|done]. injection Hev as <-. by apply Hw.
Qed.

Lemma not_settime cap X (c : ccall X) r : receive_call cap X c -> ev_settime (existT X (c, r)) = None.
Proof. by destruct c as [?|?|?]. Qed.

Lemma not_sent cap X (c : ccall X) r : receive_call cap X c -> ev_udp_sent (existT X (c, r)) = None.
Proof. destruct c as [?|?|? c]; [done..|]. by destruct c. Qed.

(** C34. One round of the NTP task. It gives the core one datagram for the server's
    port 123, the 48-byte request: 0x23 (version 4, client) and zeros. Then it
    receives on its socket: the answers of the core are empty ([fails]) up to the
    first datagram, and if that has the 48 bytes of an SNTP packet the clock is
    set, once, to the time in it: its big-endian transmit seconds, less the
    2208988800 s between 1900 and 1970. After a shorter datagram, or when the clock
    has passed five seconds with no datagram, the clock is not set in this round.
    Nothing else is sent, and the state of the stack is as before. *)
Theorem ntp_round_sets_clock fuel s server_be rank g e :
  (forall e1, clock_reaches (deadline_from e1 5000 + 1) (rank e1) /\ (rank e1 e1 < fuel)%nat) ->
  handle_of (IFACE s) g <> NULL -> datagrams_whole ->
  let recv := ev_udp_recv (handle_of (IFACE s) g) (LOCAL s) in
  exists e' e1 sent answers rest fails,
    run ext (ntp_round fuel s server_be) g e = Some (tt, g, e') /\
    hist e1 = hist e ++ sent /\ hist e' = hist e1 ++ answers ++ rest /\
    omap ev_udp_sent sent = [(handle_of (IFACE s) g, LOCAL s, 35 :: replicate 47 0, server_be, 123)] /\
    omap ev_udp_sent (answers ++ rest) = [] /\ omap ev_settime (sent ++ answers) = [] /\
    Forall (fun a => ur_n a <= 0) fails /\
    ((exists r, omap recv answers = fails ++ [r] /\ 0 < ur_n r /\
        omap ev_settime rest = clock_from r) \/
     omap recv answers = fails /\ omap ev_settime rest = [] /\
     exists t, deadline_from e1 5000 < t /\ existT _ (Rtos XTaskGetTickCount, t) ∈ hist e').
Proof.
  intros Hclock Hh Hw recv.
  match goal with |- exists e' e1 sent answers rest fails, _ /\ @?Q e' e1 sent answers rest fails =>
    cut (wp ext (ntp_round fuel s server_be) g e (fun _ g' e' => g' = g /\
      exists e1 sent answers rest fails, Q e' e1 sent answers rest fails));
      [intros ([] & ? & e' & ? & -> & e1 & sent & answers & rest & fails & ?)%wp_run;
       by exists e', e1, sent, answers, rest, fails|] end.
  unfold ntp_round. rewrite wp_bind.
  eapply wp_mono; [apply (wp_trace (fun X c => forall r, ev_settime (existT X (c, r)) = None));
    [by apply only_sendto|by apply wp_sendto_event]|].
  cbn beta. intros _ g1 e1 [[-> Hp1] (sent & Hh1 & Hm1)].
  destruct (Hclock e1) as [Hc Hfuel]. rewrite wp_bind.
  eapply wp_mono; [apply (wp_trace (receive_call 48));
    [by apply only_recvfrom|by eapply wp_udp_recv]|].
  cbn beta zeta. intros r g2 e2 [(-> & fails & Hall & Hcase) (answers & Hh2 & Hm2)]. fold recv in Hcase.
  set (ticks := Rtos (VTaskDelay (pdMS_TO_TICKS (NTP_POLL_SECONDS * 1000)))).
  assert (Hend : wp ext ((if sntp_pkt_size <=? ur_n r
     then idf (SetTimeOfDay (i64 (ntp_unix_secs (ur_data r)))) else mret tt);; call ticks) g e2
     (fun _ g' e' => g' = g /\ exists rest, hist e' = hist e2 ++ rest /\ omap ev_udp_sent rest = [] /\
        omap ev_settime rest = (if sntp_pkt_size <=? ur_n r then [i64 (ntp_unix_secs (ur_data r))] else []))).
  { rewrite wp_bind. destruct (sntp_pkt_size <=? ur_n r);
      [rewrite wp_idf_last|rewrite wp_ret]; cbn [call wp]; (split; [done|]); rewrite !hist_step;
      eexists; rewrite <- ?app_assoc; (split; [reflexivity|]); done. }
  wp_use Hend. intros _ g' e' (-> & rest & Hh3 & Hs3 & Ht3). split; [done|].
  exists e1, sent, answers, rest, fails.
  rewrite !omap_app, (omap_made ev_settime (receive_call 48) answers (not_settime 48) Hm2),
    (omap_made ev_udp_sent (receive_call 48) answers (not_sent 48) Hm2),
    (omap_made ev_settime _ sent (fun X c r Hc => Hc r) Hm1), Hs3, Ht3.
  split_and!; try done; [by rewrite Hh3, Hh2, <- app_assoc|by eapply omap_of_picked|].
  destruct Hcase as [[Hr Hp]|(-> & Hp & t & Ht & Hin)]; apply (omap_of_picked _ _ _ _ _ Hh2) in Hp.
  - left. exists r. split_and!; [done|done|]. apply clock_from_eq.
    eapply received_whole; [done|done|exact Hm2|]. unfold recv in Hp. rewrite Hp. set_solver.
  - right. split_and!; [done|done|]. exists t. split; [done|]. rewrite Hh3. set_solver.
Qed.
End properties.

(** ** Witnesses *)

#[local] Existing Instance tiny.

(** A reply whose transmit timestamp is 2023-11-14 22:13:20 UTC. *)
Definition reply : list Z := replicate 40 0 ++ [232; 254; 111; 128; 0; 0; 0; 0].

Lemma ntp_time_until_2036_witness : i64 (ntp_unix_secs reply) = 1700000000.
Proof.
  apply (ntp_time_until_2036 reply 1700000000).
  - reflexivity.
  - unfold reply, byte_ok. repeat constructor; lia.
  - reflexivity.
  - unfold NTP_UNIX_OFFSET. lia.
Defined.

(** A core that has the reply, and a clock that counts the calls. *)
Definition ntp_oracle : oracle := fun X c h =>
  match c in ccall X return X with
  | Core c0 =>
      match c0 in core_call X return X with
      | Smoltcp_udp_recvfrom _ _ cap => if 48 <=? cap then UdpRx 48 reply None None else UdpRx (-1) [] None None
      | c0 => default_core c0 (length h)
      end
  | c => default_oracle _ c h
  end.

Lemma ntp_clock d :
  clock_reaches (E := sim ntp_oracle) d (fun e => Z.to_nat (d - Z.of_nat (length (sim_hist e)))).
Proof.
  assert (Hstep : forall X (c : ccall X) (e : sim ntp_oracle),
    length (sim_hist (ext _ c e).2) = S (length (sim_hist e))).
  { intros X c e. pose proof (hist_step X c e) as Hh. cbn [hist sim_history] in Hh.
    rewrite Hh, length_app. cbn. lia. }
  split.
  - intros X c e. rewrite Hstep. lia.
  - intros e. rewrite Hstep. cbn. lia.
Qed.

Lemma ntp_round_sets_clock_witness :
  exists e' : sim ntp_oracle,
    run (ext (E := sim ntp_oracle)) (ntp_round (E := sim ntp_oracle) 6000 socket7 16843009) eth_up
      sim_start = Some (tt, eth_up, e') /\ omap ev_settime (sim_hist e') = [1700000000].
Proof.
  destruct (ntp_round_sets_clock (E := sim ntp_oracle) 6000 socket7 16843009
    (fun e1 e => Z.to_nat (deadline_from e1 5000 + 1 - Z.of_nat (length (sim_hist e)))) eth_up
    sim_start) as (e' & e1 & sent & answers & rest & fails & Hrun & _).
  - intros e1. split; [apply ntp_clock|]. unfold deadline_from. cbn.
    pose proof (Z.mod_le (Z.of_nat (length (sim_hist e1)) + u32 5000) (2 ^ 32)).
    rewrite (u32_small 5000) in * by lia. unfold u32, wrap. lia.
  - vm_compute. discriminate.
  - intros h s cap e. cbn. case_test; cbn; [|lia]. intros _. split_and!; [done| |lia].
    unfold reply, byte_ok. repeat constructor; lia.
  - exists e'. split; [exact Hrun|].
    assert (Hx : exec (ext (E := sim ntp_oracle)) (ntp_round (E := sim ntp_oracle) 6000 socket7 16843009)
      (eth_up, sim_start) = (eth_up, e')) by (unfold exec; cbn [fst snd]; by rewrite Hrun).
    apply (f_equal (fun x => omap ev_settime (sim_hist x.2))) in Hx. cbn [snd] in Hx.
    rewrite <- Hx. vm_compute. reflexivity.
Defined.
