(* ===== verification/Ownership.v ===== *)
(** * Who owns the core's sockets

    The descriptor table of the BSD layer owns sockets of the Rust core: a
    descriptor's own, and those of a listener's pool. The class [CoreSockets] is
    what the C code may assume of the core, a finite map from ids to TCP and UDP
    sockets for each interface; [own] ties it to the descriptor table. Every BSD
    call keeps [own], so that sockets are neither leaked, closed twice nor used
    as the other type; a second [connect] loses the socket of the first. [Closed]
    shows that the core modelled in [Core] implements the class. *)

From S2P Require Import Prelude Prog Types Platform Sim NetStack NetSock Loopback FdTable SockWrap SelectWrap.
From S2P Require Import Core CoreSpec.

#[local] Open Scope list_scope.

(** ** What the core promises *)

(** Calls on an interface that neither add nor remove sockets, and that never
    panic but on a socket of the other type. *)
Definition steady {X} (c : core_call X) : bool :=
  match c with
  | Smoltcp_core_init | Smoltcp_iface_new _ _ | Smoltcp_iface_destroy _
  | Smoltcp_iface_set_static _ _ _ _ | Smoltcp_tcp_open _ | Smoltcp_udp_open _ _
  | Smoltcp_tcp_close _ _ | Smoltcp_udp_close _ _ => false
  | _ => true
  end.

Definition is_core {X} (c : ccall X) : bool := match c with Core _ => true | _ => false end.

(** What of an interface leads to its sockets. *)
Definition route_of (it : net_iface) : bool * ptr := (enabled it, smoltcp_handle it).

(** The state of an interface's sockets: the next id, and the sockets by id. *)
Definition sockets_of : Type := Z * gmap Z socket_kind.

Class CoreSockets (E : Type) `{!Platform E} := {
  core_inv : E -> Prop;
  core_socks : E -> ptr -> option sockets_of;
  core_static_ok : Z -> Z -> Prop;
  cs_init e :
    core_inv e ->
    core_inv (ext _ (Core Smoltcp_core_init) e).2 /\
    forall h, core_socks (ext _ (Core Smoltcp_core_init) e).2 h = core_socks e h;
  cs_new i mac e :
    core_inv e ->
    let (h, e') := ext _ (Core (Smoltcp_iface_new i mac)) e in
    core_inv e' /\ h <> NULL /\ core_socks e h = None /\
    forall h', core_socks e' h' = if decide (h' = h) then Some (1, ∅) else core_socks e h';
  cs_static h ip prefix gw e :
    core_inv e -> core_static_ok ip prefix -> (h <> NULL -> is_Some (core_socks e h)) ->
    core_inv (ext _ (Core (Smoltcp_iface_set_static h ip prefix gw)) e).2 /\
    forall h', core_socks (ext _ (Core (Smoltcp_iface_set_static h ip prefix gw)) e).2 h' = core_socks e h';
  cs_other {X} (c : ccall X) e :
    is_core c = false -> core_inv e ->
    core_inv (ext _ c e).2 /\ forall h, core_socks (ext _ c e).2 h = core_socks e h;
  cs_steady {X} (c : core_call X) h e :
    steady c = true -> call_iface c = Some h -> core_inv e ->
    (h <> NULL -> exists n m, core_socks e h = Some (n, m) /\
      forall id k k', call_socket c = Some (id, k) -> m !! id = Some k' -> k' = k) ->
    core_inv (ext _ (Core c) e).2 /\ forall h', core_socks (ext _ (Core c) e).2 h' = core_socks e h';
  cs_open_tcp h e n m :
    h <> NULL -> core_inv e -> core_socks e h = Some (n, m) -> n + 1 < 4294967296 ->
    core_inv (ext _ (Core (Smoltcp_tcp_open h)) e).2 /\
    (ext _ (Core (Smoltcp_tcp_open h)) e).1 = n /\
    forall h', core_socks (ext _ (Core (Smoltcp_tcp_open h)) e).2 h' =
      if decide (h' = h) then Some (n + 1, <[n := KTcp]> m) else core_socks e h';
  cs_open_udp h p e n m :
    h <> NULL -> core_inv e -> core_socks e h = Some (n, m) -> n + 1 < 4294967296 ->
    core_inv (ext _ (Core (Smoltcp_udp_open h p)) e).2 /\
    ((ext _ (Core (Smoltcp_udp_open h p)) e).1 = n /\
     (forall h', core_socks (ext _ (Core (Smoltcp_udp_open h p)) e).2 h' =
        if decide (h' = h) then Some (n + 1, <[n := KUdp]> m) else core_socks e h') \/
     (ext _ (Core (Smoltcp_udp_open h p)) e).1 = 0 /\
     (forall h', core_socks (ext _ (Core (Smoltcp_udp_open h p)) e).2 h' = core_socks e h'));
  cs_close (k : socket_kind) (c : core_call unit) h id e n m :
    h <> NULL -> c = Smoltcp_tcp_close h id /\ k = KTcp \/ c = Smoltcp_udp_close h id /\ k = KUdp ->
    core_inv e -> core_socks e h = Some (n, m) ->
    (forall k', m !! id = Some k' -> k' = k) ->
    core_inv (ext _ (Core c) e).2 /\
    forall h', core_socks (ext _ (Core c) e).2 h' =
      if decide (h' = h) then Some (n, delete id m) else core_socks e h';
}.

(** ** The core's sockets by [net_sock_t] *)

(** The [net_sock_t] the macros of the native API take [s] for. *)
Definition norm (s : Z) : Z := pack_sock (IFACE s) (LOCAL s).

Section core_map.
Context {E : Type} `{!Platform E, !CoreSockets E}.
Implicit Types (g : globals) (e : E) (M : gmap Z socket_kind).

(** [M] is the map of all the core's sockets, and each interface has room for
    [room] more ids of 24 bits. Only enabled interfaces have a handle. *)
Record core_is (room : Z) g e M : Prop := {
  ci_inv : core_inv e;
  ci_raw i : smoltcp_handle (iface_at i g) <> NULL -> handle_of i g = smoltcp_handle (iface_at i g);
  ci_inj i j : handle_of i g = handle_of j g -> handle_of i g <> NULL -> i = j;
  ci_at i : handle_of i g <> NULL -> exists n m, core_socks e (handle_of i g) = Some (n, m) /\
    1 <= n /\ n + room <= 16777216 /\ (forall id, is_Some (m !! id) -> 1 <= id < n) /\
    forall id, 0 <= id < 16777216 -> M !! pack_sock i id = m !! id;
  ci_dom s : is_Some (M !! s) -> handle_of (IFACE s) g <> NULL /\ norm s = s /\ LOCAL s <> 0;
}.

(** [s] is not a socket of the other type. *)
Definition sock_ok M (k : socket_kind) (s : Z) : Prop := forall k', M !! norm s = Some k' -> k' = k.

Lemma handle_lt i g : handle_of i g <> NULL -> (i < 256)%nat.
Proof. unfold handle_of, NET_IFACE_MAX. destruct (2 <=? i)%nat eqn:Hi; [done|]. apply Nat.leb_gt in Hi. lia. Qed.

Lemma LOCAL_range s : 0 <= LOCAL s < 16777216.
Proof. unfold LOCAL. rewrite land_low24. apply Z.mod_pos_bound. done. Qed.

Lemma norm_pack i id : (i < 256)%nat -> 0 <= id < 16777216 -> norm (pack_sock i id) = pack_sock i id.
Proof. intros Hi Hid. unfold norm. rewrite IFACE_pack, LOCAL_pack, Z.mod_small by done. done. Qed.

Lemma pack_id_inj i id id' :
  (i < 256)%nat -> 0 <= id < 16777216 -> 0 <= id' < 16777216 ->
  pack_sock i id = pack_sock i id' -> id = id'.
Proof. intros Hi H1 H2 Hp. rewrite !pack_sock_add, !Z.mod_small in Hp by done. lia. Qed.

Lemma pack_iface_inj i j id id' :
  (i < 256)%nat -> (j < 256)%nat -> pack_sock i id = pack_sock j id' -> i = j.
Proof. intros Hi Hj Hp. by rewrite <- (IFACE_pack i id), Hp, IFACE_pack. Qed.

Lemma core_is_room r r' g e M : core_is r g e M -> r' <= r -> core_is r' g e M.
Proof.
  intros [Hinv Hraw Hinj Hat Hdom] Hr. split; [done..| |done].
  intros i Hi. destruct (Hat i Hi) as (n & m & Hs & Hn & Hroom & Hm). exists n, m. split; [done|]. split; [done|]. split; [lia|done].
Qed.

(** Steps of the environment that leave the sockets, and of the state that leave
    the handles. *)
Lemma core_is_env r g e e' M :
  core_is r g e M -> core_inv e' -> (forall h, core_socks e' h = core_socks e h) -> core_is r g e' M.
Proof.
  intros [Hinv Hraw Hinj Hat Hdom] Hinv' Hs. split; [done..| |done].
  intros i Hi. rewrite Hs. by apply Hat.
Qed.

Lemma route_handle g g' i : route_of (iface_at i g') = route_of (iface_at i g) -> handle_of i g' = handle_of i g.
Proof. unfold route_of, handle_of. by intros [= -> ->]. Qed.

Lemma core_is_state r g g' e M :
  core_is r g e M -> (forall i, route_of (iface_at i g') = route_of (iface_at i g)) -> core_is r g' e M.
Proof.
  intros [Hinv Hraw Hinj Hat Hdom] Hr. assert (Hh : forall i, handle_of i g' = handle_of i g)
    by (intros i; by apply route_handle).
  split; [done|..].
  - intros i. specialize (Hr i). unfold route_of in Hr. injection Hr as _ Hr. rewrite Hh, Hr. apply Hraw.
  - intros i j. rewrite !Hh. apply Hinj.
  - intros i. rewrite Hh. apply Hat.
  - intros s. rewrite Hh. apply Hdom.
Qed.

Lemma core_is_other r g e M {X} (c : ccall X) :
  is_core c = false -> core_is r g e M -> core_is r g (ext _ c e).2 M.
Proof. intros Hc HM. destruct (cs_other c e Hc (ci_inv _ _ _ _ HM)). by eapply core_is_env. Qed.

(** What the core knows of the sockets behind a handle. *)
Lemma core_is_kind r g e M s k :
  core_is r g e M -> handle_of (IFACE s) g <> NULL -> sock_ok M k s ->
  exists n m, core_socks e (handle_of (IFACE s) g) = Some (n, m) /\
    forall k', m !! LOCAL s = Some k' -> k' = k.
Proof.
  intros HM Hh Hok. destruct (ci_at _ _ _ _ HM _ Hh) as (n & m & Hs & _ & _ & _ & Hm).
  exists n, m. split; [done|]. intros k' Hk'. apply Hok. unfold norm.
  rewrite Hm; [done|]. apply LOCAL_range.
Qed.

Lemma core_is_steady r g e M {X} (c : core_call X) h :
  steady c = true -> call_iface c = Some h -> core_is r g e M ->
  (h <> NULL -> exists i, h = handle_of i g) ->
  (forall id k, call_socket c = Some (id, k) ->
     exists s, h = handle_of (IFACE s) g /\ id = LOCAL s /\ sock_ok M k s) ->
  core_is r g (ext _ (Core c) e).2 M.
Proof.
  intros Hst Hif HM Hh Hs.
  destruct (cs_steady c h e Hst Hif (ci_inv _ _ _ _ HM)) as [Hinv Hsame]; [|by apply (core_is_env _ _ e)].
  intros Hnull. destruct (call_socket c) as [[id k]|] eqn:Hc.
  - destruct (Hs id k eq_refl) as (s & -> & -> & Hok).
    destruct (core_is_kind _ _ _ _ _ _ HM Hnull Hok) as (n & m & ? & Hk). exists n, m.
    split; [done|]. intros id' k1 k2 [= <- <-]. apply Hk.
  - destruct (Hh Hnull) as (i & ->). destruct (ci_at _ _ _ _ HM i Hnull) as (n & m & ? & _).
    by exists n, m.
Qed.

(** A new socket. *)
Lemma core_is_insert r g e e' M i n m k :
  core_is r g e M -> 1 <= r -> handle_of i g <> NULL -> core_socks e (handle_of i g) = Some (n, m) ->
  core_inv e' ->
  (forall h, core_socks e' h = if decide (h = handle_of i g) then Some (n + 1, <[n := k]> m) else core_socks e h) ->
  core_is (r - 1) g e' (<[pack_sock i n := k]> M) /\ M !! pack_sock i n = None /\ net_sock_valid (pack_sock i n) = true.
Proof.
  intros HM Hr Hi Hs Hinv Hs'. pose proof HM as [_ Hraw Hinj Hat Hdom]. pose proof (handle_lt _ _ Hi) as Hlt.
  destruct (Hat i Hi) as (n' & m' & Heq & Hn & Hroom & Hids & Hm). rewrite Hs in Heq. simplify_eq.
  assert (Hnew : m' !! n' = None).
  { apply eq_None_not_Some. intros Hsome. specialize (Hids _ Hsome). lia. }
  split_and!.
  - split; [done..| |].
    + intros j Hj. rewrite Hs'. destruct (decide (handle_of j g = handle_of i g)) as [Heq|Hne].
      * apply Hinj in Heq as ->; [|done]. exists (n' + 1), (<[n' := k]> m').
        split_and!; [done|lia|lia| |].
        { intros id. destruct (decide (id = n')) as [->|]; [lia|]. rewrite lookup_insert_ne by done.
          intros Hid. specialize (Hids _ Hid). lia. }
        intros id Hid. destruct (decide (id = n')) as [->|Hne]; [by rewrite !lookup_insert_eq|].
        rewrite (lookup_insert_ne m') by done. rewrite lookup_insert_ne; [by apply Hm|].
        intros Hp. by apply Hne, (pack_id_inj i); [..|lia|].
      * destruct (Hat j Hj) as (nj & mj & ? & ? & ? & ? & Hmj). exists nj, mj.
        split_and!; [done..|lia|done|]. intros id Hid. rewrite lookup_insert_ne; [by apply Hmj|].
        intros Hp. apply Hne. f_equal. symmetry. apply (pack_iface_inj _ _ _ _ Hlt (handle_lt _ _ Hj) Hp).
    + intros s. destruct (decide (s = pack_sock i n')) as [->|Hne].
      * intros _. rewrite IFACE_pack, norm_pack, LOCAL_pack, Z.mod_small by lia. split_and!; [done..|lia].
      * rewrite lookup_insert_ne by done. apply Hdom.
  - rewrite Hm by lia. done.
  - unfold net_sock_valid. rewrite pack_sock_add, Z.mod_small by lia.
    destruct (Z.eqb_spec (Z.of_nat i * 16777216 + n') 0); [lia|done].
Qed.

(** A closed socket. *)
Lemma core_is_delete r g e e' M s n m :
  core_is r g e M -> handle_of (IFACE s) g <> NULL ->
  core_socks e (handle_of (IFACE s) g) = Some (n, m) -> core_inv e' ->
  (forall h, core_socks e' h =
     if decide (h = handle_of (IFACE s) g) then Some (n, delete (LOCAL s) m) else core_socks e h) ->
  core_is r g e' (delete (norm s) M).
Proof.
  intros HM Hi Hs Hinv Hs'. pose proof HM as [_ Hraw Hinj Hat Hdom]. pose proof (handle_lt _ _ Hi) as Hlt.
  destruct (Hat _ Hi) as (n' & m' & Heq & Hn & Hroom & Hids & Hm). rewrite Hs in Heq. simplify_eq.
  pose proof (LOCAL_range s) as Hl. split; [done..| |].
  - intros j Hj. rewrite Hs'. destruct (decide (handle_of j g = handle_of (IFACE s) g)) as [Heq|Hne].
    + apply Hinj in Heq as ->; [|done]. exists n', (delete (LOCAL s) m').
      split_and!; [done..| |].
      { intros id [_ Hid]%lookup_delete_is_Some. by apply Hids. }
      intros id Hid. destruct (decide (id = LOCAL s)) as [->|Hne]; [by rewrite !lookup_delete_eq|].
      rewrite !lookup_delete_ne; [by apply Hm|done|].
      intros Hp. by apply Hne, (pack_id_inj (IFACE s)).
    + destruct (Hat j Hj) as (nj & mj & ? & ? & ? & ? & Hmj). exists nj, mj.
      split_and!; [done..|]. intros id Hid. rewrite lookup_delete_ne; [by apply Hmj|].
      intros Hp. apply Hne. f_equal. symmetry. apply (pack_iface_inj _ _ _ _ Hlt (handle_lt _ _ Hj) Hp).
  - intros t [_ Ht]%lookup_delete_is_Some. by apply Hdom.
Qed.
End core_map.

(** ** Programs that leave the sockets alone *)

(** The part of an entry that ownership depends on. *)
Definition fd_view (en : fd_entry) : fd_kind * Z * ptr * list Z * nat :=
  (kind en, sock en, pool en, pool_socks en, pool_len en).

(** The same descriptors, as far as they own sockets, on the same interfaces. *)
Record same (g0 g : globals) : Prop := {
  sm_len : length (s_table (fdt g)) = length (s_table (fdt g0));
  sm_view i : fd_view (entry_at i g) = fd_view (entry_at i g0);
  sm_route i : route_of (iface_at i g) = route_of (iface_at i g0);
  sm_nif : length (s_ifaces (net g)) = length (s_ifaces (net g0));
}.

Lemma sm_handle g0 g i : same g0 g -> handle_of i g = handle_of i g0.
Proof. intros Hs. by apply route_handle, sm_route. Qed.

Lemma same_refl g : same g g.
Proof. by split. Qed.

Lemma same_trans g1 g2 g3 : same g1 g2 -> same g2 g3 -> same g1 g3.
Proof.
  intros [Hl Hv Hi Hn] [Hl' Hv' Hi' Hn'].
  split; [by rewrite Hl'|intros i; by rewrite Hv'|intros i; by rewrite Hi'|by rewrite Hn'].
Qed.

(** Stores outside the view. *)
Lemma same_upd_entry g0 g i f :
  (forall en, fd_view (f en) = fd_view en) -> same g0 g -> same g0 (upd_entry i f g).
Proof.
  intros Hf [Hl Hv Hh Hn]. split; [cbn; by rewrite length_alter| |done..].
  intros j. rewrite <- Hv. destruct (decide (j = i)) as [->|Hne]; [|by rewrite entry_at_upd_ne].
  destruct (decide (i < length (s_table (fdt g)))%nat) as [Hi|Hi]; [by rewrite entry_at_upd|].
  unfold entry_at. by rewrite !list_lookup_total_alt, !lookup_ge_None_2 by (cbn; rewrite ?length_alter; lia).
Qed.

Lemma same_upd_lo g0 g f : same g0 g -> same g0 (upd_lo f g).
Proof. by intros []. Qed.

Lemma same_upd_fdt_lock g0 g b : same g0 g -> same g0 (upd_fdt (set_fd_s_lock b) g).
Proof. by intros []. Qed.

Lemma same_upd_iface g0 g i f :
  (forall it, route_of (f it) = route_of it) -> same g0 g -> same g0 (upd_iface i f g).
Proof.
  intros Hf [Hl Hv Hh Hn]. split; [done|done| |cbn; by rewrite length_alter].
  intros j. rewrite <- Hh. destruct (decide (j = i)) as [->|Hne]; [|by rewrite iface_at_upd_ne].
  destruct (decide (i < length (s_ifaces (net g)))%nat) as [Hi|Hi]; [by rewrite iface_at_upd|].
  unfold iface_at. by rewrite !list_lookup_total_alt, !lookup_ge_None_2 by (cbn; rewrite ?length_alter; lia).
Qed.

Lemma same_upd_net g0 g f : s_ifaces (f (net g)) = s_ifaces (net g) -> same g0 g -> same g0 (upd_net f g).
Proof. intros Hf [Hl Hv Hh Hn]. split; [done|done| |cbn; by rewrite Hf]. intros i. rewrite <- Hh. unfold iface_at. cbn. by rewrite Hf. Qed.

Lemma same_upd_frame g0 g i f : same g0 g -> same g0 (upd_frame i f g).
Proof. by intros []. Qed.

Lemma same_netdb g0 g x : same g0 g -> same g0 (set_netdb x g).
Proof. by intros []. Qed.

Lemma same_errno g0 g x : same g0 g -> same g0 (set_errno x g).
Proof. by intros []. Qed.

#[export] Hint Resolve same_refl same_upd_lo same_upd_fdt_lock same_errno same_upd_frame same_netdb : keeps.
#[export] Hint Extern 2 (same _ (upd_iface _ _ _)) => apply same_upd_iface; [done|] : keeps.
#[export] Hint Extern 3 (same _ (upd_net _ _)) => apply same_upd_net; [done|] : keeps.
#[export] Hint Extern 2 (same _ (upd_entry _ _ _)) => apply same_upd_entry; [done|] : keeps.

Section steady.
Context `{cfg : Config} {E : Type} `{!Platform E, !SocketConsts, !CoreSockets E}.
Implicit Types (g : globals) (e : E) (M : gmap Z socket_kind).

Section world.
Context (g0 : globals) (room : Z) (M : gmap Z socket_kind).

Definition world g e : Prop := same g0 g /\ core_is room g e M.

Lemma world_store f g e : (forall g, same g0 g -> same g0 (f g)) -> world g e -> world (f g) e.
Proof.
  intros Hf [Hs HM]. split; [auto|]. eapply core_is_state; [done|]. intros i.
  by rewrite (sm_route _ _ (Hf _ Hs) i), (sm_route _ _ Hs i).
Qed.

Lemma world_other {X} (c : ccall X) g e : is_core c = false -> world g e -> world g (ext _ c e).2.
Proof. intros Hc [Hs HM]. split; [done|]. by apply core_is_other. Qed.

Lemma keeps_other {X} (c : ccall X) : is_core c = false -> keeps ext world (fun _ => True) (call c).
Proof. intros Hc. apply keeps_call. intros g e. by apply world_other. Qed.

Lemma keeps_store f : (forall g, same g0 g -> same g0 (f g)) -> keeps ext world (fun _ => True) (modify f).
Proof. intros Hf. apply keeps_modify. intros g e. by apply world_store. Qed.

(** A locked core call. *)
Lemma keeps_locked {X} (c : core_call X) :
  (forall g e, world g e -> core_is room g (ext _ (Core c) e).2 M) ->
  keeps ext world (fun _ => True) (locked c).
Proof.
  intros Hc. unfold locked, SMOLTCP_LOCK, SMOLTCP_UNLOCK.
  apply keeps_after; [by apply keeps_other|intros _]. apply keeps_after.
  - apply keeps_call. intros g e Hw. split; [apply Hw|by apply Hc].
  - intros r. apply keeps_after; [by apply keeps_other|intros _; by apply keeps_ret].
Qed.
End world.
End steady.

Ltac keeps_step :=
  lazymatch goal with
  | |- forall _, _ => intros ?
  | |- keeps _ _ _ (gets _ ≫= _) => apply keeps_gets; intros ? ? ?
  | |- keeps _ _ _ (gets _) => apply keeps_gets_last
  | |- keeps _ _ _ (modify _) => apply keeps_store; intros ? ?; solve [eauto 6 with keeps]
  | |- keeps _ _ _ (rtos _) => by apply keeps_other
  | |- keeps _ _ _ (idf _) => by apply keeps_other
  | |- keeps _ _ _ SMOLTCP_LOCK => by apply keeps_other
  | |- keeps _ _ _ SMOLTCP_UNLOCK => by apply keeps_other
  | |- keeps _ _ _ (for_each _ _) => apply keeps_for_each; intros ? ?
  | |- keeps _ _ _ (when _ _) => unfold when
  | |- keeps _ _ _ Spin => apply keeps_spin
  | |- keeps _ _ _ (mret _) => by apply keeps_ret
  | |- keeps _ _ _ (Ret _) => by apply keeps_ret
  | |- keeps _ _ _ (_ ≫= _) => apply keeps_after
  | |- keeps _ _ _ (match ?x with _ => _ end) => destruct x eqn:?
  | |- keeps _ _ _ _ => solve [eauto 4 with keeps]
  end.

Ltac keeps_auto := repeat (keeps_step; cbn beta).

Section quiet.
Context `{cfg : Config} {E : Type} `{!Platform E, !SocketConsts, !CoreSockets E}.
Context (g0 : globals) (room : Z) (M : gmap Z socket_kind).
Abbreviation quiet := (keeps ext (world (E := E) g0 room M) (fun _ => True)).

Lemma quiet_kick_poll : quiet net_stack_kick_poll.
Proof. unfold net_stack_kick_poll. keeps_auto. Qed.

Lemma quiet_wait_progress ms : quiet (net_stack_wait_progress ms).
Proof. unfold net_stack_wait_progress. keeps_auto. Qed.

Lemma quiet_fail_with x : quiet (fail_with x).
Proof. unfold fail_with. keeps_auto. Qed.

Lemma quiet_free_msg m : quiet (free_msg m).
Proof. unfold free_msg. keeps_auto. Qed.

#[local] Hint Resolve quiet_kick_poll quiet_wait_progress quiet_fail_with quiet_free_msg : keeps.

Lemma quiet_lock_init_once : quiet lock_init_once.
Proof. unfold lock_init_once. keeps_auto. Qed.

#[local] Hint Resolve quiet_lock_init_once : keeps.

Lemma quiet_lo_bind p e : quiet (lo_bind p e).
Proof. unfold lo_bind, ensure_lo_rx, upd_slot. keeps_auto. Qed.

Lemma quiet_drain_lo fuel q : quiet (drain_lo fuel q).
Proof. induction fuel; cbn [drain_lo]; keeps_auto. Qed.

#[local] Hint Resolve quiet_drain_lo : keeps.

Lemma quiet_lo_unbind fuel p e : quiet (lo_unbind fuel p e).
Proof. unfold lo_unbind, upd_slot. keeps_auto. Qed.

Lemma quiet_lo_deliver p src sp buf : quiet (lo_deliver p src sp buf).
Proof. unfold lo_deliver. keeps_auto. Qed.

Lemma quiet_fd_table_init : quiet fd_table_init.
Proof. unfold fd_table_init. keeps_auto. Qed.

#[local] Hint Resolve quiet_lo_unbind : keeps.

Lemma quiet_close_loopback fuel i : quiet (close_loopback fuel i).
Proof. unfold close_loopback. keeps_auto. Qed.

Lemma quiet_tick : quiet xTaskGetTickCount.
Proof. unfold xTaskGetTickCount. keeps_auto. Qed.

#[local] Hint Resolve quiet_tick : keeps.

Lemma quiet_deadline_in ms : quiet (deadline_in ms).
Proof. unfold deadline_in. keeps_auto. Qed.

#[local] Hint Resolve quiet_deadline_in : keeps.

(** The handles do not change. *)
Lemma keeps_handle_for i :
  keeps ext (world (E := E) g0 room M) (fun h => h = handle_of i g0) (handle_for i).
Proof.
  intros g e Hw. apply wlp_wp, wp_handle_for. split; [done|]. by rewrite (sm_handle _ _ i (proj1 Hw)).
Qed.

(** Steady calls: about an interface, and about a socket of the right type. *)
Lemma keeps_locked_iface {X} (c : core_call X) i :
  steady c = true -> call_iface c = Some (handle_of i g0) -> call_socket c = None ->
  keeps ext (world (E := E) g0 room M) (fun _ => True) (locked c).
Proof.
  intros Hst Hif Hc. apply keeps_locked. intros g e [Hs HM].
  eapply core_is_steady; [done..| |]; rewrite ?Hc; [|done].
  intros _. exists i. by rewrite (sm_handle _ _ _ Hs).
Qed.

Lemma keeps_locked_sock {X} (c : core_call X) k s :
  steady c = true -> call_iface c = Some (handle_of (IFACE s) g0) ->
  call_socket c = Some (LOCAL s, k) -> sock_ok M k s ->
  keeps ext (world (E := E) g0 room M) (fun _ => True) (locked c).
Proof.
  intros Hst Hif Hc Hok. apply keeps_locked. intros g e [Hs HM].
  assert (Hh : handle_of (IFACE s) g0 = handle_of (IFACE s) g) by (by rewrite (sm_handle _ _ _ Hs)).
  eapply core_is_steady; [done..| |].
  - intros _. by exists (IFACE s).
  - rewrite Hc. intros id k' [= <- <-]. by exists s.
Qed.

Lemma quiet_query_sock {A} s (none : A) c :
  steady (c (handle_of (IFACE s) g0) (LOCAL s)) = true ->
  call_iface (c (handle_of (IFACE s) g0) (LOCAL s)) = Some (handle_of (IFACE s) g0) ->
  call_socket (c (handle_of (IFACE s) g0) (LOCAL s)) = Some (LOCAL s, KTcp) -> sock_ok M KTcp s ->
  quiet (query_sock s none c).
Proof.
  intros Hst Hif Hc Hok. unfold query_sock. eapply keeps_bind; [apply keeps_handle_for|].
  intros h ->. case_match; [by apply keeps_ret|]. by eapply keeps_locked_sock.
Qed.

Lemma quiet_is_active s : sock_ok M KTcp s -> quiet (net_tcp_is_active s).
Proof. by apply quiet_query_sock. Qed.

Lemma quiet_is_connected s : sock_ok M KTcp s -> quiet (net_tcp_is_connected s).
Proof. by apply quiet_query_sock. Qed.

Lemma quiet_recv_queue s : sock_ok M KTcp s -> quiet (net_tcp_recv_queue s).
Proof. by apply quiet_query_sock. Qed.

Lemma quiet_send_capacity s : sock_ok M KTcp s -> quiet (net_tcp_send_capacity s).
Proof. by apply quiet_query_sock. Qed.

(** A function that looks the handle up, with a locked call on the socket. *)
Ltac sock_fn k := eapply keeps_bind; [apply keeps_handle_for|]; intros ? ->; case_match;
  [by apply keeps_ret|]; try (apply keeps_after; [by eapply (keeps_locked_sock _ k)|intros ?]).

Lemma quiet_tcp_listen s p : sock_ok M KTcp s -> quiet (net_tcp_listen s p).
Proof. intros Hok. unfold net_tcp_listen. sock_fn KTcp. keeps_auto. Qed.

Lemma quiet_connect_wait fuel s d :
  sock_ok M KTcp s -> quiet (tcp_connect_wait fuel (handle_of (IFACE s) g0) s d).
Proof.
  intros Hok. induction fuel as [|fuel IH]; cbn [tcp_connect_wait]; [apply keeps_spin|].
  apply keeps_after; [keeps_auto|intros t]. case_match; [by apply keeps_ret|].
  apply keeps_after; [by eapply (keeps_locked_sock _ KTcp)|intros a]. keeps_auto.
Qed.

#[local] Hint Resolve quiet_connect_wait : keeps.

Lemma quiet_tcp_connect fuel s ip p ms : sock_ok M KTcp s -> quiet (net_tcp_connect fuel s ip p ms).
Proof. intros Hok. unfold net_tcp_connect. sock_fn KTcp. keeps_auto. Qed.

Lemma quiet_send_loop fuel s buf d total :
  sock_ok M KTcp s -> quiet (tcp_send_loop fuel (handle_of (IFACE s) g0) s buf d total).
Proof.
  intros Hok. revert total. induction fuel as [|fuel IH]; intros total; cbn [tcp_send_loop]; [apply keeps_spin|].
  case_match; [by apply keeps_ret|].
  apply keeps_after; [by eapply (keeps_locked_sock _ KTcp)|intros n]. keeps_auto.
Qed.

#[local] Hint Resolve quiet_send_loop : keeps.

Lemma quiet_tcp_send fuel s buf ms : sock_ok M KTcp s -> quiet (net_tcp_send fuel s buf ms).
Proof. intros Hok. unfold net_tcp_send. sock_fn KTcp. keeps_auto. Qed.

Lemma quiet_recv_until {A} fuel d (p : cprog (option A)) : quiet p -> quiet (recv_until fuel d p).
Proof. intros Hp. induction fuel; cbn [recv_until]; keeps_auto. Qed.

Lemma quiet_tcp_recv fuel s cap ms : sock_ok M KTcp s -> quiet (net_tcp_recv fuel s cap ms).
Proof.
  intros Hok. unfold net_tcp_recv. sock_fn KTcp. apply keeps_after; [keeps_auto|intros d].
  apply keeps_after; [|keeps_auto]. apply quiet_recv_until. unfold tcp_recv_attempt.
  apply keeps_after; [by eapply (keeps_locked_sock _ KTcp)|intros r]. keeps_auto.
Qed.

Lemma quiet_udp_sendto s buf ip p : sock_ok M KUdp s -> quiet (net_udp_sendto s buf ip p).
Proof. intros Hok. unfold net_udp_sendto. sock_fn KUdp. keeps_auto. Qed.

Lemma quiet_udp_recvfrom fuel s cap ms : sock_ok M KUdp s -> quiet (net_udp_recvfrom fuel s cap ms).
Proof.
  intros Hok. unfold net_udp_recvfrom. sock_fn KUdp. apply keeps_after; [keeps_auto|intros d].
  apply keeps_after; [|keeps_auto]. apply quiet_recv_until. unfold udp_recv_attempt.
  apply keeps_after; [by eapply (keeps_locked_sock _ KUdp)|intros r]. keeps_auto.
Qed.

Lemma quiet_mcast i grp :
  quiet (net_mcast_join i grp) /\ quiet (net_mcast_leave i grp).
Proof.
  split; (eapply keeps_bind; [apply keeps_handle_for|]; intros ? ->; case_match; [by apply keeps_ret|];
    apply keeps_after; [by eapply (keeps_locked_iface _ i)|intros ?; keeps_auto]).
Qed.

(** Calls on the handle stored in an interface. *)
Lemma keeps_raw {B} i (f : ptr -> cprog B) :
  quiet (f (smoltcp_handle (iface_at i g0))) -> quiet (gets (fun g => smoltcp_handle (iface_at i g)) ≫= f).
Proof.
  intros Hf. apply keeps_gets. intros g e [Hs _]. pose proof (sm_route _ _ Hs i) as Hr.
  unfold route_of in Hr. injection Hr as _ Hr. by rewrite Hr.
Qed.

Lemma quiet_core {X} (c : core_call X) i :
  steady c = true -> call_iface c = Some (smoltcp_handle (iface_at i g0)) -> call_socket c = None ->
  quiet (core c).
Proof.
  intros Hst Hif Hc. apply keeps_call. intros g e [Hs HM]. split; [done|].
  eapply core_is_steady; [done..| |]; rewrite ?Hc; [|done]. intros Hn. exists i.
  pose proof (sm_route _ _ Hs i) as Hr. unfold route_of in Hr. injection Hr as _ Hr.
  rewrite <- Hr in *. symmetry. by apply (ci_raw _ _ _ _ HM).
Qed.

Lemma quiet_locked_at {X} i (c : ptr -> core_call X) :
  (forall h, steady (c h) = true /\ call_iface (c h) = Some h /\ call_socket (c h) = None) ->
  quiet (locked_at i c).
Proof.
  intros Hc. unfold locked_at. apply keeps_after; [keeps_auto|intros _]. apply keeps_raw.
  apply keeps_after; [|intros v; keeps_auto]. by apply (quiet_core _ i); apply Hc.
Qed.

Lemma quiet_query_iface i (c : ptr -> core_call Z) :
  (forall h, steady (c h) = true /\ call_iface (c h) = Some h /\ call_socket (c h) = None) ->
  quiet (query_iface i c).
Proof. intros Hc. pose proof (quiet_locked_at i c Hc). unfold query_iface. keeps_auto. Qed.

Lemma quiet_get_ipv4 i : quiet (net_stack_get_ipv4 i).
Proof. by apply quiet_query_iface. Qed.

Lemma quiet_default_iface : quiet fd_default_iface.
Proof.
  pose proof quiet_get_ipv4. unfold fd_default_iface. keeps_auto.
Qed.
End quiet.

#[export] Hint Resolve quiet_kick_poll quiet_wait_progress quiet_fail_with quiet_free_msg quiet_lo_bind
  quiet_lo_unbind quiet_lo_deliver quiet_fd_table_init quiet_close_loopback quiet_tick quiet_deadline_in
  quiet_is_active quiet_is_connected quiet_recv_queue quiet_send_capacity quiet_tcp_listen quiet_tcp_connect quiet_tcp_send
  quiet_tcp_recv quiet_udp_sendto quiet_udp_recvfrom quiet_get_ipv4 quiet_default_iface : keeps.

(** ** What the descriptors own *)

Definition entry_kind (en : fd_entry) : socket_kind :=
  if bool_decide (kind en = FD_UDP) then KUdp else KTcp.

(** A field that holds a socket, or none. *)
Definition held (k : socket_kind) (s : Z) : list (Z * socket_kind) :=
  if net_sock_valid s then [(s, k)] else [].

Definition pool_held (en : fd_entry) : list (Z * socket_kind) :=
  if is_null (pool en) then [] else pool_socks en ≫= held KTcp.

Definition entry_socks (en : fd_entry) : list (Z * socket_kind) :=
  if bool_decide (kind en = FD_FREE) then []
  else held (entry_kind en) (sock en) ++ pool_held en.

Definition owned (g : globals) : list (Z * socket_kind) := concat (entry_socks <$> s_table (fdt g)).

(** Listeners, and only they, have a pool. *)
Definition shape (en : fd_entry) : Prop :=
  match kind en with
  | FD_FREE => True
  | FD_TCP_LISTEN => is_null (pool en) = false /\ pool_len en = length (pool_socks en)
  | _ => is_null (pool en) = true
  end.

Section own.
Context `{cfg : Config} {E : Type} `{!Platform E, !SocketConsts, !CoreSockets E}.
Implicit Types (g : globals) (e : E) (L R : list (Z * socket_kind)).

(** The core's sockets are those of [L], each once. *)
Definition core_list (room : Z) g e L : Prop := core_is room g e (list_to_map L) /\ NoDup L.*1.

(** The core's sockets are those the descriptors own, and [R]. *)
Record own (room : Z) R g e : Prop := {
  own_len : length (s_table (fdt g)) = MAX_FDS;
  own_shape i : shape (entry_at i g);
  own_core : core_list room g e (owned g ++ R);
  own_nif : length (s_ifaces (net g)) = NET_IFACE_MAX;
}.

(** Entries with the same view own the same. *)
Lemma view_socks en en' : fd_view en = fd_view en' -> entry_socks en = entry_socks en' /\ (shape en <-> shape en').
Proof.
  unfold fd_view, entry_socks, entry_kind, pool_held, shape. intros [= -> -> -> -> ->]. done.
Qed.

Lemma same_owned g g' : same g g' -> owned g' = owned g.
Proof.
  intros [Hl Hv _]. unfold owned. f_equal.
  apply (list_eq_same_length _ _ _ eq_refl); [by rewrite !length_fmap|].
  intros i x y _ Hx Hy.
  apply list_lookup_fmap_Some in Hx as (en & -> & Hen), Hy as (en' & -> & Hen').
  specialize (Hv i). unfold entry_at in Hv.
  rewrite (list_lookup_total_correct _ _ _ Hen), (list_lookup_total_correct _ _ _ Hen') in Hv.
  by apply view_socks.
Qed.

(** A store to one entry exchanges what that entry owns. *)
Lemma owned_upd g i f :
  (i < length (s_table (fdt g)))%nat ->
  exists rest : list (Z * socket_kind), owned g ≡ₚ entry_socks (entry_at i g) ++ rest /\
    owned (upd_entry i f g) ≡ₚ entry_socks (f (entry_at i g)) ++ rest.
Proof.
  intros [en Hen]%lookup_lt_is_Some. unfold entry_at. rewrite (list_lookup_total_correct _ _ _ Hen).
  set (t := s_table (fdt g)) in *.
  exists (concat (entry_socks <$> take i t) ++ concat (entry_socks <$> drop (S i) t)).
  unfold owned. cbn [s_table fdt upd_entry upd_fdt set_fdt set_s_table]. fold t.
  rewrite (alter_as_insert _ _ _ _ Hen), insert_take_drop by (by eapply lookup_lt_Some).
  rewrite <- (take_drop_middle t i en Hen) at 1.
  rewrite !fmap_app, !concat_app, !fmap_cons. cbn [concat].
  split; [|by rewrite Permutation_app_swap_app].
  rewrite Permutation_app_swap_app. done.
Qed.

Lemma core_list_perm room g e L L' : L ≡ₚ L' -> core_list room g e L -> core_list room g e L'.
Proof.
  intros Hp [HM Hnd]. assert (NoDup L'.*1) by (by rewrite <- Hp). split; [|done].
  by rewrite <- (list_to_map_proper L L').
Qed.

#[export] Instance core_list_proper room g e : Proper (Permutation ==> iff) (core_list room g e).
Proof. intros L L' HL. split; by apply core_list_perm. Qed.

#[export] Instance own_proper room : Proper (Permutation ==> eq ==> eq ==> iff) (own room).
Proof. intros R R' HR g ? <- e ? <-. split; intros [Hl Hsh Hc Hn]; (split; [done..| |done]); by rewrite HR in *. Qed.

Lemma core_list_room room room' g e L : core_list room g e L -> room' <= room -> core_list room' g e L.
Proof. intros [HM Hnd] Hr. split; [by eapply core_is_room|done]. Qed.

(** A store that gives up [R] for [R']. *)
Lemma own_upd room R R' g e i f :
  own room R g e -> (i < MAX_FDS)%nat -> shape (f (entry_at i g)) ->
  entry_socks (f (entry_at i g)) ++ R' ≡ₚ entry_socks (entry_at i g) ++ R ->
  own room R' (upd_entry i f g) e.
Proof.
  intros [Hl Hsh Hc Hnif] Hi Hshape Hp. rewrite <- Hl in Hi.
  destruct (owned_upd g i f Hi) as (rest & Hg & Hg'). split.
  - cbn. by rewrite length_alter.
  - intros j. destruct (decide (j = i)) as [->|Hne]; [by rewrite entry_at_upd|by rewrite entry_at_upd_ne].
  - apply (core_list_perm _ _ _ (owned g ++ R)).
    + rewrite Hg, Hg', <- !app_assoc, !(Permutation_app_swap_app _ rest). f_equiv. by symmetry.
    + destruct Hc as [HM Hnd]. split; [|done]. by eapply core_is_state.
  - done.
Qed.

(** Quiet steps. *)
Lemma own_world room R g e : own room R g e -> world g room (list_to_map (owned g ++ R)) g e.
Proof. intros [_ _ [HM _] _]. split; [apply same_refl|done]. Qed.

Lemma own_same room R g e g' e' :
  own room R g e -> world g room (list_to_map (owned g ++ R)) g' e' -> own room R g' e'.
Proof.
  intros [Hl Hsh [HM Hnd] Hnif] [Hs HM']. split.
  - by rewrite (sm_len _ _ Hs).
  - intros i. eapply view_socks; [apply (sm_view _ _ Hs)|apply Hsh].
  - unfold core_list. by rewrite (same_owned _ _ Hs).
  - by rewrite (sm_nif _ _ Hs).
Qed.

Lemma wlp_quiet {A B} (Q : A -> Prop) room R (p : cprog A) (f : A -> cprog B) g e P :
  own room R g e -> keeps ext (world g room (list_to_map (owned g ++ R))) Q p ->
  (forall a g' e', own room R g' e' -> same g g' -> Q a -> wlp ext (f a) g' e' P) ->
  wlp ext (p ≫= f) g e P.
Proof.
  intros Ho Hp Hf. eapply wlp_keeps; [exact Hp|by apply own_world|].
  intros a g' e' Hw Ha. apply Hf; [by eapply own_same|apply Hw|done].
Qed.

(** The core calls made on a descriptor's sockets are on sockets of the right
    type. *)
Lemma sock_ok_held room g e L k s :
  core_list room g e L -> (forall x, x ∈ held k s -> x ∈ L) -> sock_ok (list_to_map L) k s.
Proof.
  intros [HM Hnd] Hin k' Hk'. unfold held in Hin. destruct (net_sock_valid s) eqn:Hv.
  - assert (Hx : (s, k) ∈ L) by (apply Hin; by left).
    apply (elem_of_list_to_map_1 _ _ _ Hnd) in Hx.
    assert (norm s = s) as Hs by (apply (ci_dom _ _ _ _ HM); eauto). rewrite Hs in Hk'. by simplify_eq.
  - unfold net_sock_valid in Hv. apply negb_false_iff, Z.eqb_eq in Hv as ->.
    destruct (ci_dom _ _ _ _ HM (norm 0)) as (_ & _ & Hne); [eauto|]. by cbn in Hne.
Qed.

Lemma entry_socks_owned g i x : x ∈ entry_socks (entry_at i g) -> x ∈ owned g.
Proof.
  unfold entry_at. rewrite list_lookup_total_alt.
  destruct (s_table (fdt g) !! i) as [en|] eqn:Hen; cbn;
    [|change (entry_socks inhabitant) with (@nil (Z * socket_kind)); by intros ?%elem_of_nil].
  intros Hx. apply (elem_of_concat x (entry_socks en) _ i); [by rewrite list_lookup_fmap, Hen|done].
Qed.

Lemma own_sock room R g e i :
  own room R g e -> kind (entry_at i g) <> FD_FREE ->
  sock_ok (list_to_map (owned g ++ R)) (entry_kind (entry_at i g)) (sock (entry_at i g)).
Proof.
  intros [_ _ Hc _] Hk. eapply sock_ok_held; [done|]. intros x Hx. apply elem_of_app. left.
  apply (entry_socks_owned g i). unfold entry_socks. rewrite bool_decide_eq_false_2 by done.
  apply elem_of_app. by left.
Qed.

Lemma own_pool room R g e i j :
  own room R g e -> kind (entry_at i g) = FD_TCP_LISTEN -> (j < pool_len (entry_at i g))%nat ->
  sock_ok (list_to_map (owned g ++ R)) KTcp (pool_socks (entry_at i g) !!! j).
Proof.
  intros [_ Hsh Hc _] Hk Hj. specialize (Hsh i). unfold shape in Hsh. rewrite Hk in Hsh.
  destruct Hsh as [Hp Hlen]. rewrite Hlen in Hj. apply lookup_lt_is_Some in Hj as [s Hs].
  rewrite (list_lookup_total_correct _ _ _ Hs).
  eapply sock_ok_held; [done|]. intros x Hx. apply elem_of_app. left.
  apply (entry_socks_owned g i). unfold entry_socks. rewrite Hk. cbn [bool_decide decide].
  apply elem_of_app. right. unfold pool_held. rewrite Hp. apply list_elem_of_bind. exists s.
  split; [done|]. by eapply list_elem_of_lookup_2.
Qed.

(** A locked call that changes the core's sockets. *)
Lemma wlp_locked {X} (c : core_call X) room g e M (P : X -> E -> Prop) :
  core_is room g e M ->
  (forall e1, core_is room g e1 M -> P (ext _ (Core c) e1).1 (ext _ (Core c) e1).2) ->
  (forall x e1, P x e1 -> P x (ext _ (Rtos (XSemaphoreGive M_smoltcp)) e1).2) ->
  wlp ext (locked c) g e (fun x g' e' => g' = g /\ P x e').
Proof.
  intros HM Hc Hgive. unfold locked, SMOLTCP_LOCK, SMOLTCP_UNLOCK.
  apply wlp_call, wlp_call, wlp_call, wlp_ret. split; [done|]. apply Hgive, Hc.
  by apply core_is_other.
Qed.

Lemma core_list_other room g e L {X} (c : ccall X) :
  is_core c = false -> core_list room g e L -> core_list room g (ext _ c e).2 L.
Proof. intros Hc [HM Hnd]. split; [by apply core_is_other|done]. Qed.

(** What opening answers, as a resource. *)
Lemma core_list_open room g e e' L i n m k :
  core_list room g e L -> 1 <= room -> handle_of i g <> NULL ->
  core_socks e (handle_of i g) = Some (n, m) -> core_inv e' ->
  (forall h, core_socks e' h =
     if decide (h = handle_of i g) then Some (n + 1, <[n := k]> m) else core_socks e h) ->
  core_list (room - 1) g e' (held k (pack_sock i n) ++ L).
Proof.
  intros [HM Hnd] Hr Hi Hs Hinv Hs'.
  destruct (core_is_insert _ _ _ _ _ _ _ _ _ HM Hr Hi Hs Hinv Hs') as (HM' & Hnew & Hv).
  unfold held. rewrite Hv. split; [done|]. cbn. constructor; [|done].
  by apply not_elem_of_list_to_map_2.
Qed.

Lemma wlp_tcp_open room g e L i :
  core_list room g e L -> 1 <= room ->
  wlp ext (net_tcp_open i) g e (fun s g' e' => g' = g /\ core_list (room - 1) g e' (held KTcp s ++ L)).
Proof.
  intros Hc Hr. unfold net_tcp_open. apply wlp_bind, wlp_wp, wp_handle_for.
  case_match eqn:Hh; [apply wlp_ret; split; [done|]; cbn; apply (core_list_room room); [done|lia]|].
  assert (Hi : handle_of i g <> NULL) by (by intros Hn; rewrite Hn in Hh).
  apply wlp_bind. eapply wlp_mono.
  - eapply (wlp_locked _ room g e _ (fun x e' => x <> 0 /\
      core_list (room - 1) g e' (held KTcp (pack_sock i x) ++ L))); [apply (proj1 Hc)| |].
    + intros e1 HM. destruct (ci_at _ _ _ _ HM i Hi) as (n & m & Hs & Hn & Hroom & _).
      destruct (cs_open_tcp _ _ _ _ Hi (ci_inv _ _ _ _ HM) Hs) as (Hinv & Hx & Hs'); [lia|].
      rewrite Hx. split; [lia|]. apply (core_list_open room g e1 _ L i n m); try done. by split; [|apply (proj2 Hc)].
    + intros x e1 [Hx Hl]. split; [done|]. by apply core_list_other.
  - cbn beta. intros x g' e' (-> & Hx & Hl). apply wlp_ret. by rewrite (proj2 (Z.eqb_neq x 0)).
Qed.

Lemma wlp_udp_open room g e L i p :
  core_list room g e L -> 1 <= room ->
  wlp ext (net_udp_open i p) g e (fun s g' e' => g' = g /\ core_list (room - 1) g e' (held KUdp s ++ L)).
Proof.
  intros Hc Hr. unfold net_udp_open. apply wlp_bind, wlp_wp, wp_handle_for.
  case_match eqn:Hh; [apply wlp_ret; split; [done|]; cbn; apply (core_list_room room); [done|lia]|].
  assert (Hi : handle_of i g <> NULL) by (by intros Hn; rewrite Hn in Hh).
  apply wlp_bind. eapply wlp_mono.
  - eapply (wlp_locked _ room g e _ (fun x e' =>
      core_list (room - 1) g e' (held KUdp (if x =? 0 then NET_SOCK_INVALID else pack_sock i x) ++ L)));
      [apply (proj1 Hc)| |].
    + intros e1 HM. destruct (ci_at _ _ _ _ HM i Hi) as (n & m & Hs & Hn & Hroom & _).
      destruct (cs_open_udp _ p _ _ _ Hi (ci_inv _ _ _ _ HM) Hs) as (Hinv & [(Hx & Hs')|(Hx & Hs')]); [lia| |].
      * rewrite Hx, (proj2 (Z.eqb_neq n 0)) by lia. apply (core_list_open room g e1 _ L i n m); try done. by split; [|apply (proj2 Hc)].
      * rewrite Hx. cbn. apply (core_list_room room); [|lia]. split; [by eapply core_is_env|apply (proj2 Hc)].
    + intros x e1 Hl. by apply core_list_other.
  - cbn beta. intros x g' e' (-> & Hl). by apply wlp_ret.
Qed.

(** Closing gives the resource back. *)
Lemma core_list_close room g e L k s c :
  core_list room g e ((s, k) :: L) ->
  c = Smoltcp_tcp_close (handle_of (IFACE s) g) (LOCAL s) /\ k = KTcp \/
  c = Smoltcp_udp_close (handle_of (IFACE s) g) (LOCAL s) /\ k = KUdp ->
  core_list room g (ext _ (Core c) e).2 L.
Proof.
  intros [HM Hnd] Hc. cbn in HM, Hnd. apply NoDup_cons in Hnd as [Hs Hnd].
  assert (Hsome : (<[s := k]> (list_to_map L) : gmap Z socket_kind) !! s = Some k) by apply lookup_insert_eq.
  destruct (ci_dom _ _ _ _ HM s) as (Hh & Hn & _); [by rewrite Hsome|].
  destruct (core_is_kind _ _ _ _ s k HM Hh) as (n & m & Hcs & Hk).
  { intros k'. rewrite Hn, Hsome. by intros [= <-]. }
  destruct (cs_close k c _ _ e n m Hh Hc (ci_inv _ _ _ _ HM) Hcs Hk) as [Hinv Hs'].
  split; [|done]. rewrite <- (delete_insert_id (list_to_map L) s k); [|by apply not_elem_of_list_to_map_1].
  rewrite <- Hn at 1. by eapply core_is_delete.
Qed.

Lemma wlp_tcp_close room g e L s :
  core_list room g e ((s, KTcp) :: L) ->
  wlp ext (net_tcp_close s) g e (fun _ g' e' => g' = g /\ core_list room g e' L).
Proof.
  intros Hc. unfold net_tcp_close, locked, SMOLTCP_LOCK, SMOLTCP_UNLOCK.
  apply wlp_bind, wlp_wp, wp_handle_for. case_match eqn:Hh.
  - destruct Hc as [HM _]. destruct (ci_dom _ _ _ _ HM s) as (Hn & _).
    { cbn. by rewrite lookup_insert_eq. }
    by destruct Hn; apply Z.eqb_eq.
  - apply wlp_bind, wlp_call, wlp_call, wlp_call, wlp_ret, wlp_ret. split; [done|].
    apply core_list_other; [done|]. eapply core_list_close; [by apply core_list_other|by left].
Qed.

Lemma wlp_udp_close room g e L s :
  core_list room g e ((s, KUdp) :: L) ->
  wlp ext (net_udp_close s) g e (fun _ g' e' => g' = g /\ core_list room g e' L).
Proof.
  intros Hc. unfold net_udp_close, locked, SMOLTCP_LOCK, SMOLTCP_UNLOCK.
  apply wlp_bind, wlp_wp, wp_handle_for. case_match eqn:Hh.
  - destruct Hc as [HM _]. destruct (ci_dom _ _ _ _ HM s) as (Hn & _).
    { cbn. by rewrite lookup_insert_eq. }
    by destruct Hn; apply Z.eqb_eq.
  - apply wlp_bind, wlp_call, wlp_call, wlp_call, wlp_ret, wlp_ret. split; [done|].
    apply core_list_other; [done|]. eapply core_list_close; [by apply core_list_other|by right].
Qed.
End own.

(** ** The calls that only use sockets *)

Section users.
Context `{cfg : Config} {E : Type} `{!Platform E, !SocketConsts, !CoreSockets E}.
Context (g0 : globals) (room : Z) (M : gmap Z socket_kind).
Hypothesis Hsock : forall i, kind (entry_at i g0) <> FD_FREE ->
  sock_ok M (entry_kind (entry_at i g0)) (sock (entry_at i g0)).
Hypothesis Hpool : forall i j, kind (entry_at i g0) = FD_TCP_LISTEN -> (j < pool_len (entry_at i g0))%nat ->
  sock_ok M KTcp (pool_socks (entry_at i g0) !!! j).
Abbreviation quiet := (keeps ext (world (E := E) g0 room M) (fun _ => True)).
Implicit Types (g : globals) (e : E).

(** The fields of an entry that do not change. *)
Lemma world_view g e i :
  world g0 room M g e ->
  kind (entry_at i g) = kind (entry_at i g0) /\ sock (entry_at i g) = sock (entry_at i g0) /\
  pool_socks (entry_at i g) = pool_socks (entry_at i g0) /\ pool_len (entry_at i g) = pool_len (entry_at i g0).
Proof. intros [Hs _]. pose proof (sm_view _ _ Hs i) as Hv. unfold fd_view in Hv. by simplify_eq. Qed.

Lemma world_tcp g e i : world g0 room M g e -> kind (entry_at i g) = FD_TCP -> sock_ok M KTcp (sock (entry_at i g)).
Proof.
  intros Hw Hk. destruct (world_view g e i Hw) as (Hk' & -> & _). rewrite Hk' in Hk.
  pose proof (Hsock i) as Hok. unfold entry_kind in Hok. rewrite Hk in Hok. by apply Hok.
Qed.

Lemma world_udp g e i : world g0 room M g e -> kind (entry_at i g) = FD_UDP -> sock_ok M KUdp (sock (entry_at i g)).
Proof.
  intros Hw Hk. destruct (world_view g e i Hw) as (Hk' & -> & _). rewrite Hk' in Hk.
  pose proof (Hsock i) as Hok. unfold entry_kind in Hok. rewrite Hk in Hok. by apply Hok.
Qed.

#[local] Hint Resolve world_tcp world_udp : keeps.

Lemma quiet_send fuel fd buf : quiet (wrap_send fuel fd buf).
Proof. unfold wrap_send, fd_get. keeps_auto. Qed.

Lemma quiet_recv fuel fd len : quiet (wrap_recv fuel fd len).
Proof. unfold wrap_recv, fd_get. keeps_auto. Qed.

Lemma tested_kind (P : Prop) `{!Decision P} : negb (bool_decide P) = false -> P.
Proof. by case_bool_decide. Qed.

#[local] Hint Extern 2 (kind _ = _) =>
  match goal with
  | H : negb (bool_decide (kind _ = _)) = false |- _ => apply (tested_kind _ H)
  | H : bool_decide (kind _ = _) = true |- _ => apply (bool_decide_eq_true_1 _ H)
  end : keeps.

Lemma quiet_sendto fd buf to n : quiet (wrap_sendto fd buf to n).
Proof. unfold wrap_sendto, fd_get. keeps_auto. Qed.

Lemma quiet_recvfrom fuel fd len n : quiet (wrap_recvfrom fuel fd len n).
Proof. unfold wrap_recvfrom, fd_get. keeps_auto. Qed.

Lemma quiet_setsockopt fd level name v n : quiet (wrap_setsockopt fd level name v n).
Proof.
  pose proof (quiet_mcast (E := E) g0 room M) as Hm. unfold wrap_setsockopt, fd_get.
  keeps_auto; apply Hm.
Qed.

Lemma quiet_getsockopt fd level name n : quiet (wrap_getsockopt fd level name n).
Proof. unfold wrap_getsockopt, fd_get. keeps_auto. Qed.

Lemma quiet_getsockname fd n : quiet (wrap_getsockname fd n).
Proof. unfold wrap_getsockname, fd_get. keeps_auto. Qed.

Lemma quiet_fcntl fd cmd arg : quiet (wrap_fcntl fd cmd arg).
Proof. unfold wrap_fcntl, fd_get. keeps_auto. Qed.

Lemma quiet_ioctl fd cmd arg : quiet (wrap_ioctl fd cmd arg).
Proof. unfold wrap_ioctl, fd_get. keeps_auto. Qed.

#[local] Hint Resolve quiet_send quiet_recv : keeps.

Lemma quiet_read fuel fd len : quiet (wrap_read fuel fd len).
Proof. unfold wrap_read, fd_is_socket. keeps_auto. Qed.

Lemma quiet_write fuel fd buf : quiet (wrap_write fuel fd buf).
Proof. unfold wrap_write, fd_is_socket. keeps_auto. Qed.

(** The pool of a listener is scanned within its length. *)
Lemma quiet_any_connected i js :
  kind (entry_at i g0) = FD_TCP_LISTEN -> Forall (fun j => (j < pool_len (entry_at i g0))%nat) js ->
  quiet (any_connected i js).
Proof.
  intros Hk. induction 1 as [|j js Hj _ IH]; cbn [any_connected]; [keeps_auto|].
  apply keeps_gets. intros g e Hw. destruct (world_view g e i Hw) as (_ & _ & -> & _).
  apply keeps_after; [apply quiet_is_connected; auto|]. keeps_auto.
Qed.

Lemma quiet_readable fuel i : quiet (fd_readable fuel i).
Proof.
  unfold fd_readable. apply keeps_gets. intros g e Hw. case_match eqn:Hk.
  - apply bool_decide_eq_true_1 in Hk. destruct (world_view g e i Hw) as (Hk' & _ & _ & ->).
    apply quiet_any_connected; [by rewrite <- Hk'|]. apply Forall_forall. intros j. rewrite elem_of_seq. lia.
  - keeps_auto.
Qed.

Lemma quiet_writable i : quiet (fd_writable i).
Proof. unfold fd_writable. keeps_auto. Qed.

#[local] Hint Resolve quiet_readable quiet_writable : keeps.

Lemma quiet_select_scan fuel fds rd wr acc : quiet (select_scan fuel fds rd wr acc).
Proof.
  revert acc. induction fds as [|fd fds IH]; intros acc; cbn [select_scan]; [keeps_auto|].
  unfold fd_is_socket, fd_get, when_set. keeps_auto.
Qed.

#[local] Hint Resolve quiet_select_scan : keeps.

Lemma quiet_select_loop fuel nfds rd wr d : quiet (select_loop fuel nfds rd wr d).
Proof. induction fuel as [|fuel IH]; cbn [select_loop]; keeps_auto. Qed.

#[local] Hint Resolve quiet_select_loop : keeps.

Lemma quiet_select fuel nfds rd wr to : quiet (wrap_select fuel nfds rd wr to).
Proof. unfold wrap_select. keeps_auto. Qed.

#[local] Hint Resolve quiet_select : keeps.

Lemma quiet_poll fuel fds ms : quiet (wrap_poll fuel fds ms).
Proof. unfold wrap_poll. keeps_auto. Qed.
End users.
