(* ===== verification/OwnCalls.v ===== *)
(** * The BSD calls keep the ownership of sockets

    [own] of [Ownership] is kept by every wrapper of [SockWrap] and [SelectWrap]:
    those that open, hand over and close core sockets here, one after the other,
    the others because they are quiet. *)

From S2P Require Import Prelude Prog Types Platform Sim NetStack NetSock Loopback FdTable SockWrap SelectWrap.
From S2P Require Import Core CoreSpec Ownership.

#[local] Open Scope list_scope.

Section calls.
Context `{cfg : Config} {E : Type} `{!Platform E, !SocketConsts, !CoreSockets E}.
Implicit Types (g : globals) (e : E) (L R : list (Z * socket_kind)).

(** ** Allocation *)

(** Only entry [i] has changed, as far as ownership sees. *)
Record but_entry (i : nat) g g' : Prop := {
  oe_view j : j <> i -> fd_view (entry_at j g') = fd_view (entry_at j g);
  oe_len : length (s_table (fdt g')) = length (s_table (fdt g));
  oe_route j : route_of (iface_at j g') = route_of (iface_at j g);
}.

Lemma but_entry_upd i f g : but_entry i g (upd_entry i f g).
Proof. split; [|cbn; by rewrite length_alter|done]. intros j Hj. by rewrite entry_at_upd_ne. Qed.

Lemma but_entry_same i g g' g'' : but_entry i g g' -> same g' g'' -> but_entry i g g''.
Proof.
  intros [Hv Hl Hi] Hs. split.
  - intros j Hj. rewrite (sm_view _ _ Hs). by apply Hv.
  - by rewrite (sm_len _ _ Hs).
  - intros j. by rewrite (sm_route _ _ Hs).
Qed.

Lemma same_but_entry i g g' g'' : same g g' -> but_entry i g' g'' -> but_entry i g g''.
Proof.
  intros Hs [Hv Hl Hi]. split.
  - intros j Hj. rewrite Hv by done. apply (sm_view _ _ Hs).
  - by rewrite Hl, (sm_len _ _ Hs).
  - intros j. by rewrite Hi, (sm_route _ _ Hs).
Qed.

(** What a new descriptor's entry is. *)
Definition new_view (k : fd_kind) (en : fd_entry) : Prop :=
  kind en = k /\ sock en = NET_SOCK_INVALID /\ is_null (pool en) = true.

Definition allocated (k : fd_kind) (fd : Z) g g' : Prop :=
  fd = -1 /\ same g g' \/
  exists i, (i < MAX_FDS)%nat /\ fd = fd_offset + Z.of_nat i /\ kind (entry_at i g) = FD_FREE /\
    new_view k (entry_at i g') /\ but_entry i g g'.

(** The last step of a program that is quiet from here on. *)
Lemma wlp_quiet_end {A} (Q : A -> Prop) room R (p : cprog A) g e (P : A -> globals -> E -> Prop) :
  own room R g e -> keeps ext (world g room (list_to_map (owned g ++ R))) Q p ->
  (forall a g' e', own room R g' e' -> same g g' -> Q a -> P a g' e') -> wlp ext p g e P.
Proof.
  intros Ho Hp Hf. eapply wlp_mono; [by apply Hp, own_world|]. intros a g' e' [Hw Ha].
  apply Hf; [by eapply own_same|apply Hw|done].
Qed.

Lemma wlp_fd_alloc room R g e k :
  own room R g e -> k = FD_TCP \/ k = FD_UDP ->
  wlp ext (fd_alloc k) g e (fun fd g' e' => own room R g' e' /\ allocated k fd g g').
Proof.
  intros Ho Hk. unfold fd_alloc. apply wlp_gets.
  eapply (wlp_quiet (fun _ => True)); [done|keeps_auto|]. intros _ g1 e1 Ho1 Hs1 _.
  eapply (wlp_quiet (fun _ => True)); [done|keeps_auto|]. intros _ g2 e2 Ho2 Hs2 _.
  apply wlp_gets. change (fst <$> list_find _ _) with (first_free g2).
  pose proof (same_trans _ _ _ Hs1 Hs2) as Hs12.
  destruct (first_free g2) as [i|] eqn:Hf.
  2:{ eapply (wlp_quiet_end (fun r => r = -1)); [done| |].
      - eapply keeps_bind; [by apply keeps_other|]. intros ? _. by apply keeps_ret.
      - intros a g' e' Ho' Hs' ->. split; [done|]. left. split; [done|]. by apply (same_trans _ g2). }
  apply first_free_spec in Hf as (Hfree & Hi & _). pose proof Hi as Hi'. rewrite (own_len _ _ _ _ Ho2) in Hi'.
  apply wlp_modify, wlp_modify, wlp_modify. rewrite !upd_entry_upd.
  set (f := fun en => set_sock NET_SOCK_INVALID (set_kind k (clear_entry en))).
  assert (Ho3 : own room R (upd_entry i f g2) e2).
  { apply (own_upd room R); [done|done| |].
    - by destruct Hk as [-> | ->].
    - unfold entry_socks at 2. rewrite Hfree. by destruct Hk as [-> | ->]. }
  eapply (wlp_quiet_end (fun r => r = fd_offset + Z.of_nat i)); [exact Ho3| |].
  - apply keeps_after; [keeps_auto|intros id]. apply keeps_after; [keeps_auto|intros _].
    apply keeps_gets. intros ? ? _. apply keeps_after; [keeps_auto|intros _].
    apply keeps_after; [keeps_auto|intros _]. by apply keeps_ret.
  - intros fd g' e' Ho' Hs' ->. split; [done|]. right. exists i. split; [done|]. split; [done|].
    pose proof (sm_view _ _ Hs12 i) as Hv12. pose proof (sm_view _ _ Hs' i) as Hv'.
    rewrite entry_at_upd in Hv' by done. unfold fd_view in Hv12, Hv'.
    split; [congruence|]. split.
    + unfold new_view, f in *. injection Hv' as -> -> -> _ _. done.
    + eapply same_but_entry; [done|]. eapply but_entry_same; [|done]. apply but_entry_upd.
Qed.

(** ** Opening and closing *)

Lemma own_in_hand room room' R R' g e e' :
  own room R g e -> core_list room' g e' (R' ++ owned g ++ R) -> own room' (R' ++ R) g e'.
Proof.
  intros [Hl Hsh _ Hnif] Hc. split; [done..| |done]. eapply core_list_perm; [|done].
  by rewrite Permutation_app_swap_app.
Qed.

Lemma own_tcp_open room R g e i :
  own room R g e -> 1 <= room ->
  wlp ext (net_tcp_open i) g e (fun s g' e' => g' = g /\ own (room - 1) (held KTcp s ++ R) g e').
Proof.
  intros Ho Hr. eapply wlp_mono; [by apply wlp_tcp_open, Hr; apply Ho|].
  intros s g' e' [-> Hc]. split; [done|]. by eapply own_in_hand.
Qed.

Lemma own_udp_open room R g e i p :
  own room R g e -> 1 <= room ->
  wlp ext (net_udp_open i p) g e (fun s g' e' => g' = g /\ own (room - 1) (held KUdp s ++ R) g e').
Proof.
  intros Ho Hr. eapply wlp_mono; [by apply wlp_udp_open, Hr; apply Ho|].
  intros s g' e' [-> Hc]. split; [done|]. by eapply own_in_hand.
Qed.

(** [fd_free]: the descriptor's own socket. *)
Lemma wlp_close_sock room g e i L :
  core_list room g e (held (entry_kind (entry_at i g)) (sock (entry_at i g)) ++ L) ->
  wlp ext (close_sock i) g e (fun _ g' e' => g' = g /\ core_list room g e' L).
Proof.
  intros Hc. unfold close_sock. apply wlp_gets. unfold held in Hc.
  destruct (net_sock_valid (sock (entry_at i g))); cbn [negb]; [|by apply wlp_ret].
  unfold entry_kind in Hc. destruct (bool_decide (kind (entry_at i g) = FD_UDP)); apply wlp_bind;
    (eapply wlp_mono; [by first [apply wlp_udp_close|apply wlp_tcp_close]|]);
    intros r g' e' [-> Hc']; by apply wlp_ret.
Qed.

(** Its pool. *)
Lemma wlp_close_slots room g e i L js :
  core_list room g e ((js ≫= fun j => held KTcp (pool_socks (entry_at i g) !!! j)) ++ L) ->
  wlp ext (for_each js (fun j =>
      s ← gets (fun g => pool_socks (entry_at i g) !!! j);
      if net_sock_valid s then net_tcp_close s;; mret tt else mret tt)) g e
    (fun _ g' e' => g' = g /\ core_list room g e' L).
Proof.
  revert e. induction js as [|j js IH]; intros e Hc; cbn [for_each]; [by apply wlp_ret|].
  cbn in Hc. rewrite <- app_assoc in Hc. apply wlp_bind, wlp_gets. unfold held at 1 in Hc.
  destruct (net_sock_valid (pool_socks (entry_at i g) !!! j)).
  - apply wlp_bind. eapply wlp_mono; [by apply wlp_tcp_close|].
    intros r g' e' [-> Hc']. apply wlp_ret. by apply IH.
  - apply wlp_ret. by apply IH.
Qed.

Lemma seq_total {A} `{!Inhabited A} (l : list A) : (fun j => l !!! j) <$> seq 0 (length l) = l.
Proof.
  induction l as [|x l IH]; [done|]. cbn [length seq]. rewrite fmap_cons. f_equal.
  rewrite <- fmap_S_seq, <- list_fmap_compose. exact IH.
Qed.

Lemma wlp_close_pool room g e i L :
  shape (entry_at i g) -> kind (entry_at i g) <> FD_FREE ->
  core_list room g e (pool_held (entry_at i g) ++ L) ->
  wlp ext (close_pool i) g e (fun _ g' e' => g' = g /\ core_list room g e' L).
Proof.
  intros Hsh Hk Hc. unfold close_pool. apply wlp_gets. unfold pool_held in Hc. unfold shape in Hsh.
  destruct (is_null (pool (entry_at i g))) eqn:Hp; [by apply wlp_ret|].
  assert (Hlen : pool_len (entry_at i g) = length (pool_socks (entry_at i g))).
  { destruct (kind (entry_at i g)); try done. apply Hsh. }
  apply wlp_gets. rewrite Hlen. apply wlp_bind. eapply wlp_mono; [apply wlp_close_slots|].
  - rewrite <- (seq_total (pool_socks (entry_at i g))) in Hc at 1.
    by rewrite list_fmap_bind in Hc.
  - intros _ g' e' [-> Hc']. intros a g2 e2 Hr. cbn in Hr. simplify_eq. split; [done|].
    by apply core_list_other.
Qed.

Lemma wlp_fd_free room R g e fuel fd :
  own room R g e -> wlp ext (fd_free fuel fd) g e (fun _ g' e' => own room R g' e').
Proof.
  intros Ho. unfold fd_free, fd_get. apply wlp_gets.
  destruct (fd_entry_of fd g) as [i|] eqn:Hfd; [|by apply wlp_ret].
  apply fd_entry_of_some in Hfd as (_ & Hi & Hk).
  eapply (wlp_quiet (fun _ => True)); [done|keeps_auto|]. intros _ g1 e1 Ho1 Hs1 _.
  eapply (wlp_quiet (fun _ => True)); [done|keeps_auto|]. intros _ g2 e2 Ho2 Hs2 _.
  pose proof (same_trans _ _ _ Hs1 Hs2) as Hs.
  assert (Hk2 : kind (entry_at i g2) <> FD_FREE).
  { pose proof (sm_view _ _ Hs i) as Hv. unfold fd_view in Hv. by injection Hv as -> _ _ _ _. }
  pose proof Ho2 as [Hlen Hsh Hc Hnif].
  destruct (owned_upd g2 i (set_kind FD_FREE)) as (rest & Hown & Hown'); [by rewrite Hlen|].
  cbn [entry_socks kind set_kind bool_decide decide] in Hown'. unfold entry_socks at 1 in Hown.
  rewrite bool_decide_eq_false_2 in Hown by done.
  apply wlp_bind. eapply wlp_mono; [eapply (wlp_close_sock _ _ _ i (pool_held (entry_at i g2) ++ rest ++ R))|].
  { eapply core_list_perm; [|done]. rewrite Hown. by rewrite <- !app_assoc. }
  intros [] g' e' [-> Hc']. apply wlp_bind. eapply wlp_mono; [by eapply wlp_close_pool|].
  intros [] g' e'' [-> Hc'']. apply wlp_modify.
  eapply (wlp_quiet_end (fun _ => True) room R); [|by apply keeps_other|done].
  split; [cbn; by rewrite length_alter| | |done].
  - intros j. destruct (decide (j = i)) as [->|Hne]; [by rewrite entry_at_upd by (by rewrite Hlen)|by rewrite entry_at_upd_ne].
  - eapply core_list_perm; [by rewrite Hown'|]. destruct Hc'' as [HM Hnd]. split; [|done]. by eapply core_is_state.
Qed.

(** ** The calls that open, hand over and close sockets *)

(** Entry [i] is of kind [k]; [f] stores a socket there. The one it held is now
    nobody's. *)
Lemma own_swap_view room R g e i k s f :
  let kd := if bool_decide (k = FD_UDP) then KUdp else KTcp in
  own room (held kd s ++ R) g e -> (i < MAX_FDS)%nat -> kind (entry_at i g) = k -> k <> FD_FREE ->
  fd_view (f (entry_at i g)) = fd_view (set_sock s (entry_at i g)) ->
  own room (held kd (sock (entry_at i g)) ++ R) (upd_entry i f g) e.
Proof.
  intros kd Ho Hi Hk Hfree Hview. destruct (view_socks _ _ Hview) as [Hes Hsh]. eapply own_upd; [done..| |].
  - rewrite Hsh. apply (own_shape _ _ _ _ Ho i).
  - rewrite Hes. unfold entry_socks. cbn [kind set_sock sock]. rewrite !bool_decide_eq_false_2 by congruence.
    unfold entry_kind. cbn [kind set_sock]. rewrite Hk. fold kd.
    change (pool_held (set_sock s (entry_at i g))) with (pool_held (entry_at i g)).
    set (P := pool_held _). set (new := held kd s). set (old := held kd _). rewrite <- !app_assoc.
    rewrite (Permutation_app_swap_app P old), (Permutation_app_swap_app new old). f_equiv.
    by rewrite (Permutation_app_swap_app P new).
Qed.

(** The case of an entry without one. *)
Lemma own_store_view room R g e i k s f :
  own room (held (if bool_decide (k = FD_UDP) then KUdp else KTcp) s ++ R) g e -> (i < MAX_FDS)%nat ->
  kind (entry_at i g) = k -> k <> FD_FREE -> net_sock_valid (sock (entry_at i g)) = false ->
  fd_view (f (entry_at i g)) = fd_view (set_sock s (entry_at i g)) ->
  own room R (upd_entry i f g) e.
Proof.
  intros Ho Hi Hk Hfree Hv Hview. pose proof (own_swap_view _ _ _ _ _ _ _ _ Ho Hi Hk Hfree Hview) as Ho'.
  unfold held in Ho' at 1. by rewrite Hv in Ho'.
Qed.

Lemma own_store room R g e i k s :
  own room (held (if bool_decide (k = FD_UDP) then KUdp else KTcp) s ++ R) g e -> (i < MAX_FDS)%nat ->
  kind (entry_at i g) = k -> k <> FD_FREE -> net_sock_valid (sock (entry_at i g)) = false ->
  own room R (upd_entry i (set_sock s) g) e.
Proof. intros. by eapply own_store_view. Qed.

(** Exchanging the socket in slot [j] of a pool. *)
Lemma held_insert l j c s :
  l !! j = Some c -> (<[j := s]> l ≫= held KTcp) ++ held KTcp c ≡ₚ (l ≫= held KTcp) ++ held KTcp s.
Proof.
  intros Hj. rewrite insert_take_drop by (by eapply lookup_lt_Some).
  rewrite <- (take_drop_middle l j c Hj) at 3. rewrite !bind_app, !bind_cons.
  set (a := take j l ≫= held KTcp). set (b := drop (S j) l ≫= held KTcp).
  rewrite <- !app_assoc. f_equiv. rewrite (Permutation_app_comm b (held KTcp c)).
  rewrite (Permutation_app_comm b (held KTcp s)), Permutation_app_swap_app. done.
Qed.

Lemma own_slot room R g e i j c s :
  own room (held KTcp s ++ R) g e -> (i < MAX_FDS)%nat -> kind (entry_at i g) = FD_TCP_LISTEN ->
  pool_socks (entry_at i g) !! j = Some c ->
  own room (held KTcp c ++ R) (set_pool_at i j s g) e.
Proof.
  intros Ho Hi Hk Hj. pose proof (own_shape _ _ _ _ Ho i) as Hsh. unfold shape in Hsh. rewrite Hk in Hsh.
  destruct Hsh as [Hp Hlen]. eapply own_upd; [done..| |].
  - unfold shape. cbn. rewrite Hk, length_insert. done.
  - unfold entry_socks, entry_kind, pool_held. cbn [kind set_pool_socks pool sock pool_socks].
    rewrite Hk, Hp, !bool_decide_eq_false_2 by done. rewrite <- !app_assoc. f_equiv.
    rewrite !app_assoc. f_equiv. by apply held_insert.
Qed.

Lemma quiet_end room R g e {A} (p : cprog A) :
  own room R g e -> keeps ext (world g room (list_to_map (owned g ++ R))) (fun _ => True) p ->
  wlp ext p g e (fun _ g' e' => own room R g' e').
Proof. intros Ho Hp. by eapply (wlp_quiet_end (fun _ => True)). Qed.

Lemma own_room room room' R g e : own room R g e -> room' <= room -> own room' R g e.
Proof. intros [Hl Hsh Hc Hnif] Hr. split; [done..| |done]. by eapply core_list_room. Qed.

Lemma allocated_index k fd g g' :
  allocated k fd g g' -> (fd <? 0) = false ->
  exists i, fd_index fd = i /\ (i < MAX_FDS)%nat /\ kind (entry_at i g) = FD_FREE /\
    new_view k (entry_at i g') /\ but_entry i g g'.
Proof.
  intros [[-> _]|(i & Hi & -> & Hrest)] Hfd; [done|]. exists i. split; [apply fd_index_off|done].
Qed.

Lemma wlp_socket room R g e fuel domain type :
  own room R g e -> 1 <= room ->
  wlp ext (wrap_socket fuel domain type) g e (fun _ g' e' => own (room - 1) R g' e').
Proof.
  intros Ho Hr. assert (Hlow : own (room - 1) R g e) by (apply (own_room room); [done|lia]).
  unfold wrap_socket. case_match; [apply quiet_end; [done|keeps_auto]|].
  set (ok := if Z.land type 255 =? SOCK_STREAM then Some FD_TCP
            else if Z.land type 255 =? SOCK_DGRAM then Some FD_UDP else None).
  assert (Hkind : forall k, ok = Some k -> k = FD_TCP \/ k = FD_UDP)
    by (unfold ok; intros k; repeat case_match; intros [= <-]; auto).
  destruct ok as [k|]; [|apply quiet_end; [done|keeps_auto]]. specialize (Hkind k eq_refl).
  apply wlp_bind. eapply wlp_mono; [by apply (wlp_fd_alloc room R)|]. intros fd g1 e1 [Ho1 Hal].
  assert (Hlow1 : own (room - 1) R g1 e1) by (apply (own_room room); [done|lia]).
  destruct (fd <? 0) eqn:Hfd; [apply quiet_end; [done|keeps_auto]|].
  destruct (allocated_index _ _ _ _ Hal Hfd) as (i & -> & Hi & _ & (Hki & Hs0 & _) & _).
  eapply (wlp_quiet (fun _ => True)); [exact Ho1|keeps_auto|]. intros _ g2 e2 Ho2 Hs2 _.
  case_bool_decide as Hu; [|apply wlp_ret; apply (own_room room); [done|lia]]. subst k.
  apply wlp_gets, wlp_bind. eapply wlp_mono; [by apply (own_udp_open room R)|].
  intros s g3 e3 [-> Ho3]. apply wlp_modify.
  assert (Ho4 : own (room - 1) R (upd_entry i (set_sock s) g2) e3).
  { pose proof (sm_view _ _ Hs2 i) as Hv. unfold fd_view in Hv. injection Hv as Hk2 Hs02 _ _ _.
    apply (own_store _ _ _ _ _ FD_UDP); [done|done|congruence|done|]. by rewrite Hs02, Hs0. }
  case_match; [|by apply wlp_ret]. apply wlp_bind. eapply wlp_mono; [by eapply wlp_fd_free|].
  intros [] g5 e5 Ho5. apply quiet_end; [done|keeps_auto].
Qed.

Lemma wlp_close_call room R g e fuel fd :
  own room R g e -> wlp ext (wrap_close fuel fd) g e (fun _ g' e' => own room R g' e').
Proof.
  intros Ho. unfold wrap_close, fd_is_socket. apply wlp_gets. case_match; [apply quiet_end; [done|keeps_auto]|].
  apply wlp_bind. eapply wlp_mono; [by eapply wlp_fd_free|]. intros [] g' e' Ho'. by apply wlp_ret.
Qed.

(** Taking the socket of entry [i] in hand, to close it. *)
Lemma own_take room R g e i :
  own room R g e -> (i < MAX_FDS)%nat -> kind (entry_at i g) <> FD_FREE ->
  exists L, core_list room g e (held (entry_kind (entry_at i g)) (sock (entry_at i g)) ++ L) /\
    forall room' e' s, core_list room' g e' (held (entry_kind (entry_at i g)) s ++ L) ->
      own room' R (upd_entry i (set_sock s) g) e'.
Proof.
  intros Ho Hi Hk. pose proof Ho as [Hlen Hsh Hc].
  destruct (owned_upd g i id) as (rest & Hown & _); [by rewrite Hlen|].
  unfold entry_socks in Hown. rewrite bool_decide_eq_false_2 in Hown by done.
  exists (pool_held (entry_at i g) ++ rest ++ R). split.
  - eapply core_list_perm; [|done]. rewrite Hown. by rewrite <- !app_assoc.
  - intros room' e' s Hc'. destruct (owned_upd g i (set_sock s)) as (rest' & Hown1 & Hown2); [by rewrite Hlen|].
    assert (Hrest : rest' ≡ₚ rest).
    { unfold entry_socks in Hown1. rewrite bool_decide_eq_false_2 in Hown1 by done.
      eapply Permutation_app_inv_l. by rewrite <- Hown1. }
    split; [cbn; by rewrite length_alter| | |done].
    + intros j. destruct (decide (j = i)) as [->|Hne]; [|by rewrite entry_at_upd_ne].
      rewrite entry_at_upd by (by rewrite Hlen). apply (Hsh i).
    + destruct Hc' as [HM Hnd]. apply (core_list_perm _ _ _ (held (entry_kind (entry_at i g)) s ++ pool_held (entry_at i g) ++ rest ++ R)).
      * rewrite Hown2, Hrest. unfold entry_socks. cbn [kind set_sock].
        rewrite bool_decide_eq_false_2 by done. rewrite <- !app_assoc. done.
      * split; [by eapply core_is_state|done].
Qed.

Lemma wlp_shutdown room R g e fd :
  own room R g e -> wlp ext (wrap_shutdown fd) g e (fun _ g' e' => own room R g' e').
Proof.
  intros Ho. unfold wrap_shutdown, fd_get. apply wlp_gets.
  destruct (fd_entry_of fd g) as [i|] eqn:Hfd; [|apply quiet_end; [done|keeps_auto]].
  apply fd_entry_of_some in Hfd as (_ & Hi & Hk). apply wlp_gets.
  destruct (bool_decide (kind (entry_at i g) = FD_TCP) && net_sock_valid (sock (entry_at i g))) eqn:Ht;
    [|by apply wlp_ret].
  apply andb_true_iff in Ht as [Hkind%bool_decide_eq_true_1 Hv].
  destruct (own_take _ _ _ _ i Ho Hi Hk) as (L & Hc & Hback).
  unfold entry_kind, held in Hc, Hback. rewrite Hkind, Hv in Hc.
  apply wlp_bind. eapply wlp_mono; [by apply wlp_tcp_close|]. intros r g' e' [-> Hc']. apply wlp_modify.
  eapply (wlp_quiet (fun _ => True)); [by apply (Hback room e' NET_SOCK_INVALID)|keeps_auto|].
  intros _ g2 e2 Ho2 _ _. by apply wlp_ret.
Qed.

Lemma wlp_bind_call room R g e fd addr alen :
  own room R g e -> 1 <= room ->
  wlp ext (wrap_bind fd addr alen) g e (fun _ g' e' => own (room - 1) R g' e').
Proof.
  intros Ho Hr. assert (Hless : forall g e, own room R g e -> own (room - 1) R g e)
    by (intros; apply (own_room room); [done|lia]).
  unfold wrap_bind, fd_get. apply wlp_gets.
  destruct (fd_entry_of fd g) as [i|] eqn:Hfd; [|apply quiet_end; [auto|keeps_auto]].
  apply fd_entry_of_some in Hfd as (_ & Hi & Hk).
  case_match; [apply quiet_end; [auto|keeps_auto]|].
  eapply (wlp_quiet (fun _ => True)); [done|keeps_auto|]. intros _ g1 e1 Ho1 Hs1 _.
  eapply (wlp_quiet (fun _ => True)); [done|keeps_auto|]. intros _ g2 e2 Ho2 Hs2 _.
  apply wlp_gets. case_match eqn:Hu; [by apply wlp_ret, Hless|].
  apply tested_kind in Hu. case_match; [apply quiet_end; [auto|keeps_auto]|].
  destruct (own_take _ _ _ _ i Ho2 Hi) as (L & Hc & Hback); [by rewrite Hu|].
  unfold entry_kind in Hc, Hback. rewrite Hu in Hc, Hback. cbn [bool_decide decide] in Hc, Hback.
  apply wlp_bind.
  eapply (wlp_mono ext _ _ _ (fun _ g' e' => g' = g2 /\ core_list room g2 e' L)).
  - unfold held in Hc. destruct (net_sock_valid (sock (entry_at i g2))); [|by apply wlp_ret].
    apply wlp_bind. eapply wlp_mono; [by apply wlp_udp_close|]. intros r g' e' [-> Hc']. by apply wlp_ret.
  - intros [] g3 e3 [-> Hc3]. apply wlp_gets, wlp_bind. eapply wlp_mono; [by apply (wlp_udp_open room)|].
    intros s g4 e4 [-> Hc4]. apply wlp_modify. apply quiet_end; [by apply Hback|]. keeps_auto.
Qed.

(** The core socket that [connect] overwrites. *)
Definition overwritten (fd alen : Z) g : list (Z * socket_kind) :=
  match fd_entry_of fd g with
  | Some i => if bool_decide (kind (entry_at i g) = FD_TCP) && negb (alen <? sockaddr_in_size)
              then held KTcp (sock (entry_at i g)) else []
  | None => []
  end.

Lemma wlp_connect room R g e fuel fd addr alen :
  own room R g e -> 1 <= room ->
  wlp ext (wrap_connect fuel fd addr alen) g e (fun _ g' e' => own (room - 1) (overwritten fd alen g ++ R) g' e').
Proof.
  intros Ho Hr. assert (Hless : own (room - 1) R g e) by (apply (own_room room); [done|lia]).
  unfold wrap_connect, fd_get, overwritten. apply wlp_gets.
  destruct (fd_entry_of fd g) as [i|] eqn:Hfd; [|apply quiet_end; [auto|keeps_auto]].
  apply fd_entry_of_some in Hfd as (_ & Hi & _).
  case_match; [rewrite andb_false_r; apply quiet_end; [auto|keeps_auto]|]. apply wlp_gets.
  destruct (kind (entry_at i g)) eqn:Hk; [apply quiet_end; [auto|keeps_auto]| |apply quiet_end; [auto|keeps_auto]..].
  change (bool_decide (FD_TCP = FD_TCP)) with true. cbn [andb negb].
  set (R' := held KTcp (sock (entry_at i g)) ++ R).
  apply wlp_bind. eapply wlp_mono; [by apply (own_tcp_open room R)|].
  intros s g1 e1 [-> Ho1]. apply wlp_modify.
  assert (Ho2 : own (room - 1) R' (upd_entry i (set_sock s) g) e1)
    by (apply (own_swap_view _ _ _ _ i FD_TCP s); auto).
  assert (Hs : entry_at i (upd_entry i (set_sock s) g) = set_sock s (entry_at i g))
    by (apply entry_at_upd; by rewrite (own_len _ _ _ _ Ho)).
  case_match; [apply quiet_end; [done|keeps_auto]|].
  pose proof (own_sock _ _ _ _ i Ho2) as Hok. rewrite Hs in Hok. cbn [kind set_sock sock] in Hok.
  unfold entry_kind in Hok. cbn [kind set_sock] in Hok. rewrite Hk in Hok. specialize (Hok ltac:(done)).
  apply quiet_end; [done|keeps_auto].
Qed.

(** The socket in a slot just stored. *)
Lemma slot_ok room R g e i j c s :
  own room R (set_pool_at i j s g) e -> (i < MAX_FDS)%nat -> kind (entry_at i g) = FD_TCP_LISTEN ->
  pool_socks (entry_at i g) !! j = Some c ->
  sock_ok (list_to_map (owned (set_pool_at i j s g) ++ R)) KTcp s.
Proof.
  intros Ho Hi Hk Hj. assert (Hen : entry_at i (set_pool_at i j s g) =
    set_pool_socks (<[j := s]> (pool_socks (entry_at i g))) (entry_at i g)).
  { unfold set_pool_at. rewrite entry_at_upd; [done|]. pose proof (own_len _ _ _ _ Ho) as Hl.
    cbn in Hl. rewrite length_alter in Hl. by rewrite Hl. }
  pose proof (own_pool _ _ _ _ i j Ho) as Hok. pose proof (own_shape _ _ _ _ Ho i) as Hsh.
  unfold shape in Hsh. rewrite Hen in Hok, Hsh. cbn in Hok, Hsh. rewrite Hk, length_insert in Hsh.
  rewrite list_lookup_total_alt, list_lookup_insert_eq in Hok by (by eapply lookup_lt_Some).
  apply Hok; [done|]. destruct Hsh as [_ ->]. by eapply lookup_lt_Some.
Qed.

Lemma replicate_held n : replicate n 0 ≫= held KTcp = [].
Proof. by induction n. Qed.

(** The slots [js] of the pool of [i] are empty. *)
Definition empty_slots (i : nat) (js : list nat) g : Prop :=
  kind (entry_at i g) = FD_TCP_LISTEN /\ NoDup js /\
  Forall (fun j => pool_socks (entry_at i g) !! j = Some 0) js.

Lemma wlp_arm_pool room R i js g e :
  own room R g e -> (i < MAX_FDS)%nat -> empty_slots i js g -> Z.of_nat (length js) <= room ->
  wlp ext (arm_pool i js) g e (fun _ g' e' => own (room - Z.of_nat (length js)) R g' e').
Proof.
  revert room g e. induction js as [|j js IH]; intros room g e Ho Hi (Hk & Hnd & Hempty) Hr; cbn [arm_pool].
  { apply wlp_ret. cbn. by rewrite Z.sub_0_r. }
  apply NoDup_cons in Hnd as [Hj Hnd]. apply Forall_cons in Hempty as [H0 Hempty]. cbn [length] in *.
  apply wlp_gets, wlp_bind. eapply wlp_mono; [apply (own_tcp_open room R); [done|lia]|].
  intros s g1 e1 [-> Ho1]. apply wlp_modify.
  pose proof (own_slot _ _ _ _ _ _ _ _ Ho1 Hi Hk H0) as Ho2. cbn in Ho2.
  set (g2 := set_pool_at i j s g) in *.
  assert (Hen : entry_at i g2 = set_pool_socks (<[j := s]> (pool_socks (entry_at i g))) (entry_at i g))
    by (unfold g2, set_pool_at; by rewrite entry_at_upd by (by rewrite (own_len _ _ _ _ Ho))).
  assert (Hless : own (room - Z.of_nat (S (length js))) R g2 e1) by (eapply own_room; [done|lia]).
  case_match; [apply quiet_end; [done|keeps_auto]|]. apply wlp_gets.
  pose proof (slot_ok _ _ _ _ _ _ _ _ Ho2 Hi Hk H0 : sock_ok (list_to_map (owned g2 ++ R)) KTcp s) as Hok.
  eapply (wlp_quiet (fun _ => True)); [exact Ho2|keeps_auto|]. intros r g3 e3 Ho3 Hs3 _.
  case_match; [apply quiet_end; [eapply own_room; [done|lia]|keeps_auto]|].
  eapply wlp_mono; [apply IH; [exact Ho3|done| |lia]|].
  - pose proof (sm_view _ _ Hs3 i) as Hv. rewrite Hen in Hv. unfold fd_view in Hv.
    injection Hv as Hk3 _ _ Hp3 _. split; [by rewrite Hk3|]. split; [done|]. rewrite Hp3. cbn.
    rewrite Forall_forall in Hempty |- *. intros j' Hj'. rewrite list_lookup_insert_ne by set_solver. auto.
  - intros a g' e' Ho'. replace (room - Z.of_nat (S (length js))) with (room - 1 - Z.of_nat (length js)) by lia.
    done.
Qed.

Lemma wlp_idf_own {X B} (c : idf_call X) (f : X -> cprog B) room R g e P :
  own room R g e -> (forall x e', own room R g e' -> wlp ext (f x) g e' P) -> wlp ext (idf c ≫= f) g e P.
Proof.
  intros Ho Hf. apply wlp_call, Hf. eapply own_same; [exact Ho|]. by apply world_other, own_world.
Qed.

(** What a call to [listen] may need: a socket for each slot. *)
Definition listen_cost (backlog : Z) : Z := Z.max 0 (listen_pool_size backlog).

Lemma wlp_listen room R g e fd backlog :
  own room R g e -> listen_cost backlog <= room ->
  wlp ext (wrap_listen fd backlog) g e (fun _ g' e' => own (room - listen_cost backlog) R g' e').
Proof.
  unfold listen_cost. intros Ho Hr. set (n := listen_pool_size backlog) in *.
  assert (Hless : forall g e, own room R g e -> own (room - Z.max 0 n) R g e)
    by (intros; apply (own_room room); [done|lia]).
  unfold wrap_listen, fd_get. apply wlp_gets.
  destruct (fd_entry_of fd g) as [i|] eqn:Hfd; [|apply quiet_end; [auto|keeps_auto]].
  apply fd_entry_of_some in Hfd as (_ & Hi & _). apply wlp_gets.
  case_match eqn:Hk; [apply quiet_end; [auto|keeps_auto]|]. apply tested_kind in Hk.
  case_match; [apply quiet_end; [auto|keeps_auto]|].
  assert (Hpool : is_null (pool (entry_at i g)) = true)
    by (pose proof (own_shape _ _ _ _ Ho i) as Hsh; unfold shape in Hsh; by rewrite Hk in Hsh).
  eapply wlp_idf_own; [exact Ho|]. intros p e1 Ho1.
  apply wlp_modify. destruct (is_null p) eqn:Hp.
  - apply quiet_end; [|keeps_auto]. apply Hless. eapply own_upd; [done..| |].
    + unfold shape. cbn. by rewrite Hk.
    + unfold entry_socks, entry_kind, pool_held. cbn. by rewrite Hk, Hp, Hpool.
  - do 5 apply wlp_modify. rewrite !upd_entry_upd.
    set (f := fun en => set_kind FD_TCP_LISTEN _).
    assert (Ho2 : own room R (upd_entry i f g) e1).
    { eapply own_upd; [done..| |].
      - unfold shape, f. cbn. by rewrite length_replicate.
      - unfold entry_socks, entry_kind, pool_held, f. cbn. by rewrite Hk, Hp, Hpool, replicate_held. }
    assert (Hen : entry_at i (upd_entry i f g) = f (entry_at i g))
      by (apply entry_at_upd; by rewrite (own_len _ _ _ _ Ho)).
    eapply wlp_mono; [apply (wlp_arm_pool room R); [done|done| |rewrite length_seq; lia]|].
    + split; [by rewrite Hen|]. split; [apply NoDup_ListNoDup, seq_NoDup|].
      apply Forall_forall. intros j Hj%elem_of_seq. rewrite Hen. unfold f. cbn.
      apply lookup_replicate. split; [done|lia].
    + intros a g' e' Ho'. rewrite length_seq in Ho'. eapply own_room; [done|lia].
Qed.

(** Taking over a connection: the candidate moves to the new descriptor and a
    new socket to its slot. *)
Lemma wlp_accept_take room R g e i idx cand alen :
  own room R g e -> 1 <= room -> (i < MAX_FDS)%nat -> kind (entry_at i g) = FD_TCP_LISTEN ->
  pool_socks (entry_at i g) !! idx = Some cand ->
  wlp ext (accept_take i idx cand alen) g e (fun _ g' e' => own (room - 1) R g' e').
Proof.
  intros Ho Hr Hi Hk Hidx. assert (Hless : forall g e, own room R g e -> own (room - 1) R g e)
    by (intros; apply (own_room room); [done|lia]).
  unfold accept_take. apply wlp_bind. eapply wlp_mono; [apply (wlp_fd_alloc room R); auto|].
  intros fd g1 e1 [Ho1 Hal]. destruct (fd <? 0) eqn:Hfd; [apply quiet_end; [auto|keeps_auto]|].
  destruct (allocated_index _ _ _ _ Hal Hfd) as (ni & -> & Hni & Hfree & (Hkn & Hsn & Hpn) & Hoe).
  assert (Hne : i <> ni) by congruence.
  pose proof (oe_view _ _ _ Hoe i Hne) as Hv. unfold fd_view in Hv. injection Hv as Hk1 _ _ Hp1 _.
  rewrite Hk in Hk1. rewrite <- Hp1 in Hidx.
  apply wlp_modify, wlp_modify, wlp_gets. set (id := fd_iface _). apply wlp_modify, wlp_modify.
  rewrite !upd_entry_upd.
  set (f := fun en => set_nonblocking false _). set (g2 := upd_entry ni f g1).
  apply wlp_bind. eapply wlp_mono; [apply (wlp_tcp_open room _ _ (owned g1 ++ R)); [|done]|].
  { destruct (own_core _ _ _ _ Ho1) as [HM Hnd]. split; [by eapply core_is_state|done]. }
  intros s g3 e3 [-> Hc3]. apply wlp_modify.
  assert (Hc1 : core_list (room - 1) g1 e3 (held KTcp s ++ owned g1 ++ R))
    by (destruct Hc3 as [HM Hnd]; split; [by eapply core_is_state|done]).
  pose proof (own_slot _ _ _ _ i idx cand s (own_in_hand _ _ _ _ _ _ _ Ho1 Hc1) Hi Hk1 Hidx) as Ho3.
  assert (Ho4 : own (room - 1) R (set_pool_at i idx s g2) e3).
  { assert (Hcomm : set_pool_at i idx s g2 = upd_entry ni f (set_pool_at i idx s g1)).
    { unfold g2, set_pool_at, upd_entry, upd_fdt. cbn. by rewrite list_alter_alter_ne. }
    assert (Hen : entry_at ni (set_pool_at i idx s g1) = entry_at ni g1)
      by (unfold set_pool_at; by rewrite entry_at_upd_ne).
    rewrite Hcomm. apply (own_store_view _ _ _ _ _ FD_TCP cand); rewrite ?Hen; try done. by rewrite Hsn. }
  assert (Hen2 : entry_at i g2 = entry_at i g1) by (by apply entry_at_upd_ne).
  assert (Hok : sock_ok (list_to_map (owned (set_pool_at i idx s g2) ++ R)) KTcp s)
    by (apply (slot_ok _ _ _ _ _ _ cand _ Ho4 Hi); by rewrite Hen2).
  apply quiet_end; [done|keeps_auto].
Qed.

Lemma wlp_accept_scan room R g e i js alen :
  own room R g e -> 1 <= room -> (i < MAX_FDS)%nat -> kind (entry_at i g) = FD_TCP_LISTEN ->
  Forall (fun j => (j < pool_len (entry_at i g))%nat) js ->
  wlp ext (accept_scan i js alen) g e (fun r g' e' =>
    match r with Some _ => own (room - 1) R g' e' | None => own room R g' e' /\ same g g' end).
Proof.
  intros Ho Hr Hi Hk Hjs. revert g e Ho Hk Hjs. induction js as [|j js IH]; intros g e Ho Hk Hjs; cbn [accept_scan].
  { apply wlp_ret. split; [done|apply same_refl]. }
  apply Forall_cons in Hjs as [Hj Hjs]. apply wlp_gets. apply wlp_gets.
  set (idx := (_ mod _)%nat). set (cand := _ !!! idx).
  assert (Hidx : (idx < pool_len (entry_at i g))%nat) by (apply Nat.mod_upper_bound; lia).
  pose proof (own_pool _ _ _ _ i idx Ho Hk Hidx) as Hok. fold cand in Hok.
  eapply (wlp_quiet (fun _ => True)); [exact Ho|keeps_auto|]. intros c g1 e1 Ho1 Hs1 _.
  pose proof (sm_view _ _ Hs1 i) as Hv. unfold fd_view in Hv. injection Hv as Hk1 _ _ Hp1 Hl1.
  destruct c.
  - apply wlp_bind. eapply wlp_mono.
    + apply (wlp_accept_take room R); [done|done|done|congruence|]. rewrite Hp1. unfold cand.
      apply list_lookup_lookup_total_lt. pose proof (own_shape _ _ _ _ Ho i) as Hsh. unfold shape in Hsh.
      rewrite Hk in Hsh. destruct Hsh as [_ Hsh]. by rewrite <- Hsh.
    + intros r g' e' Ho'. by apply wlp_ret.
  - eapply wlp_mono; [apply IH; [done|congruence|by rewrite Hl1]|].
    intros [r|] g' e' Hr'; [done|]. split; [apply Hr'|]. eapply same_trans; [done|apply Hr'].
Qed.

Lemma wlp_accept_loop fuel room R g e i start alen :
  own room R g e -> 1 <= room -> (i < MAX_FDS)%nat -> kind (entry_at i g) = FD_TCP_LISTEN ->
  wlp ext (accept_loop fuel i start alen) g e (fun _ g' e' => own (room - 1) R g' e').
Proof.
  intros Ho Hr Hi. revert g e Ho. induction fuel as [|fuel IH]; intros g e Ho Hk; cbn [accept_loop]; [done|].
  apply wlp_gets, wlp_bind. eapply wlp_mono; [apply (wlp_accept_scan room R); try done|].
  { apply Forall_forall. intros j Hj%elem_of_seq. lia. }
  intros [r|] g1 e1; [by intros; apply wlp_ret|]. intros [Ho1 Hs1].
  pose proof (sm_view _ _ Hs1 i) as Hv. unfold fd_view in Hv. injection Hv as Hk1 _ _ _ _.
  assert (Hless : own (room - 1) R g1 e1) by (apply (own_room room); [done|lia]).
  apply wlp_gets. case_match; [apply quiet_end; [done|keeps_auto]|].
  eapply (wlp_quiet (fun _ => True)); [exact Ho1|keeps_auto|]. intros t g2 e2 Ho2 Hs2 _.
  pose proof (same_trans _ _ _ Hs1 Hs2) as Hs12.
  case_match; [apply quiet_end; [apply (own_room room); [done|lia]|keeps_auto]|].
  eapply (wlp_quiet (fun _ => True)); [exact Ho2|keeps_auto|]. intros [] g3 e3 Ho3 Hs3 _.
  apply IH; [done|]. pose proof (sm_view _ _ (same_trans _ _ _ Hs12 Hs3) i) as Hv. unfold fd_view in Hv.
  injection Hv as Hk3 _ _ _ _. congruence.
Qed.

Lemma wlp_accept fuel room R g e fd alen :
  own room R g e -> 1 <= room ->
  wlp ext (wrap_accept fuel fd alen) g e (fun _ g' e' => own (room - 1) R g' e').
Proof.
  intros Ho Hr. assert (Hless : own (room - 1) R g e) by (apply (own_room room); [done|lia]).
  unfold wrap_accept, fd_get. apply wlp_gets.
  destruct (fd_entry_of fd g) as [i|] eqn:Hfd; [|apply quiet_end; [done|keeps_auto]].
  apply fd_entry_of_some in Hfd as (_ & Hi & _). apply wlp_gets.
  case_match eqn:Hk; [apply quiet_end; [done|keeps_auto]|]. apply tested_kind in Hk.
  eapply (wlp_quiet (fun _ => True)); [exact Ho|keeps_auto|]. intros t g2 e2 Ho2 Hs2 _.
  apply wlp_accept_loop; [done..|]. pose proof (sm_view _ _ Hs2 i) as Hv. unfold fd_view in Hv.
  injection Hv as Hk2 _ _ _ _. congruence.
Qed.
End calls.
