(* ===== verification/OwnStack.v ===== *)
(** * The stack and the resolver leave the core's sockets alone

    The poll task, the driver callbacks, the queries of the public API and the
    wrappers of [NetdbWrap] and [NetifShim] call the core only with steady calls,
    on handles that interfaces have: they are quiet in the sense of [Ownership]. *)

From S2P Require Import Prelude Prog Ipv4 Types Platform Sim FramePool L2Tap NetStack NetSock Loopback FdTable SockWrap.
From S2P Require Import SelectWrap NetdbWrap NetifShim Ntp Core CoreSpec Ownership OwnCalls.

#[local] Open Scope list_scope.

Section quiet.
Context `{cfg : Config} {E : Type} `{!Platform E, !SocketConsts, !CoreSockets E}.
Context (g0 : globals) (room : Z) (M : gmap Z socket_kind).
Abbreviation quiet := (keeps ext (world (E := E) g0 room M) (fun _ => True)).

(** ** Frames, taps and events *)

Lemma quiet_frame_free f : quiet (net_frame_free f).
Proof. unfold net_frame_free. keeps_auto. Qed.

Lemma quiet_alloc_fail : quiet bump_alloc_fail.
Proof. unfold bump_alloc_fail. keeps_auto. Qed.

Lemma quiet_emit i evt : quiet (emit_event i evt).
Proof. unfold emit_event. keeps_auto. Qed.

#[local] Hint Resolve quiet_frame_free quiet_alloc_fail quiet_emit : keeps.

Lemma quiet_frame_alloc n : quiet (net_frame_alloc n).
Proof. unfold net_frame_alloc. keeps_auto. Qed.

Lemma quiet_post_rx i f : quiet (net_stack_post_rx i f).
Proof. unfold net_stack_post_rx. keeps_auto. Qed.

#[local] Hint Resolve quiet_frame_alloc quiet_post_rx : keeps.

Lemma quiet_eth_input buf p : quiet (eth_input_cb buf p).
Proof. unfold eth_input_cb. keeps_auto. Qed.

Lemma quiet_l2_tap et cb user : quiet (net_stack_l2_tap et cb user).
Proof. unfold net_stack_l2_tap, upd_tap. keeps_auto. Qed.

Lemma quiet_dispatch i f : quiet (dispatch_tap i f).
Proof. unfold dispatch_tap. keeps_auto. Qed.

Lemma quiet_tx_cb i frame : quiet (smoltcp_glue_tx_cb i frame).
Proof. unfold smoltcp_glue_tx_cb, call_tx, eth_tx. keeps_auto. Qed.

Lemma quiet_surface i up : quiet (surface_ip i up).
Proof. unfold surface_ip. keeps_auto. Qed.

#[local] Hint Resolve quiet_dispatch quiet_tx_cb quiet_surface : keeps.

(** ** Calls on the handle an interface has *)

(** [keeps_auto], with the core calls on the handle of [i]. *)
Ltac raw_auto i :=
  repeat first
    [ lazymatch goal with
      | |- keeps _ _ _ (gets (fun g => smoltcp_handle (iface_at _ g)) ≫= _) => apply keeps_raw
      | |- keeps _ _ _ (core _) => apply (quiet_core _ _ _ _ i); done
      end
    | keeps_step; cbn beta ].

Lemma quiet_link_event i up : quiet (net_stack_link_event i up).
Proof. unfold net_stack_link_event. raw_auto i. Qed.

Lemma quiet_eth_event id : quiet (eth_event id).
Proof. destruct id; [apply quiet_link_event..|by apply keeps_ret]. Qed.

Lemma quiet_handle_rx i f : quiet (handle_rx i f).
Proof. unfold handle_rx. raw_auto i. Qed.

Lemma quiet_run_core i : quiet (run_core i).
Proof. unfold run_core. raw_auto i. Qed.

#[local] Hint Resolve quiet_handle_rx quiet_run_core : keeps.

Lemma quiet_drain_rx fuel i : quiet (drain_rx fuel i).
Proof. induction fuel as [|fuel IH]; cbn [drain_rx]; keeps_auto. Qed.

#[local] Hint Resolve quiet_drain_rx : keeps.

Lemma quiet_poll_iface fuel i : quiet (poll_iface fuel i).
Proof. unfold poll_iface. keeps_auto. Qed.

#[local] Hint Resolve quiet_poll_iface : keeps.

(** Reading an interface, for its handle. *)
Lemma keeps_iface {B} i (f : net_iface -> cprog B) :
  (forall it, smoltcp_handle it = smoltcp_handle (iface_at i g0) -> quiet (f it)) ->
  quiet (gets (iface_at i) ≫= f).
Proof.
  intros Hf. apply keeps_gets. intros g e [Hs _]. apply Hf.
  pose proof (sm_route _ _ Hs i) as Hr. unfold route_of in Hr. by injection Hr.
Qed.

Lemma quiet_soonest ids next : quiet (soonest ids next).
Proof.
  revert next. induction ids as [|i ids IH]; intros next; cbn [soonest]; [keeps_auto|].
  apply keeps_iface. intros it Hit. case_match; [apply IH|].
  apply keeps_after; [|intros d; apply IH]. apply (quiet_core _ _ _ _ i); [done| |done]. cbn. by rewrite Hit.
Qed.

#[local] Hint Resolve quiet_soonest : keeps.

Lemma quiet_turn fuel : quiet (net_stack_turn fuel).
Proof. unfold net_stack_turn. keeps_auto. Qed.

(** ** Queries *)

Lemma quiet_get_gateway i : quiet (net_stack_get_gateway i).
Proof. by apply quiet_query_iface. Qed.

Lemma quiet_get_netmask i : quiet (net_stack_get_netmask i).
Proof. by apply quiet_query_iface. Qed.

Lemma quiet_get_ipv6 i out : quiet (esp_smoltcp_get_ipv6_link_local i out).
Proof.
  pose proof (quiet_locked_at g0 room M i Smoltcp_iface_get_ipv6) as Hl.
  unfold esp_smoltcp_get_ipv6_link_local. keeps_auto.
Qed.

Lemma quiet_get_stats i out : quiet (net_stack_get_stats i out).
Proof.
  pose proof (quiet_locked_at g0 room M i Smoltcp_iface_socket_count) as Hl.
  unfold net_stack_get_stats. keeps_auto.
Qed.

Lemma quiet_l2_send i frame : quiet (net_stack_l2_send i frame).
Proof. unfold net_stack_l2_send, call_tx, eth_tx. keeps_auto. Qed.

Lemma quiet_wait_for_ip i ms : quiet (esp_smoltcp_wait_for_ip i ms).
Proof. unfold esp_smoltcp_wait_for_ip. keeps_auto. Qed.

Lemma quiet_register cb user : quiet (net_stack_register_event_cb cb user).
Proof. unfold net_stack_register_event_cb. keeps_auto. Qed.

#[local] Hint Resolve quiet_get_gateway quiet_get_netmask : keeps.

Lemma quiet_get_ip_info n want : quiet (netif_get_ip_info n want).
Proof. unfold netif_get_ip_info. keeps_auto. Qed.

Lemma quiet_netif_up n : quiet (netif_is_netif_up n).
Proof. unfold netif_is_netif_up. keeps_auto. Qed.

(** ** Names *)

(** The resolver runs on the handle of an interface. *)
Lemma keeps_pick :
  keeps ext (world (E := E) g0 room M) (fun h => h = NULL \/ exists i, h = smoltcp_handle (iface_at i g0)) pick_iface.
Proof.
  unfold pick_iface, net_stack_smoltcp_handle. apply keeps_after; [keeps_auto|intros i].
  intros g e [Hs HM]. apply wlp_gets. pose proof (sm_route _ _ Hs i) as Hr. unfold route_of in Hr.
  injection Hr as _ Hr. case_match; apply wlp_ret; (split; [by split|]); [by left|].
  right. by exists i.
Qed.

Lemma quiet_resolve h name server ms :
  is_null h = false -> h = NULL \/ (exists i, h = smoltcp_handle (iface_at i g0)) ->
  quiet (core (Smoltcp_resolve h name server ms)).
Proof. intros Hn [->|(i & ->)]; [done|]. by apply (quiet_core _ _ _ _ i). Qed.

#[local] Hint Resolve quiet_resolve : keeps.

Lemma quiet_getaddrinfo node service hints want : quiet (wrap_getaddrinfo node service hints want).
Proof.
  unfold wrap_getaddrinfo. case_match; [|by apply keeps_ret]. case_match; [by apply keeps_ret|].
  eapply keeps_bind; [apply keeps_pick|]. intros h Hh. keeps_auto.
Qed.

Lemma quiet_freeaddrinfo res : quiet (wrap_freeaddrinfo res).
Proof. unfold wrap_freeaddrinfo. keeps_auto. Qed.

Lemma quiet_gethostbyname name : quiet (wrap_gethostbyname name).
Proof.
  unfold wrap_gethostbyname. eapply keeps_bind; [apply keeps_pick|]. intros h Hh. keeps_auto.
Qed.

(** ** The NTP task, on its socket *)

Lemma quiet_ntp_round fuel s server : sock_ok M KUdp s -> quiet (ntp_round fuel s server).
Proof. intros Hs. unfold ntp_round. keeps_auto. Qed.

(** ** Initialisation *)

Lemma quiet_core_init : quiet (core Smoltcp_core_init).
Proof.
  apply keeps_call. intros g e [Hs HM]. split; [done|].
  destruct (cs_init e (ci_inv _ _ _ _ HM)). by eapply core_is_env.
Qed.

Lemma quiet_pool_init : quiet frame_pool_init.
Proof. unfold frame_pool_init. keeps_auto. Qed.

#[local] Hint Resolve quiet_core_init quiet_pool_init : keeps.

Lemma quiet_init : quiet net_stack_init.
Proof. unfold net_stack_init, ESP_RETURN_ON_ERROR, init_resources. keeps_auto. Qed.
End quiet.

#[export] Hint Resolve quiet_eth_input quiet_l2_tap quiet_eth_event quiet_turn quiet_get_gateway quiet_get_netmask
  quiet_get_ipv6 quiet_get_stats quiet_l2_send quiet_wait_for_ip quiet_register quiet_get_ip_info quiet_netif_up
  quiet_getaddrinfo quiet_freeaddrinfo quiet_gethostbyname quiet_ntp_round quiet_init : keeps.

(** ** Attaching the interface *)

Section attach.
Context `{cfg : Config} {E : Type} `{!Platform E, !SocketConsts, !CoreSockets E}.
Implicit Types (g : globals) (e : E) (R : list (Z * socket_kind)).

(** An interface that is not enabled has no handle. *)
Lemma own_no_handle room R g e i :
  own room R g e -> enabled (iface_at i g) = false -> smoltcp_handle (iface_at i g) = NULL.
Proof.
  intros [_ _ [HM _] _] Hi. destruct (decide (smoltcp_handle (iface_at i g) = NULL)) as [|Hn]; [done|].
  pose proof (ci_raw _ _ _ _ HM i Hn) as Hr. unfold handle_of in Hr. by rewrite Hi, orb_true_r in Hr.
Qed.

(** What [upd_iface] does, whether or not the interface exists. *)
Lemma iface_at_upd_cases i j f g :
  iface_at j (upd_iface i f g) = iface_at j g \/ j = i /\ iface_at j (upd_iface i f g) = f (iface_at i g).
Proof.
  destruct (decide (j = i)) as [->|Hne]; [|left; by apply iface_at_upd_ne].
  destruct (decide (i < length (s_ifaces (net g)))%nat) as [Hi|Hi]; [right; by rewrite iface_at_upd|].
  left. unfold iface_at. by rewrite !list_lookup_total_alt, !lookup_ge_None_2 by (cbn; rewrite ?length_alter; lia).
Qed.

(** Enabling an interface that has no handle yet. *)
Lemma own_enable room R g e i :
  own room R g e -> enabled (iface_at i g) = false -> own room R (upd_iface i (set_enabled true) g) e.
Proof.
  intros Ho Hi. pose proof (own_no_handle _ _ _ _ _ Ho Hi) as Hn. destruct Ho as [Hl Hsh [HM Hnd] Hnif].
  assert (Hraw : forall j, smoltcp_handle (iface_at j (upd_iface i (set_enabled true) g)) = smoltcp_handle (iface_at j g)).
  { intros j. destruct (iface_at_upd_cases i j (set_enabled true) g) as [->|[-> ->]]; done. }
  assert (Hh : forall j, handle_of j (upd_iface i (set_enabled true) g) = handle_of j g).
  { intros j. unfold handle_of. rewrite Hraw. destruct (iface_at_upd_cases i j (set_enabled true) g) as [->|[-> ->]]; [done|].
    rewrite Hn. by repeat case_match. }
  split; [done..| |cbn; by rewrite length_alter]. split; [|done]. destruct HM as [Hinv Hr Hinj Hat Hdom]. split; [done|..].
  - intros j. rewrite Hraw, Hh. apply Hr.
  - intros j k. rewrite !Hh. apply Hinj.
  - intros j. rewrite Hh. apply Hat.
  - intros s. rewrite Hh. apply Hdom.
Qed.

(** Stores to the other fields of an interface and of the stack. *)
Lemma own_store_net room R g e f :
  own room R g e -> s_ifaces (f (net g)) = s_ifaces (net g) -> own room R (upd_net f g) e.
Proof.
  intros Ho Hf. eapply own_same; [done|]. destruct (own_world _ _ _ _ Ho) as [Hs HM].
  assert (Hs' : same g (upd_net f g)) by by apply same_upd_net. split; [done|].
  eapply core_is_state; [done|]. intros i. by rewrite (sm_route _ _ Hs').
Qed.

(** Giving it the handle of a new interface of the core. *)
Lemma own_new room R g e e' i h :
  own room R g e -> room <= 16777215 -> enabled (iface_at i g) = true -> (i < NET_IFACE_MAX)%nat ->
  smoltcp_handle (iface_at i g) = NULL ->
  core_inv e' -> h <> NULL -> core_socks e h = None ->
  (forall h', core_socks e' h' = if decide (h' = h) then Some (1, ∅) else core_socks e h') ->
  own room R (upd_iface i (set_smoltcp_handle h) g) e'.
Proof.
  intros [Hl Hsh [HM Hnd] Hnif] Hroom Hen Hi Hnull Hinv Hn Hnone Hs.
  split; [done..| |cbn; by rewrite length_alter]. split; [|done].
  destruct HM as [_ Hraw Hinj Hat Hdom]. set (g' := upd_iface i (set_smoltcp_handle h) g).
  assert (Hi0 : handle_of i g = NULL) by (unfold handle_of; rewrite Hnull; by case_match).
  assert (Hold : forall j, handle_of j g <> NULL -> handle_of j g <> h).
  { intros j Hj Heq. destruct (Hat j Hj) as (? & ? & Hsome & _). by rewrite Heq, Hnone in Hsome. }
  assert (Hcase : forall j, handle_of j g' = handle_of j g /\ iface_at j g' = iface_at j g \/
    j = i /\ handle_of j g' = h /\ smoltcp_handle (iface_at j g') = h).
  { intros j. destruct (iface_at_upd_cases i j (set_smoltcp_handle h) g) as [Hj|[-> Hj]]; fold g' in Hj.
    - left. split; [|done]. unfold handle_of. by rewrite Hj.
    - right. unfold handle_of. rewrite Hj, (proj2 (Nat.leb_gt _ _)) by done. cbn. by rewrite Hen. }
  split; [done|..].
  - intros j. destruct (Hcase j) as [[-> ->]|(-> & -> & ->)]; [apply Hraw|done].
  - intros j k. destruct (Hcase j) as [[-> _]|(-> & -> & _)], (Hcase k) as [[-> _]|(-> & -> & _)]; try done.
    + apply Hinj.
    + intros Heq Hj. by apply Hold in Hj.
    + intros Heq _. symmetry in Heq. assert (Hk : handle_of k g <> NULL) by congruence. by apply Hold in Hk.
  - intros j. rewrite Hs. destruct (Hcase j) as [[-> _]|(-> & -> & _)].
    + intros Hj. rewrite decide_False by auto. by apply Hat.
    + intros _. rewrite decide_True by done. exists 1, ∅. split_and!; [done|lia|lia|by intros id [? ?]|].
      intros id Hid. rewrite lookup_empty. apply eq_None_not_Some. intros Hsome%Hdom.
      rewrite IFACE_pack in Hsome by (unfold NET_IFACE_MAX in Hi; lia). by destruct Hsome.
  - intros s Hsome. destruct (Hdom s Hsome) as (Hh & ? & ?). split; [|done].
    by destruct (Hcase (IFACE s)) as [[-> _]|(_ & -> & _)].
Qed.

(** The address the static configuration asks for is a unicast one. *)
Definition static_config_ok : Prop :=
  DHCPV4_CLIENT = false -> core_static_ok (default 0 (smoltcp_parse_ipv4 STATIC_IP)) 24.

(** One step of the chain of calls that may fail. *)
Lemma own_or_return room R g e g1 (p k : cprog esp_err) :
  own room R g e -> same g1 g -> keeps ext (world g room (list_to_map (owned g ++ R))) (fun _ => True) p ->
  (forall g' e', own room R g' e' -> same g1 g' -> wlp ext k g' e' (fun _ g' e' => own room R g' e')) ->
  wlp ext (ESP_RETURN_ON_ERROR p k) g e (fun _ g' e' => own room R g' e').
Proof.
  intros Ho Hs Hp Hk. unfold ESP_RETURN_ON_ERROR. eapply (wlp_quiet (fun _ => True)); [exact Ho|exact Hp|].
  intros r g' e' Ho' Hs' _. case_decide; [|by apply wlp_ret]. apply Hk; [done|]. by eapply same_trans.
Qed.

(** The static configuration, on the handle of an interface. *)
Lemma quiet_configure g0 room M i ip prefix gw :
  core_static_ok ip prefix ->
  keeps ext (world (E := E) g0 room M) (fun _ => True) (locked_at i (fun h => Smoltcp_iface_set_static h ip prefix gw)).
Proof.
  intros Hok. unfold locked_at. apply keeps_after; [keeps_auto|intros _]. apply keeps_raw.
  apply keeps_after; [|intros v; keeps_auto]. apply keeps_call. intros g e [Hs HM]. split; [done|].
  pose proof (sm_route _ _ Hs i) as Hr. unfold route_of in Hr. injection Hr as _ <-.
  destruct (cs_static (smoltcp_handle (iface_at i g)) ip prefix gw e (ci_inv _ _ _ _ HM) Hok) as [Hinv Hsame].
  - intros Hn. pose proof (ci_raw _ _ _ _ HM i Hn) as Hh. rewrite <- Hh in Hn |- *.
    destruct (ci_at _ _ _ _ HM i Hn) as (n & m & -> & _). done.
  - by eapply core_is_env.
Qed.

Lemma wlp_attach room R g e cb h :
  own room R g e -> room <= 16777215 -> static_config_ok ->
  wlp ext (esp_smoltcp_attach_eth (ptp_start cb) h) g e (fun _ g' e' => own room R g' e').
Proof.
  intros Ho Hroom Hst. unfold esp_smoltcp_attach_eth. case_match; [by apply wlp_ret|]. apply wlp_gets.
  destruct (enabled (iface_at NET_IFACE_ETH g)) eqn:Hen; [by apply wlp_ret|].
  apply wlp_modify, wlp_modify. set (g1 := upd_iface _ (set_enabled true) _).
  assert (Ho1 : own room R g1 e) by (apply own_enable; [|done]; by apply own_store_net).
  assert (Hg1 : route_of (iface_at NET_IFACE_ETH g1) = (true, NULL)).
  { pose proof (own_no_handle _ _ _ _ _ Ho Hen) as Hn. unfold g1. rewrite iface_at_upd; [by unfold route_of; cbn; rewrite <- Hn|].
    cbn. rewrite (own_nif _ _ _ _ Ho). unfold NET_IFACE_ETH, NET_IFACE_MAX. lia. }
  clearbody g1. eapply (wlp_quiet (fun _ => True)); [exact Ho1|keeps_auto|]. intros _ g2 e2 Ho2 Hs2 _.
  apply (own_or_return _ _ _ _ g1); [done..|keeps_auto|]. intros g3 e3 Ho3 Hs3.
  apply (own_or_return _ _ _ _ g1); [done..|keeps_auto|]. intros g4 e4 Ho4 Hs4.
  apply (own_or_return _ _ _ _ g1); [done..|keeps_auto|]. intros g5 e5 Ho5 Hs5.
  rewrite <- (sm_route _ _ Hs5) in Hg1. unfold route_of in Hg1. injection Hg1 as Hen5 Hn5. apply wlp_gets, wlp_call.
  set (m := mac _). clearbody m. pose proof (cs_new NET_IFACE_ETH m e5 (ci_inv _ _ _ _ (proj1 (own_core _ _ _ _ Ho5)))) as Hnew.
  destruct (ext _ (Core (Smoltcp_iface_new NET_IFACE_ETH m)) e5) as [h6 e6]. destruct Hnew as (Hinv6 & Hn6 & Hnone6 & Hs6).
  apply wlp_modify. cbn [fst snd].
  assert (Ho6 : own room R (upd_iface NET_IFACE_ETH (set_smoltcp_handle h6) g5) e6)
    by (apply (own_new room R g5 e5); try done; unfold NET_IFACE_ETH, NET_IFACE_MAX; lia).
  apply quiet_end; [done|]. apply keeps_after; [keeps_auto|intros _].
  apply keeps_after; [|intros _; unfold ptp_start; keeps_auto].
  destruct DHCPV4_CLIENT eqn:Hd; [by apply quiet_locked_at|]. by apply quiet_configure, Hst.
Qed.
End attach.
