(* ===== verification/OwnRuns.v ===== *)
(** * Runs of the whole program

    An [action] is anything the program does as one call from outside: a BSD
    call, a native socket call, bring-up, a turn of the poll task, a driver
    callback, a query. [perform] runs one; [perform_all] a sequence of them. With
    the state go the core sockets that no descriptor owns. *)

From S2P Require Import Prelude Prog Ipv4 Types Platform Sim FramePool L2Tap NetStack NetSock Loopback FdTable SockWrap.
From S2P Require Import SelectWrap NetdbWrap NetifShim Ntp Core CoreSpec Ownership OwnCalls OwnStack.

#[local] Open Scope list_scope.

(** ** Calls *)

(** A call of the BSD layer, with its arguments. *)
Inductive bsd_call :=
  | C_socket (domain type : Z)
  | C_bind (fd : Z) (addr : sockaddr) (alen : Z)
  | C_listen (fd backlog : Z)
  | C_accept (fd : Z) (alen : option Z)
  | C_connect (fd : Z) (addr : sockaddr) (alen : Z)
  | C_send (fd : Z) (buf : list Z)
  | C_recv (fd len : Z)
  | C_sendto (fd : Z) (buf : list Z) (to : sockaddr) (tolen : Z)
  | C_recvfrom (fd len : Z) (fromlen : option Z)
  | C_close (fd : Z)
  | C_shutdown (fd : Z)
  | C_setsockopt (fd level name : Z) (v : optval) (n : Z)
  | C_getsockopt (fd level name : Z) (n : option Z)
  | C_getsockname (fd : Z) (n : option Z)
  | C_fcntl (fd cmd arg : Z)
  | C_ioctl (fd cmd : Z) (arg : option Z)
  | C_read (fd len : Z)
  | C_write (fd : Z) (buf : list Z)
  | C_select (nfds : Z) (rd wr : option (gset Z)) (to : option (Z * Z))
  | C_poll (fds : list pollfd) (timeout_ms : Z).

(** Calls into the stack, and of its own tasks and callbacks. *)
Inductive stack_call :=
  | S_init
  | S_attach (ptp_rx : ptr) (eth : ptr)
  | S_turn
  | S_input (buf : list Z) (p : ptr)
  | S_eth_event (id : eth_event_id)
  | S_l2_tap (et : Z) (cb user : ptr)
  | S_l2_send (iface : nat) (frame : list Z)
  | S_register (cb user : ptr)
  | S_wait_for_ip (iface : nat) (ms : Z)
  | S_get_ipv4 (iface : nat)
  | S_get_gateway (iface : nat)
  | S_get_netmask (iface : nat)
  | S_get_ipv6 (iface : nat) (out : bool)
  | S_get_stats (iface : nat) (out : bool)
  | S_mcast_join (iface : nat) (group : Z)
  | S_mcast_leave (iface : nat) (group : Z)
  | S_getaddrinfo (node service : option string) (hints : option Z) (want : bool)
  | S_freeaddrinfo (res : list addrinfo)
  | S_gethostbyname (name : string)
  | S_get_ip_info (n : option shim_netif) (want : bool)
  | S_is_netif_up (n : option shim_netif).

(** Native calls that use a socket. *)
Inductive sock_call :=
  | U_connect (ip port ms : Z)
  | U_listen (port : Z)
  | U_send (buf : list Z) (ms : Z)
  | U_recv (cap ms : Z)
  | U_is_active
  | U_is_connected
  | U_recv_queue
  | U_send_capacity
  | U_sendto (buf : list Z) (ip port : Z)
  | U_recvfrom (cap ms : Z)
  | U_ntp_round (server : Z).

Definition sock_call_kind (u : sock_call) : socket_kind :=
  match u with
  | U_sendto _ _ _ | U_recvfrom _ _ | U_ntp_round _ => KUdp
  | _ => KTcp
  end.

Inductive action :=
  | A_bsd (c : bsd_call)
  | A_stack (c : stack_call)
  | A_tcp_open (iface : nat)
  | A_udp_open (iface : nat) (port : Z)
  | A_use (u : sock_call) (s : Z)
  | A_tcp_close (s : Z)
  | A_udp_close (s : Z).

Section runs.
Context `{cfg : Config} {E : Type} `{!Platform E, !SocketConsts, !CoreSockets E}.
Implicit Types (g : globals) (e : E) (R : list (Z * socket_kind)).

Definition bsd_prog (fuel : nat) (c : bsd_call) : cprog unit :=
  match c with
  | C_socket domain type => wrap_socket fuel domain type;; mret tt
  | C_bind fd addr alen => wrap_bind fd addr alen;; mret tt
  | C_listen fd backlog => wrap_listen fd backlog;; mret tt
  | C_accept fd alen => wrap_accept fuel fd alen;; mret tt
  | C_connect fd addr alen => wrap_connect fuel fd addr alen;; mret tt
  | C_send fd buf => wrap_send fuel fd buf;; mret tt
  | C_recv fd len => wrap_recv fuel fd len;; mret tt
  | C_sendto fd buf to tolen => wrap_sendto fd buf to tolen;; mret tt
  | C_recvfrom fd len n => wrap_recvfrom fuel fd len n;; mret tt
  | C_close fd => wrap_close fuel fd;; mret tt
  | C_shutdown fd => wrap_shutdown fd;; mret tt
  | C_setsockopt fd level name v n => wrap_setsockopt fd level name v n;; mret tt
  | C_getsockopt fd level name n => wrap_getsockopt fd level name n;; mret tt
  | C_getsockname fd n => wrap_getsockname fd n;; mret tt
  | C_fcntl fd cmd arg => wrap_fcntl fd cmd arg;; mret tt
  | C_ioctl fd cmd arg => wrap_ioctl fd cmd arg;; mret tt
  | C_read fd len => wrap_read fuel fd len;; mret tt
  | C_write fd buf => wrap_write fuel fd buf;; mret tt
  | C_select nfds rd wr to => wrap_select fuel nfds rd wr to;; mret tt
  | C_poll fds ms => wrap_poll fuel fds ms;; mret tt
  end.

Definition stack_prog (fuel : nat) (c : stack_call) : cprog unit :=
  match c with
  | S_init => net_stack_init;; mret tt
  | S_attach cb eth => esp_smoltcp_attach_eth (ptp_start cb) eth;; mret tt
  | S_turn => net_stack_turn fuel;; mret tt
  | S_input buf p => eth_input_cb buf p;; mret tt
  | S_eth_event id => eth_event id;; mret tt
  | S_l2_tap et cb user => net_stack_l2_tap et cb user;; mret tt
  | S_l2_send i frame => net_stack_l2_send i frame;; mret tt
  | S_register cb user => net_stack_register_event_cb cb user;; mret tt
  | S_wait_for_ip i ms => esp_smoltcp_wait_for_ip i ms;; mret tt
  | S_get_ipv4 i => net_stack_get_ipv4 i;; mret tt
  | S_get_gateway i => net_stack_get_gateway i;; mret tt
  | S_get_netmask i => net_stack_get_netmask i;; mret tt
  | S_get_ipv6 i out => esp_smoltcp_get_ipv6_link_local i out;; mret tt
  | S_get_stats i out => net_stack_get_stats i out;; mret tt
  | S_mcast_join i group => net_mcast_join i group;; mret tt
  | S_mcast_leave i group => net_mcast_leave i group;; mret tt
  | S_getaddrinfo node service hints want => wrap_getaddrinfo node service hints want;; mret tt
  | S_freeaddrinfo res => wrap_freeaddrinfo res;; mret tt
  | S_gethostbyname name => wrap_gethostbyname name;; mret tt
  | S_get_ip_info n want => netif_get_ip_info n want;; mret tt
  | S_is_netif_up n => netif_is_netif_up n;; mret tt
  end.

Definition use_prog (fuel : nat) (u : sock_call) (s : Z) : cprog unit :=
  match u with
  | U_connect ip port ms => net_tcp_connect fuel s ip port ms;; mret tt
  | U_listen port => net_tcp_listen s port;; mret tt
  | U_send buf ms => net_tcp_send fuel s buf ms;; mret tt
  | U_recv cap ms => net_tcp_recv fuel s cap ms;; mret tt
  | U_is_active => net_tcp_is_active s;; mret tt
  | U_is_connected => net_tcp_is_connected s;; mret tt
  | U_recv_queue => net_tcp_recv_queue s;; mret tt
  | U_send_capacity => net_tcp_send_capacity s;; mret tt
  | U_sendto buf ip port => net_udp_sendto s buf ip port;; mret tt
  | U_recvfrom cap ms => net_udp_recvfrom fuel s cap ms;; mret tt
  | U_ntp_round server => ntp_round fuel s server;; mret tt
  end.

(** The core sockets no descriptor owns: those [connect] has overwritten, and those
    the native API has handed out. *)
Record hands := Hands {
  dropped : list (Z * socket_kind);
  native : list (Z * socket_kind);
}.

(** The core sockets a call may open. *)
Definition bsd_cost (c : bsd_call) : Z :=
  match c with
  | C_socket _ _ | C_bind _ _ _ | C_accept _ _ | C_connect _ _ _ => 1
  | C_listen _ backlog => listen_cost backlog
  | _ => 0
  end.

Definition cost (a : action) : Z :=
  match a with
  | A_bsd c => bsd_cost c
  | A_tcp_open _ | A_udp_open _ _ => 1
  | _ => 0
  end.

(** The core sockets a call loses: a second [connect] on a TCP descriptor loses the
    first one's. *)
Definition lost (c : bsd_call) g : list (Z * socket_kind) :=
  match c with
  | C_connect fd _ alen => overwritten fd alen g
  | _ => []
  end.

(** One action. A native call is on a socket that was handed out and not closed. *)
Definition perform (fuel : nat) (a : action) (h : hands) g e : option (hands * globals * E) :=
  match a with
  | A_bsd c =>
      '(_, g', e') ← run ext (bsd_prog fuel c) g e;
      Some (Hands (lost c g ++ dropped h) (native h), g', e')
  | A_stack c =>
      '(_, g', e') ← run ext (stack_prog fuel c) g e;
      Some (h, g', e')
  | A_tcp_open i =>
      '(s, g', e') ← run ext (net_tcp_open i) g e;
      Some (Hands (dropped h) (held KTcp s ++ native h), g', e')
  | A_udp_open i p =>
      '(s, g', e') ← run ext (net_udp_open i p) g e;
      Some (Hands (dropped h) (held KUdp s ++ native h), g', e')
  | A_use u s =>
      if decide ((s, sock_call_kind u) ∈ native h) then
        '(_, g', e') ← run ext (use_prog fuel u s) g e;
        Some (h, g', e')
      else None
  | A_tcp_close s =>
      '(i, _) ← list_find (fun x => x = (s, KTcp)) (native h);
      '(_, g', e') ← run ext (net_tcp_close s) g e;
      Some (Hands (dropped h) (delete i (native h)), g', e')
  | A_udp_close s =>
      '(i, _) ← list_find (fun x => x = (s, KUdp)) (native h);
      '(_, g', e') ← run ext (net_udp_close s) g e;
      Some (Hands (dropped h) (delete i (native h)), g', e')
  end.

Fixpoint perform_all (fuel : nat) (xs : list action) (h : hands) g e : option (hands * globals * E) :=
  match xs with
  | [] => Some (h, g, e)
  | a :: xs =>
      '(h', g', e') ← perform fuel a h g e;
      perform_all fuel xs h' g' e'
  end.

Definition total_cost (xs : list action) : Z := foldr (fun a n => cost a + n) 0 xs.

(** ** Each of them keeps the ownership *)

Definition holds (room : Z) (h : hands) g e : Prop := own room (dropped h ++ native h) g e.

Lemma wlp_done {A} (p : cprog A) g e (P : globals -> E -> Prop) :
  wlp ext p g e (fun _ g' e' => P g' e') -> wlp ext (p;; mret tt) g e (fun _ g' e' => P g' e').
Proof. intros Hp. apply wlp_bind. eapply wlp_mono; [exact Hp|]. intros a g' e' HP. by apply wlp_ret. Qed.

Lemma wlp_bsd_call fuel c room R g e :
  own room R g e -> bsd_cost c <= room ->
  wlp ext (bsd_prog fuel c) g e (fun _ g' e' => own (room - bsd_cost c) (lost c g ++ R) g' e').
Proof.
  intros Ho Hr.
  assert (Hsock : forall i, kind (entry_at i g) <> FD_FREE ->
    sock_ok (list_to_map (owned g ++ R)) (entry_kind (entry_at i g)) (sock (entry_at i g)))
    by (intros; by eapply own_sock).
  assert (Hpool : forall i j, kind (entry_at i g) = FD_TCP_LISTEN -> (j < pool_len (entry_at i g))%nat ->
    sock_ok (list_to_map (owned g ++ R)) KTcp (pool_socks (entry_at i g) !!! j))
    by (intros; by eapply own_pool).
  destruct c; cbn [bsd_prog bsd_cost lost app] in *; apply wlp_done;
    first [ by apply wlp_socket | by apply wlp_bind_call | by apply wlp_listen | by apply wlp_accept
          | by apply wlp_connect | rewrite Z.sub_0_r ].
  all: first [ by apply wlp_close_call | by apply wlp_shutdown | apply quiet_end; [done|] ].
  all: first [ by apply quiet_send | by apply quiet_recv | by apply quiet_sendto | by apply quiet_recvfrom
             | by apply quiet_setsockopt | by apply quiet_getsockopt | by apply quiet_getsockname
             | by apply quiet_fcntl | by apply quiet_ioctl | by apply quiet_read | by apply quiet_write
             | by apply quiet_select | by apply quiet_poll ].
Qed.


Lemma wlp_stack_call fuel c room R g e :
  own room R g e -> room <= 16777215 -> static_config_ok ->
  wlp ext (stack_prog fuel c) g e (fun _ g' e' => own room R g' e').
Proof.
  intros Ho Hr Hst. pose proof (quiet_mcast (E := E) g room (list_to_map (owned g ++ R))) as Hm.
  destruct c; cbn [stack_prog]; apply wlp_done; try (by apply wlp_attach);
    (apply quiet_end; [done|]); first [ by apply Hm | by eauto 4 with keeps nocore ].
Qed.

Lemma wlp_use fuel u s room R g e :
  own room R g e -> (s, sock_call_kind u) ∈ R ->
  wlp ext (use_prog fuel u s) g e (fun _ g' e' => own room R g' e').
Proof.
  intros Ho Hs.
  assert (Hok : sock_ok (list_to_map (owned g ++ R)) (sock_call_kind u) s).
  { eapply sock_ok_held; [apply Ho|]. unfold held. destruct (net_sock_valid s); [|by intros x ?%elem_of_nil].
    intros x ->%list_elem_of_singleton. apply elem_of_app. by right. }
  destruct u; cbn [use_prog sock_call_kind] in Hok |- *; apply wlp_done, quiet_end;
    [done|by eauto 3 with keeps nocore..].
Qed.

(** A native socket is one of the core's. *)
Lemma holds_native room h g e i s k :
  holds room h g e -> list_find (fun x => x = (s, k)) (native h) = Some (i, (s, k)) ->
  core_list room g e ((s, k) :: owned g ++ dropped h ++ delete i (native h)).
Proof.
  intros Ho (Hi & _ & _)%list_find_Some. unfold holds in Ho.
  rewrite (delete_Permutation (native h) i (s, k) Hi), <- Permutation_middle in Ho.
  rewrite Permutation_middle. apply Ho.
Qed.

(** A native call that closes it. *)
Lemma wlp_native_close {A} (p : cprog A) room h g e i s k :
  holds room h g e -> list_find (fun x => x = (s, k)) (native h) = Some (i, (s, k)) ->
  (forall L, core_list room g e ((s, k) :: L) -> wlp ext p g e (fun _ g' e' => g' = g /\ core_list room g e' L)) ->
  wlp ext p g e (fun _ g' e' => holds room (Hands (dropped h) (delete i (native h))) g' e').
Proof.
  intros Ho Hi Hp. eapply wlp_mono; [by apply Hp, holds_native|].
  intros _ g' e' [-> Hc]. destruct Ho as [Hl Hsh _ Hn]. by split.
Qed.

Lemma perform_holds fuel a room h g e h' g' e' :
  holds room h g e -> cost a <= room -> room <= 16777215 -> static_config_ok ->
  perform fuel a h g e = Some (h', g', e') -> holds (room - cost a) h' g' e'.
Proof.
  intros Ho Hc Hr Hst. destruct a as [c|c|i|i p|u s|s|s]; cbn [perform cost] in *; rewrite ?Z.sub_0_r.
  - pose proof (wlp_bsd_call fuel c _ _ _ _ Ho Hc) as Hw.
    destruct (run ext (bsd_prog fuel c) g e) as [[[[] g1] e1]|] eqn:Hrun; [|done]. cbn. intros [= <- <- <-].
    apply Hw in Hrun. unfold holds. cbn. by rewrite <- app_assoc.
  - pose proof (wlp_stack_call fuel c _ _ _ _ Ho Hr Hst) as Hw.
    destruct (run ext (stack_prog fuel c) g e) as [[[[] g1] e1]|] eqn:Hrun; [|done]. cbn. intros [= <- <- <-]. by apply Hw in Hrun.
  - pose proof (own_tcp_open _ _ _ _ i Ho Hc) as Hw.
    destruct (run ext (net_tcp_open i) g e) as [[[s g1] e1]|] eqn:Hrun; [|done]. cbn. intros [= <- <- <-].
    destruct (Hw _ _ _ Hrun) as [-> Ho']. unfold holds. cbn. by rewrite Permutation_app_swap_app.
  - pose proof (own_udp_open _ _ _ _ i p Ho Hc) as Hw.
    destruct (run ext (net_udp_open i p) g e) as [[[s g1] e1]|] eqn:Hrun; [|done]. cbn. intros [= <- <- <-].
    destruct (Hw _ _ _ Hrun) as [-> Ho']. unfold holds. cbn. by rewrite Permutation_app_swap_app.
  - case_decide as Hu; [|done].
    assert (Hin : (s, sock_call_kind u) ∈ dropped h ++ native h) by (apply elem_of_app; by right).
    pose proof (wlp_use fuel u s _ _ _ _ Ho Hin) as Hw.
    destruct (run ext (use_prog fuel u s) g e) as [[[[] g1] e1]|] eqn:Hrun; [|done]. cbn. intros [= <- <- <-]. by apply Hw in Hrun.
  - destruct (list_find _ (native h)) as [[i x]|] eqn:Hi; [|done].
    pose proof Hi as (_ & -> & _)%list_find_Some.
    pose proof (wlp_native_close (net_tcp_close s) _ _ _ _ _ _ _ Ho Hi) as Hw. cbn [mbind option_bind].
    destruct (run ext (net_tcp_close s) g e) as [[[r g1] e1]|] eqn:Hrun; [|done]. cbn. intros [= <- <- <-].
    eapply Hw; [|exact Hrun]. intros L HL. eapply wlp_mono; [by apply wlp_tcp_close|]. by intros ? ? ? [-> ?].
  - destruct (list_find _ (native h)) as [[i x]|] eqn:Hi; [|done].
    pose proof Hi as (_ & -> & _)%list_find_Some.
    pose proof (wlp_native_close (net_udp_close s) _ _ _ _ _ _ _ Ho Hi) as Hw. cbn [mbind option_bind].
    destruct (run ext (net_udp_close s) g e) as [[[r g1] e1]|] eqn:Hrun; [|done]. cbn. intros [= <- <- <-].
    eapply Hw; [|exact Hrun]. intros L HL. eapply wlp_mono; [by apply wlp_udp_close|]. by intros ? ? ? [-> ?].
Qed.

Lemma cost_pos a : 0 <= cost a.
Proof. destruct a as [c| | | | | |]; cbn; try done. destruct c; cbn; unfold listen_cost; lia. Qed.

Lemma total_cost_pos xs : 0 <= total_cost xs.
Proof. unfold total_cost. induction xs as [|a xs IH]; cbn [foldr]; [done|]. pose proof (cost_pos a). lia. Qed.

Lemma perform_all_holds fuel xs room h g e h' g' e' :
  holds room h g e -> total_cost xs <= room -> room <= 16777215 -> static_config_ok ->
  perform_all fuel xs h g e = Some (h', g', e') -> holds (room - total_cost xs) h' g' e'.
Proof.
  revert room h g e. induction xs as [|a xs IH]; intros room h g e Ho Hc Hr Hst; cbn [perform_all].
  - intros [= <- <- <-]. cbn. by rewrite Z.sub_0_r.
  - change (total_cost (a :: xs)) with (cost a + total_cost xs) in *.
    pose proof (cost_pos a). pose proof (total_cost_pos xs).
    destruct (perform fuel a h g e) as [[[h1 g1] e1]|] eqn:Hp; [|done]. cbn [mbind option_bind].
    apply perform_holds with (room := room) in Hp; [|done|lia|done|done].
    intros Hps. rewrite Z.sub_add_distr. by eapply IH; [exact Hp|lia|lia| |].
Qed.

(** No descriptor is open. *)
Definition all_closed g : Prop := forall i, (i < MAX_FDS)%nat -> kind (entry_at i g) = FD_FREE.

Lemma all_closed_owned g : length (s_table (fdt g)) = MAX_FDS -> all_closed g -> owned g = [].
Proof.
  intros Hl Hc. unfold owned. apply concat_nil_Forall, Forall_forall. intros x Hx.
  apply list_elem_of_fmap in Hx as (en & -> & Hen). apply list_elem_of_lookup in Hen as [i Hi].
  assert (Hlt : (i < MAX_FDS)%nat) by (rewrite <- Hl; by eapply lookup_lt_Some).
  specialize (Hc i Hlt). unfold entry_at in Hc. rewrite (list_lookup_total_correct _ _ _ Hi) in Hc.
  unfold entry_socks. by rewrite Hc.
Qed.

(** At boot there is no descriptor, no interface and no socket. *)
Lemma own_boot e : core_inv e -> own 16777215 [] globals_zero e.
Proof.
  intros Hinv. assert (Hk : forall i, kind (entry_at i globals_zero) = FD_FREE).
  { intros i. unfold entry_at. cbn. rewrite list_lookup_total_alt.
    destruct (replicate MAX_FDS fd_entry_zero !! i) as [en|] eqn:Hen; [|done].
    by apply lookup_replicate in Hen as [-> _]. }
  assert (Hi : forall i, iface_at i globals_zero = net_iface_zero) by (intros [|[|i]]; done).
  assert (Hh : forall i, handle_of i globals_zero = NULL) by (intros i; unfold handle_of; rewrite Hi; by case_match).
  split; [cbn; by rewrite length_replicate|intros i; unfold shape; by rewrite Hk| |done].
  rewrite (all_closed_owned globals_zero); [|cbn; by rewrite length_replicate|by intros i _].
  split; [|by apply NoDup_nil_2]. split; [done|..].
  - intros i. by rewrite Hi.
  - intros i j _ Hn. by rewrite Hh in Hn.
  - intros i Hn. by rewrite Hh in Hn.
  - by intros s [? ?].
Qed.

(** C6. From boot on, whatever the program does: bring-up, BSD calls with any
    arguments and results, native calls on sockets that were handed out and not
    closed, turns of the poll task, driver callbacks, queries; as long as it
    opens no more core sockets than there are 24-bit ids and the static
    configuration, if there is one, is a unicast address. The core's sockets are
    then exactly those the descriptors own, those the native API has handed out,
    and those a repeated [connect] has overwritten, each once and of the type it
    is used as, and the core has not panicked. With every descriptor closed
    again only the last two are left: nothing else leaks. *)
Theorem sockets_accounted fuel xs e h' g' e' :
  core_inv e -> static_config_ok -> total_cost xs <= 16777215 ->
  perform_all fuel xs (Hands [] []) globals_zero e = Some (h', g', e') ->
  let room := 16777215 - total_cost xs in
  own room (dropped h' ++ native h') g' e' /\
  (all_closed g' -> core_is room g' e' (list_to_map (dropped h' ++ native h'))).
Proof.
  intros Hinv Hst Hc Hp room.
  assert (Ho : holds room h' g' e') by (apply (perform_all_holds fuel xs _ (Hands [] []) globals_zero e); [by apply own_boot|done..]).
  split; [done|]. intros Hcl. destruct Ho as [Hl _ [HM _] _].
  by rewrite (all_closed_owned g' Hl Hcl) in HM.
Qed.
End runs.
