(* ===== verification/OffTable.v ===== *)
(** * Calls that leave descriptors and ports alone

    A property of the state that does not see what lies outside the descriptor
    table and the table of ports ([Elsewhere]) is kept by native calls, by the
    stack and by the BSD calls that only send, receive or wait. *)

From S2P Require Import Prelude Prog Ipv4 Types Platform Sim FramePool L2Tap NetStack NetSock Loopback FdTable SockWrap.
From S2P Require Import SelectWrap NetdbWrap NetifShim Ntp OwnRuns.

(** ** Stores of whole call trees

    [typed_auto] on a function without a lemma of its own: it is opened and its
    accesses are looked at. Only recursive functions need lemmas. *)

Ltac head t := lazymatch t with ?f _ => head f | _ => t end.

Ltac open_step :=
  lazymatch goal with
  | |- preserves _ ?p => let h := head p in unfold h
  | |- typed _ _ ?p => let h := head p in unfold h
  end.

Ltac off_table := repeat (first [typed_step | open_step; unfold fd_get]; cbn beta).

(** ** Properties of the two tables *)

Class Elsewhere (P : globals -> Prop) : Prop :=
  elsewhere f g : fdt (f g) = fdt g -> slots (f g) = slots g -> P g -> P (f g).

(** The calls that store in neither table. *)
Definition only_io (c : bsd_call) : bool :=
  match c with
  | C_send _ _ | C_recv _ _ | C_sendto _ _ _ _ | C_recvfrom _ _ _ | C_getsockopt _ _ _ _
  | C_getsockname _ _ | C_read _ _ | C_write _ _ | C_select _ _ _ _ | C_poll _ _ => true
  | _ => false
  end.

Section calls.
Context `{cfg : Config} {E : Type} `{!Platform E, !SocketConsts}.
Context (P : globals -> Prop) `{!Elsewhere P}.
Abbreviation calm p := (preserves P p).

#[local] Hint Extern 2 (P (_ _)) => by apply elsewhere : typed.

Lemma calm_recv_until {A} fuel d (attempt : cprog (option A)) : calm attempt -> calm (recv_until fuel d attempt).
Proof. intros. induction fuel; cbn [recv_until]; off_table. Qed.

Lemma calm_connect_wait fuel h s d : calm (tcp_connect_wait fuel h s d).
Proof. induction fuel; cbn [tcp_connect_wait]; off_table. Qed.

Lemma calm_send_loop fuel h s buf d t : calm (tcp_send_loop fuel h s buf d t).
Proof. revert t. induction fuel; intros; cbn [tcp_send_loop]; off_table. Qed.

Lemma calm_drain_lo fuel q : calm (drain_lo fuel q).
Proof. revert q. induction fuel; intros; cbn [drain_lo]; off_table. Qed.

Lemma calm_drain_rx fuel i : calm (drain_rx fuel i).
Proof. revert i. induction fuel; intros; cbn [drain_rx]; off_table. Qed.

Lemma calm_soonest ids n : calm (soonest ids n).
Proof. revert n. induction ids; intros; cbn [soonest]; off_table. Qed.

Lemma calm_any_connected i js : calm (any_connected i js).
Proof. induction js; cbn [any_connected]; off_table. Qed.

#[local] Hint Extern 1 (preserves _ (recv_until _ _ _)) => apply calm_recv_until; off_table : typed.
#[local] Hint Resolve calm_connect_wait calm_send_loop calm_drain_lo calm_drain_rx calm_soonest calm_any_connected : typed.

Lemma calm_select_scan fuel fds rd wr acc : calm (select_scan fuel fds rd wr acc).
Proof. revert acc. induction fds; intros; cbn [select_scan]; off_table. Qed.

#[local] Hint Resolve calm_select_scan : typed.

Lemma calm_select_loop fuel n rd wr d : calm (select_loop fuel n rd wr d).
Proof. induction fuel; intros; cbn [select_loop]; off_table. Qed.

#[local] Hint Resolve calm_select_loop : typed.

Lemma calm_tcp_connect fuel s ip p ms : calm (net_tcp_connect fuel s ip p ms).
Proof. off_table. Qed.

Lemma calm_use fuel u s : calm (use_prog fuel u s).
Proof. destruct u; cbn [use_prog]; off_table. Qed.

Lemma calm_stack fuel c : calm (stack_prog fuel c).
Proof. destruct c; cbn [stack_prog]; off_table. Qed.

Lemma calm_io fuel c : only_io c = true -> calm (bsd_prog fuel c).
Proof. intros Hc. destruct c; try discriminate Hc; cbn [bsd_prog]; off_table. Qed.
End calls.

#[export] Hint Extern 1 (preserves _ (drain_lo _ _)) => apply calm_drain_lo; apply _ : typed.
#[export] Hint Extern 1 (preserves _ (net_tcp_connect _ _ _ _ _)) => apply calm_tcp_connect; apply _ : typed.

(** ** Runs *)

Section runs.
Context `{cfg : Config} {E : Type} `{!Platform E, !SocketConsts}.
Implicit Types (g : globals) (e : E).

(** One action whose program keeps [P]. *)
Lemma run_then_keeps {A} (P : globals -> Prop) (p : cprog A) (f : A -> hands) g e h' g' e' :
  preserves P p -> P g ->
  ('(a, g1, e1) ← run ext p g e; Some (f a, g1, e1)) = Some (h', g', e') -> P g'.
Proof.
  intros Hp Hs. destruct (run ext p g e) as [[[a g1] e1]|] eqn:Hr; [|done]. intros [= _ <- <-].
  by eapply (typed_run ext) in Hr as [? _].
Qed.

(** An action that is no BSD call. *)
Lemma perform_elsewhere (P : globals -> Prop) `{!Elsewhere P} fuel a h g e h' g' e' :
  (forall c, a <> A_bsd c) -> P g -> perform fuel a h g e = Some (h', g', e') -> P g'.
Proof.
  intros Hn Hs Hp. pose proof (fun u s => calm_use (E := E) P fuel u s). pose proof (fun c => calm_stack (E := E) P fuel c).
  assert (Hint : forall f g, fdt (f g) = fdt g -> slots (f g) = slots g -> P g -> P (f g)) by apply elsewhere.
  destruct a as [c|c|i|i p|u s|s|s]; cbn [perform] in *.
  - by destruct (Hn c).
  - eapply run_then_keeps, Hp; auto.
  - eapply run_then_keeps, Hp; [off_table|done].
  - eapply run_then_keeps, Hp; [off_table|done].
  - case_decide; [|done]. eapply run_then_keeps, Hp; auto.
  - destruct (list_find _ _) as [[k y]|]; [|done]. eapply run_then_keeps, Hp; [off_table|done].
  - destruct (list_find _ _) as [[k y]|]; [|done]. eapply run_then_keeps, Hp; [off_table|done].
Qed.
End runs.
