(* ===== verification/Ports.v ===== *)
(** * The loopback ports and the descriptors that hold them

    [loopback.c] keeps the ports in a table of its own, [fd_table.c] the port of a
    descriptor in its entry, and [close] takes off the port the entry has. The two
    agree as long as a descriptor that holds a port is not given another one. *)

From S2P Require Import Prelude Prog Ipv4 Types Platform Sim FramePool L2Tap NetStack NetSock Loopback FdTable SockWrap.
From S2P Require Import SelectWrap NetdbWrap NetifShim Ntp OwnRuns OffTable.

#[local] Open Scope list_scope.

(** Descriptor [i] holds a port. *)
Definition registered (i : nat) (g : globals) : Prop := Some i ∈ slot_fd <$> slots g.

#[export] Instance registered_dec i g : Decision (registered i g).
Proof. unfold registered. apply _. Defined.

(** What the ports depend on in an entry. *)
Definition port_view (en : fd_entry) : fd_kind * bool * ptr * Z :=
  (kind en, loopback en, lo_rx en, local_port en).

(** The entry of a descriptor that holds port [p]. *)
Definition holds_port (p : Z) (en : fd_entry) : Prop :=
  kind en = FD_UDP /\ loopback en = true /\ lo_rx en <> NULL /\ local_port en = p.

(** The table of ports is well formed, and every port in it is held by an open UDP
    descriptor that has a queue and is bound to that port. *)
Record ports_ok `{Config} (g : globals) : Prop := {
  pk_table : length (s_table (fdt g)) = MAX_FDS;
  pk_slots : length (slots g) = LO_PORT_SLOTS;
  pk_wf : slots_wf (slots g);
  pk_held s i : s ∈ slots g -> slot_fd s = Some i -> holds_port (slot_port s) (entry_at i g);
}.

Section ports.
Context `{cfg : Config}.
Implicit Types (g : globals).

(** The same ports and, as far as they see, the same entries. *)
Record as_before (g0 g : globals) : Prop := {
  ab_table : length (s_table (fdt g)) = length (s_table (fdt g0));
  ab_slots : slots g = slots g0;
  ab_view i : port_view (entry_at i g) = port_view (entry_at i g0);
}.

Lemma as_before_refl g : as_before g g.
Proof. by split. Qed.

Lemma as_before_trans g1 g2 g3 : as_before g1 g2 -> as_before g2 g3 -> as_before g1 g3.
Proof. intros [] []. split; [congruence..|]. intros i. congruence. Qed.

Lemma as_before_other f g0 g :
  s_table (fdt (f g)) = s_table (fdt g) -> slots (f g) = slots g -> as_before g0 g -> as_before g0 (f g).
Proof. intros Hf Hs []. split; [by rewrite Hf|by rewrite Hs|]. intros i. unfold entry_at in *. by rewrite Hf. Qed.

Lemma as_before_entry i f g0 g :
  (forall en, port_view (f en) = port_view en) -> as_before g0 g -> as_before g0 (upd_entry i f g).
Proof.
  intros Hf [Ht Hs Hv]. split; [cbn; by rewrite length_alter|done|]. intros j. rewrite <- Hv.
  destruct (decide (i = j)) as [<-|Hne]; [|by rewrite entry_at_upd_ne].
  destruct (decide (i < length (s_table (fdt g)))%nat) as [Hi|Hi]; [by rewrite entry_at_upd|].
  unfold entry_at, upd_entry. cbn. rewrite !list_lookup_total_alt, list_lookup_alter_eq.
  by rewrite (lookup_ge_None_2 _ i) by lia.
Qed.

Lemma ports_ok_before g g' : as_before g g' -> ports_ok g -> ports_ok g'.
Proof.
  intros [Ht Hs Hv] [H1 H2 H3 H4]. split; [congruence|by rewrite Hs..|]. intros s i Hin Hi.
  rewrite Hs in Hin. specialize (H4 s i Hin Hi). specialize (Hv i). unfold holds_port, port_view in *.
  injection Hv as -> -> -> ->. done.
Qed.

Lemma registered_before i g g' : as_before g g' -> registered i g' <-> registered i g.
Proof. intros [_ Hs _]. unfold registered. by rewrite Hs. Qed.

Lemma registered_kind i g : ports_ok g -> registered i g -> kind (entry_at i g) = FD_UDP.
Proof.
  intros Hok (s & Hs & Hin)%list_elem_of_fmap. by destruct (pk_held _ Hok s i Hin) as [Hk _].
Qed.

(** An entry that holds no port can be changed. *)
Record portless (i : nat) (g : globals) : Prop := {
  pl_ok : ports_ok g;
  pl_free : ~ registered i g;
}.

Lemma portless_entry i f g : portless i g -> portless i (upd_entry i f g).
Proof.
  intros [[H1 H2 H3 H4] Hn]. split; [|done]. split; [cbn; by rewrite length_alter|done..|].
  intros s j Hin Hj. rewrite entry_at_upd_ne; [by eapply H4|]. intros <-. apply Hn.
  apply list_elem_of_fmap. eauto.
Qed.

Lemma portless_other i f g : fdt (f g) = fdt g -> slots (f g) = slots g -> portless i g -> portless i (f g).
Proof.
  intros Hf Hs [Hok Hn]. assert (as_before g (f g)) as Hb by (apply as_before_other; [by rewrite Hf|done|apply as_before_refl]).
  split; [by eapply ports_ok_before|]. by rewrite (registered_before i _ _ Hb).
Qed.
End ports.

#[local] Hint Extern 2 (as_before _ (_ _)) => by apply as_before_other : typed.
#[local] Hint Extern 2 (as_before _ (upd_entry _ _ _)) => by apply as_before_entry : typed.
#[local] Hint Extern 2 (as_before _ (set_pool_at _ _ _ _)) => by apply as_before_entry : typed.
#[local] Hint Resolve portless_entry : typed.
#[local] Hint Extern 2 (portless _ (_ _)) => by apply portless_other : typed.

#[export] Instance as_before_elsewhere `{Config} g : Elsewhere (as_before g).
Proof. intros f g' Hf Hs. apply as_before_other; [by rewrite Hf|done]. Qed.

#[export] Instance portless_elsewhere `{Config} i : Elsewhere (portless i).
Proof. intros f g' Hf Hs. by apply portless_other. Qed.

(** ** The functions *)

Section calls.
Context `{cfg : Config} {E : Type} `{!Platform E, !SocketConsts}.
Implicit Types (g : globals) (e : E).

Abbreviation safe p := (keeps ext (fun g (_ : E) => ports_ok g) (fun _ => True) p).

Lemma wlp_calm {A} (p : cprog A) g e :
  preserves (as_before g) p -> wlp ext p g e (fun _ g' _ => as_before g g').
Proof. intros Hp a g' e' Hr. eapply (typed_run ext) in Hr as [Hb _]; [exact Hb|done|apply as_before_refl]. Qed.

Lemma safe_calm {A} (p : cprog A) : (forall g, preserves (as_before g) p) -> safe p.
Proof. intros Hp g e Hok. eapply wlp_mono; [by apply wlp_calm|]. intros a g' e' Hb. split; [exact (ports_ok_before _ _ Hb Hok)|done]. Qed.

(** A program that stores only in an entry that holds no port. *)
Lemma wlp_still_portless {A} (p : cprog A) i g e :
  portless i g -> preserves (portless i) p -> wlp ext p g e (fun _ g' _ => portless i g').
Proof. intros Hl Hp a g' e' Hr. by eapply (typed_run ext) in Hr as [Hb _]. Qed.

Lemma wlp_portless {A} (p : cprog A) i g e :
  portless i g -> preserves (portless i) p -> wlp ext p g e (fun _ g' _ => ports_ok g' /\ True).
Proof. intros Hl Hp. eapply wlp_mono; [by apply wlp_still_portless|]. by intros a g' e' []. Qed.

Lemma portless_before i g g' : as_before g g' -> portless i g -> portless i g'.
Proof. intros Hb [Hok Hn]. split; [by eapply ports_ok_before|]. by rewrite (registered_before _ _ _ Hb). Qed.

Lemma portless_kind i g : ports_ok g -> kind (entry_at i g) <> FD_UDP -> portless i g.
Proof. intros Hok Hk. split; [done|]. intros Hr. by apply Hk, registered_kind. Qed.

Lemma safe_fd_alloc k : safe (fd_alloc k).
Proof.
  intros g e Hok. unfold fd_alloc. apply wlp_gets, wlp_bind. eapply wlp_mono; [apply wlp_calm; off_table|].
  intros [] g1 e1 Hb1. cbn beta in Hb1. apply wlp_call, wlp_gets. change (fst <$> list_find _ _) with (first_free g1).
  apply (ports_ok_before _ _ Hb1) in Hok.
  destruct (first_free g1) as [i|] eqn:Hf; [|apply safe_calm; [intros; off_table|done]].
  apply first_free_spec in Hf as (Hk & _). apply (wlp_portless _ i); [|off_table].
  apply portless_kind; [done|]. by rewrite Hk.
Qed.

(** [close] takes the descriptor off its port. *)
Lemma portless_cleared p i g g' :
  ports_ok g -> (registered i g -> local_port (entry_at i g) = p) ->
  slots_only g g' -> slots g' = cleared p (Some i) <$> slots g -> portless i g'.
Proof.
  intros [H1 H2 H3 H4] Hp (_ & Hf & _) Hs.
  assert (Hin : forall s j, s ∈ slots g' -> slot_fd s = Some j ->
    s ∈ slots g /\ ~ (slot_port s = p /\ slot_fd s = Some i)).
  { intros s j. rewrite Hs. intros (t & -> & Ht)%list_elem_of_fmap. unfold cleared.
    case_bool_decide; [done|]. by split. }
  split.
  - split; [by rewrite Hf|by rewrite Hs, length_fmap|rewrite Hs; by apply cleared_wf|].
    intros s j Hsj Hj. destruct (Hin s j Hsj Hj) as [Hsg _]. unfold entry_at. rewrite Hf. by apply H4.
  - intros (s & Hsi & Hs')%list_elem_of_fmap. destruct (Hin s i Hs' (eq_sym Hsi)) as [Hsg Hne].
    apply Hne. split; [|done]. destruct (H4 s i Hsg (eq_sym Hsi)) as (_ & _ & _ & <-). apply Hp.
    apply list_elem_of_fmap. eauto.
Qed.

Lemma wlp_lo_unbind fuel i g e :
  ports_ok g -> wlp ext (lo_unbind fuel (local_port (entry_at i g)) (Some i)) g e (fun _ g' _ => portless i g').
Proof.
  intros Hok. unfold lo_unbind. apply wlp_bind. eapply wlp_mono; [apply wlp_calm; off_table|].
  intros [] g1 e1 Hb. apply wlp_call, wlp_bind. pose proof (ports_ok_before _ _ Hb Hok) as Hok1.
  eapply wlp_mono; [apply wlp_wp, wp_unbind_loop, Hok1|]. intros [] g2 e2 (-> & Hso & Hs).
  assert (Hl : portless i g2).
  { eapply portless_cleared; [exact Hok1| |done|done]. intros _.
    pose proof (ab_view _ _ Hb i) as Hv. unfold port_view in Hv. congruence. }
  apply wlp_still_portless; [done|off_table].
Qed.

Lemma wlp_close_loopback fuel i g e :
  ports_ok g -> wlp ext (close_loopback fuel i) g e (fun _ g' _ => portless i g').
Proof.
  intros Hok. unfold close_loopback, when. apply wlp_gets. destruct (loopback (entry_at i g)) eqn:Hlo.
  - apply wlp_bind. eapply wlp_mono; [by apply wlp_lo_unbind|]. intros [] g1 e1 Hl.
    apply wlp_still_portless; [done|off_table].
  - apply wlp_ret. split; [done|]. intros (s & Hsi & Hs)%list_elem_of_fmap.
    destruct (pk_held _ Hok s i Hs (eq_sym Hsi)) as (_ & Hl & _). congruence.
Qed.

Lemma safe_fd_free fuel fd : safe (fd_free fuel fd).
Proof.
  intros g e Hok. unfold fd_free, fd_get. apply wlp_gets. destruct (fd_entry_of fd g) as [i|]; [|by apply wlp_ret].
  apply wlp_call, wlp_bind. eapply wlp_mono; [by apply wlp_close_loopback|].
  intros [] g1 e1 Hl. apply (wlp_portless _ i); [done|off_table].
Qed.

(** ** The calls *)

Lemma safe_socket fuel d t : safe (wrap_socket fuel d t).
Proof.
  unfold wrap_socket. set (ok := if Z.land t 255 =? SOCK_STREAM then _ else _).
  case_match; [apply safe_calm; intros; off_table|]. destruct ok as [k|]; [|apply safe_calm; intros; off_table].
  apply keeps_after; [apply safe_fd_alloc|intros fd]. case_match; [apply safe_calm; intros; off_table|].
  apply keeps_after; [apply safe_calm; intros; off_table|intros _]. case_match; [|by apply keeps_ret].
  apply keeps_gets. intros g e _. apply keeps_after; [apply safe_calm; intros; off_table|intros s].
  apply keeps_after; [apply safe_calm; intros; off_table|intros _]. case_match; [|by apply keeps_ret].
  apply keeps_after; [apply safe_fd_free|intros _]. apply safe_calm. intros. off_table.
Qed.

Lemma safe_close fuel fd : safe (wrap_close fuel fd).
Proof.
  unfold wrap_close. apply keeps_after; [apply safe_calm; intros; off_table|intros b].
  case_match; [apply safe_calm; intros; off_table|]. apply keeps_after; [apply safe_fd_free|intros _]. by apply keeps_ret.
Qed.

Lemma safe_accept fuel fd n : safe (wrap_accept fuel fd n).
Proof.
  assert (Htake : forall i idx c, safe (accept_take i idx c n)).
  { intros i idx c. unfold accept_take. apply keeps_after; [apply safe_fd_alloc|intros r].
    apply safe_calm. intros. off_table. }
  assert (Hscan : forall i js, safe (accept_scan i js n)).
  { intros i js. induction js as [|j js IH]; cbn [accept_scan]; [by apply keeps_ret|].
    apply keeps_gets. intros ? ? _. apply keeps_gets. intros ? ? _.
    apply keeps_after; [apply safe_calm; intros; off_table|intros b]. case_match; [|done].
    apply keeps_after; [done|intros r]. by apply keeps_ret. }
  assert (Hloop : forall i t, safe (accept_loop fuel i t n)).
  { intros i t. induction fuel as [|k IH]; cbn [accept_loop]; [apply keeps_spin|].
    apply keeps_gets. intros ? ? _. apply keeps_after; [done|intros r]. case_match; [by apply keeps_ret|].
    apply keeps_gets. intros ? ? _. case_match; [apply safe_calm; intros; off_table|].
    apply keeps_after; [apply safe_calm; intros; off_table|intros t']. case_match; [apply safe_calm; intros; off_table|].
    apply keeps_after; [apply safe_calm; intros; off_table|done]. }
  unfold wrap_accept, fd_get. apply keeps_gets. intros g e _. case_match; [|apply safe_calm; intros; off_table].
  apply keeps_gets. intros ? ? _. case_match; [apply safe_calm; intros; off_table|].
  apply keeps_after; [apply safe_calm; intros; off_table|done].
Qed.

Lemma safe_listen fd b : safe (wrap_listen fd b).
Proof.
  assert (Harm : forall i js, preserves (portless i) (arm_pool i js))
    by (intros i js; induction js; cbn [arm_pool]; off_table).
  intros g e Hok. unfold wrap_listen, fd_get. apply wlp_gets.
  destruct (fd_entry_of fd g) as [i|]; [|apply safe_calm; [intros; off_table|done]].
  apply wlp_gets. destruct (bool_decide (kind (entry_at i g) = FD_TCP)) eqn:Hk; cbn [negb];
    [|apply safe_calm; [intros; off_table|done]].
  apply bool_decide_eq_true in Hk. apply (wlp_portless _ i); [|off_table; apply Harm].
  apply portless_kind; [done|]. by rewrite Hk.
Qed.

(** *** [bind] and [connect], on a descriptor that holds no port *)

(** What [lo_bind] needs to register the descriptor. *)
Definition ready (p : Z) (i : nat) g : Prop :=
  portless i g /\ kind (entry_at i g) = FD_UDP /\ lo_rx (entry_at i g) <> NULL /\ local_port (entry_at i g) = p.

Lemma ports_ok_register p i k s g :
  ready p i g -> loopback (entry_at i g) = true -> p <> 0 -> slots g !! k = Some s ->
  slot_port s = p \/ (slot_port s = 0 /\ forall j t, slots g !! j = Some t -> slot_port t <> p) ->
  ports_ok (upd_slot k (LoSlot p (Some i)) g).
Proof.
  intros ([[H1 H2 H3 H4] Hn] & Hk & Hq & Hp) Hl Hp0 Hs Hfree.
  split; [done|unfold slots; cbn; by rewrite length_insert|by apply (slot_set_refines (slots g) k s)|].
  intros t j Hin Hj. apply list_elem_of_lookup in Hin as [m Hm]. change (slots _) with (<[k := LoSlot p (Some i)]> (slots g)) in Hm.
  destruct (decide (m = k)) as [->|Hne].
  - rewrite list_lookup_insert_eq in Hm by (by eapply lookup_lt_Some). simplify_eq. cbn in Hj. by simplify_eq.
  - rewrite list_lookup_insert_ne in Hm by done. apply H4; [by eapply list_elem_of_lookup_2|done].
Qed.

(** From the queue on. *)
Lemma wlp_register p i g e :
  ready p i g -> (i < MAX_FDS)%nat -> p <> 0 ->
  wlp ext (modify (upd_entry i (set_loopback true));;
    rtos (XSemaphoreTake M_lo);;
    bound ← gets (find_slot (fun s => slot_port s = p));
    match bound with
    | Some k => modify (upd_slot k (LoSlot p (Some i)));; rtos (XSemaphoreGive M_lo);; mret ESP_OK
    | None =>
        free_slot ← gets (find_slot (fun s => slot_port s = 0));
        match free_slot with
        | None => rtos (XSemaphoreGive M_lo);; mret ESP_ERR_NO_MEM
        | Some k => modify (upd_slot k (LoSlot p (Some i)));; rtos (XSemaphoreGive M_lo);; mret ESP_OK
        end
    end) g e (fun _ g' _ => ports_ok g').
Proof.
  intros ([Hok Hn] & Hk & Hq & Hp) Hi Hp0. apply wlp_modify, wlp_call. set (g1 := upd_entry i _ g).
  assert (Hat : entry_at i g1 = set_loopback true (entry_at i g)) by (apply entry_at_upd; by rewrite (pk_table _ Hok)).
  assert (Hr : ready p i g1) by (split; [by apply portless_entry|by rewrite Hat]).
  assert (Hl : loopback (entry_at i g1) = true) by (by rewrite Hat).
  apply wlp_gets. unfold find_slot at 1. change (s_slots (lo g1)) with (slots g1).
  destruct (list_find _ (slots g1)) as [[k s]|] eqn:Hf; cbn [fst fmap option_fmap option_map].
  - apply list_find_first in Hf as [Hs Hps]. apply wlp_modify, wlp_call, wlp_ret.
    apply (ports_ok_register _ _ _ s); [done..|by left].
  - apply list_find_None in Hf. rewrite Forall_forall in Hf. apply wlp_gets. unfold find_slot.
    change (s_slots (lo g1)) with (slots g1).
    destruct (list_find _ (slots g1)) as [[k s]|] eqn:Hz; cbn [fst fmap option_fmap option_map].
    + apply list_find_first in Hz as [Hs Hps]. apply wlp_modify, wlp_call, wlp_ret.
      apply (ports_ok_register _ _ _ s); [done..|]. right. split; [done|].
      intros j t Ht. apply Hf. by eapply list_elem_of_lookup_2.
    + apply wlp_call, wlp_ret. apply Hr.
Qed.

Lemma wlp_lo_bind i g e :
  portless i g -> kind (entry_at i g) = FD_UDP -> (i < MAX_FDS)%nat ->
  wlp ext (lo_bind (local_port (entry_at i g)) (Some i)) g e (fun _ g' _ => ports_ok g').
Proof.
  intros Hl Hk Hi. unfold lo_bind. case_test; [apply wlp_ret, Hl|]. set (p := local_port _) in *.
  apply wlp_bind. eapply wlp_mono; [apply wlp_calm; off_table|]. intros [] g1 e1 Hb. cbn beta in Hb.
  apply (portless_before _ _ _ Hb) in Hl. pose proof (ab_view _ _ Hb i) as Hv. unfold port_view in Hv.
  injection Hv as Hk1 _ _ Hp1. rewrite Hk in Hk1. fold p in Hp1.
  pose proof (pk_table _ (pl_ok _ _ Hl)) as Ht.
  unfold ensure_lo_rx. apply wlp_bind, wlp_gets. destruct (is_null (lo_rx (entry_at i g1))) eqn:Hq.
  - apply wlp_call, wlp_modify, wlp_ret. set (q := (ext _ _ e1).1). set (g2 := upd_entry i _ g1).
    assert (Hl2 : portless i g2) by (by apply portless_entry).
    destruct (is_null q) eqn:Hq2; cbn [negb]; [apply wlp_ret, Hl2|]. apply wlp_register; [|done..].
    split; [done|]. unfold g2. rewrite entry_at_upd by (by rewrite Ht). cbn. split_and!; [done| |done]. intros Hn. by rewrite Hn in Hq2.
  - apply wlp_ret. cbn [negb]. apply wlp_register; [|done..].
    split_and!; [done|done| |done]. intros Hn. by rewrite Hn in Hq.
Qed.

(** The descriptor of a call holds no port. *)
Definition fresh_fd (fd : Z) g : Prop := forall i, fd_entry_of fd g = Some i -> ~ registered i g.

Lemma wlp_bind_fresh fd a n g e :
  ports_ok g -> fresh_fd fd g -> wlp ext (wrap_bind fd a n) g e (fun _ g' _ => ports_ok g' /\ True).
Proof.
  intros Hok Hfr. unfold wrap_bind, fd_get. apply wlp_gets.
  destruct (fd_entry_of fd g) as [i|] eqn:Hfd; [|apply safe_calm; [intros; off_table|done]].
  assert (Hl : portless i g) by (split; [done|by apply Hfr]).
  apply fd_entry_of_some in Hfd as (_ & Hi & _).
  case_match; [by apply (wlp_portless _ i); [|off_table]|]. apply wlp_modify, wlp_modify, wlp_gets.
  set (g1 := upd_entry i _ (upd_entry i _ g)). assert (Hl1 : portless i g1) by (by apply portless_entry, portless_entry).
  destruct (bool_decide (kind (entry_at i g1) = FD_UDP)) eqn:Hk; cbn [negb]; [|apply wlp_ret; by split; [apply Hl1|]].
  apply bool_decide_eq_true in Hk. case_match; [|by apply (wlp_portless _ i); [|off_table]].
  apply wlp_bind. eapply wlp_mono; [by apply wlp_lo_bind|]. intros r g2 e2 Hok2. by apply wlp_ret.
Qed.

Lemma wlp_connect_fresh fuel fd a n g e :
  ports_ok g -> fresh_fd fd g -> wlp ext (wrap_connect fuel fd a n) g e (fun _ g' _ => ports_ok g' /\ True).
Proof.
  intros Hok Hfr. unfold wrap_connect, fd_get. apply wlp_gets.
  destruct (fd_entry_of fd g) as [i|] eqn:Hfd; [|apply safe_calm; [intros; off_table|done]].
  apply (wlp_portless _ i); [by split; [|apply Hfr]|off_table].
Qed.

(** A call that gives a descriptor another port while it holds one. *)
Definition rebinds (a : action) g : bool :=
  match a with
  | A_bsd (C_bind fd _ _) | A_bsd (C_connect fd _ _) =>
      match fd_entry_of fd g with Some i => bool_decide (registered i g) | None => false end
  | _ => false
  end.

Lemma rebinds_fresh fd g :
  match fd_entry_of fd g with Some i => bool_decide (registered i g) | None => false end = false -> fresh_fd fd g.
Proof. intros Hr i Hi. rewrite Hi in Hr. by apply bool_decide_eq_false in Hr. Qed.

Lemma safe_done {A} (p : cprog A) g e :
  wlp ext p g e (fun _ g' _ => ports_ok g' /\ True) -> wlp ext (p;; mret tt) g e (fun _ g' _ => ports_ok g').
Proof. intros Hp. apply wlp_bind. eapply wlp_mono; [exact Hp|]. intros a g' e' [Hok _]. by apply wlp_ret. Qed.

Lemma wlp_bsd_ports fuel c g e :
  ports_ok g -> rebinds (A_bsd c) g = false -> wlp ext (bsd_prog fuel c) g e (fun _ g' _ => ports_ok g').
Proof.
  intros Hok Hr. destruct (only_io c) eqn:Hio.
  - eapply wlp_mono; [apply wlp_calm, calm_io; [apply _|done]|]. intros a g' e' Hb. exact (ports_ok_before _ _ Hb Hok).
  - destruct c; try discriminate Hio; cbn [bsd_prog rebinds] in *; apply safe_done;
      first [ by apply safe_socket | by apply safe_accept | by apply safe_listen | by apply safe_close
            | by apply wlp_bind_fresh, rebinds_fresh | by apply wlp_connect_fresh, rebinds_fresh
            | by apply safe_calm; [intros; off_table|] ].
Qed.

Lemma perform_ports fuel a h g e h' g' e' :
  ports_ok g -> rebinds a g = false -> perform fuel a h g e = Some (h', g', e') -> ports_ok g'.
Proof.
  intros Hok Hr Hp. destruct a as [c| | | | | |].
  2-7: by eapply ports_ok_before; [eapply (perform_elsewhere (as_before g)), Hp; [done|apply as_before_refl]|done].
  pose proof (wlp_bsd_ports fuel c g e Hok Hr) as Hw. cbn [perform] in Hp.
  destruct (run ext (bsd_prog fuel c) g e) as [[[[] g1] e1]|] eqn:Hrun; [|done]. injection Hp as _ <- <-. by eapply Hw.
Qed.

(** No call of the sequence rebinds. *)
Fixpoint never_rebinds (fuel : nat) (xs : list action) (h : hands) g e : bool :=
  match xs with
  | [] => true
  | a :: xs =>
      negb (rebinds a g) &&
      match perform fuel a h g e with
      | Some (h', g', e') => never_rebinds fuel xs h' g' e'
      | None => true
      end
  end.

Lemma perform_all_ports fuel xs h g e h' g' e' :
  ports_ok g -> never_rebinds fuel xs h g e = true -> perform_all fuel xs h g e = Some (h', g', e') -> ports_ok g'.
Proof.
  revert h g e. induction xs as [|a xs IH]; intros h g e Hok; cbn [never_rebinds perform_all].
  { by intros _ [= <- <- <-]. }
  destruct (rebinds a g) eqn:Hr; [done|]. destruct (perform fuel a h g e) as [[[h1 g1] e1]|] eqn:Hp; [|done].
  cbn [negb andb mbind option_bind]. intros Hn. eapply IH; [by eapply perform_ports|done].
Qed.

Lemma ports_ok_boot : ports_ok globals_zero.
Proof.
  split; [cbn; apply length_replicate|done|apply slots_wf_zero|].
  intros s i Hs Hi. change (slots globals_zero) with (replicate LO_PORT_SLOTS lo_slot_zero) in Hs.
  apply elem_of_replicate in Hs as [-> _]. discriminate Hi.
Qed.

(** C7. From boot on, whatever the program does, as long as it does not [bind] or
    [connect] a descriptor that holds a loopback port: the table of ports is a
    partial function, and whoever a port belongs to is an open UDP descriptor that
    has a queue and is bound to that very port. So a datagram is never queued for
    a socket that is closed or bound elsewhere; and when every descriptor is closed
    all ports are free. *)
Theorem ports_accounted fuel xs e h' g' e' :
  never_rebinds fuel xs (Hands [] []) globals_zero e = true ->
  perform_all fuel xs (Hands [] []) globals_zero e = Some (h', g', e') ->
  slots_wf (slots g') /\
  (forall p i, p <> 0 -> slot_lookup (slots g') p = Some i -> holds_port p (entry_at i g')) /\
  (all_closed g' -> slots g' = replicate LO_PORT_SLOTS lo_slot_zero).
Proof.
  intros Hn Hp. assert (Hok : ports_ok g') by (by eapply perform_all_ports, Hp; [apply ports_ok_boot|]).
  destruct Hok as [H1 H2 H3 H4]. split; [done|]. split.
  - intros p i Hp0 Hl. unfold slot_lookup in Hl.
    destruct (list_find _ (slots g')) as [[k s]|] eqn:Hf; [|done]. cbn in Hl.
    apply list_find_first in Hf as [Hk <-]. apply H4; [by eapply list_elem_of_lookup_2|done].
  - intros Hcl. apply list_eq_same_length with (n := LO_PORT_SLOTS); [done|done|].
    intros k s t Hk Hs [-> _]%lookup_replicate. destruct s as [q [i|]].
    + destruct (H4 _ i (list_elem_of_lookup_2 _ _ _ Hs) eq_refl) as [Hu _].
      destruct (decide (i < MAX_FDS)%nat) as [Hi|Hi]; [by rewrite Hcl in Hu|].
      unfold entry_at in Hu. by rewrite list_lookup_total_alt, lookup_ge_None_2 in Hu by lia.
    + f_equal. destruct (decide (q = 0)) as [->|Hq]; [done|].
      destruct (slots_used _ H3 k _ Hs) as [j Hj]; [done|discriminate Hj].
Qed.
End calls.

(** ** Witness, and what happens otherwise *)

#[local] Existing Instance tiny.
#[local] Existing Instance lwip_consts.

Definition at_port (p : Z) : sockaddr := SockAddr AF_INET (htons p) 16777343.

(** Bring-up, and two sockets on loopback ports; the second sends to the first and is
    closed. *)
Definition two_ports : list action :=
  [A_stack S_init; A_stack (S_attach 9 77);
   A_bsd (C_socket AF_INET SOCK_DGRAM); A_bsd (C_bind 48 (at_port 7) 16);
   A_bsd (C_socket AF_INET SOCK_DGRAM); A_bsd (C_bind 49 (at_port 9) 16);
   A_bsd (C_sendto 49 [1; 2; 3] (at_port 7) 16); A_bsd (C_recvfrom 48 10 None); A_bsd (C_close 49)].

#[local] Abbreviation start := (sim_start (o := default_oracle)).

Lemma ports_accounted_witness :
  exists g (e : sim default_oracle),
    perform_all 200 two_ports (Hands [] []) globals_zero start = Some (Hands [] [], g, e) /\
    slot_lookup (slots g) 7 = Some 0%nat /\ holds_port 7 (entry_at 0 g) /\ slot_lookup (slots g) 9 = None.
Proof.
  pose (x := default (Hands [] [], globals_zero, start) (perform_all 200 two_ports (Hands [] []) globals_zero start)).
  assert (Hrun : perform_all 200 two_ports (Hands [] []) globals_zero start = Some (Hands [] [], x.1.2, x.2))
    by (vm_compute; reflexivity).
  assert (H7 : slot_lookup (slots x.1.2) 7 = Some 0%nat) by (vm_compute; reflexivity).
  assert (H9 : slot_lookup (slots x.1.2) 9 = None) by (vm_compute; reflexivity).
  clearbody x. exists x.1.2, x.2.
  destruct (ports_accounted 200 two_ports start (Hands [] []) x.1.2 x.2) as (_ & Hheld & _);
    [vm_compute; reflexivity|exact Hrun|].
  split; [exact Hrun|]. split; [exact H7|]. split; [apply Hheld; [discriminate|exact H7]|exact H9].
Defined.

(** A socket on port 7 is connected, which overwrites the port in its entry, and
    closed; its descriptor is handed out again and bound to port 11. *)
Definition rebound : list action :=
  [A_stack S_init; A_stack (S_attach 9 77);
   A_bsd (C_socket AF_INET SOCK_DGRAM); A_bsd (C_bind 48 (at_port 7) 16);
   A_bsd (C_connect 48 (at_port 9) 16); A_bsd (C_close 48);
   A_bsd (C_socket AF_INET SOCK_DGRAM); A_bsd (C_bind 48 (at_port 11) 16);
   A_bsd (C_socket AF_INET SOCK_DGRAM); A_bsd (C_sendto 49 [1; 2; 3] (at_port 7) 16)].

(** Without the condition [close] leaves the port behind, and the next socket with that
    descriptor receives what is sent to it. *)
Theorem rebinding_misdelivers :
  exists g (e : sim default_oracle) r,
    perform_all 200 rebound (Hands [] []) globals_zero start = Some (Hands [] [], g, e) /\
    slot_lookup (slots g) 7 = Some 0%nat /\ local_port (entry_at 0 g) = 11 /\
    run ext (wrap_recvfrom (E := sim default_oracle) 200 48 10 None) g e = Some (3, [1; 2; 3], None, r.1, r.2).
Proof.
  pose (x := default (Hands [] [], globals_zero, start) (perform_all 200 rebound (Hands [] []) globals_zero start)).
  pose (y := default (0, [], None, globals_zero, start) (run ext (wrap_recvfrom (E := sim default_oracle) 200 48 10 None) x.1.2 x.2)).
  exists x.1.2, x.2, (y.1.2, y.2). split_and!; by vm_compute.
Qed.
