(* ===== verification/Closed.v ===== *)
(** * The C code on the core it is written for

    A platform whose core is [IfaceCtx] as [Core] models it, over any
    implementation of smoltcp's types; FreeRTOS and ESP-IDF are those of [Sim]. It
    implements [CoreSockets], what the C code assumes of the core, so that the
    theorems of [OwnCalls] hold of the C code and the Rust code together. A panic
    of the core leaves the platform without one. *)

From S2P Require Import Prelude Prog Ipv4 Types Platform Sim NetStack NetSock Loopback FdTable SockWrap SelectWrap.
From S2P Require Import Device Core CoreSpec CoreResolve Ownership OwnCalls OwnStack OwnRuns.

#[local] Open Scope list_scope.

Section closed.
Context `{SmoltcpLaws}.
Context (o : oracle) (now rand : Z) (res : string -> Z -> Z -> iface_ctx -> option ((Z * Z) * iface_ctx)).

(** The environment; without a core once it has panicked. *)
Record closed := ClosedState { cl_sim : sim_state; cl_core : option (gmap ptr iface_ctx) }.

Definition closed_ext (X : Type) (c : ccall X) (e : closed) : X * closed :=
  match c in ccall X return X * closed with
  | Core c' =>
      match cl_core e ≫= core_answer now rand res c' with
      | Some (r, w) => (r, ClosedState (cl_sim e) (Some w))
      | None => (o _ (Core c') [], ClosedState (cl_sim e) None)
      end
  | c' => let (r, s) := sim_ext o _ c' (cl_sim e) in (r, ClosedState s (cl_core e))
  end.

#[local] Instance closed_platform : Platform closed := {|
  ext := closed_ext;
  pdMS_TO_TICKS ms := u32 ms;
  portMAX_DELAY := MAX_DELAY;
|}.

Definition closed_socks (e : closed) (h : ptr) : option sockets_of :=
  w ← cl_core e; c ← w !! h; Some (next_id (ids c), kind_of <$> live c).

(** The core is there, and its interfaces are in order. *)
Definition closed_inv (e : closed) : Prop :=
  match cl_core e with
  | Some w => map_Forall (fun _ c => ctx_ok c) w
  | None => False
  end.

(** ** The counter of ids *)

(** Functions of the core that leave the counter. *)
Definition leaves_next {R} (f : iface_ctx -> option (R * iface_ctx)) : Prop :=
  forall c r c', ctx_ok c -> f c = Some (r, c') -> next_id (ids c') = next_id (ids c).

Lemma leaves_same {R} (f : iface_ctx -> option (R * iface_ctx)) :
  (forall c r c', f c = Some (r, c') -> ids c' = ids c) -> leaves_next f.
Proof. intros Hf c r c' _ Hc. by rewrite (Hf _ _ _ Hc). Qed.

Lemma with_tcp_ids {R} (none : R) id f c r c' : with_tcp none id f c = Some (r, c') -> ids c' = ids c.
Proof.
  unfold with_tcp. destruct (lookup_id id (ids c)) as [sh|]; [|by intros [= _ <-]].
  destruct (set_get sh (sockets c)) as [[s|s|s]|]; try done. destruct (f s). by intros [= _ <-].
Qed.

Lemma with_udp_ids {R} (none : R) id f c r c' : with_udp none id f c = Some (r, c') -> ids c' = ids c.
Proof.
  unfold with_udp. destruct (lookup_id id (ids c)) as [sh|]; [|by intros [= _ <-]].
  destruct (set_get sh (sockets c)) as [[s|s|s]|]; try done. destruct (f s). by intros [= _ <-].
Qed.

Lemma remove_socket_next id c : next_id (ids (remove_socket id c)) = next_id (ids c).
Proof. unfold remove_socket. by destruct (lookup_id id (ids c)). Qed.

Lemma ctx_poll_ids t c out c' : ctx_poll t c = Some (out, c') -> ids c' = ids c.
Proof.
  unfold ctx_poll. destruct (iface_poll t (iface c) (dev c) (sockets c)) as [[[i d] ss] fs].
  cbn [dhcp sockets set_sockets set_dev set_iface].
  destruct (dhcp c) as [dh|]; [|by intros [= _ <-]].
  destruct (set_get dh ss) as [[s|s|s]|]; try done. destruct (dhcp_poll s) as [ev s'].
  destruct (dhcp_apply ev _) as [c3|] eqn:Ha; [|done]. intros [= _ <-]. revert Ha.
  destruct ev as [[a p [gw|]|]|]; cbn; [..|by intros [= <-]];
    (destruct (update_ip_addrs _ i); [|done]); by intros [= <-].
Qed.

Lemma connect_ids id dst p l c r c' : ctx_tcp_connect rand id dst p l c = Some (r, c') -> ids c' = ids c.
Proof.
  unfold ctx_tcp_connect. destruct (lookup_id id (ids c)) as [sh|]; [|by intros [= _ <-]].
  destruct (set_get sh (sockets c)) as [[s|s|s]|]; try done.
  destruct (tcp_connect _ _ _ _ s) as [[ok s'] i]. by intros [= _ <-].
Qed.

Lemma enable_dhcp_ids c : ids (ctx_enable_dhcp c) = ids c.
Proof. unfold ctx_enable_dhcp. destruct (dhcp c); [done|]. by destruct (set_add _ _). Qed.

Lemma set_static_ids ip prefix gw c c' : ctx_set_static ip prefix gw c = Some c' -> ids c' = ids c.
Proof.
  unfold ctx_set_static. destruct (ipv4_cidr_new _ _) as [a|]; [|done]. cbn [mbind option_bind].
  destruct (update_ip_addrs _ _) as [i|]; [|done]. cbn. destruct (gw =? 0); by intros [= <-].
Qed.

(** Calls that do not open a socket. *)
Definition opens {X} (call : core_call X) : bool :=
  match call with Smoltcp_tcp_open _ | Smoltcp_udp_open _ _ => true | _ => false end.

Lemma next_kept {X} (call : core_call X) h w c r w' :
  resolver_keeps res -> opens call = false -> call_iface call = Some h -> h <> NULL -> w !! h = Some c ->
  ctx_ok c -> core_answer now rand res call w = Some (r, w') ->
  exists c', w' = <[h := c']> w /\ next_id (ids c') = next_id (ids c).
Proof.
  intros [_ Hres] Hq Hh Hn Hw Hok. pose proof (is_null_ne _ Hn) as Hnull.
  assert (Hon : forall (none : X) (f : iface_ctx -> option (X * iface_ctx)), leaves_next f ->
    on_ctx h none f w = Some (r, w') ->
    exists c', w' = <[h := c']> w /\ next_id (ids c') = next_id (ids c)).
  { intros none f Hf. rewrite (on_ctx_some _ _ _ _ _ Hnull Hw). destruct (f c) as [[r1 c1]|] eqn:Hc; [|done].
    intros [= _ <-]. exists c1. split; [done|]. by eapply Hf. }
  destruct call; cbn in Hh, Hq; simplify_eq; cbn [core_answer]; autounfold with core_functions; apply Hon.
  all: try (by apply leaves_same; intros ??? [= _ <-]).
  all: try (by apply leaves_same; intros ???; apply with_tcp_ids).
  all: try (by apply leaves_same; intros ???; apply with_udp_ids).
  - apply leaves_same. intros ???. apply ctx_poll_ids.
  - apply leaves_same. intros c1 r1 c'. destruct (ctx_set_static _ _ _ c1) as [c2|] eqn:Hc; [|done].
    intros [= _ <-]. by eapply set_static_ids.
  - intros c1 r1 c' _ [= _ <-]. by rewrite enable_dhcp_ids.
  - apply leaves_same. intros c1 r1 c'. destruct (join_multicast_group _ _). by intros [= _ <-].
  - apply leaves_same. intros c1 r1 c'. destruct (leave_multicast_group _ _). by intros [= _ <-].
  - apply leaves_same. intros ???. apply connect_ids.
  - intros c1 r1 c' _. destruct (with_tcp _ _ _ c1) as [[[] c2]|] eqn:Hc; [|done]. intros [= _ <-].
    by rewrite remove_socket_next, (with_tcp_ids _ _ _ _ _ _ Hc).
  - intros c1 r1 c' _. destruct (with_udp _ _ _ c1) as [[[] c2]|] eqn:Hc; [|done]. intros [= _ <-].
    by rewrite remove_socket_next, (with_udp_ids _ _ _ _ _ _ Hc).
  - intros c1 r1 c'. apply Hres.
Qed.

(** ** The contract, as the sockets the C code sees *)

Lemma at_tcp_kinds {R} (none : R) id f m r m' : at_tcp none id f m r m' -> kind_of <$> m' = kind_of <$> m.
Proof.
  unfold at_tcp. destruct (m !! id) as [[s|s|s]|] eqn:Hs; intros [_ ->]; try done.
  rewrite fmap_insert. apply insert_id. by rewrite lookup_fmap, Hs.
Qed.

Lemma at_udp_kinds {R} (none : R) id f m r m' : at_udp none id f m r m' -> kind_of <$> m' = kind_of <$> m.
Proof.
  unfold at_udp. destruct (m !! id) as [[s|s|s]|] eqn:Hs; intros [_ ->]; try done.
  rewrite fmap_insert. apply insert_id. by rewrite lookup_fmap, Hs.
Qed.

Lemma same_kinds_fmap m m' : same_kinds m m' -> kind_of <$> m' = kind_of <$> m.
Proof. intros Hk. apply map_eq. intros id. rewrite !lookup_fmap. apply Hk. Qed.

Lemma steady_kinds {X} (call : core_call X) next m r m' :
  steady call = true -> socket_spec call next m r m' -> kind_of <$> m' = kind_of <$> m.
Proof.
  destruct call; intros Hst; try done; cbn [socket_spec].
  all: try apply at_tcp_kinds; try apply at_udp_kinds; try apply same_kinds_fmap.
  all: try (by intros [_ ->]); try (by intros ->).
  intros (i & l & _ & Ha). by eapply at_tcp_kinds.
Qed.

Lemma closed_socks_some e h n k :
  closed_socks e h = Some (n, k) -> exists w c, cl_core e = Some w /\ w !! h = Some c /\
    n = next_id (ids c) /\ k = kind_of <$> live c.
Proof.
  unfold closed_socks. destruct (cl_core e) as [w|]; [|done]. cbn. destruct (w !! h) as [c|] eqn:Hc; [|done].
  cbn. intros [= <- <-]. by exists w, c.
Qed.

(** Replacing an interface's state. *)
Lemma closed_socks_insert s w h c' h' :
  closed_socks (ClosedState s (Some (<[h := c']> w))) h' =
    if decide (h' = h) then Some (next_id (ids c'), kind_of <$> live c') else closed_socks (ClosedState s (Some w)) h'.
Proof.
  unfold closed_socks. cbn. case_decide as Hd; [subst; by rewrite lookup_insert_eq|].
  by rewrite lookup_insert_ne.
Qed.

(** Calls on the null handle do nothing. *)
Lemma closed_null {X} (call : core_call X) w :
  call_iface call = Some NULL -> exists r, core_answer now rand res call w = Some (r, w).
Proof. destruct call; cbn; intros Hh; simplify_eq; by eexists. Qed.

Lemma opened_next s (h : ptr) (w : gmap ptr iface_ctx) c r c' :
  ('(r1, c1) ← Some (open_socket s c); Some (r1, <[h := c1]> w)) = Some (r, <[h := c']> w) ->
  r = next_id (ids c) /\ next_id (ids c') = Z.max (u32 (next_id (ids c) + 1)) 1.
Proof.
  unfold open_socket. destruct (set_add s (sockets c)) as [sh ss]. cbn. intros Heq. injection Heq as <- Heq.
  apply (f_equal (lookup h)) in Heq. rewrite !lookup_insert_eq in Heq. by simplify_eq.
Qed.

Lemma tcp_open_next h w c r c' :
  h <> NULL -> w !! h = Some c -> smoltcp_tcp_open h w = Some (r, <[h := c']> w) ->
  next_id (ids c') = Z.max (u32 (next_id (ids c) + 1)) 1.
Proof.
  intros Hn Hw. unfold smoltcp_tcp_open. rewrite (on_ctx_some _ _ _ _ _ (is_null_ne _ Hn) Hw).
  intros Ho. by apply opened_next in Ho as [_ ->].
Qed.

(** A UDP socket is added only when it could be bound. *)
Lemma udp_open_next h p w c r c' :
  h <> NULL -> w !! h = Some c -> 1 <= next_id (ids c) -> smoltcp_udp_open h p w = Some (r, <[h := c']> w) ->
  next_id (ids c') = if r =? 0 then next_id (ids c) else Z.max (u32 (next_id (ids c) + 1)) 1.
Proof.
  intros Hn Hw Hpos. unfold smoltcp_udp_open. rewrite (on_ctx_some _ _ _ _ _ (is_null_ne _ Hn) Hw). cbn zeta.
  assert (Hr : forall b r, r = next_id (ids c) /\ next_id (ids c') = b ->
    next_id (ids c') = if r =? 0 then next_id (ids c) else b)
    by (intros b r0 [-> ->]; by destruct (Z.eqb_spec (next_id (ids c)) 0); [lia|]).
  destruct (p =? 0); [intros Ho; by eapply Hr, opened_next|].
  destruct (udp_bind p _) as [[] s]; [intros Ho; by eapply Hr, opened_next|].
  intros Heq. injection Heq as <- Heq. apply (f_equal (lookup h)) in Heq. rewrite !lookup_insert_eq in Heq. by simplify_eq.
Qed.

Lemma next_small n : 1 <= n -> n + 1 < 4294967296 -> Z.max (u32 (n + 1)) 1 = n + 1.
Proof. intros H1' H2'. rewrite u32_small; lia. Qed.

Definition is_static {X} (call : core_call X) : bool :=
  match call with Smoltcp_iface_set_static _ _ _ _ => true | _ => false end.

Lemma panics_kind {X} (call : core_call X) m :
  is_static call = false ->
  (forall id k k', call_socket call = Some (id, k) -> (kind_of <$> m) !! id = Some k' -> k' = k) ->
  ~ panics call m.
Proof.
  intros Hns Hk Hp.
  assert (Hx : match call_socket call with
    | Some (id, k) => exists s, m !! id = Some s /\ kind_of s <> k | None => False end)
    by (by destruct call).
  destruct (call_socket call) as [[id k]|]; [|done]. destruct Hx as (s & Hs & Hne).
  apply Hne, (Hk id); [done|]. by rewrite lookup_fmap, Hs.
Qed.

(** A call on an interface that does not panic: only the interface's sockets
    change. *)
Lemma closed_call {X} (call : core_call X) h e n m :
  resolver_keeps res -> call_iface call = Some h -> h <> NULL -> call_ok call ->
  closed_inv e -> closed_socks e h = Some (n, m) ->
  (forall l, m = kind_of <$> l -> ~ panics call l) ->
  exists w c r c',
    let e' := ClosedState (cl_sim e) (Some (<[h := c']> w)) in
    closed_ext X (Core call) e = (r, e') /\ closed_inv e' /\
    core_answer now rand res call w = Some (r, <[h := c']> w) /\
    w !! h = Some c /\ ctx_ok c /\ n = next_id (ids c) /\ m = kind_of <$> live c /\
    socket_spec call n (live c) r (live c') /\
    forall h', closed_socks e' h' =
      if decide (h' = h) then Some (next_id (ids c'), kind_of <$> live c') else closed_socks e h'.
Proof.
  intros [Hres _] Hh Hn Hcall Hinv Hs Hk.
  destruct (closed_socks_some _ _ _ _ Hs) as (w & c & He & Hc & -> & ->).
  unfold closed_inv in Hinv. rewrite He in Hinv. pose proof (Hinv _ _ Hc) as Hok.
  pose proof (core_meets now rand res call h w c Hres Hh Hn Hc Hok Hcall) as Hm.
  pose proof (Hk (live c) eq_refl) as Hp. unfold closed_ext. rewrite He. cbn [mbind option_bind].
  destruct (core_answer now rand res call w) as [[r w']|] eqn:Hans; [|done].
  destruct Hm as (_ & c' & -> & Hc' & Hspec & _). exists w, c, r, c'. split_and!; try done.
  - by apply map_Forall_insert_2.
  - intros h'. rewrite closed_socks_insert. case_decide; [done|]. unfold closed_socks. by rewrite He.
Qed.

Context (Hres : resolver_keeps res).

Lemma closed_other {X} (c : ccall X) e :
  is_core c = false -> closed_inv e ->
  closed_inv (closed_ext X c e).2 /\ forall h, closed_socks (closed_ext X c e).2 h = closed_socks e h.
Proof. destruct e as [s w]. intros Hc Hinv. destruct c; try done; cbn; by destruct (sim_ext _ _ _ s). Qed.

Lemma closed_steady {X} (call : core_call X) h e :
  steady call = true -> call_iface call = Some h -> closed_inv e ->
  (h <> NULL -> exists n m, closed_socks e h = Some (n, m) /\
    forall id k k', call_socket call = Some (id, k) -> m !! id = Some k' -> k' = k) ->
  closed_inv (closed_ext X (Core call) e).2 /\
  forall h', closed_socks (closed_ext X (Core call) e).2 h' = closed_socks e h'.
Proof.
  intros Hst Hh Hinv Hk. destruct (decide (h = NULL)) as [->|Hn].
  - destruct e as [s [w|]]; [|done]. destruct (closed_null call w Hh) as (r & Hr).
    unfold closed_ext. cbn [cl_core mbind option_bind]. by rewrite Hr.
  - destruct (Hk Hn) as (n & m & Hs & Hkind).
    destruct (closed_call call h e n m Hres Hh Hn ltac:(by destruct call) Hinv Hs)
      as (w & c & r & c' & -> & Hinv' & Hans & Hw & Hok & -> & -> & Hspec & Hs').
    { intros l ->. apply panics_kind; [by destruct call|done]. }
    split; [done|]. intros h'. cbn [snd]. rewrite Hs'. case_decide as Hd; [subst|done].
    destruct (next_kept call h w c r _ Hres ltac:(by destruct call) Hh Hn Hw Hok Hans) as (c2 & Hins & Hnext).
    apply (f_equal (lookup h)) in Hins. rewrite !lookup_insert_eq in Hins. injection Hins as <-.
    by rewrite Hnext, (steady_kinds _ _ _ _ _ Hst Hspec).
Qed.

Lemma closed_open_tcp h e n m :
  h <> NULL -> closed_inv e -> closed_socks e h = Some (n, m) -> n + 1 < 4294967296 ->
  let (r, e') := closed_ext _ (Core (Smoltcp_tcp_open h)) e in
  closed_inv e' /\ r = n /\
  forall h', closed_socks e' h' = if decide (h' = h) then Some (n + 1, <[n := KTcp]> m) else closed_socks e h'.
Proof.
  intros Hn Hinv Hs Hroom.
  destruct (closed_call (Smoltcp_tcp_open h) h e n m Hres eq_refl Hn I Hinv Hs ltac:(by intros ? _ ?))
    as (w & c & r & c' & -> & Hinv' & Hans & Hw & Hok & -> & -> & [-> Hl] & Hs').
  split_and!; [done..|]. intros h'. rewrite Hs'. case_decide; [|done].
  rewrite Hl, fmap_insert. cbn [core_answer] in Hans. rewrite (tcp_open_next _ _ _ _ _ Hn Hw Hans).
  rewrite next_small; [done| |done]. apply Hok.
Qed.

Lemma closed_open_udp h p e n m :
  h <> NULL -> closed_inv e -> closed_socks e h = Some (n, m) -> n + 1 < 4294967296 ->
  let (r, e') := closed_ext _ (Core (Smoltcp_udp_open h p)) e in
  closed_inv e' /\
  (r = n /\ (forall h', closed_socks e' h' =
     if decide (h' = h) then Some (n + 1, <[n := KUdp]> m) else closed_socks e h') \/
   r = 0 /\ (forall h', closed_socks e' h' = closed_socks e h')).
Proof.
  intros Hn Hinv Hs Hroom.
  destruct (closed_call (Smoltcp_udp_open h p) h e n m Hres eq_refl Hn I Hinv Hs ltac:(by intros ? _ ?))
    as (w & c & r & c' & -> & Hinv' & Hans & Hw & Hok & -> & -> & Hspec & Hs').
  pose proof (co_next _ Hok) as Hnext. cbn [core_answer] in Hans.
  pose proof (udp_open_next _ _ _ _ _ _ Hn Hw ltac:(lia) Hans) as Hid.
  split; [done|]. cbn in Hspec. destruct (if p =? 0 then _ else _) as [[] s], Hspec as [-> Hl]; [left|right].
  - split; [done|]. intros h'. rewrite Hs'. case_decide; [|done]. rewrite Hl, fmap_insert, Hid.
    destruct (Z.eqb_spec (next_id (ids c)) 0); [lia|]. rewrite next_small by lia. done.
  - split; [done|]. intros h'. rewrite Hs'. case_decide; [subst|done]. by rewrite Hl, Hid, Hs.
Qed.

Lemma closed_close (k : socket_kind) (call : core_call unit) h id e n m :
  h <> NULL -> call = Smoltcp_tcp_close h id /\ k = KTcp \/ call = Smoltcp_udp_close h id /\ k = KUdp ->
  closed_inv e -> closed_socks e h = Some (n, m) ->
  (forall k', m !! id = Some k' -> k' = k) ->
  closed_inv (closed_ext _ (Core call) e).2 /\
  forall h', closed_socks (closed_ext _ (Core call) e).2 h' =
    if decide (h' = h) then Some (n, delete id m) else closed_socks e h'.
Proof.
  intros Hn Hc Hinv Hs Hk.
  assert (Hcall : opens call = false /\ is_static call = false /\ call_ok call /\ call_iface call = Some h /\
    call_socket call = Some (id, k)) by (by destruct Hc as [[-> ->]|[-> ->]]).
  destruct Hcall as (Hq & Hns & Hcall & Hh & Hsock).
  destruct (closed_call call h e n m Hres Hh Hn Hcall Hinv Hs)
    as (w & c & r & c' & -> & Hinv' & Hans & Hw & Hok & -> & -> & Hspec & Hs').
  { intros l ->. apply panics_kind; [done|]. intros id' k1 k2 Hid. rewrite Hsock in Hid. injection Hid as <- <-. apply Hk. }
  split; [done|]. intros h'. cbn [snd]. rewrite Hs'. case_decide; [|done].
  destruct (next_kept call h w c r _ Hres Hq Hh Hn Hw Hok Hans) as (c2 & Hins & ->%eq_sym).
  apply (f_equal (lookup h)) in Hins. rewrite !lookup_insert_eq in Hins. injection Hins as <-.
  assert (Hl : live c' = delete id (live c)) by (by destruct Hc as [[-> ->]|[-> ->]]).
  by rewrite Hl, fmap_delete.
Qed.

(** Configuring an address smoltcp accepts. *)
Definition closed_static_ok (ip prefix : Z) : Prop := static_ok ip prefix /\ 0 <= ip < 4294967296.

Lemma closed_static h ip prefix gw e :
  closed_inv e -> closed_static_ok ip prefix -> (h <> NULL -> is_Some (closed_socks e h)) ->
  let e' := (closed_ext _ (Core (Smoltcp_iface_set_static h ip prefix gw)) e).2 in
  closed_inv e' /\ forall h', closed_socks e' h' = closed_socks e h'.
Proof.
  set (call := Smoltcp_iface_set_static h ip prefix gw). intros Hinv [Hst Hip] Hk.
  destruct (decide (h = NULL)) as [->|Hn].
  - destruct e as [s [w|]]; [|done]. destruct (closed_null call w eq_refl) as (r & Hr).
    unfold closed_ext. cbn [cl_core mbind option_bind]. by rewrite Hr.
  - destruct (Hk Hn) as [[n m] Hs].
    destruct (closed_call call h e n m Hres eq_refl Hn Hip Hinv Hs)
      as (w & c & r & c' & -> & Hinv' & Hans & Hw & Hok & -> & -> & Hspec & Hs'); [by intros l _ []|].
    split; [done|]. intros h'. cbn [snd]. rewrite Hs'. case_decide as Hd; [subst|done].
    destruct (next_kept call h w c r _ Hres eq_refl eq_refl Hn Hw Hok Hans) as (c2 & Hins & Hnext).
    apply (f_equal (lookup h)) in Hins. rewrite !lookup_insert_eq in Hins. injection Hins as <-.
    cbn in Hspec. by rewrite Hnext, Hspec.
Qed.

(** A new interface. *)
Lemma closed_new i mac e :
  closed_inv e ->
  let (h, e') := closed_ext _ (Core (Smoltcp_iface_new i mac)) e in
  closed_inv e' /\ h <> NULL /\ closed_socks e h = None /\
  forall h', closed_socks e' h' = if decide (h' = h) then Some (1, ∅) else closed_socks e h'.
Proof.
  destruct e as [s [w|]]; [|done]. unfold closed_inv. cbn [cl_core]. intros Hinv.
  destruct (iface_ctx_new_ok i mac now) as (c & Hnew & Hok & Hl & _).
  assert (Hid : next_id (ids c) = 1).
  { revert Hnew. unfold iface_ctx_new. destruct (iface_new _ _ _) as [i' d].
    destruct (update_ip_addrs _ i'); [|done]. cbn. by intros [= <-]. }
  unfold closed_ext. cbn [cl_core mbind option_bind core_answer]. unfold smoltcp_iface_new. rewrite Hnew. cbn [mbind option_bind].
  pose proof (is_fresh ({[NULL]} ∪ dom w : gset Z)) as Hf. fold (new_box w) in Hf.
  apply not_elem_of_union in Hf as [Hn Hd]. apply not_elem_of_singleton in Hn. apply not_elem_of_dom in Hd.
  split_and!; [by apply map_Forall_insert_2|done| |].
  - unfold closed_socks. cbn. by rewrite Hd.
  - intros h'. rewrite closed_socks_insert, Hid, Hl. by rewrite fmap_empty.
Qed.

#[local] Instance closed_core : CoreSockets closed.
Proof.
  refine {| core_inv := closed_inv; core_socks := closed_socks; core_static_ok := closed_static_ok;
            cs_new := closed_new; cs_static := closed_static; cs_other := @closed_other; cs_steady := @closed_steady; cs_close := closed_close |}.
  - intros e Hinv. cbn [ext closed_platform]. unfold closed_ext, closed_inv, closed_socks in *.
    by destruct (cl_core e).
  - intros h e n m Hn Hinv Hs Hr. pose proof (closed_open_tcp h e n m Hn Hinv Hs Hr) as Ho.
    cbn [ext closed_platform]. by destruct (closed_ext _ _ e).
  - intros h p e n m Hn Hinv Hs Hr. pose proof (closed_open_udp h p e n m Hn Hinv Hs Hr) as Ho.
    cbn [ext closed_platform]. by destruct (closed_ext _ _ e).
Defined.

End closed.

(** ** Descriptors over the whole stack *)

Module Whole.

#[export] Existing Instance tiny.
#[export] Existing Instance lwip_consts.
#[export] Existing Instances Small.types Small.impl Small.laws.

(** [smoltcp_resolve] itself, a millisecond between two readings of the clock. *)
Definition resolver : string -> Z -> Z -> iface_ctx -> option ((Z * Z) * iface_ctx) :=
  resolve_on (fun n => 1000 * Z.of_nat n) 7 (fun ms => S (Z.to_nat ms)).

Lemma resolver_whole : resolver_keeps resolver.
Proof.
  apply resolve_on_resolver; [done|]. intros ms. exists (Z.to_nat ms). lia.
Qed.

Abbreviation whole := closed.

#[export] Instance platform : Platform whole := closed_platform default_oracle 0 7 resolver.

#[export] Instance core : CoreSockets whole := closed_core default_oracle 0 7 resolver resolver_whole.

Definition boot_env : whole := ClosedState (sim_start (o := default_oracle)) (Some ∅).

(** Bring-up; a listener, closed again; a descriptor connected twice and closed; a
    native socket that stays open and one that does not. *)
Definition peer : sockaddr := SockAddr AF_INET (htons 80) 33554442.

Definition script : list action :=
  [A_stack S_init; A_stack (S_attach 9 77); A_stack S_turn;
   A_bsd (C_socket AF_INET SOCK_STREAM); A_bsd (C_bind 48 (SockAddr AF_INET (htons 7) 0) 16);
   A_bsd (C_listen 48 2); A_stack S_turn; A_bsd (C_close 48);
   A_bsd (C_socket AF_INET SOCK_STREAM); A_bsd (C_connect 48 peer 16); A_bsd (C_connect 48 peer 16);
   A_udp_open 0 123; A_tcp_open 0; A_use (U_sendto [1; 2; 3] 16777343 123) 5; A_tcp_close 6;
   A_bsd (C_send 48 [104; 105]); A_bsd (C_close 48); A_stack (S_eth_event ETHERNET_EVENT_CONNECTED)].

Lemma boot_env_ok : core_inv boot_env.
Proof. apply map_Forall_empty. Qed.

Lemma tiny_static_ok : static_config_ok (E := whole).
Proof. by intros Hd. Qed.

End Whole.

Import Whole.

Lemma sockets_accounted_witness :
  exists g e, perform_all 2000 script (Hands [] []) globals_zero boot_env =
      Some (Hands [(3, KTcp)] [(5, KUdp)], g, e) /\ all_closed g /\
    own (16777215 - total_cost script) [(3, KTcp); (5, KUdp)] g e /\
    core_is (16777215 - total_cost script) g e (list_to_map [(3, KTcp); (5, KUdp)]).
Proof.
  pose (x := default (Hands [] [], globals_zero, boot_env)
               (perform_all 2000 script (Hands [] []) globals_zero boot_env)).
  assert (Hrun : perform_all 2000 script (Hands [] []) globals_zero boot_env =
    Some (Hands [(3, KTcp)] [(5, KUdp)], x.1.2, x.2)) by (vm_compute; reflexivity).
  assert (Hc : all_closed x.1.2).
  { intros i Hi. do 4 (destruct i as [|i]; [vm_compute; reflexivity|]). cbn in Hi. lia. }
  clearbody x. exists x.1.2, x.2. split; [exact Hrun|]. split; [exact Hc|].
  destruct (sockets_accounted 2000 script boot_env _ _ _ boot_env_ok tiny_static_ok
    ltac:(vm_compute; discriminate) Hrun) as [Ho Hm].
  split; [exact Ho|]. exact (Hm Hc).
Defined.
