(* ===== verification/Example.v ===== *)
(** * The example application

    [examples/eth_basic/main/main.c]: the driver installation, the event
    callback that logs the address, and [app_main]. *)

From S2P Require Import Prelude Prog Ipv4 Types Platform Sim L2Tap NetStack NetSock Ntp.

Section code.
Context `{cfg : Config} {E : Type} `{!Platform E}.

(** [TAG] *)
Definition TAG : string := "eth_basic".

(** [ESP_ERROR_CHECK(p); k]: an error aborts the program ([None]). *)
Definition ESP_ERROR_CHECK {A} (p : cprog esp_err) (k : cprog (option A)) : cprog (option A) :=
  r ← p;
  if decide (r = ESP_OK) then k else mret None.

Definition install_ethernet : cprog (option ptr) :=
  mac ← idf (EspEthMacNewEsp32 31 52);
  phy ← idf (EspEthPhyNewIp101 1 51);
  r ← idf (EspEthDriverInstall mac phy);
  ESP_ERROR_CHECK (mret r.1) (mret (Some r.2)).

(** [b] are the bytes of the address in memory; [%u] and [%d] print decimals. *)
Definition on_evt (iface : nat) (evt : net_event) : cprog unit :=
  if decide (evt = NET_EVT_GOT_IP) then
    ip ← net_stack_get_ipv4 iface;
    let b := le_split 4 ip in
    idf (EspLog LOG_INFO TAG
      ("iface=" +:+ pretty (Z.of_nat iface) +:+ " got IP " +:+ dotted_quad b))
  else mret tt.

(** [on_evt_cb] and [ptp_rx_cb] are the addresses of the callbacks. *)
Definition app_main (on_evt_cb ptp_rx_cb : ptr) : cprog (option unit) :=
  ESP_ERROR_CHECK (idf NvsFlashInit) (
  ESP_ERROR_CHECK (idf EspEventLoopCreateDefault) (
    eth ← install_ethernet;
    match eth with
    | None => mret None
    | Some eth =>
        ESP_ERROR_CHECK net_stack_init (
          net_stack_register_event_cb on_evt_cb NULL;;
          ESP_ERROR_CHECK (esp_smoltcp_attach_eth (ptp_start ptp_rx_cb) eth) (
            r ← esp_smoltcp_wait_for_ip NET_IFACE_ETH 15000;
            (if decide (r = ESP_OK)
             then idf (EspLog LOG_INFO TAG "online — BSD sockets are now functional")
             else idf (EspLog LOG_WARN TAG "no IP after 15 s — check link / DHCP"));;
            mret (Some tt)))
    end)).
End code.

(** Creations of the default event loop that succeeded. *)
Definition ev_loop (ev : event) : option unit :=
  let (X, cr) := ev in
  match cr.1 in ccall X return X -> option unit with
  | Idf c =>
      match c in idf_call X return X -> option unit with
      | EspEventLoopCreateDefault => fun r => if decide (r = ESP_OK) then Some tt else None
      | _ => fun _ => None
      end
  | _ => fun _ => None
  end cr.2.

(** Lines logged: tag and text. *)
Definition ev_log (ev : event) : option (string * string) :=
  match ev with
  | existT _ (c, _) => match c with Idf (EspLog _ tag text) => Some (tag, text) | _ => None end
  end.

Section example.
Context `{cfg : Config} {E : Type} `{!Platform E, !History E}.
Implicit Types (g : globals) (e : E).

(** ESP-IDF has one default event loop: a second creation is an error. *)
Definition one_event_loop : Prop := forall e,
  (ext _ (Idf EspEventLoopCreateDefault) e).1
  = if decide (picked ev_loop e = []) then ESP_OK else ESP_ERR_INVALID_STATE.

(** With the loop created once, [net_stack_init] fails. *)
Lemma wp_init_loop_exists g e Q :
  one_event_loop -> (forall e, (ext _ (Idf NvsFlashInit) e).1 = ESP_OK) ->
  picked ev_loop e = [tt] -> net_inited (net g) = false ->
  (forall e', Q ESP_ERR_INVALID_STATE (upd_net (set_net_inited true) g) e') ->
  wp ext net_stack_init g e Q.
Proof.
  intros Hloop Hnvs He Hinit HQ. unfold net_stack_init, ESP_RETURN_ON_ERROR.
  rewrite wp_gets, Hinit, wp_modify, wp_idf, Hnvs. rewrite decide_True by done.
  set (e3 := (ext _ (Idf NvsFlashInit) e).2).
  assert (Hp3 : picked ev_loop e3 = [tt]) by (subst e3; by rewrite picked_step, He).
  rewrite wp_idf, (Hloop e3), Hp3. rewrite (decide_False (P := [tt] = [])) by done.
  rewrite decide_False, wp_ret by done. apply HQ.
Qed.

(** The example application aborts at start-up. It creates the default event
    loop and then calls [esp_smoltcp_init], which creates it again and returns
    ESP-IDF's error for that; [ESP_ERROR_CHECK] stops the program, at the latest
    there, before a callback is registered or Ethernet attached. *)
Theorem app_main_aborts on_evt_cb ptp_rx_cb g e :
  one_event_loop -> (forall e, (ext _ (Idf NvsFlashInit) e).1 = ESP_OK) ->
  picked ev_loop e = [] -> net_inited (net g) = false ->
  exists g' e', run ext (app_main on_evt_cb ptp_rx_cb) g e = Some (None, g', e') /\
    (g' = g \/ g' = upd_net (set_net_inited true) g).
Proof.
  intros Hloop Hnvs He Hinit.
  enough (Hwp : wp ext (app_main on_evt_cb ptp_rx_cb) g e (fun r g' _ =>
    r = None /\ (g' = g \/ g' = upd_net (set_net_inited true) g))).
  { apply wp_run in Hwp as (r & g' & e' & ? & -> & ?). eauto. }
  unfold app_main, ESP_ERROR_CHECK. rewrite wp_idf, Hnvs. rewrite decide_True by done.
  set (e1 := (ext _ (Idf NvsFlashInit) e).2).
  assert (Hp1 : picked ev_loop e1 = []) by (subst e1; by rewrite picked_step, He).
  rewrite wp_idf, (Hloop e1), Hp1. rewrite !decide_True by done.
  set (e2 := (ext _ (Idf EspEventLoopCreateDefault) e1).2).
  assert (Hp2 : picked ev_loop e2 = [tt]).
  { subst e2. rewrite picked_step, Hp1, (Hloop e1), Hp1. cbn. by rewrite !decide_True. }
  rewrite wp_bind. unfold install_ethernet, ESP_ERROR_CHECK. rewrite !wp_idf, wp_mret_bind.
  case_decide; [|rewrite !wp_ret; auto]. rewrite !wp_ret, wp_bind.
  apply wp_init_loop_exists; [done..| |done|].
  - rewrite !picked_step, Hp2. by rewrite !app_nil_r.
  - intros e'. rewrite decide_False, wp_ret by done. auto.
Qed.

(** The event callback logs the address in the right order. When the core
    reports the address with octets [a.b.c.d], the first one lowest in memory,
    the callback for a got-IP event logs exactly one line, with that dotted
    quad; for any other event it logs nothing. *)
Theorem on_evt_logs_address iface evt g e a b c d :
  (iface < NET_IFACE_MAX)%nat -> enabled (iface_at iface g) = true ->
  byte_ok a -> byte_ok b -> byte_ok c -> byte_ok d ->
  (forall e, (ext _ (Core (Smoltcp_iface_get_ipv4 (smoltcp_handle (iface_at iface g)))) e).1
     = ipv4_to_be [a; b; c; d]) ->
  exists e', run ext (on_evt iface evt) g e = Some (tt, g, e') /\
    picked ev_log e' = picked ev_log e ++
      (if decide (evt = NET_EVT_GOT_IP)
       then [("eth_basic", "iface=" +:+ pretty (Z.of_nat iface) +:+ " got IP " +:+
              dotted_quad [a; b; c; d])%string] else []).
Proof.
  intros Hi Hen Ha Hb Hc Hd Hip.
  enough (Hwp : wp ext (on_evt iface evt) g e (fun _ g' e' => g' = g /\
    picked ev_log e' = picked ev_log e ++
      (if decide (evt = NET_EVT_GOT_IP)
       then [("eth_basic", "iface=" +:+ pretty (Z.of_nat iface) +:+ " got IP " +:+
              dotted_quad [a; b; c; d])%string] else []))).
  { apply wp_run in Hwp as ([] & g' & e' & ? & -> & ?). eauto. }
  unfold on_evt. case_decide; [|rewrite wp_ret; by rewrite app_nil_r].
  unfold net_stack_get_ipv4, query_iface, locked_at, SMOLTCP_LOCK, SMOLTCP_UNLOCK. rewrite wp_bind.
  prog_steps. rewrite Hen, (proj2 (Nat.leb_gt _ _) Hi). cbn [orb negb].
  rewrite wp_rtos. prog_steps. rewrite wp_core, Hip, wp_rtos. prog_steps. rewrite wp_idf_last.
  split; [done|]. rewrite !picked_step. cbn [ev_log]. rewrite !app_nil_r.
  assert (Hall : Forall byte_ok [a; b; c; d]) by (repeat (apply Forall_cons_2; [done|]); constructor).
  by rewrite (ipv4_from_to_be [a; b; c; d] eq_refl Hall : le_split 4 _ = _).
Qed.
End example.

(** ** Witnesses *)

#[local] Existing Instance tiny.

(** An ESP-IDF with one event loop. *)
Definition loop_oracle : oracle := fun X c h =>
  match c in ccall X return X with
  | Idf c0 =>
      match c0 in idf_call X return X with
      | EspEventLoopCreateDefault =>
          if decide (omap ev_loop h = []) then ESP_OK else ESP_ERR_INVALID_STATE
      | c0 => default_idf c0 (length h)
      end
  | Rtos c0 => default_rtos c0 (length h)
  | Core c0 => default_core c0 (length h)
  end.

Lemma app_main_aborts_witness :
  exists g' (e' : sim loop_oracle),
    run ext (app_main (E := sim loop_oracle) 1000 1004) globals_zero (@sim_start loop_oracle)
      = Some (None, g', e').
Proof.
  destruct (app_main_aborts (E := sim loop_oracle) 1000 1004 globals_zero (@sim_start loop_oracle))
    as (g' & e' & Hrun & _).
  - intros e. reflexivity.
  - intros e. reflexivity.
  - reflexivity.
  - reflexivity.
  - exists g', e'. exact Hrun.
Defined.

(** A core with the address 192.168.1.50. *)
Definition address_oracle : oracle := fun X c h =>
  match c in ccall X return X with
  | Core c0 =>
      match c0 in core_call X return X with
      | Smoltcp_iface_get_ipv4 _ => ipv4_to_be [192; 168; 1; 50]
      | c0 => default_core c0 (length h)
      end
  | Rtos c0 => default_rtos c0 (length h)
  | Idf c0 => default_idf c0 (length h)
  end.

Lemma on_evt_logs_address_witness :
  exists e' : sim address_oracle,
    run ext (on_evt NET_IFACE_ETH NET_EVT_GOT_IP) (upd_iface 0 (set_enabled true) globals_zero)
      (@sim_start address_oracle)
      = Some (tt, upd_iface 0 (set_enabled true) globals_zero, e') /\
    picked ev_log e' = [("eth_basic", "iface=0 got IP 192.168.1.50")%string].
Proof.
  destruct (on_evt_logs_address (E := sim address_oracle) NET_IFACE_ETH NET_EVT_GOT_IP
    (upd_iface 0 (set_enabled true) globals_zero) (@sim_start address_oracle) 192 168 1 50)
    as (e' & Hrun & Hlog); try (split; [done|reflexivity]).
  - unfold NET_IFACE_ETH, NET_IFACE_MAX. lia.
  - reflexivity.
  - intros e. reflexivity.
  - exists e'. split; [exact Hrun|]. rewrite Hlog. reflexivity.
Defined.
