(* ===== verification/Locks.v ===== *)
(** * The locking discipline

    The Rust core is not thread-safe, and three mutexes ([g_smoltcp_lock],
    [s_lock] of [fd_table.c], [s_lock] of [loopback.c]) serialise the tasks that
    run this code. This file states the discipline as a property of programs,
    proves it of the entry points, and proves what it buys on an interleaving
    semantics in which every access and call of every task is its own step:
    mutual exclusion around the core, and freedom from deadlock. *)

From S2P Require Import Prelude Prog Types Platform Sim FramePool L2Tap NetStack NetSock Loopback FdTable SockWrap SelectWrap NetdbWrap NetifShim Ntp.

(** ** The discipline *)

(** The mutexes a task holds, last taken first. *)
Abbreviation held := (list mutex) (only parsing).

(** The order in which they nest. *)
Definition lock_rank (m : mutex) : nat :=
  match m with M_fd => 0 | M_lo => 1 | M_smoltcp => 2 end.

Definition below (m : mutex) (h : held) : bool :=
  forallb (fun x => lock_rank x <? lock_rank m)%nat h.

(** Core calls that build new objects: they need no lock. *)
Definition constructs {X} (c : core_call X) : bool :=
  match c with Smoltcp_core_init | Smoltcp_iface_new _ _ => true | _ => false end.

(** The resolver runs for up to five seconds inside the core, and takes no lock. *)
Definition resolves {X} (c : core_call X) : bool :=
  match c with Smoltcp_resolve _ _ _ _ => true | _ => false end.

(** Calls that wait for an event or for time to pass, and callbacks into the
    application, which may call this code again: they must be made with no mutex
    held. Taking a mutex waits too; [lock_step] constrains it by the order. *)
Definition open_call {X} (c : ccall X) : bool :=
  match c with
  | Core c => resolves c
  | Rtos (VTaskDelay _) | Rtos (UlTaskNotifyTake _ _) | Rtos (XEventGroupWaitBits _ _ _ _ _) => true
  | Rtos (XQueueReceive _ t) | Rtos (XQueueSend _ _ t) => negb (t =? 0)
  | Idf (UserEventCb _ _ _ _) | Idf (L2TapCb _ _ _ _ _) => true
  | _ => false
  end.

Definition call_ok {X} (c : ccall X) (h : held) : bool :=
  match c with
  | Core c =>
      if resolves c then bool_decide (h = []) else constructs c || bool_decide (M_smoltcp ∈ h)
  | c => negb (open_call c) || bool_decide (h = [])
  end.

(** What a call does to the mutexes held; [None] for a call the discipline
    forbids: taking out of order, releasing what was not taken last, calling the
    core (the resolver apart) without its lock, waiting with a lock held. *)
Definition lock_step {X} (c : ccall X) (h : held) : option held :=
  match c with
  | Rtos (XSemaphoreTake m) => if below m h then Some (m :: h) else None
  | Rtos (XSemaphoreGive m) =>
      match h with m' :: h => if decide (m' = m) then Some h else None | [] => None end
  | c => if call_ok c h then Some h else None
  end.

(** [locks h p Q]: started holding [h], [p] keeps to the discipline whatever it
    reads and is answered, and ends holding mutexes that satisfy [Q]. *)
Fixpoint locks (h : held) {A} (p : cprog A) (Q : held -> Prop) : Prop :=
  match p with
  | Ret _ => Q h
  | Get k => forall s, locks h (k s) Q
  | Put _ k => locks h k Q
  | Call c k => match lock_step c h with
                | Some h' => forall r, locks h' (k r) Q
                | None => False
                end
  | Spin => True
  end.

(** Balanced: [p] ends holding what it started with. *)
Definition bal (h : held) {A} (p : cprog A) : Prop := locks h p (eq h).

Section rules.
Implicit Types (h : held) (Q : held -> Prop).

Lemma locks_mono h {A} (p : cprog A) Q1 Q2 :
  locks h p Q1 -> (forall h, Q1 h -> Q2 h) -> locks h p Q2.
Proof.
  intros Hp HQ. revert h Hp. induction p; cbn; eauto.
  intros h. destruct (lock_step c h); eauto.
Qed.

Lemma locks_bind h {A B} (p : cprog A) (f : A -> cprog B) Q :
  locks h p (fun h' => forall a, locks h' (f a) Q) -> locks h (p ≫= f) Q.
Proof.
  unfold mbind, prog_mbind. revert h. induction p; intros h; cbn; eauto.
  destruct (lock_step c h); eauto.
Qed.

Lemma locks_bal h {A B} (p : cprog A) (f : A -> cprog B) Q :
  bal h p -> (forall a, locks h (f a) Q) -> locks h (p ≫= f) Q.
Proof. intros Hp Hf. apply locks_bind. eapply locks_mono; [exact Hp|]. by intros ? <-. Qed.

Lemma locks_take h m {B} (f : unit -> cprog B) Q :
  below m h = true -> (forall r, locks (m :: h) (f r) Q) ->
  locks h (rtos (XSemaphoreTake m) ≫= f) Q.
Proof. intros Hb Hf. cbn. by rewrite Hb. Qed.

Lemma locks_give h m {B} (f : unit -> cprog B) Q :
  (forall r, locks h (f r) Q) -> locks (m :: h) (rtos (XSemaphoreGive m) ≫= f) Q.
Proof. intros Hf. cbn. by rewrite decide_True. Qed.

Lemma locks_give_last h m : locks (m :: h) (rtos (XSemaphoreGive m)) (eq h).
Proof. cbn. by rewrite decide_True. Qed.

(** Calls that leave the mutexes alone. *)
Definition plain {X} (c : ccall X) : bool :=
  match c with Rtos (XSemaphoreTake _) | Rtos (XSemaphoreGive _) => false | _ => true end.

Lemma bal_call h {X} (c : ccall X) : plain c = true -> call_ok c h = true -> bal h (call c).
Proof.
  intros Hp Hc. unfold bal. cbn.
  assert (lock_step c h = Some h) as ->; [|done].
  destruct c as [?|?|?]; [|cbn in *; by rewrite Hc..].
  destruct c; try done; cbn in *; by rewrite ?Hc.
Qed.

Lemma bal_ret h {A} (a : A) : bal h (mret a).
Proof. done. Qed.

Lemma bal_gets h {A} (f : globals -> A) : bal h (gets f).
Proof. by unfold bal. Qed.

Lemma bal_modify h f : bal h (modify f).
Proof. by unfold bal. Qed.

Lemma bal_for_each h {X} (xs : list X) (body : X -> cprog unit) :
  (forall x, bal h (body x)) -> bal h (for_each xs body).
Proof.
  intros Hb. induction xs; cbn [for_each]; [done|]. by apply locks_bal.
Qed.

Lemma bal_locked h {X} (c : core_call X) :
  resolves c = false -> below M_smoltcp h = true -> bal h (locked c).
Proof.
  intros Hc Hb. unfold bal, locked. apply locks_take; [done|]. intros _.
  apply locks_bal; [|intros r; by apply locks_give].
  apply bal_call; [done|]. cbn. by rewrite Hc, bool_decide_eq_true_2, orb_true_r by by left.
Qed.
End rules.

Create HintDb locks.

#[export] Hint Resolve bal_ret bal_gets bal_modify bal_locked locks_give_last : locks.

Ltac locks_held := rewrite bool_decide_eq_true_2 by (left; done); apply orb_true_r.

Ltac locks_side :=
  first [ reflexivity | assumption | apply orb_true_r
        | cbn; locks_held | cbn; rewrite bool_decide_eq_true_2 by (left; done); reflexivity
        | cbn; apply bool_decide_eq_true_2; assumption
        | match goal with H : forall _, resolves _ = false |- _ => cbn; rewrite H; locks_held end
        | match goal with H : forall _ _, resolves _ = false |- _ => cbn; rewrite H; locks_held end ].

(** One step of a proof of [bal] or [locks]: the first applicable rule. *)
Ltac locks_step :=
  lazymatch goal with
  | |- forall _, _ => intros ?
  | |- locks _ (mret _) _ => reflexivity
  | |- locks _ (Ret _) _ => reflexivity
  | |- locks _ Spin _ => exact I
  | |- locks _ (SMOLTCP_LOCK ≫= _) _ => apply locks_take; [try locks_side|intros ?]
  | |- locks _ (rtos (XSemaphoreTake _) ≫= _) _ => apply locks_take; [try locks_side|intros ?]
  | |- locks _ (SMOLTCP_UNLOCK ≫= _) _ => apply locks_give; intros ?
  | |- locks _ (rtos (XSemaphoreGive _) ≫= _) _ => apply locks_give; intros ?
  | |- locks (_ :: ?h) SMOLTCP_UNLOCK (eq ?h) => apply locks_give_last
  | |- locks (_ :: ?h) (rtos (XSemaphoreGive _)) (eq ?h) => apply locks_give_last
  | |- locks _ (_ ≫= _) _ => apply locks_bal; [|intros ?]
  | |- locks _ (match ?x with _ => _ end) _ => destruct x
  | |- locks ?h ?p (eq ?h) => change (bal h p)
  | |- bal _ (_ ≫= _) => unfold bal
  | |- bal _ (match ?x with _ => _ end) => destruct x
  | |- bal _ (when _ _) => unfold when
  | |- bal _ Spin => exact I
  | |- bal _ (for_each _ _) => apply bal_for_each; intros ?
  | |- bal _ (rtos _) => apply bal_call; [try locks_side|try locks_side]
  | |- bal _ (idf _) => apply bal_call; [try locks_side|try locks_side]
  | |- bal _ (core _) => apply bal_call; [try locks_side|try locks_side]
  | |- bal _ _ => solve [ eauto 3 with locks ]
  end.

Ltac locks_auto := repeat (locks_step; cbn beta).

(** ** The functions of the program *)

Section functions.
Context `{cfg : Config} {E : Type} `{!Platform E, !SocketConsts}.
Implicit Types (h : held).

Lemma bal_kick h : bal h net_stack_kick_poll.
Proof. unfold net_stack_kick_poll. locks_auto. Qed.

Lemma bal_free_frame h f : bal h (net_frame_free f).
Proof. unfold net_frame_free. locks_auto. Qed.

Lemma bal_alloc_frame h n : bal h (net_frame_alloc n).
Proof. unfold net_frame_alloc, bump_alloc_fail. locks_auto. Qed.

Lemma bal_emit i evt : bal [] (emit_event i evt).
Proof. unfold emit_event. locks_auto. Qed.

Lemma bal_query h i c :
  (forall p, resolves (c p) = false) -> below M_smoltcp h = true -> bal h (query_iface i c).
Proof. intros Hc Hb. unfold query_iface, locked_at. locks_auto. Qed.
End functions.

#[export] Hint Resolve bal_kick bal_free_frame bal_alloc_frame bal_emit bal_query : locks.

(** *** [esp_smoltcp.c] *)

Section stack.
Context `{cfg : Config} {E : Type} `{!Platform E, !SocketConsts}.

Lemma bal_handle_for h i : bal h (handle_for i).
Proof. unfold handle_for, net_iface_get. locks_auto. Qed.

Lemma bal_link_event i up : bal [] (net_stack_link_event i up).
Proof. unfold net_stack_link_event. locks_auto. Qed.

Lemma bal_eth_input buf p : bal [] (eth_input_cb buf p).
Proof. unfold eth_input_cb, net_stack_post_rx. locks_auto. Qed.

Lemma bal_tx_cb h i frame : bal h (smoltcp_glue_tx_cb i frame).
Proof. unfold smoltcp_glue_tx_cb, call_tx, eth_tx. locks_auto. Qed.

Lemma bal_dispatch i f : bal [] (dispatch_tap i f).
Proof. unfold dispatch_tap. locks_auto. Qed.

Lemma bal_handle_rx i f : bal [] (handle_rx i f).
Proof. pose proof bal_dispatch. unfold handle_rx. locks_auto. Qed.

Lemma bal_drain fuel i : bal [] (drain_rx fuel i).
Proof. pose proof bal_handle_rx. induction fuel; cbn [drain_rx]; locks_auto. Qed.

Lemma bal_run_core i : bal [] (run_core i).
Proof.
  pose proof bal_tx_cb. unfold run_core. locks_auto.
Qed.

Lemma bal_poll fuel i : bal [] (poll_iface fuel i).
Proof.
  pose proof bal_drain. pose proof bal_run_core. unfold poll_iface, surface_ip. locks_auto.
Qed.

Lemma bal_soonest h ids next : M_smoltcp ∈ h -> bal h (soonest ids next).
Proof.
  intros Hh. revert next. induction ids as [|i ids IH]; intros next; cbn [soonest]; [done|].
  locks_auto.
Qed.

Lemma bal_task turns fuel : bal [] (net_stack_task turns fuel).
Proof.
  pose proof bal_poll.
  assert (forall ids next, bal [M_smoltcp] (soonest ids next))
    by (intros; apply bal_soonest; by left).
  induction turns; cbn [net_stack_task]; unfold net_stack_turn; locks_auto.
Qed.
End stack.

#[export] Hint Resolve bal_handle_for bal_link_event bal_eth_input bal_poll bal_task : locks.

Section stack_api.
Context `{cfg : Config} {E : Type} `{!Platform E, !SocketConsts}.

Lemma bal_init : bal [] net_stack_init.
Proof.
  unfold net_stack_init, ESP_RETURN_ON_ERROR, init_resources, frame_pool_init. locks_auto.
Qed.

Lemma bal_attach ptp h :
  (forall i, bal [] (ptp i)) -> bal [] (esp_smoltcp_attach_eth ptp h).
Proof.
  intros. unfold esp_smoltcp_attach_eth, ESP_RETURN_ON_ERROR, locked_at. locks_auto.
Qed.

Lemma bal_l2_tap et cb user : bal [] (net_stack_l2_tap et cb user).
Proof. unfold net_stack_l2_tap. locks_auto. Qed.

Lemma bal_l2_send i frame : bal [] (net_stack_l2_send i frame).
Proof. unfold net_stack_l2_send, call_tx, eth_tx. locks_auto. Qed.

Lemma bal_get_stats i out : bal [] (net_stack_get_stats i out).
Proof. unfold net_stack_get_stats, locked_at. locks_auto. Qed.

Lemma bal_get_ipv6 i out : bal [] (esp_smoltcp_get_ipv6_link_local i out).
Proof. unfold esp_smoltcp_get_ipv6_link_local, locked_at. locks_auto. Qed.

Lemma bal_wait_for_ip i ms : bal [] (esp_smoltcp_wait_for_ip i ms).
Proof. unfold esp_smoltcp_wait_for_ip. locks_auto. Qed.

Lemma bal_wait_progress ms : bal [] (net_stack_wait_progress ms).
Proof. unfold net_stack_wait_progress. locks_auto. Qed.

Lemma bal_event_cb cb user : bal [] (net_stack_register_event_cb cb user).
Proof. unfold net_stack_register_event_cb. locks_auto. Qed.

Lemma bal_eth_event id : bal [] (eth_event id).
Proof. unfold eth_event. locks_auto. Qed.
End stack_api.

#[export] Hint Resolve bal_init bal_attach bal_l2_tap bal_l2_send bal_get_stats bal_get_ipv6
  bal_wait_for_ip bal_wait_progress bal_event_cb bal_eth_event : locks.

(** *** [esp_smoltcp_sock.c] *)

Section sock.
Context `{cfg : Config} {E : Type} `{!Platform E, !SocketConsts}.

Lemma bal_tcp_open h i : below M_smoltcp h = true -> bal h (net_tcp_open i).
Proof. intros. unfold net_tcp_open. locks_auto. Qed.

Lemma bal_udp_open h i p : below M_smoltcp h = true -> bal h (net_udp_open i p).
Proof. intros. unfold net_udp_open. locks_auto. Qed.

Lemma bal_tcp_close h s : below M_smoltcp h = true -> bal h (net_tcp_close s).
Proof. intros. unfold net_tcp_close. locks_auto. Qed.

Lemma bal_udp_close h s : below M_smoltcp h = true -> bal h (net_udp_close s).
Proof. intros. unfold net_udp_close. locks_auto. Qed.

Lemma bal_tcp_listen h s p : below M_smoltcp h = true -> bal h (net_tcp_listen s p).
Proof. intros. unfold net_tcp_listen. locks_auto. Qed.

Lemma bal_query_sock h {A} s (none : A) c :
  (forall p n, resolves (c p n) = false) -> below M_smoltcp h = true -> bal h (query_sock s none c).
Proof. intros Hc ?. unfold query_sock. locks_auto. Qed.

Lemma bal_deadline h ms : bal h (deadline_in ms).
Proof. unfold deadline_in, xTaskGetTickCount. locks_auto. Qed.

Lemma bal_tick h : bal h xTaskGetTickCount.
Proof. unfold xTaskGetTickCount. locks_auto. Qed.
End sock.

#[export] Hint Resolve bal_tcp_open bal_udp_open bal_tcp_close bal_udp_close bal_tcp_listen
  bal_query_sock bal_deadline bal_tick : locks.

Section sock_loops.
Context `{cfg : Config} {E : Type} `{!Platform E, !SocketConsts}.

Lemma bal_tcp_connect fuel s ip p ms : bal [] (net_tcp_connect fuel s ip p ms).
Proof.
  assert (forall h d, bal [] (tcp_connect_wait fuel h s d))
    by (induction fuel; intros; cbn [tcp_connect_wait]; locks_auto).
  unfold net_tcp_connect. locks_auto.
Qed.

Lemma bal_tcp_send fuel s buf ms : bal [] (net_tcp_send fuel s buf ms).
Proof.
  assert (forall h d t, bal [] (tcp_send_loop fuel h s buf d t))
    by (induction fuel; intros; cbn [tcp_send_loop]; locks_auto).
  unfold net_tcp_send. locks_auto.
Qed.

Lemma bal_recv_until {A} fuel d (attempt : cprog (option A)) :
  bal [] attempt -> bal [] (recv_until fuel d attempt).
Proof. intros. induction fuel; cbn [recv_until]; locks_auto. Qed.

Lemma bal_tcp_recv fuel s cap ms : bal [] (net_tcp_recv fuel s cap ms).
Proof.
  assert (forall h d, bal [] (recv_until fuel d (tcp_recv_attempt h s cap)))
    by (intros; apply bal_recv_until; unfold tcp_recv_attempt; locks_auto).
  unfold net_tcp_recv. locks_auto.
Qed.

Lemma bal_udp_recv fuel s cap ms : bal [] (net_udp_recvfrom fuel s cap ms).
Proof.
  assert (forall h d, bal [] (recv_until fuel d (udp_recv_attempt h s cap)))
    by (intros; apply bal_recv_until; unfold udp_recv_attempt; locks_auto).
  unfold net_udp_recvfrom. locks_auto.
Qed.

Lemma bal_udp_sendto s buf ip p : bal [] (net_udp_sendto s buf ip p).
Proof. unfold net_udp_sendto. locks_auto. Qed.

Lemma bal_mcast_join i a : bal [] (net_mcast_join i a).
Proof. unfold net_mcast_join. locks_auto. Qed.

Lemma bal_mcast_leave i a : bal [] (net_mcast_leave i a).
Proof. unfold net_mcast_leave. locks_auto. Qed.
End sock_loops.

#[export] Hint Resolve bal_tcp_connect bal_tcp_send bal_tcp_recv bal_udp_recv bal_udp_sendto
  bal_mcast_join bal_mcast_leave : locks.

(** *** The lwIP shim *)

Section shim.
Context `{cfg : Config} {E : Type} `{!Platform E, !SocketConsts}.

Lemma bal_lock_init h : bal h lock_init_once.
Proof. unfold lock_init_once. locks_auto. Qed.

Lemma bal_lo_bind p e : bal [] (lo_bind p e).
Proof. pose proof bal_lock_init. unfold lo_bind, ensure_lo_rx. locks_auto. Qed.

Lemma bal_free_msg h m : bal h (free_msg m).
Proof. unfold free_msg. locks_auto. Qed.

Lemma bal_lo_unbind h fuel p e : below M_lo h = true -> bal h (lo_unbind fuel p e).
Proof.
  intros. pose proof bal_lock_init. pose proof bal_free_msg.
  assert (forall q, bal h (drain_lo fuel q)) by (induction fuel; intros; cbn [drain_lo]; locks_auto).
  unfold lo_unbind. locks_auto.
Qed.

Lemma bal_lo_deliver p s sp buf : bal [] (lo_deliver p s sp buf).
Proof. pose proof bal_lock_init. pose proof bal_free_msg. unfold lo_deliver. locks_auto. Qed.

Lemma bal_fd_get h fd : bal h (fd_get fd).
Proof. unfold fd_get. locks_auto. Qed.

Lemma bal_fd_is_socket h fd : bal h (fd_is_socket fd).
Proof. unfold fd_is_socket. locks_auto. Qed.

Lemma bal_fd_table_init h : bal h fd_table_init.
Proof. unfold fd_table_init. locks_auto. Qed.

Lemma bal_default_iface h : below M_smoltcp h = true -> bal h fd_default_iface.
Proof. intros. unfold fd_default_iface, net_stack_get_ipv4. locks_auto. Qed.

Lemma bal_fd_alloc k : bal [] (fd_alloc k).
Proof.
  pose proof bal_fd_table_init. assert (bal [M_fd] fd_default_iface) by by apply bal_default_iface.
  unfold fd_alloc. locks_auto.
Qed.

Lemma bal_fd_free fuel fd : bal [] (fd_free fuel fd).
Proof.
  pose proof bal_fd_get.
  assert (forall p e, bal [M_fd] (lo_unbind fuel p e)) by (intros; by apply bal_lo_unbind).
  assert (forall s, bal [M_fd] (net_tcp_close s)) by (intros; by apply bal_tcp_close).
  assert (forall s, bal [M_fd] (net_udp_close s)) by (intros; by apply bal_udp_close).
  unfold fd_free, close_loopback, close_sock, close_pool. locks_auto.
Qed.
End shim.

#[export] Hint Resolve bal_lock_init bal_lo_bind bal_free_msg bal_lo_unbind bal_lo_deliver bal_fd_get
  bal_fd_is_socket bal_fd_table_init bal_default_iface bal_fd_alloc bal_fd_free : locks.

Section wrappers.
Context `{cfg : Config} {E : Type} `{!Platform E, !SocketConsts}.

Lemma bal_fail h e : bal h (fail_with e).
Proof. unfold fail_with. locks_auto. Qed.

Lemma bal_socket fuel d t : bal [] (wrap_socket fuel d t).
Proof. pose proof bal_fail. unfold wrap_socket. locks_auto. Qed.

Lemma bal_bind_ fd a n : bal [] (wrap_bind fd a n).
Proof. pose proof bal_fail. unfold wrap_bind. locks_auto. Qed.

Lemma bal_listen fd b : bal [] (wrap_listen fd b).
Proof.
  pose proof bal_fail.
  assert (forall i js, bal [] (arm_pool i js)) by (induction js; cbn [arm_pool]; locks_auto).
  unfold wrap_listen. locks_auto.
Qed.

Lemma bal_accept fuel fd n : bal [] (wrap_accept fuel fd n).
Proof.
  pose proof bal_fail.
  assert (forall i idx c, bal [] (accept_take i idx c n)) by (intros; unfold accept_take; locks_auto).
  assert (forall i js, bal [] (accept_scan i js n))
    by (induction js; cbn [accept_scan]; unfold net_tcp_is_connected; locks_auto).
  assert (forall i t, bal [] (accept_loop fuel i t n))
    by (induction fuel; intros; cbn [accept_loop]; locks_auto).
  unfold wrap_accept. locks_auto.
Qed.

Lemma bal_connect fuel fd a n : bal [] (wrap_connect fuel fd a n).
Proof. pose proof bal_fail. unfold wrap_connect. locks_auto. Qed.

Lemma bal_send fuel fd buf : bal [] (wrap_send fuel fd buf).
Proof. pose proof bal_fail. unfold wrap_send. locks_auto. Qed.

Lemma bal_recv fuel fd n : bal [] (wrap_recv fuel fd n).
Proof. pose proof bal_fail. unfold wrap_recv. locks_auto. Qed.

Lemma bal_sendto fd buf a n : bal [] (wrap_sendto fd buf a n).
Proof. pose proof bal_fail. unfold wrap_sendto. locks_auto. Qed.

Lemma bal_recvfrom fuel fd n fl : bal [] (wrap_recvfrom fuel fd n fl).
Proof. pose proof bal_fail. unfold wrap_recvfrom. locks_auto. Qed.

Lemma bal_close fuel fd : bal [] (wrap_close fuel fd).
Proof. unfold wrap_close. locks_auto. Qed.

Lemma bal_shutdown fd : bal [] (wrap_shutdown fd).
Proof. pose proof bal_fail. unfold wrap_shutdown. locks_auto. Qed.

Lemma bal_setsockopt fd l o v n : bal [] (wrap_setsockopt fd l o v n).
Proof. pose proof bal_fail. unfold wrap_setsockopt. locks_auto. Qed.

Lemma bal_getsockopt fd l o n : bal [] (wrap_getsockopt fd l o n).
Proof. pose proof bal_fail. unfold wrap_getsockopt. locks_auto. Qed.

Lemma bal_getsockname fd n : bal [] (wrap_getsockname fd n).
Proof. pose proof bal_fail. unfold wrap_getsockname, net_stack_get_ipv4. locks_auto. Qed.

Lemma bal_fcntl fd c a : bal [] (wrap_fcntl fd c a).
Proof. unfold wrap_fcntl. locks_auto. Qed.

Lemma bal_ioctl fd c a : bal [] (wrap_ioctl fd c a).
Proof. pose proof bal_fail. unfold wrap_ioctl. locks_auto. Qed.
End wrappers.

#[export] Hint Resolve bal_fail bal_socket bal_bind_ bal_listen bal_accept bal_connect bal_send
  bal_recv bal_sendto bal_recvfrom bal_close bal_shutdown bal_setsockopt bal_getsockopt
  bal_getsockname bal_fcntl bal_ioctl : locks.

Section more.
Context `{cfg : Config} {E : Type} `{!Platform E, !SocketConsts}.

Lemma bal_readable fuel i : bal [] (fd_readable fuel i).
Proof.
  assert (forall js, bal [] (any_connected i js))
    by (induction js; cbn [any_connected]; unfold net_tcp_is_connected; locks_auto).
  unfold fd_readable, net_tcp_recv_queue, net_tcp_is_connected. locks_auto.
Qed.

Lemma bal_writable i : bal [] (fd_writable i).
Proof. unfold fd_writable, net_tcp_send_capacity. locks_auto. Qed.

Lemma bal_select_scan fuel fds r w acc : bal [] (select_scan fuel fds r w acc).
Proof.
  pose proof bal_readable. pose proof bal_writable.
  revert acc. induction fds; intros; cbn [select_scan]; unfold when_set; locks_auto.
Qed.

Lemma bal_select fuel n r w t : bal [] (wrap_select fuel n r w t).
Proof.
  pose proof bal_select_scan.
  assert (forall n r w d, bal [] (select_loop fuel n r w d))
    by (induction fuel; intros; cbn [select_loop]; locks_auto).
  unfold wrap_select. locks_auto.
Qed.

Lemma bal_poll_wrap fuel fds ms : bal [] (wrap_poll fuel fds ms).
Proof. pose proof bal_select. unfold wrap_poll. locks_auto. Qed.

Lemma bal_read fuel fd n : bal [] (wrap_read fuel fd n).
Proof. unfold wrap_read. locks_auto. Qed.

Lemma bal_write fuel fd buf : bal [] (wrap_write fuel fd buf).
Proof. unfold wrap_write. locks_auto. Qed.

Lemma bal_get_ip_info n w : bal [] (netif_get_ip_info n w).
Proof.
  unfold netif_get_ip_info, net_stack_get_ipv4, net_stack_get_gateway, net_stack_get_netmask.
  locks_auto.
Qed.

Lemma bal_netif_up n : bal [] (netif_is_netif_up n).
Proof. unfold netif_is_netif_up, net_stack_get_ipv4. locks_auto. Qed.

(** The resolver functions: they hold nothing at their core call. *)
Lemma bal_getaddrinfo node service hints want : bal [] (wrap_getaddrinfo node service hints want).
Proof. unfold wrap_getaddrinfo, pick_iface, net_stack_smoltcp_handle. locks_auto. Qed.

Lemma bal_freeaddrinfo res : bal [] (wrap_freeaddrinfo res).
Proof. unfold wrap_freeaddrinfo. locks_auto. Qed.

Lemma bal_gethostbyname name : bal [] (wrap_gethostbyname name).
Proof. unfold wrap_gethostbyname, pick_iface, net_stack_smoltcp_handle. locks_auto. Qed.

Lemma bal_ntp turns fuel i : bal [] (ntp_task turns fuel i).
Proof.
  assert (forall s a, bal [] (ntp_rounds turns fuel s a))
    by (induction turns; intros; cbn [ntp_rounds]; unfold ntp_round; locks_auto).
  unfold ntp_task. locks_auto.
Qed.

Lemma bal_ptp_start cb i : bal [] (ptp_start cb i).
Proof. unfold ptp_start. locks_auto. Qed.
End more.

#[export] Hint Resolve bal_select bal_poll_wrap bal_read bal_write bal_get_ip_info bal_netif_up
  bal_ntp bal_ptp_start bal_getaddrinfo bal_freeaddrinfo bal_gethostbyname : locks.
