(* ===== verification/Tasks.v ===== *)
(** * Tasks: the discipline on an interleaving semantics

    The tasks of the system run one access or one outside call at a time, in any
    order, and an outside call may be answered in any way. On this semantics the
    discipline of [Locks] gives mutual exclusion around the Rust core, the
    resolver apart, and freedom from deadlock; [getaddrinfo], whose call of the
    core takes no lock, races with the poll task. *)

From S2P Require Import Prelude Prog Ipv4 Types Platform Sim FramePool L2Tap NetStack NetSock Loopback FdTable SockWrap SelectWrap NetdbWrap NetifShim Ntp Locks.

(** A task: the mutexes it has taken and not given back, and the rest of its
    program. *)
Record task := Task { owned : list mutex; code : cprog unit }.

#[export] Instance task_inhabited : Inhabited task := populate (Task [] (mret tt)).

Definition config : Type := globals * list task.

(** One step of one task. A mutex is granted when no task owns it; FreeRTOS
    mutexes are not recursive, so the task itself counts. *)
Inductive step : config -> config -> Prop :=
  | step_get i g ts h k :
      ts !! i = Some (Task h (Get k)) -> step (g, ts) (g, <[i := Task h (k g)]> ts)
  | step_put i g g' ts h k :
      ts !! i = Some (Task h (Put g' k)) -> step (g, ts) (g', <[i := Task h k]> ts)
  | step_call i g ts h X (c : ccall X) k r :
      ts !! i = Some (Task h (Call c k)) -> plain c = true ->
      step (g, ts) (g, <[i := Task h (k r)]> ts)
  | step_take i g ts h m k :
      ts !! i = Some (Task h (Call (Rtos (XSemaphoreTake m)) k)) ->
      (forall j t, ts !! j = Some t -> m ∉ owned t) ->
      step (g, ts) (g, <[i := Task (m :: h) (k tt)]> ts)
  | step_give i g ts h m k :
      ts !! i = Some (Task h (Call (Rtos (XSemaphoreGive m)) k)) ->
      step (g, ts) (g, <[i := Task (filter (fun x => x <> m) h) (k tt)]> ts).

(** A task about to call the core on an object that exists. *)
Definition in_core (t : task) : bool :=
  match code t with Call (Core c) _ => negb (constructs c) | _ => false end.

(** A task in the resolver of the core. *)
Definition resolving (t : task) : bool :=
  match code t with Call (Core c) _ => resolves c | _ => false end.

(** A task about to wait, or to call back into the application. *)
Definition at_open_call (t : task) : bool :=
  match code t with Call c _ => open_call c | _ => false end.

(** The mutex a call takes, and the one a task is about to take. *)
Definition takes {X} (c : ccall X) : option mutex :=
  match c with Rtos (XSemaphoreTake m) => Some m | _ => None end.

Definition taking (t : task) : option mutex :=
  match code t with Call c _ => takes c | _ => None end.

Definition finished (t : task) : Prop := code t = Ret tt.

Definition spinning (t : task) : Prop := code t = Spin.

(** ** What tasks may run *)

Section apps.
Context `{cfg : Config} {E : Type} `{!Platform E, !SocketConsts}.

(** The programs of the system's tasks: the poll task, the driver's callbacks,
    the NTP task, and application code, which combines calls of the public
    functions below in any way, the resolver functions among them. Functions that
    only compute ([inet_pton], [inet_ntop], the constant parts of the
    [esp_netif] shim) are values of such a program. *)
Inductive app : forall {A}, cprog A -> Prop :=
  | app_ret {A} (a : A) : app (mret a)
  | app_bind {A B} (p : cprog A) (f : A -> cprog B) :
      app p -> (forall a, app (f a)) -> app (p ≫= f)
  (* esp_smoltcp.c *)
  | app_poll_task turns fuel : app (net_stack_task turns fuel)
  | app_eth_input buf p : app (eth_input_cb buf p)
  | app_eth_event id : app (eth_event id)
  | app_init : app net_stack_init
  | app_attach cb h : app (esp_smoltcp_attach_eth (ptp_start cb) h)
  | app_register cb user : app (net_stack_register_event_cb cb user)
  | app_wait_ip i ms : app (esp_smoltcp_wait_for_ip i ms)
  | app_l2_tap et cb user : app (net_stack_l2_tap et cb user)
  | app_l2_send i frame : app (net_stack_l2_send i frame)
  | app_stats i out : app (net_stack_get_stats i out)
  | app_ipv4 i : app (net_stack_get_ipv4 i)
  | app_gateway i : app (net_stack_get_gateway i)
  | app_netmask i : app (net_stack_get_netmask i)
  | app_wait_progress ms : app (net_stack_wait_progress ms)
  | app_kick : app net_stack_kick_poll
  | app_ipv6 i out : app (esp_smoltcp_get_ipv6_link_local i out)
  (* esp_smoltcp_sock.c *)
  | app_tcp_open i : app (net_tcp_open i)
  | app_tcp_connect fuel s ip p ms : app (net_tcp_connect fuel s ip p ms)
  | app_tcp_listen s p : app (net_tcp_listen s p)
  | app_tcp_send fuel s buf ms : app (net_tcp_send fuel s buf ms)
  | app_tcp_recv fuel s cap ms : app (net_tcp_recv fuel s cap ms)
  | app_tcp_close s : app (net_tcp_close s)
  | app_is_active s : app (net_tcp_is_active s)
  | app_is_connected s : app (net_tcp_is_connected s)
  | app_recv_queue s : app (net_tcp_recv_queue s)
  | app_send_capacity s : app (net_tcp_send_capacity s)
  | app_udp_open i p : app (net_udp_open i p)
  | app_udp_sendto s buf ip p : app (net_udp_sendto s buf ip p)
  | app_udp_recv fuel s cap ms : app (net_udp_recvfrom fuel s cap ms)
  | app_udp_close s : app (net_udp_close s)
  | app_mcast_join i a : app (net_mcast_join i a)
  | app_mcast_leave i a : app (net_mcast_leave i a)
  (* ntp.c *)
  | app_ntp turns fuel i : app (ntp_task turns fuel i)
  (* sock_wrap.c *)
  | app_socket fuel d t : app (wrap_socket fuel d t)
  | app_bind_ fd a n : app (wrap_bind fd a n)
  | app_listen fd b : app (wrap_listen fd b)
  | app_accept fuel fd n : app (wrap_accept fuel fd n)
  | app_connect fuel fd a n : app (wrap_connect fuel fd a n)
  | app_send fuel fd buf : app (wrap_send fuel fd buf)
  | app_recv fuel fd n : app (wrap_recv fuel fd n)
  | app_sendto fd buf a n : app (wrap_sendto fd buf a n)
  | app_recvfrom fuel fd n fl : app (wrap_recvfrom fuel fd n fl)
  | app_close fuel fd : app (wrap_close fuel fd)
  | app_shutdown fd : app (wrap_shutdown fd)
  | app_setsockopt fd l o v n : app (wrap_setsockopt fd l o v n)
  | app_getsockopt fd l o n : app (wrap_getsockopt fd l o n)
  | app_getsockname fd n : app (wrap_getsockname fd n)
  | app_fcntl fd c a : app (wrap_fcntl fd c a)
  | app_ioctl fd c a : app (wrap_ioctl fd c a)
  | app_read fuel fd n : app (wrap_read fuel fd n)
  | app_write fuel fd buf : app (wrap_write fuel fd buf)
  (* netdb_wrap.c *)
  | app_getaddrinfo node service hints want : app (wrap_getaddrinfo node service hints want)
  | app_freeaddrinfo res : app (wrap_freeaddrinfo res)
  | app_gethostbyname name : app (wrap_gethostbyname name)
  (* select_wrap.c, esp_netif_shim.c *)
  | app_select fuel n r w t : app (wrap_select fuel n r w t)
  | app_poll fuel fds ms : app (wrap_poll fuel fds ms)
  | app_ip_info n w : app (netif_get_ip_info n w)
  | app_netif_up n : app (netif_is_netif_up n).

Lemma app_bal {A} (p : cprog A) : app p -> bal [] p.
Proof.
  induction 1; unfold net_stack_get_ipv4, net_stack_get_gateway, net_stack_get_netmask,
    net_tcp_is_active, net_tcp_is_connected, net_tcp_recv_queue, net_tcp_send_capacity;
    by locks_auto.
Qed.
End apps.

(** ** The invariant *)

Record well_locked (c : config) : Prop := {
  wl_locks i t : c.2 !! i = Some t -> locks (owned t) (code t) (eq []);
  wl_nodup i t : c.2 !! i = Some t -> NoDup (owned t);
  wl_excl i j t u m :
    c.2 !! i = Some t -> c.2 !! j = Some u -> m ∈ owned t -> m ∈ owned u -> i = j;
}.

Lemma filter_ne_id (m : mutex) (h : list mutex) : m ∉ h -> filter (fun x => x <> m) h = h.
Proof.
  induction h as [|x h IH]; [done|]. intros [Hx Hh]%not_elem_of_cons.
  rewrite filter_cons_True by done. by rewrite IH.
Qed.

(** Replacing a task by one that owns no more. *)
Lemma well_locked_shrink g g' ts i t t' :
  well_locked (g, ts) -> ts !! i = Some t -> locks (owned t') (code t') (eq []) ->
  (forall m, m ∈ owned t' -> m ∈ owned t) -> NoDup (owned t') ->
  well_locked (g', <[i := t']> ts).
Proof.
  intros [Hl Hn He] Hi Ht' Hsub Hnd. cbn in *.
  pose proof (lookup_lt_Some _ _ _ Hi) as Hlt.
  assert (Hlk : forall j u, <[i := t']> ts !! j = Some u ->
            j = i /\ u = t' \/ j <> i /\ ts !! j = Some u).
  { intros j u. destruct (decide (j = i)) as [->|Hj].
    - rewrite list_lookup_insert_eq by done. intros [= <-]. auto.
    - rewrite list_lookup_insert_ne by done. auto. }
  split; cbn.
  - intros j u [[-> ->]|[_ Hj]]%Hlk; eauto.
  - intros j u [[-> ->]|[_ Hj]]%Hlk; eauto.
  - intros j k u v m [[-> ->]|[_ Hj]]%Hlk [[-> ->]|[_ Hk]]%Hlk Hu Hv; eauto.
Qed.

(** Replacing the program of a task. *)
Lemma well_locked_same g g' ts i h (p p' : cprog unit) :
  well_locked (g, ts) -> ts !! i = Some (Task h p) -> NoDup h -> locks h p' (eq []) ->
  well_locked (g', <[i := Task h p']> ts).
Proof. intros Hw Hi Hn Hp. by refine (well_locked_shrink g g' ts i _ _ Hw Hi _ _ _). Qed.

Lemma well_locked_take g ts i h m (p : cprog unit) t :
  well_locked (g, ts) -> ts !! i = Some t -> owned t = h ->
  (forall j u, ts !! j = Some u -> m ∉ owned u) -> locks (m :: h) p (eq []) ->
  well_locked (g, <[i := Task (m :: h) p]> ts).
Proof.
  intros [Hl Hn He] Hi <- Hfree Hp. cbn in *.
  pose proof (lookup_lt_Some _ _ _ Hi) as Hlt.
  assert (Hlk : forall j u, <[i := Task (m :: owned t) p]> ts !! j = Some u ->
            j = i /\ u = Task (m :: owned t) p \/ j <> i /\ ts !! j = Some u).
  { intros j u. destruct (decide (j = i)) as [->|Hj].
    - rewrite list_lookup_insert_eq by done. intros [= <-]. auto.
    - rewrite list_lookup_insert_ne by done. auto. }
  split; cbn.
  - intros j u [[-> ->]|[_ Hj]]%Hlk; eauto.
  - intros j u [[-> ->]|[_ Hj]]%Hlk; cbn; [|eauto]. apply NoDup_cons. eauto.
  - intros j k u v x [[-> ->]|[? Hj]]%Hlk [[-> ->]|[? Hk]]%Hlk Hu Hv; cbn in *; eauto.
    + apply elem_of_cons in Hu as [-> |Hu]; [|eauto]. by destruct (Hfree k v).
    + apply elem_of_cons in Hv as [-> |Hv]; [|eauto]. by destruct (Hfree j u).
Qed.

Lemma plain_step {X} (c : ccall X) h h' : plain c = true -> lock_step c h = Some h' -> h' = h.
Proof.
  destruct c as [?|?|?]; cbn; [destruct c; try done; cbn|..]; intros; repeat case_match; by simplify_eq.
Qed.

Lemma step_well_locked c c' : step c c' -> well_locked c -> well_locked c'.
Proof.
  intros Hs Hw. destruct Hs as [i g ts h k Hi|i g g' ts h k Hi|i g ts h X c k r Hi Hp
    |i g ts h m k Hi Hfree|i g ts h m k Hi]; pose proof (wl_locks _ Hw i _ Hi) as Hl;
    pose proof (wl_nodup _ Hw i _ Hi) as Hn; cbn [owned code locks] in *.
  - by eapply well_locked_same.
  - by eapply well_locked_same.
  - destruct (lock_step c h) as [h'|] eqn:Hc; [|done].
    apply plain_step in Hc as ->; [|done]. by eapply well_locked_same.
  - destruct (lock_step _ h) as [h'|] eqn:Hc; [|done]. cbn in Hc.
    destruct (below m h); simplify_eq. by eapply well_locked_take.
  - destruct (lock_step _ h) as [h'|] eqn:Hc; [|done]. cbn in Hc.
    destruct h as [|m' h]; [done|]. case_decide; simplify_eq.
    apply NoDup_cons in Hn as [Hm Hn]. rewrite filter_cons_False by auto.
    rewrite filter_ne_id by done. refine (well_locked_shrink g g ts i _ _ Hw Hi _ _ _).
    + apply Hl.
    + intros x Hx. by right.
    + done.
Qed.

Lemma steps_well_locked c c' : rtc step c c' -> well_locked c -> well_locked c'.
Proof. induction 1; eauto using step_well_locked. Qed.

(** Tasks at their start: nothing owned, a program of the system. *)
Definition starts `{Config} {E} `{!Platform E, !SocketConsts} (ts : list task) : Prop :=
  Forall (fun t => owned t = [] /\ app (E := E) (code t)) ts.

Lemma starts_well_locked `{Config} {E} `{!Platform E, !SocketConsts} g ts :
  starts (E := E) ts -> well_locked (g, ts).
Proof.
  intros Hs. unfold starts in Hs. rewrite Forall_lookup in Hs. split; cbn.
  - intros i t [-> Happ]%Hs. by apply (app_bal (E := E)).
  - intros i t [-> _]%Hs. constructor.
  - intros i j t u m [-> _]%Hs _ Hm. by apply not_elem_of_nil in Hm.
Qed.

(** ** Progress *)

(** A call other than taking a mutex can be answered. *)
Lemma call_can_step g ts i h X (c : ccall X) k :
  ts !! i = Some (Task h (Call c k)) -> takes c = None -> exists c', step (g, ts) c'.
Proof.
  intros Hi Hc. destruct (plain c) eqn:Hp.
  - exists (g, <[i := Task h (k (default_oracle X c []))]> ts). by eapply step_call.
  - destruct c as [X c|X c|X c]; try done. destruct c; try done. eexists. by eapply step_give.
Qed.

Lemma below_lt m h m' : below m h = true -> m' ∈ h -> (lock_rank m' < lock_rank m)%nat.
Proof.
  unfold below. rewrite forallb_forall. intros Hb Hm%list_elem_of_In. specialize (Hb _ Hm).
  by zify_bools.
Qed.

(** A blocked task is not the last of its chain: some task can step. *)
Lemma chain_progress g ts n i h m k :
  well_locked (g, ts) -> (forall j t, ts !! j = Some t -> ~ spinning t) ->
  (3 - lock_rank m <= n)%nat -> ts !! i = Some (Task h (Call (Rtos (XSemaphoreTake m)) k)) ->
  exists c, step (g, ts) c.
Proof.
  intros Hw Hsp. revert i h m k. induction n as [|n IH]; intros i h m k Hn Hi;
    [destruct m; cbn in Hn; lia|].
  destruct (decide (Exists (fun t => m ∈ owned t) ts)) as [Hex|Hno].
  2:{ eexists. eapply step_take; [done|]. intros j t Hj Hm. apply Hno, Exists_exists.
      exists t. split; [by eapply list_elem_of_lookup_2|done]. }
  apply Exists_exists in Hex as (u & [j Hj]%list_elem_of_lookup & Hm).
  pose proof (wl_locks _ Hw j u Hj) as Hl. destruct u as [hu p]. cbn [owned code] in *.
  destruct p as [[]|k'|g' k'|X c k'|].
  - cbn in Hl. subst. by apply not_elem_of_nil in Hm.
  - eexists. by eapply step_get.
  - eexists. by eapply step_put.
  - destruct (takes c) as [m'|] eqn:Hc; [|by eapply call_can_step].
    destruct c as [X c|X c|X c]; try done. destruct c; try done. cbn in Hc, Hl. simplify_eq.
    destruct (below m' hu) eqn:Hb; [|done]. apply (IH j hu m' k'); [|done].
    pose proof (below_lt _ _ _ Hb Hm). lia.
  - by destruct (Hsp j _ Hj).
Qed.

Lemma progress g ts i t :
  well_locked (g, ts) -> (forall j t, ts !! j = Some t -> ~ spinning t) ->
  ts !! i = Some t -> ~ finished t -> exists c, step (g, ts) c.
Proof.
  intros Hw Hsp Hi Hf. destruct t as [h p]. destruct p as [[]|k|g' k|X c k|].
  - by destruct Hf.
  - eexists. by eapply step_get.
  - eexists. by eapply step_put.
  - destruct (takes c) as [m|] eqn:Hc; [|by eapply call_can_step].
    destruct c as [X c|X c|X c]; try done. destruct c; try done.
    by eapply chain_progress.
  - by destruct (Hsp i _ Hi).
Qed.

(** ** Properties *)

Section properties.
Context `{cfg : Config} {E : Type} `{!Platform E, !SocketConsts}.

(** A reachable task keeps to the discipline with what it holds. *)
Lemma reached_locks g ts c i t :
  starts (E := E) ts -> rtc step (g, ts) c -> c.2 !! i = Some t ->
  well_locked c /\ locks (owned t) (code t) (eq []).
Proof.
  intros Hs Hr Hi. pose proof (steps_well_locked _ _ Hr (starts_well_locked g ts Hs)) as Hw.
  split; [done|]. exact (wl_locks _ Hw i t Hi).
Qed.

(** A task at a core call it may only make with the lock holds the lock. *)
Lemma in_core_holds t :
  locks (owned t) (code t) (eq []) -> in_core t = true -> resolving t = false ->
  M_smoltcp ∈ owned t.
Proof.
  destruct t as [h p]. unfold in_core, resolving. intros Hl Hc Hn.
  destruct p as [?|?|? ?|X cl kk|]; try done. destruct cl as [?|?|? cl]; try done. cbn in *.
  apply negb_true_iff in Hc. rewrite Hn, Hc in Hl. cbn in Hl. by case_bool_decide.
Qed.

(** C1. Mutual exclusion, but for the resolver. Whatever the tasks of the system
    do, the resolver functions included, in whatever interleaving and however
    their calls are answered: a task about to call the core on an object that
    exists holds [g_smoltcp_lock], unless the call is [smoltcp_resolve]; no other
    task holds the lock then; and if two tasks are at such core calls at once,
    one of them is at [smoltcp_resolve]. ([smoltcp_core_init] and
    [smoltcp_iface_new], which make a new object, are called without the lock.) *)
Theorem core_calls_exclusive g ts c i j t u :
  starts (E := E) ts -> rtc step (g, ts) c ->
  c.2 !! i = Some t -> c.2 !! j = Some u -> in_core t = true ->
  (resolving t = false -> M_smoltcp ∈ owned t /\ (M_smoltcp ∈ owned u -> i = j)) /\
  (in_core u = true -> i <> j -> resolving t = true \/ resolving u = true).
Proof.
  intros Hs Hr Hi Hj Ht.
  destruct (reached_locks _ _ _ _ _ Hs Hr Hi) as [Hw Hlt].
  destruct (reached_locks _ _ _ _ _ Hs Hr Hj) as [_ Hlu].
  split.
  - intros Hn. pose proof (in_core_holds t Hlt Ht Hn). split; [done|]. intros. by eapply wl_excl.
  - intros Hu Hij. destruct (resolving t) eqn:Hnt; [by left|].
    destruct (resolving u) eqn:Hnu; [by right|]. destruct Hij. eapply (wl_excl _ Hw); eauto using in_core_holds.
Qed.

(** C28. What is held while waiting. In every interleaving, a task about to sleep
    ([vTaskDelay]), to wait for a notification, for event bits or, with a timeout,
    for a queue, to resolve a name, or to call the event callback or a tap, owns
    no mutex; and a task about to take a mutex, the one wait made with mutexes
    held, owns only mutexes of lower rank: [s_lock] of [fd_table.c], then [s_lock]
    of [loopback.c], then [g_smoltcp_lock]. *)
Theorem open_calls_hold_nothing g ts c i t :
  starts (E := E) ts -> rtc step (g, ts) c -> c.2 !! i = Some t ->
  (at_open_call t = true -> owned t = []) /\
  (forall m m', taking t = Some m -> m' ∈ owned t -> (lock_rank m' < lock_rank m)%nat).
Proof.
  intros Hs Hr Hi. destruct (reached_locks _ _ _ _ _ Hs Hr Hi) as [_ Hl].
  destruct t as [h p]. unfold at_open_call, taking.
  destruct p as [?|?|? ?|X cl kk|]; try done. cbn [locks owned code] in *. split.
  - intros Ht. destruct cl as [X cl|X cl|X cl]; destruct cl; try done; cbn in Hl, Ht;
      rewrite ?Ht in Hl; cbn in Hl; case_bool_decide; done.
  - intros m m' Hm Hin. destruct cl as [X cl|X cl|X cl]; try done. destruct cl; try done.
    cbn in Hm, Hl. simplify_eq. destruct (below m h) eqn:Hb; [|done].
    by apply (below_lt _ _ _ Hb).
Qed.

(** C2. No deadlock. In every reachable state of every interleaving, as long
    as some task has not finished and no loop has run out of fuel, some task
    can take a step: the mutexes can never block each other for ever. *)
Theorem no_deadlock g ts c i t :
  starts (E := E) ts -> rtc step (g, ts) c ->
  (forall j u, c.2 !! j = Some u -> ~ spinning u) ->
  c.2 !! i = Some t -> ~ finished t -> exists c', step c c'.
Proof.
  intros Hs Hr Hsp Hi Hf.
  pose proof (steps_well_locked _ _ Hr (starts_well_locked g ts Hs)) as Hw.
  destruct c as [g' ts']. by eapply progress.
Qed.
End properties.

(** ** Schedules *)

Section schedules.
Context {E : Type} `{!Platform E}.

(** A call answered by the environment, and the mutexes owned after it. *)
Definition answered {X} (c : ccall X) (h : list mutex) (e : E) : X * list mutex * E :=
  match c in ccall X return X * list mutex * E with
  | Rtos r =>
      match r in rtos_call X return X * list mutex * E with
      | XSemaphoreTake m => (tt, m :: h, e)
      | XSemaphoreGive m => (tt, filter (fun x => x <> m) h, e)
      | r => let (x, e) := ext _ (Rtos r) e in (x, h, e)
      end
  | c => let (x, e) := ext _ c e in (x, h, e)
  end.

(** One step of task [i]; it stays put when it waits for a mutex. *)
Definition turn (i : nat) (s : config * E) : config * E :=
  let '(g, ts, e) := s in
  match ts !! i with
  | None => s
  | Some (Task h p) =>
      match p with
      | Ret _ | Spin => s
      | Get k => (g, <[i := Task h (k g)]> ts, e)
      | Put g' k => (g', <[i := Task h k]> ts, e)
      | Call c k =>
          if match takes c with
             | Some m => existsb (fun t => bool_decide (m ∈ owned t)) ts
             | None => false
             end then s
          else let '(x, h, e) := answered c h e in (g, <[i := Task h (k x)]> ts, e)
      end
  end.

(** A schedule: tasks, each with the number of steps it is given. *)
Definition schedule (turns : list (nat * nat)) (s : config * E) : config * E :=
  fold_left (fun s '(i, n) => Nat.iter n (turn i) s) turns s.

Lemma turn_step i s : rtc step s.1 (turn i s).1.
Proof.
  destruct s as [[g ts] e]. unfold turn. cbn [fst].
  destruct (ts !! i) as [[h [a|k|g' k|X c k|]]|] eqn:Hi; try done.
  - by apply rtc_once, step_get.
  - by eapply rtc_once, step_put.
  - destruct (takes c) as [m|] eqn:Hm.
    + destruct c as [X r|X r|X r]; [|done..]. destruct r; try done. cbn in Hm. injection Hm as ->.
      destruct (existsb _ ts) eqn:Hex; [done|]. apply rtc_once, step_take; [done|].
      intros j t Hj Hown. apply not_true_iff_false in Hex. apply Hex, existsb_exists. exists t.
      split; [by eapply list_elem_of_In, list_elem_of_lookup_2|]. by apply bool_decide_eq_true_2.
    + assert (Hplain : plain c = true -> forall x, rtc step (g, ts) (g, <[i := Task h (k x)]> ts))
        by (intros Hp x; by eapply rtc_once, step_call).
      destruct c as [X r|X r|X r]; cbn [answered]; [|by (destruct (ext _ _ e); apply Hplain)..].
      destruct r; try done; try (by destruct (ext _ _ e); apply Hplain).
      by apply rtc_once, step_give.
Qed.

Lemma schedule_steps turns s : rtc step s.1 (schedule turns s).1.
Proof.
  revert s. induction turns as [|[i n] turns IH]; intros s; [done|]. cbn. etrans; [|apply IH].
  induction n as [|n IHn]; [done|]. cbn. etrans; [exact IHn|apply turn_step].
Qed.
End schedules.

(** ** The resolver is outside the discipline *)

#[local] Existing Instance tiny.
#[local] Existing Instance lwip_consts.

(** A task that resolves a name and drops the result. *)
Definition resolver : cprog unit :=
  wrap_getaddrinfo (Some "example.org"%string) None None true ≫=
  fun _ => mret tt.

Definition poller : cprog unit := net_stack_task (E := sim default_oracle) 10 10.

(** The poll task's queue is empty, the interface is up. *)
Definition one_iface_up : globals :=
  upd_iface 0 (fun i => set_smoltcp_handle 512 (set_rx_queue 11 (set_enabled true i))) globals_zero.

(** Seven steps bring the resolver to its core call; five bring the poll task. *)
Definition raced : config * sim default_oracle :=
  schedule [(1, 7); (0, 5)]%nat (one_iface_up, [Task [] poller; Task [] resolver], sim_start).

(** C35. [getaddrinfo] races with the poll task. It calls [smoltcp_resolve]
    without [g_smoltcp_lock], so there is an interleaving, with Ethernet up, in
    which the poll task (holding the lock) and a task resolving a name are inside
    the core at the same time. *)
Theorem getaddrinfo_races :
  exists c t u,
    rtc step (one_iface_up, [Task [] poller; Task [] resolver]) c /\
    c.2 !! 0%nat = Some t /\ c.2 !! 1%nat = Some u /\
    in_core t = true /\ in_core u = true /\ M_smoltcp ∈ owned t.
Proof.
  exists raced.1, (raced.1.2 !!! 0%nat), (raced.1.2 !!! 1%nat).
  split; [apply (schedule_steps _ (one_iface_up, [Task [] poller; Task [] resolver], sim_start))|].
  split; [apply list_lookup_lookup_total_lt; vm_compute; lia|].
  split; [apply list_lookup_lookup_total_lt; vm_compute; lia|].
  split; [by vm_compute|]. split; [by vm_compute|]. vm_compute. left.
Qed.

(** ** Witnesses *)

(** The poll task and a task that sends a datagram. *)
Definition two_tasks : list task :=
  [Task [] poller; Task [] (net_udp_sendto 7 [1; 2] 16777343 53 ≫= fun _ => mret tt)].

Lemma two_tasks_start : starts (E := sim default_oracle) two_tasks.
Proof.
  repeat apply Forall_cons_2; [| |constructor]; (split; [done|]); cbn [code].
  - apply app_poll_task.
  - apply (app_bind (E := sim default_oracle)); [apply app_udp_sendto|intros n; apply app_ret].
Qed.

(** The poll task after [n] steps. *)
Definition polled (n : nat) : config * sim default_oracle := schedule [(0%nat, n)] (one_iface_up, two_tasks, sim_start).

Lemma polled_reached n : rtc step (one_iface_up, two_tasks) (polled n).1.
Proof. apply (schedule_steps _ (one_iface_up, two_tasks, sim_start)). Qed.

Lemma core_calls_exclusive_witness :
  exists c t, rtc step (one_iface_up, two_tasks) c /\ c.2 !! 0%nat = Some t /\
    in_core t = true /\ M_smoltcp ∈ owned t.
Proof.
  exists (polled 5).1, ((polled 5).1.2 !!! 0%nat).
  assert (Ht : (polled 5).1.2 !! 0%nat = Some ((polled 5).1.2 !!! 0%nat))
    by (apply list_lookup_lookup_total_lt; vm_compute; lia).
  assert (Hc : in_core ((polled 5).1.2 !!! 0%nat) = true) by (vm_compute; reflexivity).
  split; [apply polled_reached|]. split; [exact Ht|]. split; [exact Hc|].
  apply (core_calls_exclusive (E := sim default_oracle) _ _ _ 0 0 _ _
    two_tasks_start (polled_reached 5) Ht Ht Hc). vm_compute. reflexivity.
Defined.

Lemma open_calls_hold_nothing_witness :
  exists c t, rtc step (one_iface_up, two_tasks) c /\ c.2 !! 0%nat = Some t /\
    at_open_call t = true /\ owned t = [].
Proof.
  exists (polled 20).1, ((polled 20).1.2 !!! 0%nat).
  assert (Ht : (polled 20).1.2 !! 0%nat = Some ((polled 20).1.2 !!! 0%nat))
    by (apply list_lookup_lookup_total_lt; vm_compute; lia).
  assert (Hc : at_open_call ((polled 20).1.2 !!! 0%nat) = true) by (vm_compute; reflexivity).
  split; [apply polled_reached|]. split; [exact Ht|]. split; [exact Hc|].
  exact (proj1 (open_calls_hold_nothing (E := sim default_oracle) _ _ _ 0 _ two_tasks_start
    (polled_reached 20) Ht) Hc).
Defined.

Lemma no_deadlock_witness : exists c', step (one_iface_up, two_tasks) c'.
Proof.
  apply (no_deadlock (E := sim default_oracle) one_iface_up two_tasks (one_iface_up, two_tasks) 0
    (Task [] poller)).
  - exact two_tasks_start.
  - apply rtc_refl.
  - intros [|[|j]] u Hu Hs; cbn in Hu; simplify_eq; discriminate Hs.
  - reflexivity.
  - discriminate.
Defined.
