(* ===== verification/Typing.v ===== *)
(** * The types of the state

    What the C declarations of the static data promise, as one predicate on the
    state: arrays of their declared sizes, counters within their widths, frame
    buffers of full size with a length that fits, indices inside the arrays they
    index, a name buffer that ends in a zero byte. Every store of every public
    function, callback and task keeps it, so it holds in every state of every
    interleaving. *)

From S2P Require Import Prelude Prog Ipv4 Types Platform Sim FramePool L2Tap NetStack NetSock Loopback FdTable SockWrap SelectWrap NetdbWrap NetifShim Ntp Locks Tasks.

(** ** Typed data *)

Definition u16_ok (z : Z) : Prop := 0 <= z < 65536.

Definition u32_ok (z : Z) : Prop := 0 <= z < 4294967296.

Definition u64_ok (z : Z) : Prop := 0 <= z < 18446744073709551616.

Record iface_typed (it : net_iface) : Prop := {
  it_id : (if_id it < NET_IFACE_MAX)%nat;
  it_rx : u32_ok (rx_frames it) /\ u64_ok (rx_bytes it) /\ u32_ok (rx_drops it);
  it_tx : u32_ok (tx_frames it) /\ u64_ok (tx_bytes it) /\ u32_ok (tx_fails it);
  it_link : u32_ok (link_ups it) /\ u32_ok (link_downs it);
}.

(** The buffer is whole and the frame fits it. *)
Definition frame_typed (f : net_frame) : Prop :=
  Z.of_nat (length (data f)) = NET_FRAME_BUF /\ 0 <= len f <= NET_FRAME_BUF.

Record net_typed `{Config} (n : net_statics) : Prop := {
  nt_ifaces : length (s_ifaces n) = NET_IFACE_MAX /\ Forall iface_typed (s_ifaces n);
  nt_pool : length (s_frame_pool n) = FRAME_POOL_SIZE /\ Forall frame_typed (s_frame_pool n);
  nt_fails : u32_ok (s_frame_alloc_fail n);
  nt_taps : length (s_taps n) = L2_TAP_SLOTS;
}.

Record entry_typed `{Config} (en : fd_entry) : Prop := {
  et_iface : (fd_iface en < NET_IFACE_MAX)%nat;
  et_ports : u16_ok (port en) /\ u16_ok (local_port en);
  et_timeouts : u32_ok (rcv_timeout_ms en) /\ u32_ok (snd_timeout_ms en);
  et_pool : Z.of_nat (pool_len en) <= LISTENER_POOL;
}.

Definition fdt_typed `{Config} (t : fd_statics) : Prop :=
  length (s_table t) = MAX_FDS /\ Forall entry_typed (s_table t).

(** A slot's receiver is an entry of the descriptor table. *)
Definition slot_typed `{Config} (s : lo_slot) : Prop :=
  u16_ok (slot_port s) /\ forall i, slot_fd s = Some i -> (i < MAX_FDS)%nat.

Definition msg_typed (m : lo_msg) : Prop :=
  lo_len m = Z.of_nat (length (lo_data m)) /\ u16_ok (lo_len m).

Record lo_typed `{Config} (l : lo_statics) : Prop := {
  lt_slots : length (s_slots l) = LO_PORT_SLOTS /\ Forall slot_typed (s_slots l);
  lt_heap : map_Forall (fun _ m => msg_typed m) (lo_heap l);
}.

(** The name buffer is a C string whatever was copied into it. *)
Definition netdb_typed (d : netdb_statics) : Prop :=
  length (name_copy d) = 64%nat /\ name_copy d !! 63%nat = Some 0.

Record well_typed `{Config} (g : globals) : Prop := {
  wt_net : net_typed (net g);
  wt_fdt : fdt_typed (fdt g);
  wt_lo : lo_typed (lo g);
  wt_netdb : netdb_typed (netdb g);
}.

(** ** The stores *)

Lemma u16_ok_u16 z : u16_ok (u16 z).
Proof. apply u16_range. Qed.

Lemma u16_ok_ntohs z : u16_ok (ntohs z).
Proof. apply ntohs_range. Qed.

Lemma u32_ok_u32 z : u32_ok (u32 z).
Proof. apply u32_range. Qed.

Lemma u64_ok_u64 z : u64_ok (u64 z).
Proof. apply (wrap_range 64). lia. Qed.

Lemma u32_ok_0 : u32_ok 0.
Proof. unfold u32_ok. lia. Qed.

Lemma u16_ok_0 : u16_ok 0.
Proof. unfold u16_ok. lia. Qed.

#[export] Hint Resolve u16_ok_u16 u16_ok_ntohs u32_ok_u32 u64_ok_u64 u32_ok_0 u16_ok_0 : typed.

Section stores.
Context `{cfg : Config}.
Implicit Types (g : globals).

Lemma entry_zero_typed `{!ConfigOk cfg} : entry_typed fd_entry_zero.
Proof.
  pose proof listener_pool_range. repeat split; cbn; unfold NET_IFACE_MAX; lia.
Qed.

Lemma iface_zero_typed : iface_typed net_iface_zero.
Proof. repeat split; cbn; unfold NET_IFACE_MAX; lia. Qed.

Lemma frame_zero_typed : frame_typed net_frame_zero.
Proof.
  unfold frame_typed, net_frame_zero, NET_FRAME_BUF. cbn [data len]. rewrite length_replicate. lia.
Qed.

Lemma zero_typed `{!ConfigOk cfg} : well_typed globals_zero.
Proof.
  pose proof iface_zero_typed. pose proof frame_zero_typed. pose proof entry_zero_typed.
  split; unfold globals_zero; cbn [net fdt lo netdb].
  - unfold net_statics_zero. split; cbn [s_ifaces s_frame_pool s_taps s_frame_alloc_fail];
      rewrite ?length_replicate; try (split; [done|by apply Forall_replicate]); auto with typed.
  - split; [apply length_replicate|by apply Forall_replicate].
  - split; [|apply map_Forall_empty]. split; [done|]. apply Forall_replicate.
    by split; [apply u16_ok_0|].
  - done.
Qed.

Lemma wt_upd_net f g :
  well_typed g -> (forall n, net_typed n -> net_typed (f n)) -> well_typed (upd_net f g).
Proof. intros [] Hf. split; cbn; auto. Qed.

Lemma wt_upd_iface i f g :
  well_typed g -> (forall it, iface_typed it -> iface_typed (f it)) -> well_typed (upd_iface i f g).
Proof.
  intros Hg Hf. apply wt_upd_net; [done|]. intros n [[Hl Hi] ? ? ?]. split; cbn; [|done..].
  rewrite length_alter. split; [done|]. apply Forall_alter; auto.
Qed.

Lemma wt_upd_frame p f g :
  well_typed g -> (forall fr, frame_typed fr -> frame_typed (f fr)) -> well_typed (upd_frame p f g).
Proof.
  intros Hg Hf. apply wt_upd_net; [done|]. intros n [? [Hl Hi] ? ?]. split; cbn; [done| |done..].
  rewrite length_alter. split; [done|]. apply Forall_alter; auto.
Qed.

Lemma wt_upd_tap i f g : well_typed g -> well_typed (upd_tap i f g).
Proof.
  intros Hg. apply wt_upd_net; [done|]. intros n []. split; cbn; try done. by rewrite length_alter.
Qed.

Lemma wt_upd_fdt f g :
  well_typed g -> (forall t, fdt_typed t -> fdt_typed (f t)) -> well_typed (upd_fdt f g).
Proof. intros [] Hf. split; cbn; auto. Qed.

Lemma wt_upd_entry i f g :
  well_typed g -> (forall en, entry_typed en -> entry_typed (f en)) -> well_typed (upd_entry i f g).
Proof.
  intros Hg Hf. apply wt_upd_fdt; [done|]. intros t [Hl Hi]. split; cbn.
  - by rewrite length_alter.
  - apply Forall_alter; auto.
Qed.

Lemma wt_upd_lo f g :
  well_typed g -> (forall l, lo_typed l -> lo_typed (f l)) -> well_typed (upd_lo f g).
Proof. intros [] Hf. split; cbn; auto. Qed.

Lemma wt_upd_slot i s g : well_typed g -> slot_typed s -> well_typed (upd_slot i s g).
Proof.
  intros Hg Hs. apply wt_upd_lo; [done|]. intros l [[Hl Hi] ?]. split; [|done]. cbn.
  rewrite length_insert. split; [done|]. by apply Forall_insert.
Qed.

Lemma wt_set_errno e g : well_typed g -> well_typed (set_errno e g).
Proof. by intros []. Qed.

(** ** What is read *)

Lemma wt_entry_at i g `{!ConfigOk cfg} : well_typed g -> entry_typed (entry_at i g).
Proof.
  intros [_ [_ Ht] _ _]. unfold entry_at. rewrite list_lookup_total_alt.
  destruct (s_table (fdt g) !! i) as [en|] eqn:Hi; [by eapply Forall_lookup_1|].
  apply entry_zero_typed.
Qed.

Lemma fd_entry_of_lt `{!SocketConsts} fd g i : fd_entry_of fd g = Some i -> (i < MAX_FDS)%nat.
Proof.
  unfold fd_entry_of, fd_in_range, fd_index. case_test; [|done]. intros [= <-].
  unfold fd_in_range in *. zify_bools. lia.
Qed.
End stores.

(** A single store: the rule of its path, then its fields. *)
Ltac typed_fields := split; cbn; intuition (auto with typed; lia).

Ltac typed_store :=
  lazymatch goal with
  | |- well_typed (upd_iface _ _ _) => apply wt_upd_iface; [done|intros ? []; typed_fields]
  | |- well_typed (upd_frame _ _ _) => apply wt_upd_frame; [done|]
  | |- well_typed (upd_tap _ _ _) => by apply wt_upd_tap
  | |- well_typed (upd_net _ _) => apply wt_upd_net; [done|intros ? []; typed_fields]
  | |- well_typed (upd_entry _ _ _) => apply wt_upd_entry; [done|intros ? []; typed_fields]
  | |- well_typed (set_pool_at _ _ _ _) => apply wt_upd_entry; [done|intros ? []; typed_fields]
  | |- well_typed (upd_fdt _ _) => apply wt_upd_fdt; [done|intros ? []; typed_fields]
  | |- well_typed (upd_slot _ _ _) => apply wt_upd_slot; [done|]
  | |- well_typed (upd_lo _ _) => apply wt_upd_lo; [done|intros ? []; typed_fields]
  | |- well_typed (set_errno _ _) => by apply wt_set_errno
  end.

#[export] Hint Extern 0 (well_typed _) => solve [typed_store] : typed.

(** ** The functions *)

(** *** [esp_smoltcp.c] *)

Section stack.
Context `{cfg : Config} `{!ConfigOk cfg} {E : Type} `{!Platform E, !SocketConsts}.

Abbreviation stores p := (preserves well_typed p).

Lemma stores_alloc_fail : stores bump_alloc_fail.
Proof. unfold bump_alloc_fail. typed_auto. Qed.

(** A frame is handed out only for a length that fits its buffer. *)
Lemma typed_frame_alloc n :
  0 <= n -> typed well_typed (fun r => forall f, r = Some f -> n <= NET_FRAME_BUF) (net_frame_alloc n).
Proof.
  pose proof stores_alloc_fail. intros Hn. unfold net_frame_alloc. typed_auto; zify_bools; try done.
  all: try (apply wt_upd_frame; [done|intros ? []; split; cbn; [done|lia]]).
Qed.

Lemma stores_frame_free f : stores (net_frame_free f).
Proof. unfold net_frame_free. typed_auto. Qed.

Lemma stores_kick : stores net_stack_kick_poll.
Proof. unfold net_stack_kick_poll. typed_auto. Qed.

Lemma stores_emit i evt : stores (emit_event i evt).
Proof. unfold emit_event. typed_auto. Qed.

Lemma stores_query i c : stores (query_iface i c).
Proof. unfold query_iface, locked_at. typed_auto. Qed.

Lemma stores_locked {X} (c : core_call X) : stores (locked c).
Proof. unfold locked. typed_auto. Qed.
End stack.

#[export] Hint Resolve stores_alloc_fail typed_frame_alloc stores_frame_free stores_kick stores_emit
  stores_query stores_locked : typed.

Section stack_tasks.
Context `{cfg : Config} `{!ConfigOk cfg} {E : Type} `{!Platform E, !SocketConsts}.

Abbreviation stores p := (preserves well_typed p).

Lemma stores_handle_for i : stores (handle_for i).
Proof. unfold handle_for, net_iface_get. typed_auto. Qed.

Lemma stores_link_event i up : stores (net_stack_link_event i up).
Proof. unfold net_stack_link_event. typed_auto. Qed.

(** The copy into the buffer happens only for a frame that was handed out. *)
Lemma stores_eth_input buf p : stores (eth_input_cb buf p).
Proof.
  assert (Hpost : forall f, stores (net_stack_post_rx NET_IFACE_ETH f))
    by (intros; unfold net_stack_post_rx; typed_auto).
  unfold eth_input_cb. unfold preserves.
  eapply typed_bind; [apply typed_frame_alloc; lia|]. intros [f|] Hf; typed_auto.
  specialize (Hf f eq_refl). apply wt_upd_frame; [done|]. intros fr [Hl Hn]. split; cbn; [|done].
  rewrite length_memcpy; [done| |done]. lia.
Qed.

Lemma stores_tx_cb i frame : stores (smoltcp_glue_tx_cb i frame).
Proof. unfold smoltcp_glue_tx_cb, call_tx, eth_tx. typed_auto. Qed.

Lemma stores_dispatch i f : stores (dispatch_tap i f).
Proof. unfold dispatch_tap. typed_auto. Qed.

Lemma stores_drain fuel i : stores (drain_rx fuel i).
Proof.
  pose proof stores_dispatch.
  assert (forall f, stores (handle_rx i f)) by (intros; unfold handle_rx; typed_auto).
  induction fuel; cbn [drain_rx]; typed_auto.
Qed.

Lemma stores_poll fuel i : stores (poll_iface fuel i).
Proof.
  pose proof stores_tx_cb. pose proof stores_drain.
  assert (stores (run_core i)) by (unfold run_core; typed_auto).
  unfold poll_iface, surface_ip. typed_auto.
Qed.

Lemma stores_soonest ids next : stores (soonest ids next).
Proof.
  revert next. induction ids as [|i ids IH]; intros next; cbn [soonest]; typed_auto.
Qed.

Lemma stores_task turns fuel : stores (net_stack_task turns fuel).
Proof.
  pose proof stores_poll. pose proof stores_soonest.
  induction turns; cbn [net_stack_task]; unfold net_stack_turn; typed_auto.
Qed.

Lemma stores_eth_event id : stores (eth_event id).
Proof. pose proof stores_link_event. unfold eth_event. typed_auto. Qed.

Lemma stores_init : stores net_stack_init.
Proof.
  unfold net_stack_init, ESP_RETURN_ON_ERROR, init_resources, frame_pool_init. typed_auto.
  apply wt_upd_iface; [done|]. intros it []. split; cbn; try done.
  match goal with H : _ ∈ seq 0 NET_IFACE_MAX |- _ => apply elem_of_seq in H; lia end.
Qed.

Lemma stores_l2_tap et cb user : stores (net_stack_l2_tap et cb user).
Proof. unfold net_stack_l2_tap. typed_auto. Qed.

Lemma stores_attach cb h : stores (esp_smoltcp_attach_eth (ptp_start cb) h).
Proof.
  pose proof stores_l2_tap. unfold esp_smoltcp_attach_eth, ESP_RETURN_ON_ERROR, locked_at, ptp_start. typed_auto.
Qed.

Lemma stores_register cb user : stores (net_stack_register_event_cb cb user).
Proof. unfold net_stack_register_event_cb. typed_auto. Qed.

Lemma stores_wait_for_ip i ms : stores (esp_smoltcp_wait_for_ip i ms).
Proof. unfold esp_smoltcp_wait_for_ip. typed_auto. Qed.

Lemma stores_wait_progress ms : stores (net_stack_wait_progress ms).
Proof. unfold net_stack_wait_progress. typed_auto. Qed.

Lemma stores_l2_send i frame : stores (net_stack_l2_send i frame).
Proof. unfold net_stack_l2_send, call_tx, eth_tx. typed_auto. Qed.

Lemma stores_get_stats i out : stores (net_stack_get_stats i out).
Proof. unfold net_stack_get_stats, locked_at. typed_auto. Qed.

Lemma stores_get_ipv6 i out : stores (esp_smoltcp_get_ipv6_link_local i out).
Proof. unfold esp_smoltcp_get_ipv6_link_local, locked_at. typed_auto. Qed.
End stack_tasks.

#[export] Hint Resolve stores_handle_for stores_link_event stores_eth_input stores_task stores_eth_event
  stores_init stores_attach stores_register stores_wait_for_ip stores_wait_progress stores_l2_tap
  stores_l2_send stores_get_stats stores_get_ipv6 : typed.

(** *** [esp_smoltcp_sock.c] *)

Section sock.
Context `{cfg : Config} `{!ConfigOk cfg} {E : Type} `{!Platform E, !SocketConsts}.

Abbreviation stores p := (preserves well_typed p).

Lemma stores_tcp_open i : stores (net_tcp_open i).
Proof. unfold net_tcp_open. typed_auto. Qed.

Lemma stores_udp_open i p : stores (net_udp_open i p).
Proof. unfold net_udp_open. typed_auto. Qed.

Lemma stores_tcp_close s : stores (net_tcp_close s).
Proof. unfold net_tcp_close. typed_auto. Qed.

Lemma stores_udp_close s : stores (net_udp_close s).
Proof. unfold net_udp_close. typed_auto. Qed.

Lemma stores_tcp_listen s p : stores (net_tcp_listen s p).
Proof. unfold net_tcp_listen. typed_auto. Qed.

Lemma stores_query_sock {A} s (none : A) c : stores (query_sock s none c).
Proof. unfold query_sock. typed_auto. Qed.

Lemma stores_deadline ms : stores (deadline_in ms).
Proof. unfold deadline_in, xTaskGetTickCount. typed_auto. Qed.

Lemma stores_tick : stores xTaskGetTickCount.
Proof. unfold xTaskGetTickCount. typed_auto. Qed.

Lemma stores_recv_until {A} fuel d (attempt : cprog (option A)) :
  stores attempt -> stores (recv_until fuel d attempt).
Proof.
  intros. pose proof stores_tick. pose proof stores_wait_progress.
  induction fuel; cbn [recv_until]; typed_auto.
Qed.

Lemma stores_tcp_connect fuel s ip p ms : stores (net_tcp_connect fuel s ip p ms).
Proof.
  pose proof stores_tick. pose proof stores_deadline. pose proof stores_wait_progress.
  assert (forall h d, stores (tcp_connect_wait fuel h s d))
    by (induction fuel; intros; cbn [tcp_connect_wait]; typed_auto).
  unfold net_tcp_connect. typed_auto.
Qed.

Lemma stores_tcp_send fuel s buf ms : stores (net_tcp_send fuel s buf ms).
Proof.
  pose proof stores_tick. pose proof stores_deadline. pose proof stores_wait_progress.
  assert (forall h d t, stores (tcp_send_loop fuel h s buf d t))
    by (induction fuel; intros; cbn [tcp_send_loop]; typed_auto).
  unfold net_tcp_send. typed_auto.
Qed.

Lemma stores_tcp_recv fuel s cap ms : stores (net_tcp_recv fuel s cap ms).
Proof.
  pose proof stores_deadline.
  assert (forall h d, stores (recv_until fuel d (tcp_recv_attempt h s cap)))
    by (intros; apply stores_recv_until; unfold tcp_recv_attempt; typed_auto).
  unfold net_tcp_recv. typed_auto.
Qed.

Lemma stores_udp_recv fuel s cap ms : stores (net_udp_recvfrom fuel s cap ms).
Proof.
  pose proof stores_deadline.
  assert (forall h d, stores (recv_until fuel d (udp_recv_attempt h s cap)))
    by (intros; apply stores_recv_until; unfold udp_recv_attempt; typed_auto).
  unfold net_udp_recvfrom. typed_auto.
Qed.

Lemma stores_udp_sendto s buf ip p : stores (net_udp_sendto s buf ip p).
Proof. unfold net_udp_sendto. typed_auto. Qed.

Lemma stores_mcast_join i a : stores (net_mcast_join i a).
Proof. unfold net_mcast_join. typed_auto. Qed.

Lemma stores_mcast_leave i a : stores (net_mcast_leave i a).
Proof. unfold net_mcast_leave. typed_auto. Qed.

Lemma stores_ntp turns fuel i : stores (ntp_task turns fuel i).
Proof.
  pose proof stores_udp_open. pose proof stores_udp_recv. pose proof stores_udp_sendto.
  pose proof stores_udp_close.
  assert (forall s a, stores (ntp_rounds turns fuel s a))
    by (induction turns; intros; cbn [ntp_rounds]; unfold ntp_round; typed_auto).
  unfold ntp_task. typed_auto.
Qed.
End sock.

#[export] Hint Resolve stores_tcp_open stores_udp_open stores_tcp_close stores_udp_close
  stores_tcp_listen stores_query_sock stores_tcp_connect stores_tcp_send stores_tcp_recv
  stores_udp_recv stores_udp_sendto stores_mcast_join stores_mcast_leave stores_ntp stores_tick : typed.

(** *** The lwIP shim *)

Section shim.
Context `{cfg : Config} `{!ConfigOk cfg} {E : Type} `{!Platform E, !SocketConsts}.

Abbreviation stores p := (preserves well_typed p).

Lemma stores_lock_init : stores lock_init_once.
Proof. unfold lock_init_once. typed_auto. Qed.

Lemma stores_lo_bind p i : u16_ok p -> (i < MAX_FDS)%nat -> stores (lo_bind p (Some i)).
Proof.
  intros. pose proof stores_lock_init. unfold lo_bind, ensure_lo_rx. typed_auto.
  all: apply wt_upd_slot; [done|]; split; [done|]; cbn; congruence.
Qed.

Lemma stores_free_msg m : stores (free_msg m).
Proof.
  unfold free_msg. typed_auto. apply wt_upd_lo; [done|]. intros l []. split; cbn; [done|].
  by apply map_Forall_delete.
Qed.

Lemma stores_lo_unbind fuel p e : stores (lo_unbind fuel p e).
Proof.
  pose proof stores_lock_init. pose proof stores_free_msg.
  assert (forall q, stores (drain_lo fuel q)) by (induction fuel; intros; cbn [drain_lo]; typed_auto).
  unfold lo_unbind. typed_auto. apply wt_upd_slot; [done|]. by split; [apply u16_ok_0|].
Qed.

(** A message records the length of its data. *)
Lemma stores_lo_deliver p s sp buf : stores (lo_deliver p s sp buf).
Proof.
  pose proof stores_lock_init. pose proof stores_free_msg. unfold lo_deliver. typed_auto.
  apply wt_upd_lo; [done|]. intros l []. split; cbn; [done|]. apply map_Forall_insert_2; [|done].
  unfold UINT16_MAX in *. zify_bools. split; cbn; [|auto with typed]. rewrite u16_small; lia.
Qed.

Lemma stores_fd_table_init : stores fd_table_init.
Proof. unfold fd_table_init. typed_auto. Qed.

Lemma typed_default_iface : typed well_typed (fun i => i < NET_IFACE_MAX)%nat fd_default_iface.
Proof.
  assert (NET_IFACE_ETH < NET_IFACE_MAX)%nat by (unfold NET_IFACE_ETH, NET_IFACE_MAX; lia).
  assert (NET_IFACE_WIFI < NET_IFACE_MAX)%nat by (unfold NET_IFACE_WIFI, NET_IFACE_MAX; lia).
  unfold fd_default_iface, net_stack_get_ipv4. typed_auto.
Qed.
End shim.

#[export] Hint Resolve stores_lock_init stores_lo_bind stores_free_msg stores_lo_unbind stores_lo_deliver
  stores_fd_table_init typed_default_iface : typed.

Section fds.
Context `{cfg : Config} `{!ConfigOk cfg} {E : Type} `{!Platform E, !SocketConsts}.

Abbreviation stores p := (preserves well_typed p).

Lemma stores_fd_alloc k : stores (fd_alloc k).
Proof.
  unfold fd_alloc. typed_auto.
Qed.

Lemma stores_close_pool i : stores (close_pool i).
Proof. unfold close_pool. typed_auto. Qed.

Lemma stores_fd_free fuel fd : stores (fd_free fuel fd).
Proof.
  pose proof stores_close_pool. unfold fd_free, fd_get, close_loopback, close_sock. typed_auto.
Qed.

Lemma stores_fail e : stores (fail_with e).
Proof. unfold fail_with. typed_auto. Qed.
End fds.

#[export] Hint Resolve stores_fd_alloc stores_fd_free stores_fail : typed.

#[export] Hint Extern 1 (_ < MAX_FDS)%nat => by eapply fd_entry_of_lt : typed.

(** What an entry read from the state gives to the field it is stored in. *)
#[export] Hint Extern 1 (_ < NET_IFACE_MAX)%nat => by eapply et_iface, wt_entry_at : typed.
#[export] Hint Extern 1 (u16_ok (local_port (entry_at _ _))) => by eapply et_ports, wt_entry_at : typed.

Section wrappers.
Context `{cfg : Config} `{!ConfigOk cfg} {E : Type} `{!Platform E, !SocketConsts}.

Abbreviation stores p := (preserves well_typed p).

Lemma stores_socket fuel d t : stores (wrap_socket fuel d t).
Proof. unfold wrap_socket. typed_auto. Qed.

Lemma stores_bind fd a n : stores (wrap_bind fd a n).
Proof. unfold wrap_bind, fd_get. typed_auto. Qed.

Lemma listen_pool_size_le b : listen_pool_size b <= LISTENER_POOL.
Proof. unfold listen_pool_size. repeat case_test; lia. Qed.

Lemma stores_listen fd b : stores (wrap_listen fd b).
Proof.
  assert (forall i js, stores (arm_pool i js)) by (induction js; cbn [arm_pool]; typed_auto).
  pose proof (listen_pool_size_le b). pose proof listener_pool_range.
  unfold wrap_listen, fd_get. typed_auto.
Qed.

Lemma stores_accept fuel fd n : stores (wrap_accept fuel fd n).
Proof.
  assert (forall i idx c, stores (accept_take i idx c n))
    by (intros; unfold accept_take; typed_auto).
  assert (forall i js, stores (accept_scan i js n))
    by (induction js; cbn [accept_scan]; unfold net_tcp_is_connected; typed_auto).
  assert (forall i t, stores (accept_loop fuel i t n))
    by (induction fuel; intros; cbn [accept_loop]; unfold xTaskGetTickCount; typed_auto).
  unfold wrap_accept, fd_get. typed_auto.
Qed.

Lemma stores_connect fuel fd a n : stores (wrap_connect fuel fd a n).
Proof. unfold wrap_connect, fd_get. typed_auto. Qed.
End wrappers.

#[export] Hint Resolve stores_socket stores_bind stores_listen stores_accept stores_connect : typed.

Section wrappers_io.
Context `{cfg : Config} `{!ConfigOk cfg} {E : Type} `{!Platform E, !SocketConsts}.

Abbreviation stores p := (preserves well_typed p).

Lemma stores_send fuel fd buf : stores (wrap_send fuel fd buf).
Proof. unfold wrap_send, fd_get. typed_auto. Qed.

Lemma stores_recv fuel fd n : stores (wrap_recv fuel fd n).
Proof. unfold wrap_recv, fd_get. typed_auto. Qed.

Lemma stores_sendto fd buf a n : stores (wrap_sendto fd buf a n).
Proof. unfold wrap_sendto, fd_get. typed_auto. Qed.

Lemma stores_recvfrom fuel fd n fl : stores (wrap_recvfrom fuel fd n fl).
Proof. pose proof @stores_free_msg. unfold wrap_recvfrom, fd_get. typed_auto. Qed.

Lemma stores_close fuel fd : stores (wrap_close fuel fd).
Proof. unfold wrap_close, fd_is_socket. typed_auto. Qed.

Lemma stores_shutdown fd : stores (wrap_shutdown fd).
Proof. unfold wrap_shutdown, fd_get. typed_auto. Qed.

Lemma stores_setsockopt fd l o v n : stores (wrap_setsockopt fd l o v n).
Proof. unfold wrap_setsockopt, fd_get, timeval_ms. typed_auto. Qed.

Lemma stores_getsockopt fd l o n : stores (wrap_getsockopt fd l o n).
Proof. unfold wrap_getsockopt, fd_get. typed_auto. Qed.

Lemma stores_getsockname fd n : stores (wrap_getsockname fd n).
Proof. unfold wrap_getsockname, fd_get, net_stack_get_ipv4. typed_auto. Qed.

Lemma stores_fcntl fd c a : stores (wrap_fcntl fd c a).
Proof. unfold wrap_fcntl, fd_get. typed_auto. Qed.

Lemma stores_ioctl fd c a : stores (wrap_ioctl fd c a).
Proof. unfold wrap_ioctl, fd_get. typed_auto. Qed.

Lemma stores_read fuel fd n : stores (wrap_read fuel fd n).
Proof. pose proof stores_recv. unfold wrap_read, fd_is_socket. typed_auto. Qed.

Lemma stores_write fuel fd buf : stores (wrap_write fuel fd buf).
Proof. pose proof stores_send. unfold wrap_write, fd_is_socket. typed_auto. Qed.

Lemma stores_readable fuel i : stores (fd_readable fuel i).
Proof.
  assert (forall js, stores (any_connected i js))
    by (induction js; cbn [any_connected]; unfold net_tcp_is_connected; typed_auto).
  unfold fd_readable, net_tcp_recv_queue, net_tcp_is_connected. typed_auto.
Qed.

Lemma stores_writable i : stores (fd_writable i).
Proof. unfold fd_writable, net_tcp_send_capacity. typed_auto. Qed.

Lemma stores_select fuel n r w t : stores (wrap_select fuel n r w t).
Proof.
  pose proof stores_readable. pose proof stores_writable. pose proof stores_wait_progress.
  assert (forall fuel fds r w acc, stores (select_scan fuel fds r w acc))
    by (induction fds; intros; cbn [select_scan]; unfold when_set, fd_get, fd_is_socket; typed_auto).
  assert (forall n r w d, stores (select_loop fuel n r w d))
    by (induction fuel; intros; cbn [select_loop]; typed_auto).
  unfold wrap_select. typed_auto.
Qed.

Lemma stores_poll_wrap fuel fds ms : stores (wrap_poll fuel fds ms).
Proof. pose proof stores_select. unfold wrap_poll. typed_auto. Qed.

Lemma stores_get_ip_info n w : stores (netif_get_ip_info n w).
Proof.
  unfold netif_get_ip_info, net_stack_get_ipv4, net_stack_get_gateway, net_stack_get_netmask.
  typed_auto.
Qed.

Lemma stores_netif_up n : stores (netif_is_netif_up n).
Proof. unfold netif_is_netif_up, net_stack_get_ipv4. typed_auto. Qed.

Lemma stores_pick_iface : stores pick_iface.
Proof. unfold pick_iface, net_stack_smoltcp_handle. typed_auto. Qed.

Lemma stores_getaddrinfo node service hints want :
  stores (wrap_getaddrinfo node service hints want).
Proof. pose proof stores_pick_iface. unfold wrap_getaddrinfo. typed_auto. Qed.

(** 63 bytes copied over a buffer of 64: the last one stays zero. *)
Lemma strncpy_typed d name :
  netdb_typed d -> netdb_typed (set_name_copy (strncpy (name_copy d) name 63) d).
Proof.
  intros [Hl H0]. unfold netdb_typed, strncpy. cbn [name_copy set_name_copy].
  set (bs := take 63 (NetdbWrap.bytes_of name)).
  assert (Hbs : (length bs <= 63)%nat) by (unfold bs; rewrite length_take; lia).
  split; [rewrite !length_app, length_replicate, length_drop; lia|].
  rewrite app_assoc, lookup_app_r; rewrite length_app, length_replicate; [|lia].
  replace (63 - (length bs + (63 - length bs)))%nat with 0%nat by lia.
  by rewrite lookup_drop.
Qed.

Lemma stores_freeaddrinfo res : stores (wrap_freeaddrinfo res).
Proof. unfold wrap_freeaddrinfo. typed_auto. Qed.

Lemma stores_gethostbyname name : stores (wrap_gethostbyname name).
Proof.
  pose proof stores_pick_iface. unfold wrap_gethostbyname. typed_auto.
  all: match goal with H : well_typed _ |- _ => destruct H end; split; cbn; try done.
  by apply strncpy_typed.
Qed.
End wrappers_io.

#[export] Hint Resolve stores_send stores_recv stores_sendto stores_recvfrom stores_close stores_shutdown
  stores_setsockopt stores_getsockopt stores_getsockname stores_fcntl stores_ioctl stores_read
  stores_write stores_select stores_poll_wrap stores_get_ip_info stores_netif_up
  stores_getaddrinfo stores_freeaddrinfo stores_gethostbyname : typed.

(** ** Every reachable state *)

Section reachable.
Context `{cfg : Config} `{!ConfigOk cfg} {E : Type} `{!Platform E, !SocketConsts}.

Lemma app_stores {A} (p : cprog A) : app (E := E) p -> preserves well_typed p.
Proof.
  induction 1; unfold net_stack_get_ipv4, net_stack_get_gateway, net_stack_get_netmask,
    net_tcp_is_active, net_tcp_is_connected, net_tcp_recv_queue, net_tcp_send_capacity; auto with typed.
  - exact I.
  - by apply typed_after.
Qed.

(** The state is typed and every task goes on storing typed states. *)
Definition typed_config (c : config) : Prop :=
  well_typed c.1 /\ Forall (fun t => preserves well_typed (code t)) c.2.

Lemma step_typed c c' : step c c' -> typed_config c -> typed_config c'.
Proof.
  intros Hs [Hg Hts].
  assert (Hcode : forall i t, c.2 !! i = Some t -> preserves well_typed (code t))
    by (intros i t Hi; exact (Forall_lookup_1 _ _ _ _ Hts Hi)).
  destruct Hs as [i g ts h k Hi|i g g' ts h k Hi|i g ts h X c k r Hi _
    |i g ts h m k Hi _|i g ts h m k Hi]; cbn [fst snd] in *; specialize (Hcode i _ Hi);
    split; cbn [fst snd]; try apply Forall_insert; try done; cbn [code] in *.
  all: by apply Hcode.
Qed.

(** C9. The state is well typed at all times. From the zeroed statics, in every
    interleaving of any tasks that run the system's functions, however their
    calls are answered, every array has its declared size; every counter is
    within its width; every frame buffer is whole and its length field fits it;
    every stored interface id, loopback receiver and listener pool size is in
    bounds; every queued loopback message records the length of its data; and
    the buffer of [gethostbyname] ends in a zero byte. *)
Theorem state_well_typed ts c :
  Forall (fun t => app (E := E) (code t)) ts -> rtc step (globals_zero, ts) c -> well_typed c.1.
Proof.
  intros Hts Hr. cut (typed_config c); [by intros []|].
  assert (H0 : typed_config (globals_zero, ts)).
  { split; [apply zero_typed|]. eapply Forall_impl; [exact Hts|]. intros t. apply app_stores. }
  clear Hts. induction Hr as [|c1 c2 c3 Hs _ IH]; [done|]. by apply IH, (step_typed c1).
Qed.
End reachable.

(** ** Witness *)

#[local] Existing Instance tiny.
#[local] Existing Instance lwip_consts.

(** A frame that comes in before the stack is up. *)
Definition early_input : cprog unit := eth_input_cb [1; 2; 3] 0 ≫= fun _ => mret tt.

Definition early : config * sim default_oracle := schedule [(0, 6)]%nat (globals_zero, [Task [] early_input], sim_start).

Lemma state_well_typed_witness :
  exists c, rtc step (globals_zero, [Task [] early_input]) c /\
    s_frame_alloc_fail (net c.1) = 1 /\ well_typed c.1.
Proof.
  assert (Hr : rtc step (globals_zero, [Task [] early_input]) early.1)
    by apply (schedule_steps _ (globals_zero, [Task [] early_input], sim_start)).
  exists early.1. split; [exact Hr|]. split; [vm_compute; reflexivity|].
  eapply (state_well_typed (E := sim default_oracle)); [|exact Hr].
  apply Forall_cons_2; [|constructor]. cbn [code]. apply (app_bind (E := sim default_oracle)).
  - apply app_eth_input.
  - intros r. apply app_ret.
Defined.
