(* ===== verification/Races.v ===== *)
(** * Races between socket calls

    [own] of [Ownership] holds of calls made one after the other. Two tasks that
    call [accept] on the same listener, or [close] on the same descriptor, break
    it: [accept] takes no lock between reading a slot of the pool and replacing
    it, and [fd_free] looks at the descriptor before it takes the table's mutex.
    The schedules run on the platform of [Closed], C and Rust code together. *)

From S2P Require Import Prelude Prog Types Platform Sim NetStack NetSock FdTable SockWrap.
From S2P Require Import CoreSpec Ownership OwnRuns Closed Tasks.
Import Closed.Whole.

#[local] Open Scope list_scope.

(** Bring-up, and a listener with two slots at 48. *)
Definition setup : list action :=
  [A_stack S_init; A_stack (S_attach 9 77); A_stack S_turn;
   A_bsd (C_socket AF_INET SOCK_STREAM); A_bsd (C_bind 48 (SockAddr AF_INET (htons 7) 0) 16);
   A_bsd (C_listen 48 2)].

Definition listening : globals * whole :=
  let r := default (Hands [] [], globals_zero, boot_env) (perform_all 2000 setup (Hands [] []) globals_zero boot_env) in
  (r.1.2, r.2).

Lemma listening_run :
  perform_all 2000 setup (Hands [] []) globals_zero boot_env = Some (Hands [] [], listening.1, listening.2).
Proof. by vm_compute. Qed.

Lemma listening_own : own (16777215 - total_cost setup) [] listening.1 listening.2.
Proof.
  apply (perform_all_holds 2000 setup 16777215 (Hands [] []) globals_zero boot_env (Hands [] []));
    [by apply own_boot|by vm_compute|done|done|apply listening_run].
Qed.

(** ** Two tasks in [accept] *)

Definition accepter : cprog unit := wrap_accept 10 48 None ≫= fun _ => mret tt.

(** The first task finds the connection in slot 0 and is preempted by the second,
    which runs to its end. *)
Definition accepters : config * whole :=
  schedule [(0, 11); (1, 1000); (0, 1000)]%nat
    (listening.1, [Task [] accepter; Task [] accepter], listening.2).

Lemma nodup_twice {A} (i j : nat) (x : A) l : l !! i = Some x -> l !! j = Some x -> i <> j -> ~ NoDup l.
Proof. intros Hi Hj Hne Hnd. by eapply Hne, NoDup_lookup. Qed.

(** C40. The accounting of sockets needs [accept] to be called by one task at a
    time. With a connection waiting at a listener there is an interleaving of two
    [accept] calls on it after which both have returned, two descriptors have the
    same core socket, and the socket with which the second task refilled the
    slot is open in the core and nobody's: the first task has overwritten it. *)
Theorem accept_races :
  own (16777215 - total_cost setup) [] listening.1 listening.2 /\
  exists g ts e s s',
    accepters = (g, ts, e) /\
    rtc step (listening.1, [Task [] accepter; Task [] accepter]) (g, ts) /\
    Forall finished ts /\
    fd_entry_of 49 g = Some 1%nat /\ fd_entry_of 50 g = Some 2%nat /\
    sock (entry_at 1 g) = s /\ sock (entry_at 2 g) = s /\ net_sock_valid s = true /\
    (forall room R, ~ own room R g e) /\
    (exists n m, core_socks e (handle_of 0 g) = Some (n, m) /\ m !! s' = Some KTcp) /\
    s' ∉ (Ownership.owned g).*1.
Proof.
  split; [apply listening_own|].
  exists accepters.1.1, accepters.1.2, accepters.2, 1, 3.
  split; [by rewrite <- !surjective_pairing|].
  split; [rewrite <- surjective_pairing;
    apply (schedule_steps _ (listening.1, [Task [] accepter; Task [] accepter], listening.2))|].
  split; [vm_compute; repeat constructor|]. do 5 (split; [by vm_compute|]). split; [|split].
  - intros room R [_ _ [_ Hnd] _]. rewrite fmap_app in Hnd. apply NoDup_app in Hnd as [Hnd _].
    revert Hnd. apply (nodup_twice 2 3 1); by vm_compute.
  - change (exists n m, closed_socks accepters.2 (handle_of 0 accepters.1.1) = Some (n, m) /\ m !! 3 = Some KTcp).
    assert (Hs : match closed_socks accepters.2 (handle_of 0 accepters.1.1) with
      | Some (_, m) => m !! 3 = Some KTcp | None => False end) by (by vm_compute).
    destruct (closed_socks _ _) as [[n m]|]; [|done]. by exists n, m.
  - by apply (bool_decide_unpack _); vm_compute.
Qed.

(** ** Two tasks in [close] *)

Definition closer : cprog unit := wrap_close 10 48 ≫= fun _ => mret tt.

(** The block a task is about to free. *)
Definition frees (t : task) : option ptr :=
  match code t with Call (Idf (Free p)) _ => Some p | _ => None end.

(** The second task has looked the descriptor up; the first runs to the free, and
    then to its end; the second goes on. *)
Definition closers (turns : list (nat * nat)) : config * whole :=
  schedule turns (listening.1, [Task [] closer; Task [] closer], listening.2).

Definition first_free : config * whole := closers [(1, 2); (0, 19)]%nat.

Definition second_free : config * whole := schedule [(0, 1000); (1, 17)]%nat first_free.

(** There is an interleaving of two [close] calls on one listening descriptor in
    which both free the block of its pool: the second looked the descriptor up
    before the first closed it, and [fd_free] neither looks again under the mutex
    nor forgets the pool. *)
Theorem close_frees_twice :
  exists c1 c2 t u p,
    rtc step (listening.1, [Task [] closer; Task [] closer]) c1 /\ rtc step c1 c2 /\
    c1.2 !! 0%nat = Some t /\ frees t = Some p /\ c2.2 !! 0%nat = Some (Task [] (mret tt)) /\
    c2.2 !! 1%nat = Some u /\ frees u = Some p /\ p <> NULL.
Proof.
  exists first_free.1, second_free.1, (first_free.1.2 !!! 0%nat), (second_free.1.2 !!! 1%nat),
    (pool (entry_at 0 listening.1)).
  split; [apply (schedule_steps _ (listening.1, [Task [] closer; Task [] closer], listening.2))|].
  split; [apply schedule_steps|].
  split; [apply list_lookup_lookup_total_lt; vm_compute; repeat constructor|]. split; [by vm_compute|].
  split; [by vm_compute|]. split; [apply list_lookup_lookup_total_lt; vm_compute; repeat constructor|].
  split; [by vm_compute|]. by vm_compute.
Qed.
