(* ===== verification/Isolation.v ===== *)
(** * A call changes only its own descriptor

    The state of a descriptor is changed by the calls that are given it, and by no
    other: not by calls on other descriptors, by those that open one, by native
    calls, nor by the stack. [stays] is the invariant of one entry; what a
    function stores is read off its program with [preserves]. *)

From S2P Require Import Prelude Prog Ipv4 Types Platform Sim FramePool L2Tap NetStack NetSock Loopback FdTable SockWrap.
From S2P Require Import SelectWrap NetdbWrap NetifShim Ntp Core CoreSpec Ownership OwnRuns OffTable Closed Tasks Races.
Import Closed.Whole.

#[local] Open Scope list_scope.

(** The descriptor whose entry a call may change. Sending, receiving and waiting
    change none. *)
Definition target (c : bsd_call) : option Z :=
  match c with
  | C_bind fd _ _ | C_listen fd _ | C_accept fd _ | C_connect fd _ _ | C_close fd | C_shutdown fd
  | C_setsockopt fd _ _ _ _ | C_fcntl fd _ _ | C_ioctl fd _ _ => Some fd
  | _ => None
  end.

Definition names (fd : Z) (a : action) : Prop :=
  match a with A_bsd c => target c = Some fd | _ => False end.

Section stays.
Context `{cfg : Config} `{!SocketConsts}.
Context (fd : Z) (x : fd_entry).
Implicit Types (g : globals).

(** The descriptor [fd] is open and its entry is [x]; the table is initialised. *)
Record stays g : Prop := {
  st_entry : entry_at (fd_index fd) g = x;
  st_open : kind x <> FD_FREE;
  st_range : fd_in_range fd = true;
  st_lock : fd_s_lock (fdt g) = true;
}.

Lemma stays_fdt f g : fdt (f g) = fdt g -> stays g -> stays (f g).
Proof. intros Hf [H1 H2 H3 H4]. unfold entry_at in H1. split; unfold entry_at; by rewrite ?Hf. Qed.

Lemma stays_entry i f g : i <> fd_index fd -> stays g -> stays (upd_entry i f g).
Proof. intros Hi [H1 H2 H3 H4]. split; [by rewrite entry_at_upd_ne|done..]. Qed.

(** A call on another descriptor works on another entry. *)
Lemma other_entry fd' i g : stays g -> fd' <> fd -> fd_entry_of fd' g = Some i -> i <> fd_index fd.
Proof.
  unfold fd_entry_of. intros [_ _ Hr _] Hne. case_match eqn:Hb; [|done]. intros [= <-].
  unfold fd_in_range, fd_index in *. zify_bools. lia.
Qed.

(** A result of [fd_alloc]. *)
Definition other (r : Z) : Prop := 0 <= r -> fd_index r <> fd_index fd.

Lemma other_ne r : other r -> (r <? 0) = false -> fd_index r <> fd_index fd.
Proof. intros Ho Hr. zify_bools. by apply Ho. Qed.

Lemma other_found r i g :
  other r -> (r <? 0) = false -> fd_entry_of r g = Some i -> i <> fd_index fd.
Proof.
  intros Ho Hr. unfold fd_entry_of. case_match; [|done]. intros [= <-]. by apply other_ne.
Qed.

(** A free entry is another one. *)
Lemma free_entry i g :
  stays g -> fst <$> list_find (fun en => kind en = FD_FREE) (s_table (fdt g)) = Some i -> i <> fd_index fd.
Proof.
  intros [H1 H2 _ _] ([k en] & Hf & ->)%fmap_Some Heq. apply list_find_Some in Hf as (Hi & Hk & _).
  apply H2. rewrite <- H1. unfold entry_at. rewrite <- Heq. cbn in Hi |- *. by rewrite (list_lookup_total_correct _ _ _ Hi).
Qed.
End stays.

#[local] Hint Extern 2 (stays _ _ (_ _)) => by apply stays_fdt : typed.
#[local] Hint Resolve stays_entry : typed.
#[local] Hint Extern 1 (_ <> fd_index _) => eapply other_entry; [| |eassumption]; [eassumption|congruence] : typed.
#[local] Hint Extern 1 (fd_index _ <> fd_index _) => eapply other_ne; eassumption : typed.
#[local] Hint Extern 1 (_ <> fd_index _) => eapply other_found; eassumption : typed.
#[local] Hint Extern 1 (_ <> fd_index _) => eapply free_entry; [|eassumption]; eassumption : typed.

#[export] Instance stays_elsewhere `{Config} `{!SocketConsts} fd x : Elsewhere (stays fd x).
Proof. intros f g Hf _. by apply stays_fdt. Qed.

(** ** The functions *)

Section other_calls.
Context `{cfg : Config} {E : Type} `{!Platform E, !SocketConsts}.
Context (fd : Z) (x : fd_entry).
Abbreviation calm p := (preserves (stays fd x) p).

(** A new descriptor is another one. *)
Lemma typed_fd_alloc k : typed (stays fd x) (other fd) (fd_alloc k).
Proof.
  unfold fd_alloc. apply typed_gets. intros g Hg. rewrite (st_lock _ _ _ Hg). off_table.
  - intros _. rewrite fd_index_off. eauto with typed.
  - by intros ?.
Qed.

#[local] Hint Resolve typed_fd_alloc : typed.

Lemma calm_arm_pool i js : i <> fd_index fd -> calm (arm_pool i js).
Proof. intros. induction js; cbn [arm_pool]; off_table. Qed.

Lemma calm_accept_scan i js n : i <> fd_index fd -> calm (accept_scan i js n).
Proof. intros. induction js; cbn [accept_scan]; off_table. Qed.

#[local] Hint Resolve calm_arm_pool calm_accept_scan : typed.

Lemma calm_accept_loop fuel i t n : i <> fd_index fd -> calm (accept_loop fuel i t n).
Proof. intros. induction fuel; cbn [accept_loop]; off_table. Qed.

#[local] Hint Resolve calm_accept_loop : typed.

Lemma calm_bsd fuel c : target c <> Some fd -> calm (bsd_prog fuel c).
Proof.
  intros Hne. destruct (only_io c) eqn:Hc; [apply calm_io; [apply _|done]|].
  destruct c; try discriminate Hc; cbn [bsd_prog target] in *; off_table.
Qed.
End other_calls.

(** ** Runs *)

Section runs.
Context `{cfg : Config} {E : Type} `{!Platform E, !SocketConsts}.
Implicit Types (g : globals) (e : E).

Lemma perform_stays fd x fuel a h g e h' g' e' :
  ~ names fd a -> stays fd x g -> perform fuel a h g e = Some (h', g', e') -> stays fd x g'.
Proof.
  intros Hn Hs Hp. destruct a as [c| | | | | |]; [|by eapply (perform_elsewhere (stays fd x)) in Hp..].
  eapply run_then_keeps, Hp; [by apply calm_bsd|done].
Qed.

Lemma perform_all_stays fd x fuel xs h g e h' g' e' :
  Forall (fun a => ~ names fd a) xs -> stays fd x g ->
  perform_all fuel xs h g e = Some (h', g', e') -> stays fd x g'.
Proof.
  intros Hxs. revert h g e. induction Hxs as [|a xs Ha Hxs IH]; intros h g e Hs; cbn [perform_all].
  { by intros [= <- <- <-]. }
  destruct (perform fuel a h g e) as [[[h1 g1] e1]|] eqn:Hp; [|done]. cbn [mbind option_bind].
  by eapply IH, perform_stays.
Qed.

(** C10. An open descriptor is changed only by calls that are given it. Take any
    sequence of BSD calls, native socket calls, turns of the poll task, driver
    callbacks and queries in which no call that may change a descriptor ([bind],
    [listen], [accept], [connect], [close], [shutdown], [setsockopt], [fcntl],
    [ioctl]) is given [fd]: afterwards [fd] is open at the same place of the
    table, and its entry is the same in every field. *)
Theorem descriptors_isolated fuel xs fd i h g e h' g' e' :
  fd_entry_of fd g = Some i -> fd_s_lock (fdt g) = true -> Forall (fun a => ~ names fd a) xs ->
  perform_all fuel xs h g e = Some (h', g', e') ->
  fd_entry_of fd g' = Some i /\ entry_at i g' = entry_at i g.
Proof.
  intros Hfd Hl Hxs Hp. set (x := entry_at i g).
  assert (Hs : stays fd x g).
  { unfold fd_entry_of in Hfd. case_match; [|done]. injection Hfd as <-. zify_bools.
    case_bool_decide; [done|]. by split. }
  enough (Hs' : stays fd x g').
  { destruct Hs' as [Hx Hk Hr _]. unfold fd_entry_of in *. case_match; [|done].
    injection Hfd as <-. by rewrite Hr, Hx, bool_decide_eq_false_2. }
  by eapply perform_all_stays.
Qed.
End runs.

(** ** Witness: a listener, while another descriptor is used *)

Definition meanwhile : list action :=
  [A_bsd (C_socket AF_INET SOCK_DGRAM); A_bsd (C_bind 49 (SockAddr AF_INET (htons 9) (16777216 + 127)) 16);
   A_bsd (C_sendto 49 [1; 2; 3] (SockAddr AF_INET (htons 9) (16777216 + 127)) 16); A_stack S_turn;
   A_bsd (C_recvfrom 49 10 None); A_bsd (C_select 64 (Some {[48]}) None (Some (0, 0)));
   A_bsd (C_close 49); A_bsd (C_send 48 [1])].

Lemma descriptors_isolated_witness :
  exists h g e, perform_all 2000 meanwhile (Hands [] []) listening.1 listening.2 = Some (h, g, e) /\
    fd_entry_of 48 g = Some 0%nat /\ entry_at 0 g = entry_at 0 listening.1.
Proof.
  pose (y := default (Hands [] [], globals_zero, boot_env)
               (perform_all 2000 meanwhile (Hands [] []) listening.1 listening.2)).
  assert (Hrun : perform_all 2000 meanwhile (Hands [] []) listening.1 listening.2 = Some (y.1.1, y.1.2, y.2))
    by (vm_compute; reflexivity).
  clearbody y. exists y.1.1, y.1.2, y.2. split; [exact Hrun|].
  apply (descriptors_isolated 2000 meanwhile 48 0 (Hands [] []) listening.1 listening.2 _ _ _) in Hrun;
    [exact Hrun|vm_compute; reflexivity|vm_compute; reflexivity|].
  repeat constructor; cbn; congruence.
Defined.
