(* ===== verification/Steady.v ===== *)
(** * Asking the core changes none of its answers

    [select_exact] and [poll_exact] suppose that a scan leaves the answers it
    asks for ([asking_keeps]). Here that is shown of the core itself: on the
    platform of [Closed] the queries of a TCP socket leave every socket of every
    interface. The two theorems are then applied to descriptors that the C code
    opened there. *)

From S2P Require Import Prelude Prog Types Platform Sim NetStack NetSock FdTable SelectWrap Poll.
From S2P Require Import Device Core CoreSpec Ownership OwnRuns Closed Races.

#[local] Open Scope list_scope.

Section steady.
Context `{SmoltcpLaws} `{cfg : Config, !SocketConsts}.
Context (o : oracle) (now rand : Z) (res : string -> Z -> Z -> iface_ctx -> option ((Z * Z) * iface_ctx)).
Context (Hres : resolver_keeps res).
Implicit Types (e : closed) (g : globals).

#[local] Instance the_platform : Platform closed := closed_platform o now rand res.

(** ** The queues of the platform *)

Lemma closed_sim {X} (c : ccall X) e : is_core c = false ->
  ext X c e = ((ext (E := sim o) X c (cl_sim e)).1, ClosedState (ext (E := sim o) X c (cl_sim e)).2 (cl_core e)).
Proof. intros Hc. destruct c; try done;
  cbn [ext the_platform closed_platform closed_ext sim_platform]; by destruct (sim_ext o _ _ _). Qed.

#[export] Instance closed_queue_laws : QueueLaws closed.
Proof.
  refine {| qview e := sim_queues (cl_sim e) |}.
  - intros [s w] q v t c l Hq Hl. cbn in Hq. destruct (@q_send (sim o) _ (sim_queue_laws o) s q v t c l Hq Hl) as (s' & Hs & Hv).
    exists (ClosedState s' w). rewrite closed_sim by done. cbn [cl_sim]. by rewrite Hs.
  - intros [s w] q v c l Hq Hl. cbn in Hq. destruct (@q_send_full (sim o) _ (sim_queue_laws o) s q v c l Hq Hl) as (s' & Hs & Hv).
    exists (ClosedState s' w). rewrite closed_sim by done. cbn [cl_sim]. by rewrite Hs.
  - intros [s w] q t c v l Hq. destruct (@q_recv (sim o) _ (sim_queue_laws o) s q t c v l Hq) as (s' & Hs & Hv).
    exists (ClosedState s' w). rewrite closed_sim by done. cbn [cl_sim]. by rewrite Hs.
  - intros [s w] q c Hq. destruct (@q_recv_empty (sim o) _ (sim_queue_laws o) s q c Hq) as (s' & Hs & Hv).
    exists (ClosedState s' w). rewrite closed_sim by done. cbn [cl_sim]. by rewrite Hs.
  - intros [s w] n. destruct (@q_create (sim o) _ (sim_queue_laws o) s n) as (q & s' & Hs & Hv).
    exists q, (ClosedState s' w). rewrite closed_sim by done. cbn [cl_sim]. by rewrite Hs.
  - intros [s w] q. destruct (@q_delete (sim o) _ (sim_queue_laws o) s q) as (s' & Hs & Hv).
    exists (ClosedState s' w). rewrite closed_sim by done. cbn [cl_sim]. by rewrite Hs.
  - intros [s w] q c l Hq. rewrite closed_sim by done.
    by eapply (@q_waiting (sim o) _ (sim_queue_laws o)).
  - intros X c [s w] Hop Hrun. destruct (is_core c) eqn:Hc.
    + destruct c as [c|c|c]; try done. cbn. by destruct (w ≫= _) as [[]|].
    + rewrite closed_sim by done. by apply (@q_frame (sim o) _ (sim_queue_laws o)).
Defined.

(** ** What the core answers about a socket *)

(** The sockets of an interface. *)
Definition live_at e (h : ptr) : option (gmap Z any_socket) := w ← cl_core e; c ← w !! h; Some (live c).

(** No socket of another type has the id. *)
Definition tcp_or_none e (h : ptr) (id : Z) : Prop :=
  exists m, live_at e h = Some m /\ forall s, m !! id = Some s -> kind_of s = KTcp.

(** The queries of a TCP socket, with what they find. *)
Inductive query : forall X, core_call X -> ptr -> Z -> X -> (TcpSocket -> X) -> Prop :=
  | query_connected h id :
      query bool (Smoltcp_tcp_is_connected h id) h id false (fun s => tcp_may_recv s || tcp_may_send s)
  | query_queued h id : query Z (Smoltcp_tcp_recv_queue h id) h id 0 tcp_recv_queue
  | query_capacity h id :
      query Z (Smoltcp_tcp_send_capacity h id) h id 0
        (fun s => if tcp_can_send s then Z.max 0 (tcp_send_capacity s - tcp_send_queue s) else 0).

Definition found {X} (none : X) (f : TcpSocket -> X) (s : option any_socket) : X :=
  match s with Some (AnyTcp t) => f t | _ => none end.

(** A query finds what the socket says, and leaves every socket. *)
Lemma query_finds X (c : core_call X) h id none f e :
  query X c h id none f -> h <> NULL -> closed_inv e -> tcp_or_none e h id ->
  let e' := (ext _ (Core c) e).2 in
  (ext _ (Core c) e).1 = found none f (live_at e h ≫= (.!! id)) /\ closed_inv e' /\
  forall h', live_at e' h' = live_at e h'.
Proof.
  intros Hq Hn Hinv (m & Hm & Hk). unfold live_at in *. destruct e as [s [w|]]; [|done]. cbn in Hinv, Hm.
  destruct (w !! h) as [x|] eqn:Hx; [|done]. cbn in Hm. injection Hm as <-.
  pose proof (core_meets now rand res c h w x (proj1 Hres) ltac:(by destruct Hq) Hn Hx (Hinv _ _ Hx)
    ltac:(by destruct Hq)) as Hm.
  assert (Hp : ~ panics c (live x)).
  { destruct Hq; intros (t & Ht & Hne); by apply Hne, Hk. }
  assert (Hat : forall r m', socket_spec c (next_id (ids x)) (live x) r m' ->
    at_tcp none id (fun s => (f s, s)) (live x) r m') by (destruct Hq; done).
  cbn [ext the_platform closed_platform closed_ext cl_core cl_sim]. cbn [mbind option_bind].
  destruct (core_answer now rand res c w) as [[r w']|]; [|done].
  destruct Hm as (_ & x' & -> & Hok & Hspec%Hat & _). cbn [fst snd cl_core mbind option_bind].
  rewrite Hx. cbn [mbind option_bind]. unfold at_tcp in Hspec.
  assert (Hsame : r = found none f (live x !! id) /\ live x' = live x).
  { unfold found. destruct (live x !! id) as [[t|t|t]|] eqn:Ht; try done. destruct Hspec as [-> ->].
    by rewrite insert_id. }
  destruct Hsame as [-> Hl]. split_and!; [done|by apply map_Forall_insert_2|]. intros h'.
  destruct (decide (h' = h)) as [->|Hne]; [by rewrite lookup_insert_eq, Hx; cbn; rewrite Hl|].
  by rewrite lookup_insert_ne.
Qed.

(** ** A scan *)

Context (g : globals) (asks : Z -> Prop).

(** The core has not panicked, and what is asked about is TCP sockets. *)
Definition asks_tcp e : Prop :=
  closed_inv e /\ forall s, asks s -> handle_of (IFACE s) g <> NULL -> tcp_or_none e (handle_of (IFACE s) g) (LOCAL s).

(** An environment with the same sockets in the core. *)
Lemma same_live e e' : asks_tcp e -> closed_inv e' -> (forall h, live_at e' h = live_at e h) ->
  asks_tcp e' /\ same_answers asks g e e'.
Proof.
  intros [Hinv Hk] Hinv' Hl.
  assert (Hk' : asks_tcp e').
  { split; [done|]. intros s Hs Hn. destruct (Hk s Hs Hn) as (m & Hm & Hx). exists m. by rewrite Hl. }
  split; [done|]. intros s Hs Hn h. specialize (Hk s Hs Hn). pose proof (proj2 Hk' s Hs Hn) as Hk2.
  assert (Heq : forall X (c : core_call X) none f, query X c h (LOCAL s) none f ->
    (ext _ (Core c) e').1 = (ext _ (Core c) e).1).
  { intros X c none f Hq. destruct (query_finds _ _ _ _ _ _ e' Hq Hn Hinv' Hk2) as [-> _].
    destruct (query_finds _ _ _ _ _ _ e Hq Hn Hinv Hk) as [-> _]. by rewrite Hl. }
  split_and!; (eapply Heq; constructor).
Qed.

(** The hypothesis of [select_exact] and [poll_exact] holds of the core. *)
Lemma closed_asking_keeps : asking_keeps asks g asks_tcp.
Proof.
  assert (Hother : forall X (c : ccall X) e, is_core c = false -> asks_tcp e ->
    asks_tcp (ext _ c e).2 /\ same_answers asks g e (ext _ c e).2).
  { intros X c e Hc HP. rewrite closed_sim by done. by apply same_live; [|apply HP|]. }
  assert (Hcore : forall X (c : core_call X) s none f e, query X c (handle_of (IFACE s) g) (LOCAL s) none f ->
    asks s -> handle_of (IFACE s) g <> NULL -> asks_tcp e ->
    asks_tcp (ext _ (Core c) e).2 /\ same_answers asks g e (ext _ (Core c) e).2).
  { intros X c s none f e Hq Hs Hn HP.
    destruct (query_finds _ _ _ _ _ _ e Hq Hn ltac:(apply HP) ltac:(by apply HP)) as (_ & Hinv & Hl).
    by apply same_live. }
  split; [|by intros e HP; apply Hother].
  intros X c e Hc HP. destruct Hc; try (by apply Hother); (eapply Hcore; [constructor|done..]).
Qed.

End steady.

(** ** A listener to wait for *)

Import Whole.

#[local] Existing Instance closed_queue_laws.

(** The listener of [Races], of two sockets, is descriptor 48; 49 is a new TCP
    descriptor that nobody has connected. *)
Definition script49 : list action := setup ++ [A_bsd (C_socket AF_INET SOCK_STREAM)].

Definition two_open : globals * whole :=
  let r := default (Hands [] [], globals_zero, boot_env)
             (perform_all 2000 script49 (Hands [] []) globals_zero boot_env) in
  (r.1.2, r.2).

Lemma two_open_inv : closed_inv two_open.2.
Proof.
  assert (Ho : own (16777215 - total_cost script49) [] two_open.1 two_open.2).
  { apply (perform_all_holds 2000 script49 16777215 (Hands [] []) globals_zero boot_env (Hands [] []));
      [by apply own_boot|by vm_compute|done|done|by vm_compute]. }
  revert Ho. generalize two_open. intros [g e] [_ _ [[Hinv _ _ _ _] _] _]. exact Hinv.
Qed.

Definition tcp_or_noneb (e : whole) (h : ptr) (id : Z) : bool :=
  match live_at e h with
  | Some m => match m !! id with Some s => bool_decide (kind_of s = KTcp) | None => true end
  | None => false
  end.

Lemma tcp_or_noneb_ok e h id : tcp_or_noneb e h id = true -> tcp_or_none e h id.
Proof.
  unfold tcp_or_noneb, tcp_or_none. destruct (live_at e h) as [m|]; [|done]. intros Hm. exists m.
  split; [done|]. intros s Hs. rewrite Hs in Hm. by apply bool_decide_eq_true in Hm.
Qed.

(** The sockets of both descriptors are TCP sockets of the core. *)
Lemma two_open_asks (fds : gset Z) :
  (forall fd, fd ∈ fds -> fd = 48 \/ fd = 49) -> asks_tcp two_open.1 (asked_by two_open.1 fds) two_open.2.
Proof.
  intros Hfds. split; [apply two_open_inv|]. intros s (fd & i & Hin & Hi & Hs) _.
  assert (Hs' : s ∈ [1; 2; 0]).
  { destruct (Hfds fd Hin) as [-> | ->]; vm_compute in Hi; injection Hi as <-; vm_compute in Hs; set_solver. }
  apply tcp_or_noneb_ok. clear -Hs'.
  repeat (apply elem_of_cons in Hs' as [->|Hs']; [by vm_compute|]). by apply not_elem_of_nil in Hs'.
Qed.

Lemma two_open_probes (fds : gset Z) :
  (forall fd, fd ∈ fds -> fd = 48 \/ fd = 49) -> rd_probes_ok fds two_open.1 two_open.2.
Proof.
  intros Hfds fd i Hin Hi. destruct (Hfds fd Hin) as [-> | ->]; vm_compute in Hi; injection Hi as <-; split;
    by vm_compute.
Qed.

Lemma whole_queues_stay : queues_stay (E := whole).
Proof. intros e t q Hq. exact Hq. Qed.

(** The tick counter is the number of calls made of the operating system. *)
Definition ticks_left (d : Z) (e : whole) : nat := Z.to_nat (d - Z.of_nat (length (sim_hist (cl_sim e)))).

Lemma whole_clock d : clock_reaches d (ticks_left d).
Proof.
  destruct (sim_clock_reaches d) as [Hmono Htick]. split.
  - intros X c e. destruct (is_core c) eqn:Hc.
    + destruct c as [c|c|c]; try done. cbn [ext platform closed_platform closed_ext].
      by destruct (cl_core e ≫= _) as [[]|].
    + assert (Heq : cl_sim (ext X c e).2 = (ext (E := sim default_oracle) X c (cl_sim e)).2)
        by exact (f_equal (fun r => cl_sim r.2) (closed_sim default_oracle 0 7 resolver c e Hc)).
      unfold ticks_left. rewrite Heq. apply Hmono.
  - intros e. apply (Htick (cl_sim e)).
Qed.

Lemma answer_is {A} (x : option (A * globals * whole)) r r0 g g0 e :
  x = Some (r, g, e) -> fst <$> x = Some (r0, g0) -> r = r0.
Proof. intros -> Hr. cbn in Hr. congruence. Qed.


(** Nothing is to be had of the new descriptor: the call lasts to its deadline. *)
Lemma poll_exact_witness :
  exists e', let fds := [PollFd 49 true true] in
    run ext (wrap_poll 3000 fds 10) two_open.1 two_open.2 = Some (0, [(false, false)], two_open.1, e') /\
    waits (flags_at fds two_open.1) (fun r => negb (r.1 =? 0)) (0, [(false, false)])
      (scans (asked_by two_open.1 (poll_set pf_in fds ∪ poll_set pf_out fds)) two_open.1)
      (u32 ((ext _ (Rtos XTaskGetTickCount) two_open.2).1 + 10))
      (ext _ (Rtos XTaskGetTickCount) two_open.2).2 (0, [(false, false)]) e'.
Proof.
  assert (Hin : forall f fd, fd ∈ poll_set f [PollFd 49 true true] -> fd = 48 \/ fd = 49)
    by (intros f fd (p & [->|[]%elem_of_nil]%elem_of_cons & <- & _)%poll_set_inv; by right).
  destruct (poll_exact (asks_tcp two_open.1 (asked_by two_open.1 (poll_set pf_in [PollFd 49 true true] ∪
      poll_set pf_out [PollFd 49 true true])))
    3000 [PollFd 49 true true] 10
    (ticks_left (u32 ((ext _ (Rtos XTaskGetTickCount) two_open.2).1 + 10))) two_open.1 two_open.2) as (r & e' & Hrun & Hw).
  - split; [apply NoDup_singleton|]. intros p [->|[]%elem_of_nil]%elem_of_cons. by vm_compute.
  - lia.
  - vm_compute. discriminate.
  - apply closed_asking_keeps, resolver_whole.
  - apply two_open_asks. set_solver.
  - apply whole_queues_stay.
  - apply two_open_probes, Hin.
  - apply whole_clock.
  - vm_compute. lia.
  - assert (Hr : fst <$> run ext (wrap_poll 3000 [PollFd 49 true true] 10) two_open.1 two_open.2
      = Some (0, [(false, false)], two_open.1)) by (by vm_compute).
    pose proof (answer_is _ _ _ _ _ _ Hrun Hr) as ->. exists e'. split; [exact Hrun|exact Hw].
Defined.
